(* ===== verification/_CoqProject ===== *)
-Q . S2P
Prelude.v
Ids.v
GoValues.v
Document.v
Cursor.v
FieldCursor.v
Collector.v
Scan.v
Holder.v
Index.v
IndexSpec.v
IndexProofs.v
IndexInstances.v
Parsers.v
Utf8.v
DefaultHolder.v
RangeParser.v
RangeIdx.v
RangeHolder.v
OptimizedRange.v
Util.v
AhoHolder.v
GeoHash.v
HolderSum.v
Builder.v
BuilderSpec.v
BuilderProofs.v
BuilderDocs.v
BuilderFields.v
Semantics.v
System.v
DefaultIndex.v
Roaring.v
RoaringProofs.v
RoaringBuilder.v
RoaringAc.v
Demo.v
Properties.v
ComponentProperties.v
RoaringProperties.v
RangeProperties.v
OptimizedProperties.v
AhoProperties.v
SystemProperties.v
Rebuild.v
Targeting.v
Examples.v
Engines.v
Dump.v
DumpProperties.v
Benchmark.v
Usage.v
