(* ===== verification/Prelude.v ===== *)
(** * A verification development for be_indexer

    be_indexer is a Go library that indexes boolean expressions.  A document is a
    disjunction of conjunctions; a conjunction constrains fields by expressions
    that include or exclude values; a query assigns values to fields, and is
    answered with the documents that have a satisfied conjunction.  The library
    has two inverted indexes with posting lists (k-groups and compact), built by
    one builder, and a separate index on roaring bitmaps.  How a field's values are
    compared is up to its holder (in the first two) or container (in the third):
    equal tokens, integer ranges, keywords in a text.  This library models
    them as executable Rocq functions and proves that what they answer is the
    meaning of the documents.

    ** The program and its model

    A Go function that may fail or panic returns a [res]; a method that changes
    its receiver is a computation of the state monad [M] (this file).  Integers
    are [Z] with the wrap-around of uint64 and int64 written out ([u64], [i64]).
    Ranging over a Go map visits the entries in an unspecified order: the class
    [MapRange] gives the order, and the theorems hold for every instance.  Go
    pointers to holders are addresses in the index (see Index.v), so that the
    phases of the builder act on the same objects.

    - Prelude.v: outcomes, the state monad with its weakest preconditions,
      machine integers, map iteration, sorting (util/math_helper.go,
      util/condition_panic.go), shared tactics and hint databases.
    - Ids.v (id_types.go): document, conjunction and entry ids and their bits.
    - GoValues.v: dynamically typed values, strconv and fmt for integers, FNV
      hashing (util/type_util.go, util/slice_util.go).
    - Document.v (boolean_expr.go, document.go): expressions, conjunctions,
      documents, and their meaning on a query ([conj_sat], [doc_sat]), the
      abstract specification of the whole system.
    - Cursor.v, FieldCursor.v (index_scanner.go): cursors on posting lists, and
      on the posting lists of one field.
    - Collector.v (result_collector.go, the pool of be_indexer.go).
    - Scan.v: the scanning loops (retrieveK of be_indexer_kgroups.go, the loop of
      RetrieveWithCollector in be_indexer_compact.go).
    - Holder.v (entries_holder.go, entries_holder_factory.go): the interface
      [EntriesHolder] and its contract [HolderSpec].
    - Index.v (be_indexer.go, be_indexer_kgroups.go, be_indexer_compact.go):
      containers and the two indexes behind the interface [BEIndex].
      IndexSpec.v states their contract [BEIndexSpec] over the list of committed
      transactions; IndexProofs.v and IndexInstances.v discharge it.
    - Parsers.v (package parser): tokenizers, the number, string-hash and common
      parsers, id allocators.
    - DefaultHolder.v (entries_holder.go): the default holder, an instance of
      [HolderSpec].
    - RangeParser.v (parser/range_parser.go): range descriptions.  RangeIdx.v and
      RangeHolder.v (holder/rangeholder/term_ext_range_holder.go): the range index,
      a list of half-open ranges that partition the integers, and the holder over
      it, an instance of [HolderSpec].  OptimizedRange.v
      (optimized_range_holder.go): coordinate compression and the segment tree.
    - Utf8.v: Go's conversions between strings and runes.  AhoHolder.v (package
      ahoholder): the keyword holder, an instance of [HolderSpec].
    - GeoHash.v (parser/geohash_parser.go): regions and coordinates as tokens of
      the default holder.
    - HolderSum.v: registries that mix kinds of holders; the sum of two contracts.
    - Builder.v (index_builder.go, doc_idx_cache.go): fields, two-phase document
      indexing, document cache, options, reset.  BuilderSpec.v relates a builder
      to the log of its accepted conjunctions ([binv]); BuilderProofs.v and
      BuilderDocs.v prove that every operation preserves it.
    - Semantics.v: the transactions of the log express the meaning of its
      conjunctions.  System.v: the builder as a transition system ([reachable])
      and the index it builds.
    - Roaring.v (package roaringidx): ids, bitmap pool, default container,
      builder, scanner; RoaringProofs.v and RoaringBuilder.v its correctness.
      RoaringAc.v (roaringidx/be_container_ac.go, be_container_factory.go): the
      keyword container and the registry of containers.
    - Util.v (util/math_helper.go, util/slice_util.go, util/type_util.go,
      logger.go): integer helpers at every width, RunesToBytes, casts, log levels.
    - BuilderFields.v: which fields AddDocument configures by itself.
      DefaultIndex.v: the general theorems for the registry that has only the
      default holder, where an expression is met when it shares a token with the
      query ([token_hit]).
    - Dump.v: String functions and dumps of ids, cursors, documents, holders and
      indexes (id_types.go, index_scanner.go, document.go, boolean_expr.go, the
      holder packages, be_indexer.go).
    - Targeting.v (example/be_indexer_bench, example/kgroups_indexer,
      example/compacted_indexer), Benchmark.v (example/indexer_benchmark),
      Examples.v (example/repeat_fields_test, example/indexing_json_doc,
      example/incremental_indexer), Usage.v (example/geohash_exmaple,
      example/be_indexer_usage, example/roaringidx_usage): the programs that come
      with the library, as functions of what they draw or read.
    - Demo.v: instances of the parameters and a sample system that evaluates.
    - Properties.v, ComponentProperties.v, RoaringProperties.v, RangeProperties.v,
      OptimizedProperties.v, AhoProperties.v, SystemProperties.v, DumpProperties.v:
      the theorems on one component or one index.  Rebuild.v: building again.
      Engines.v: the posting-list indexes against the roaring index.

    ** What the theorems show

    Properties.v, for every holder, cache, bitmap and map order that keep their
    promises: retrieval answers exactly the satisfied documents
    ([retrieval_exact], with skipped conjunctions [retrieval_skip]), terminates
    without error on readable queries ([retrieval_total]) and does not depend on
    the index type ([index_types_agree]); which documents are accepted
    ([add_document_iff], judged before they are added), that accepted ones are served
    ([admissible_served]) and refused ones leave no trace ([add_document_atomic]); the invariant behind it
    ([builder_invariant]); a document cache changes nothing when
    data can be encoded and decoded ([cache_transparent], [cache_roundtrip]; otherwise
    [cache_loses_unencodable]); reset and field configuration.

    ComponentProperties.v: the layout and order of ids, conjunction sizes,
    SkipTo against the linear scan, the sort, the two scanning loops, the default
    holder against its contract, parsers and allocators, and the error paths
    ([document_size_error], [kgroups_array_panics], [common_parser_nil_panics],
    [schema_hash_order_dependent]).

    RoaringProperties.v: ids, exactness of the roaring index and of its hints (for
    every container that keeps [BEContainerSpec]; the sample uses the registry of
    the package), and two limits of its builder ([roaring_add_not_atomic],
    [roaring_late_field_hides]).

    RangeProperties.v: the range index finds exactly the ranges over a value, of those
    that do not start below its minimum ([range_index_exact]); the range holder keeps
    its contract ([range_holder_refines]) and does not go wrong, compiled or not
    ([range_holder_safe]); what range expressions mean ([range_expr_meaning]) up to the answer of an index over
    default and range fields ([range_field_retrieval]); the ends of int64
    ([gt_max_wraps]), the document cache ([range_cache_loses_range]) and the range
    parser ([range_parser_values]).

    OptimizedProperties.v: the segment tree is exact ([segment_tree_exact]), and yet
    the optimized holder answers for the next coordinate above a query value
    ([optimized_next_coordinate]), which is not what the range holder answers
    ([optimized_range_wrong]).

    AhoProperties.v: the keyword holder and container against their contracts
    ([aho_holder_refines], [ac_container_exact]), where they differ
    ([malformed_keyword]), and when a coordinate meets a region
    ([geohash_match]).  SystemProperties.v: all three holder packages in one index
    ([keyword_field_retrieval]).

    Rebuild.v: with holders that can be compiled again (the default and the keyword
    holder; [RecompileSpec]), builds may come between documents, and the last one is
    exact ([rebuild_exact]); an index handed out earlier is the same object and misses
    later documents until then ([stale_index]), and ranges are lost
    ([rebuild_loses_ranges]).  Engines.v: on integers the roaring index and the
    posting-list indexes answer alike ([engines_agree]).

    Targeting.v: the benchmark's indexes agree with its brute-force matcher on every
    query, whatever is drawn ([bench_agrees], [QueryTest_counts]).  Examples.v: builders
    that share a document cache give equal indexes ([incremental_agree]), although the
    cache is cleared before it could be used ([config_clears_shared_cache]) and can be
    taken for valid too early ([stale_schema_hash]).  Benchmark.v: test data stays in
    bounds ([benchmark_data_ok]).  Usage.v and Examples.v evaluate the programs and
    their checks.

    DumpProperties.v: the texts of conjunction ids tell them apart
    ([conj_string_injective]), the window that a cursor's dump shows
    ([cursor_dump_window]), that the dump of an index does not go wrong, and what dumps
    hide.  Util.v: [runes_to_bytes].

    ** Fuel

    The galloping and halving loops of SkipTo run with the length of the posting
    list as fuel; a scan with one more than the number of entries under its
    cursors ([scan_fuel]); the binary search of the standard library with the
    length of the slice; an insertion into the segment tree with two more than the
    number of coordinates, which bounds the height of the tree.  The theorems on
    them show that the fuel suffices: no result of these operations is
    [OutOfFuel].  The loop of the range parser does not end on every input; its
    model takes fuel as an argument, and [range_parser_values] says on which inputs
    a result is reached and on which no fuel is enough.  The loop of the benchmark
    that draws 100 different numbers ([gen_numbers]) ends when the generator has given
    them; [benchmark_data_ok] is about the runs in which it has.

    ** Parameters

    roaring64.Bitmap is a class with the laws of a finite set of uint64 values
    iterated in increasing order ([Roaring64Spec]); the protobuf encoding of a
    list of strings is a class with its round trip ([ProtoStrListSpec]), the JSON
    encoding of range data one with its round trip on the exported fields
    ([JsonRangeTxSpec]); float conversions are the class [GoFloat], of which only
    the range of int64 is assumed (float arithmetic itself is that of
    SpecFloat); the matching machine of the keyword packages finds the keywords
    that occur ([AhoMachineSpec]); geohashes have 12 characters
    ([GeoHashLibSpec]); a
    document cache is a class whose law is that it returns only what was stored
    and not cleared ([DocLevelCacheSpec]); math/rand is the class [GoRand], of which
    [benchmark_data_ok] assumes that Intn is in range ([GoRandSpec]); the fmt verbs for
    values and floats and the JSON rendering of dumps are the class [GoFmt].  Demo.v and the component files give
    concrete instances of all of them.  [proto_Marshal] succeeds exactly on lists of
    valid UTF-8 ([Marshal_utf8]), as proto3 demands of strings.  With a document cache,
    the theorems ask of each document that has a version that its id and version
    determine it, and that whatever its holders prepare for it can be encoded
    ([doc_cacheable]; toCacheResult leaves an expression out that cannot), and of the
    holders that they decode what they encode ([CachedHolderSpec]; the range holder does
    not).  Nothing is asked where there is no cache.

    ** What is not modelled

    The output of the step-detail and debug options, JSON rendering, generated code,
    EnableDebug.  Nil documents and nil expression pointers.  The index that
    [BuildIndex] returns is the builder's own object: a client that holds it while the
    builder goes on sees the field [indexer] of the later builder state, about which
    Rebuild.v says what holds.  Likewise the roaring index shares its containers with
    its builder, while the model's [BuildIndexer] copies them: the theorems are about
    an index before its builder is used further.  After a container's build error only
    the error is kept, not the half-built container.  Concurrent use of the pools is not modelled: they are
    sequential lists, which may hand out any clean object.

    Of the example programs, flags, profiling, clocks, reading of files and the
    decoding of JSON documents are left out (what was read is an argument), as are the
    goroutines of roaringidx_usage, each of which has its own scanner.  The program
    ac_cedar_test only exercises a third-party trie that the library does not use. *)

From stdpp Require Import base sorting gmap strings numbers list.
Open Scope Z_scope.

(** ** Outcomes of Go code

    A Go function that can fail returns [(value, error)]; a function that can
    panic unwinds the stack.  A loop whose model is driven by fuel may also run
    out of it; the termination theorems show that this never happens. *)
Inductive res (A : Type) : Type :=
| Ok (a : A)
| Err (e : string)
| Panic (e : string)
| OutOfFuel.
Arguments Ok {A} _.
Arguments Err {A} _%_string.
Arguments Panic {A} _%_string.
Arguments OutOfFuel {A}.

#[export] Instance res_ret : MRet res := fun A a => Ok a.

#[export] Instance res_bind : MBind res := fun A B k m =>
  match m with
  | Ok a => k a
  | Err e => Err e
  | Panic e => Panic e
  | OutOfFuel => OutOfFuel
  end.

#[export] Instance res_fmap : FMap res := fun A B f m =>
  match m with
  | Ok a => Ok (f a)
  | Err e => Err e
  | Panic e => Panic e
  | OutOfFuel => OutOfFuel
  end.

Definition is_Ok {A} (r : res A) : Prop := exists a, r = Ok a.

Definition is_Err {A} (r : res A) : Prop := exists e, r = Err e.

(** Stateful Go code: the receiver (or the package state) is threaded through,
    and survives an error return or a recovered panic. *)
Definition M (S A : Type) : Type := S -> S * res A.

#[export] Instance M_ret {S} : MRet (M S) := fun A a s => (s, Ok a).

#[export] Instance M_bind {S} : MBind (M S) := fun A B k m s =>
  match m s with
  | (s', Ok a) => k a s'
  | (s', Err e) => (s', Err e)
  | (s', Panic e) => (s', Panic e)
  | (s', OutOfFuel) => (s', OutOfFuel)
  end.

Definition get {S} : M S S := fun s => (s, Ok s).
Definition put {S} (s : S) : M S unit := fun _ => (s, Ok tt).
Definition modify {S} (f : S -> S) : M S unit := fun s => (f s, Ok tt).
Definition lift {S A} (r : res A) : M S A := fun s => (s, r).
Definition fail {S A} (e : string) : M S A := fun s => (s, Err e).
Definition panic {S A} (e : string) : M S A := fun s => (s, Panic e).

(** [util.PanicIf] (util/condition_panic.go). *)
Definition PanicIf {S} (cond : bool) (msg : string) : M S unit :=
  if cond then panic msg else mret tt.

(** [util.PanicIfErr] (util/condition_panic.go): an error becomes a panic. *)
Definition PanicIfErr {S A} (m : M S A) : M S A := fun s =>
  match m s with
  | (s', Err e) => (s', Panic e)
  | r => r
  end.

(** [v, err := m()]: the error as a value. *)
Definition with_err {S A} (m : M S A) : M S (A + string) := fun s =>
  match m s with
  | (s', Ok a) => (s', Ok (inl a))
  | (s', Err e) => (s', Ok (inr e))
  | (s', Panic e) => (s', Panic e)
  | (s', OutOfFuel) => (s', OutOfFuel)
  end.

(** A [for _, x := range xs { ... }] loop whose body may return early with an
    error or panic. *)
Fixpoint forM {S A} (xs : list A) (body : A -> M S unit) : M S unit :=
  match xs with
  | [] => mret tt
  | x :: xs => body x ≫= fun _ => forM xs body
  end.

(** Weakest precondition: what holds of the outcome and of the state after. *)
Definition wp {S A} (m : M S A) (Q : res A -> S -> Prop) (s : S) : Prop :=
  let '(s', r) := m s in Q r s'.

(** ** Machine integers

    A w-bit unsigned integer is a [Z] in [0, 2^w); the wrap-around of Go's
    arithmetic is written out where the code relies on it or could hit it. *)
Definition two64 : Z := 2 ^ 64.
Definition u64 (z : Z) : Z := z mod 2 ^ 64.
Definition i64 (z : Z) : Z := (z + 2 ^ 63) mod 2 ^ 64 - 2 ^ 63.
Definition MinInt64 : Z := - 2 ^ 63.
Definition MaxInt64 : Z := 2 ^ 63 - 1.
Definition is_i64 (z : Z) : Prop := MinInt64 <= z <= MaxInt64.

(** [util.MaxInt], [util.MinInt] and their 64-bit variants
    (util/math_helper.go). *)
Definition MaxInt (a b : Z) : Z := if bool_decide (a > b) then a else b.
Definition MinInt (a b : Z) : Z := if bool_decide (a < b) then a else b.

(** ** Iteration over Go maps

    [for k, v := range m] visits the bindings of [m] in an order the language
    leaves unspecified.  The order is an oracle; every theorem holds for every
    oracle that visits each binding exactly once. *)
Class MapRange := {
  map_range : forall {K A : Type} `{Countable K}, gmap K A -> list (K * A);
  map_range_perm : forall {K A : Type} `{Countable K} (m : gmap K A),
    map_range m ≡ₚ map_to_list m
}.

(** The oracle that follows the library's own order, used by the examples. *)
#[export] Instance map_range_id : MapRange | 100 := {
  map_range _ _ _ _ m := map_to_list m;
  map_range_perm _ _ _ _ _ := Permutation_refl _
}.

(** The reverse order: a second, different iteration order. *)
Definition map_range_rev : MapRange := {|
  map_range _ _ _ _ m := reverse (map_to_list m);
  map_range_perm _ _ _ _ m := reverse_Permutation (map_to_list m)
|}.

(** ** Sorting

    [sort.Sort] and [sort.Slice] on integers: the result is the sorted
    permutation of the input, which is unique. *)
Definition sortZ (l : list Z) : list Z := merge_sort Z.le l.

(** ** Automation *)
Create HintDb bei discriminated.
Create Rewrite HintDb bei_simpl.

(** Decide the arithmetic tests of the goal. *)
Ltac decide_lia :=
  repeat match goal with
  | |- context [bool_decide ?P] =>
      first [ rewrite (bool_decide_eq_true_2 P) by lia | rewrite (bool_decide_eq_false_2 P) by lia ]
  end.

(** Nothing is in the empty list. *)
Ltac elem_nil :=
  match goal with
  | H : _ ∈ [] |- _ => by apply not_elem_of_nil in H
  | H : _ ∈ _ |- _ => by apply not_elem_of_nil in H
  end.

(** *** Weakest preconditions *)

Section WP.
Context {S : Type}.

Lemma wp_intro {A} (m : M S A) Q s : (forall s' r, m s = (s', r) -> Q r s') -> wp m Q s.
Proof. unfold wp. destruct (m s) as [s' r]. auto. Qed.

Lemma wp_elim {A} {m : M S A} {Q s s' r} : wp m Q s -> m s = (s', r) -> Q r s'.
Proof. unfold wp. intros HQ Hm. by rewrite Hm in HQ. Qed.

Lemma wp_mono {A} (m : M S A) (Q Q' : res A -> S -> Prop) s :
  wp m Q s -> (forall r s', Q r s' -> Q' r s') -> wp m Q' s.
Proof. unfold wp. destruct (m s) as [s' r]. auto. Qed.

Lemma wp_ret {A} (a : A) Q (s : S) : Q (Ok a) s -> wp (mret a) Q s.
Proof. done. Qed.

Lemma wp_bind {A B} (m : M S A) (k : A -> M S B) Q s :
  wp m (fun r s' => match r with
                    | Ok a => wp (k a) Q s'
                    | Err e => Q (Err e) s'
                    | Panic e => Q (Panic e) s'
                    | OutOfFuel => Q OutOfFuel s'
                    end) s -> wp (m ≫= k) Q s.
Proof. unfold wp, mbind, M_bind. destruct (m s) as [s' [a|e|e|]]; auto. Qed.

Lemma wp_PanicIfErr {A} (m : M S A) Q s :
  wp m (fun r s' => match r with Err e => Q (Panic e) s' | _ => Q r s' end) s ->
  wp (PanicIfErr m) Q s.
Proof. unfold wp, PanicIfErr. destruct (m s) as [s' [a|e|e|]]; auto. Qed.

Lemma wp_with_err {A} (m : M S A) Q s :
  wp m (fun r s' => match r with
                    | Ok a => Q (Ok (inl a)) s'
                    | Err e => Q (Ok (inr e)) s'
                    | Panic e => Q (Panic e) s'
                    | OutOfFuel => Q OutOfFuel s'
                    end) s -> wp (with_err m) Q s.
Proof. unfold wp, with_err. destruct (m s) as [s' [a|e|e|]]; auto. Qed.
End WP.

(** A call whose specification is [spec]. *)
Tactic Notation "wp_call" uconstr(spec) := eapply wp_mono; [by apply spec |].

Lemma MaxInt_max a b : MaxInt a b = Z.max a b.
Proof. unfold MaxInt. case_bool_decide; lia. Qed.

Lemma MinInt_min a b : MinInt a b = Z.min a b.
Proof. unfold MinInt. case_bool_decide; lia. Qed.

Lemma u64_small z : 0 <= z < 2 ^ 64 -> u64 z = z.
Proof. unfold u64. intros. by rewrite Z.mod_small. Qed.

Lemma u64_range z : 0 <= u64 z < 2 ^ 64.
Proof. unfold u64. apply Z.mod_pos_bound. lia. Qed.

Lemma i64_small z : is_i64 z -> i64 z = z.
Proof.
  unfold is_i64, i64, MinInt64, MaxInt64. intros.
  rewrite Z.mod_small; lia.
Qed.

Lemma i64_range z : is_i64 (i64 z).
Proof.
  unfold is_i64, i64, MinInt64, MaxInt64.
  pose proof (Z.mod_pos_bound (z + 2 ^ 63) (2 ^ 64)). lia.
Qed.

Lemma i64_u64 z : is_i64 z -> i64 (u64 z) = z.
Proof.
  intros Hz. unfold i64, u64.
  rewrite Zplus_mod_idemp_l. by apply i64_small.
Qed.

(** *** Bit fields *)

(** Packing a field above [n] low bits is addition. *)
Lemma lor_shiftl_add a b n :
  0 <= n -> 0 <= b < 2 ^ n -> Z.lor (Z.shiftl a n) b = a * 2 ^ n + b.
Proof.
  intros Hn Hb.
  assert (Hland : Z.land (Z.shiftl a n) b = 0).
  { apply Z.bits_inj'; intros i Hi. rewrite Z.land_spec, Z.bits_0.
    destruct (decide (i < n)).
    - by rewrite Z.shiftl_spec_low by lia.
    - rewrite <- (Z.mod_small b (2 ^ n)) by lia.
      rewrite (Z.mod_pow2_bits_high b n i) by lia. apply andb_false_r. }
  rewrite <- Z.lxor_lor, <- Z.add_nocarry_lxor by done.
  by rewrite Z.shiftl_mul_pow2.
Qed.

Lemma land_ones_mod a n : 0 <= n -> Z.land a (2 ^ n - 1) = a mod 2 ^ n.
Proof. intros. rewrite <- Z.land_ones by done. f_equal. rewrite Z.ones_equiv. lia. Qed.

Lemma NoDup_fmap_eq {A B} (f : A -> B) (l : list A) x y :
  NoDup (f <$> l) -> x ∈ l -> y ∈ l -> f x = f y -> x = y.
Proof.
  intros Hnd [i Hi]%list_elem_of_lookup [j Hj]%list_elem_of_lookup Heq.
  assert (i = j) as ->; [| congruence].
  by eapply (NoDup_lookup (f <$> l) i j (f x)); rewrite ?list_lookup_fmap, ?Hi, ?Hj; simpl; rewrite ?Heq.
Qed.

(** *** Map iteration *)

Section MapRangeFacts.
Context `{MapRange} {K A : Type} `{Countable K}.
Implicit Types m : gmap K A.

Lemma elem_of_map_range m k v : (k, v) ∈ map_range m <-> m !! k = Some v.
Proof. by rewrite map_range_perm, elem_of_map_to_list. Qed.

Lemma NoDup_map_range_fst m : NoDup (map_range m).*1.
Proof. rewrite map_range_perm. apply NoDup_fst_map_to_list. Qed.

Lemma NoDup_map_range m : NoDup (map_range m).
Proof. rewrite map_range_perm. apply NoDup_map_to_list. Qed.

Lemma map_range_empty : map_range (∅ : gmap K A) = [].
Proof. apply Permutation_nil_r. rewrite map_range_perm. by rewrite map_to_list_empty. Qed.

Lemma length_map_range m : length (map_range m) = size m.
Proof. rewrite map_range_perm. apply length_map_to_list. Qed.
End MapRangeFacts.

Lemma map_to_list_filter_perm {K A} `{Countable K} (P : K * A -> Prop)
    `{!forall x, Decision (P x)} (m : gmap K A) :
  map_to_list (filter P m) ≡ₚ filter P (map_to_list m).
Proof.
  apply NoDup_Permutation.
  - apply NoDup_map_to_list.
  - apply NoDup_filter, NoDup_map_to_list.
  - intros [k v]. rewrite elem_of_map_to_list, list_elem_of_filter, elem_of_map_to_list.
    rewrite map_lookup_filter_Some. tauto.
Qed.

(** *** Lists *)

Lemma list_filter_all {A} (P : A -> Prop) `{!forall x, Decision (P x)} (l : list A) :
  Forall P l -> filter P l = l.
Proof. induction 1 as [|x l Hx _ IH]; [done |]. rewrite filter_cons_True by done. by rewrite IH. Qed.

Lemma list_bind_ext_in {A B} (f g : A -> list B) (l : list A) :
  (forall x, x ∈ l -> f x = g x) -> l ≫= f = l ≫= g.
Proof.
  induction l as [|x l IH]; intros Heq; [done |]. simpl.
  rewrite (Heq x) by by left. f_equal. apply IH. intros y Hy. apply Heq. by right.
Qed.

Lemma sortZ_perm l : sortZ l ≡ₚ l.
Proof. apply merge_sort_Permutation. Qed.

Lemma sortZ_sorted l : StronglySorted Z.le (sortZ l).
Proof. apply StronglySorted_merge_sort; [apply _ | intros x y; lia]. Qed.

Lemma elem_of_sortZ x l : x ∈ sortZ l <-> x ∈ l.
Proof. by rewrite sortZ_perm. Qed.

Lemma length_sortZ l : length (sortZ l) = length l.
Proof. by rewrite sortZ_perm. Qed.

#[export] Hint Resolve sortZ_sorted u64_range i64_range : bei.
#[export] Hint Rewrite elem_of_sortZ length_sortZ : bei_simpl.
