(* ===== verification/Ids.v ===== *)
(** * Identifiers (id_types.go)

    Document, conjunction and entry identifiers: how a document id, the index
    of a conjunction in its document and the conjunction's size are packed into
    a 60-bit [ConjID], and how a conjunction id and the include/exclude flag
    are packed into a 64-bit [EntryID].  The scan of the index relies on the
    order of these numbers; the lemmas below make that order explicit. *)

From stdpp Require Import base gmap strings numbers list.
From S2P Require Import Prelude.
Open Scope Z_scope.

(** ** Definitions *)

(** [type DocID int64], [type ConjID uint64], [type EntryID uint64] *)
Abbreviation DocID := Z (only parsing).
Abbreviation ConjID := Z (only parsing).
Abbreviation EntryID := Z (only parsing).
Abbreviation Entries := (list Z) (only parsing).

Definition MaxDocID : Z := 0x7FFFFFFFFFF.
Definition NULLENTRY : EntryID := 0xFFFFFFFFFFFFFFFF.

Definition ValidDocID (id : DocID) : bool :=
  bool_decide (id <= MaxDocID) && bool_decide (id >= - MaxDocID).

Definition ValidIdxOrSize (v : Z) : bool :=
  bool_decide (v >= 0) && bool_decide (v < 256).

(** |--[ reserved(4bit) | size(8bit) | index(8bit) | negSign(1bit) | docID(43bit) ] *)
Definition NewConjID (docID : DocID) (index size : Z) : res ConjID :=
  if negb (ValidDocID docID) || negb (ValidIdxOrSize index) || negb (ValidIdxOrSize size)
  then Panic "id overflow"
  else
    let negSign := if bool_decide (docID < 0) then 1 else 0 in
    let docID := if bool_decide (docID < 0) then - docID else docID in
    Ok (Z.lor (Z.lor (Z.lor (u64 (Z.shiftl (u64 size) 52))
                            (u64 (Z.shiftl (u64 index) 44)))
                     (u64 (Z.shiftl negSign 43)))
              (u64 docID)).

Definition conj_Size (id : ConjID) : Z := Z.land (Z.shiftr id 52) 0xFF.

Definition conj_Index (id : ConjID) : Z := Z.land (Z.shiftr id 44) 0xFF.

Definition conj_DocID (id : ConjID) : DocID :=
  let negSign := Z.land (Z.shiftr id 43) 0x1 in
  let docID := Z.land id MaxDocID in
  if bool_decide (negSign > 0) then - docID else docID.

(** [-- ConjID(60bit) --|-- empty(3bit) --|-- incl/excl(1bit) --] *)
Definition NewEntryID (id : ConjID) (incl : bool) : EntryID :=
  if negb incl then u64 (Z.shiftl id 4)
  else Z.lor (u64 (Z.shiftl id 4)) 0x01.

Definition IsExclude (entry : EntryID) : bool := bool_decide (Z.land entry 0x01 = 0).

Definition IsInclude (entry : EntryID) : bool := bool_decide (Z.land entry 0x01 > 0).

Definition GetConjID (entry : EntryID) : ConjID := Z.shiftr entry 4.

Definition IsNULLEntry (entry : EntryID) : bool := bool_decide (entry = NULLENTRY).

(** ** The conjunction ids the builder produces

    A conjunction index is below 255 (a document holds at most 0xFF
    conjunctions), so the id with every one of its 60 bits set, which is the
    [ConjID] of [NULLENTRY], never stands for a conjunction. *)
Definition valid_conj (c : ConjID) : Prop := 0 <= c < 2 ^ 60 - 1.

(** An entry that can occur in a posting list. *)
Definition valid_eid (e : EntryID) : Prop :=
  exists c b, valid_conj c /\ e = NewEntryID c b.

(** ** The packed representation as arithmetic *)

Definition sign_bit (d : Z) : Z := if bool_decide (d < 0) then 1 else 0.

Definition pack (d i s : Z) : Z :=
  s * 2 ^ 52 + i * 2 ^ 44 + sign_bit d * 2 ^ 43 + Z.abs d.

Definition fields_ok (d i s : Z) : Prop :=
  - MaxDocID <= d <= MaxDocID /\ 0 <= i < 256 /\ 0 <= s < 256.

Lemma ValidDocID_spec d : ValidDocID d = true <-> - MaxDocID <= d <= MaxDocID.
Proof. unfold ValidDocID. rewrite andb_true_iff, !bool_decide_eq_true. lia. Qed.

Lemma ValidIdxOrSize_spec v : ValidIdxOrSize v = true <-> 0 <= v < 256.
Proof. unfold ValidIdxOrSize. rewrite andb_true_iff, !bool_decide_eq_true. lia. Qed.

Lemma NewConjID_guard d i s :
  negb (ValidDocID d) || negb (ValidIdxOrSize i) || negb (ValidIdxOrSize s) = false
  <-> fields_ok d i s.
Proof.
  unfold fields_ok.
  rewrite !orb_false_iff, !negb_false_iff, ValidDocID_spec, !ValidIdxOrSize_spec. tauto.
Qed.

(** [NewConjID] succeeds exactly on in-range fields, and packs them. *)
Lemma NewConjID_pack d i s : fields_ok d i s -> NewConjID d i s = Ok (pack d i s).
Proof.
  intros Hok. unfold NewConjID.
  rewrite (proj2 (NewConjID_guard d i s)) by done.
  destruct Hok as (Hd & Hi & Hs). unfold MaxDocID in Hd. f_equal.
  unfold pack, sign_bit.
  assert (Habs : (if bool_decide (d < 0) then - d else d) = Z.abs d)
    by (case_bool_decide; lia).
  rewrite Habs. set (n := if bool_decide (d < 0) then 1 else 0).
  assert (0 <= n <= 1) by (subst n; case_bool_decide; lia).
  rewrite (u64_small s), (u64_small i), (u64_small (Z.abs d)) by lia.
  rewrite !u64_small by (rewrite Z.shiftl_mul_pow2 by lia; lia).
  rewrite <- !Z.lor_assoc, (lor_shiftl_add n) by lia.
  rewrite (lor_shiftl_add i) by lia.
  rewrite lor_shiftl_add by lia. lia.
Qed.

Lemma NewConjID_inv d i s c : NewConjID d i s = Ok c -> fields_ok d i s /\ c = pack d i s.
Proof.
  intros H.
  destruct (negb (ValidDocID d) || negb (ValidIdxOrSize i) || negb (ValidIdxOrSize s)) eqn:E.
  - unfold NewConjID in H. rewrite E in H. done.
  - apply NewConjID_guard in E. rewrite (NewConjID_pack d i s) in H by done.
    injection H as <-. done.
Qed.

(** The only failure of [NewConjID] is a panic, on out-of-range fields. *)
Lemma NewConjID_cases d i s :
  (fields_ok d i s /\ NewConjID d i s = Ok (pack d i s)) \/
  (~ fields_ok d i s /\ exists e, NewConjID d i s = Panic e).
Proof.
  destruct (negb (ValidDocID d) || negb (ValidIdxOrSize i) || negb (ValidIdxOrSize s)) eqn:E.
  - right. rewrite <- NewConjID_guard. split; [congruence |]. unfold NewConjID. rewrite E. eauto.
  - left. apply NewConjID_guard in E. by split; [| apply NewConjID_pack].
Qed.

Lemma sign_bit_bound d : 0 <= sign_bit d <= 1.
Proof. unfold sign_bit. case_bool_decide; lia. Qed.

Ltac unpack_conj d :=
  unfold pack, fields_ok, MaxDocID in *;
  pose proof (sign_bit_bound d);
  rewrite ?Z.shiftr_div_pow2 by lia.

Lemma pack_Size d i s : fields_ok d i s -> conj_Size (pack d i s) = s.
Proof.
  intros H. unfold conj_Size. change 0xFF with (2 ^ 8 - 1).
  rewrite land_ones_mod by lia. unpack_conj d.
  Z.div_mod_to_equations. lia.
Qed.

Lemma pack_Index d i s : fields_ok d i s -> conj_Index (pack d i s) = i.
Proof.
  intros H. unfold conj_Index. change 0xFF with (2 ^ 8 - 1).
  rewrite land_ones_mod by lia. unpack_conj d.
  Z.div_mod_to_equations. lia.
Qed.

Lemma pack_DocID d i s : fields_ok d i s -> conj_DocID (pack d i s) = d.
Proof.
  intros H. unfold conj_DocID.
  change (Z.land (Z.shiftr (pack d i s) 43) 0x1)
    with (Z.land (Z.shiftr (pack d i s) 43) (2 ^ 1 - 1)).
  assert (Hs : Z.land (Z.shiftr (pack d i s) 43) (2 ^ 1 - 1) = sign_bit d).
  { rewrite land_ones_mod by lia. unpack_conj d. Z.div_mod_to_equations. lia. }
  assert (Hd : Z.land (pack d i s) MaxDocID = Z.abs d).
  { change MaxDocID with (2 ^ 43 - 1). rewrite land_ones_mod by lia.
    unpack_conj d. Z.div_mod_to_equations. lia. }
  rewrite Hs, Hd. unfold sign_bit. repeat case_bool_decide; lia.
Qed.

Lemma pack_bound d i s : fields_ok d i s -> 0 <= pack d i s < 2 ^ 60.
Proof. intros H. unpack_conj d. lia. Qed.

(** With an index below 255 the id is distinct from the one of [NULLENTRY]. *)
Lemma pack_valid d i s : fields_ok d i s -> i < 255 -> valid_conj (pack d i s).
Proof. intros H Hi. unfold valid_conj. unpack_conj d. lia. Qed.

Lemma pack_inj d i s d' i' s' :
  fields_ok d i s -> fields_ok d' i' s' -> pack d i s = pack d' i' s' ->
  d = d' /\ i = i' /\ s = s'.
Proof.
  intros H H' E. repeat split.
  - by rewrite <- (pack_DocID d i s), E, pack_DocID.
  - by rewrite <- (pack_Index d i s), E, pack_Index.
  - by rewrite <- (pack_Size d i s), E, pack_Size.
Qed.

Lemma conj_Size_bound c : 0 <= conj_Size c < 256.
Proof.
  unfold conj_Size. change 0xFF with (2 ^ 8 - 1). rewrite land_ones_mod by lia.
  apply Z.mod_pos_bound. lia.
Qed.

(** The size sits in the topmost bits: ids are ordered by size first. *)
Lemma conj_Size_mono c c' : 0 <= c <= c' -> c' < 2 ^ 60 -> conj_Size c <= conj_Size c'.
Proof.
  intros H H'. unfold conj_Size. change 0xFF with (2 ^ 8 - 1).
  rewrite !land_ones_mod, !Z.shiftr_div_pow2 by lia.
  Z.div_mod_to_equations. lia.
Qed.

(** ** Entries *)

Lemma NewEntryID_arith c b :
  0 <= c < 2 ^ 60 -> NewEntryID c b = 16 * c + (if b then 1 else 0).
Proof.
  intros Hc. unfold NewEntryID.
  rewrite u64_small by (rewrite Z.shiftl_mul_pow2 by lia; lia).
  destruct b; simpl negb; cbv iota.
  - rewrite lor_shiftl_add by lia. lia.
  - rewrite Z.shiftl_mul_pow2 by lia. lia.
Qed.

Lemma GetConjID_div e : GetConjID e = e / 16.
Proof. unfold GetConjID. by rewrite Z.shiftr_div_pow2 by lia. Qed.

Lemma GetConjID_NewEntryID c b : 0 <= c < 2 ^ 60 -> GetConjID (NewEntryID c b) = c.
Proof.
  intros. rewrite GetConjID_div, NewEntryID_arith by done.
  destruct b; Z.div_mod_to_equations; lia.
Qed.

Lemma land1_mod e : Z.land e 0x01 = e mod 2.
Proof. change 0x01 with (2 ^ 1 - 1). by rewrite land_ones_mod by lia. Qed.

Lemma IsInclude_NewEntryID c b : 0 <= c < 2 ^ 60 -> IsInclude (NewEntryID c b) = b.
Proof.
  intros. unfold IsInclude. rewrite land1_mod, NewEntryID_arith by done.
  destruct b; case_bool_decide; try done; Z.div_mod_to_equations; lia.
Qed.

Lemma IsExclude_IsInclude e : IsExclude e = negb (IsInclude e).
Proof.
  unfold IsExclude, IsInclude. rewrite land1_mod.
  pose proof (Z.mod_pos_bound e 2).
  repeat case_bool_decide; try done; lia.
Qed.

(** A valid entry, with its conjunction and flag laid out in arithmetic. *)
Lemma valid_eid_arith e :
  valid_eid e ->
  valid_conj (GetConjID e) /\ e = 16 * GetConjID e + (if IsInclude e then 1 else 0).
Proof.
  intros (c & b & Hc & ->). unfold valid_conj in *.
  rewrite GetConjID_NewEntryID, IsInclude_NewEntryID by lia.
  split; [done | apply NewEntryID_arith; lia].
Qed.

Lemma valid_eid_eta e : valid_eid e -> e = NewEntryID (GetConjID e) (IsInclude e).
Proof.
  intros H. apply valid_eid_arith in H as [Hc He]. unfold valid_conj in Hc.
  rewrite NewEntryID_arith by lia. done.
Qed.

Lemma valid_eid_New c b : valid_conj c -> valid_eid (NewEntryID c b).
Proof. intros. by exists c, b. Qed.

Lemma valid_eid_bound e : valid_eid e -> 0 <= e < NULLENTRY - 15.
Proof.
  intros H. apply valid_eid_arith in H as [Hc He].
  unfold valid_conj, NULLENTRY in *. destruct (IsInclude e); lia.
Qed.

(** The two targets the scanners skip to: the first entry of a conjunction's
    block, and the first position after it. *)
Lemma block_start c e :
  0 <= c < 2 ^ 60 -> valid_eid e -> (NewEntryID c false <= e <-> c <= GetConjID e).
Proof.
  intros Hc He. apply valid_eid_arith in He as [_ He].
  rewrite NewEntryID_arith by done. destruct (IsInclude e); lia.
Qed.

Lemma block_end c e :
  0 <= c < 2 ^ 60 -> valid_eid e ->
  (u64 (NewEntryID c true + 1) <= e <-> c + 1 <= GetConjID e).
Proof.
  intros Hc He. apply valid_eid_arith in He as [_ He].
  rewrite NewEntryID_arith by done. rewrite u64_small by lia.
  destruct (IsInclude e); lia.
Qed.

#[export] Hint Resolve valid_eid_New : bei.
