(* ===== verification/GoValues.v ===== *)
(** * Dynamically typed values and the helpers on them

    [be_indexer.Values] is Go's empty interface: the dynamic types the code
    inspects are the constructors below.  This file also holds the helpers of
    the util package (util/type_util.go, util/slice_util.go) and the pieces of
    Go's strconv, fmt and strings packages that the parsers call. *)

From Stdlib Require Import SpecFloat Ascii String.
From stdpp Require Import base gmap strings numbers pretty list.
From S2P Require Import Prelude.
Open Scope Z_scope.

(** ** Dynamic types *)

Inductive int_kind := KInt | KInt8 | KInt16 | KInt32 | KInt64.
Inductive uint_kind := KUint | KUint8 | KUint16 | KUint32 | KUint64.
Inductive float_kind := KFloat32 | KFloat64.

#[export] Instance int_kind_eq_dec : EqDecision int_kind.
Proof. solve_decision. Defined.
#[export] Instance uint_kind_eq_dec : EqDecision uint_kind.
Proof. solve_decision. Defined.
#[export] Instance float_kind_eq_dec : EqDecision float_kind.
Proof. solve_decision. Defined.

(** A Go slice: [None] is the nil slice, which has no elements. *)
Definition slice (A : Type) : Type := option (list A).

Definition elems {A} (s : slice A) : list A := default [] s.

(** The values an [interface{}] holds, by dynamic type.  [VArrOther] stands for
    an array (not a slice) of any other type; [VOther] for every other type the
    code has no case for (booleans, structs, maps, pointers), its flag tells
    whether [reflect.Value.IsNil] would hold of it.  Named types over the basic
    kinds, which [reflect] reports like the basic type, are left out. *)
Inductive Values :=
| VNil
| VStr (s : string)
| VJsonNumber (s : string)
| VInt (k : int_kind) (z : Z)
| VUint (k : uint_kind) (z : Z)
| VFloat (k : float_kind) (f : spec_float)
| VStrs (l : slice string)
| VJsonNumbers (l : slice string)
| VInts (k : int_kind) (l : slice Z)
| VUints (k : uint_kind) (l : slice Z)
| VFloats (k : float_kind) (l : slice spec_float)
| VIfaces (l : slice Values)
| VArrInt64_2 (a b : Z)
| VArrFloat64_2 (a b : spec_float)
| VArrOther
| VOther (isnil : bool).

(** Go's floating-point conversions: formatting with [%v], [strconv.ParseFloat]
    and the conversions to 64-bit integers, whose result Go leaves to the
    implementation when the value does not fit. *)
Class GoFloat := {
  fmt_float : float_kind -> spec_float -> string;
  ParseFloat : string -> option spec_float;
  float_to_int64 : spec_float -> Z;
  float_to_uint64 : spec_float -> Z;
  float_to_int64_range : forall f, is_i64 (float_to_int64 f)
}.

(** ** util/type_util.go *)

Definition is_nil (v : Values) : bool :=
  match v with
  | VNil => true
  | VStrs l | VJsonNumbers l => bool_decide (l = None)
  | VInts _ l | VUints _ l => bool_decide (l = None)
  | VFloats _ l => match l with None => true | Some _ => false end
  | VIfaces l => match l with None => true | Some _ => false end
  | VOther isnil => isnil
  | _ => false
  end.

Definition is_array (v : Values) : bool :=
  match v with
  | VArrInt64_2 _ _ | VArrFloat64_2 _ _ | VArrOther => true
  | _ => false
  end.

(** The case list of the function names [reflect.Array] among the kinds on which
    [reflect.Value.IsNil] is called; that method panics on an array. *)
Definition NilInterface (v : Values) : res bool :=
  if is_array v then Panic "reflect: call of reflect.Value.IsNil on array Value" else Ok (is_nil v).

(** ** util/slice_util.go *)

Section Distinct.
Context `{MapRange} {A : Type} `{Countable A}.

(** [m := map[T]struct{}{}; for _, v := range vs { m[v] = struct{}{} }] *)
Definition key_set (vs : list A) : gmap A unit :=
  foldl (fun m v => <[v := tt]> m) ∅ vs.

(** [DistinctString], [DistinctInteger] and [DistinctInt]. *)
Definition Distinct (vs : list A) : list A :=
  foldl (fun res kv => res ++ [kv.1]) [] (map_range (key_set vs)).

End Distinct.

Definition DistinctString `{MapRange} (vs : list string) : list string := Distinct vs.
Definition DistinctInteger `{MapRange} (vs : list Z) : list Z := Distinct vs.

(** [ContainInt] and its variants for the other integer types. *)
Fixpoint ContainInt (vs : list Z) (t : Z) : bool :=
  match vs with
  | [] => false
  | v :: vs => if bool_decide (v = t) then true else ContainInt vs t
  end.

(** ** strconv, fmt and strings *)

(** [fmt.Sprintf("%v", n)] and ["%d"] for an integer: decimal digits. *)
Definition fmt_int (z : Z) : string := pretty z.

Definition digit_of (a : Ascii.ascii) : option Z :=
  let n := Z.of_N (Ascii.N_of_ascii a) in
  if bool_decide (48 <= n <= 57) then Some (n - 48) else None.

(** The digit loop of [strconv.ParseUint] in base 10, in unbounded precision. *)
Fixpoint parse_digits (acc : Z) (s : string) : option Z :=
  match s with
  | EmptyString => Some acc
  | String a s =>
      d ← digit_of a;
      parse_digits (10 * acc + d) s
  end.

(** The unsigned part of a number, with the sign applied and the int64 range
    checked. *)
Definition parse_signed (neg : bool) (digits : string) : option Z :=
  if bool_decide (digits = EmptyString) then None
  else
    n ← parse_digits 0 digits;
    let z := if neg then - n else n in
    if bool_decide (MinInt64 <= z <= MaxInt64) then Some z else None.

(** [strconv.ParseInt(s, 10, 64)]: an optional sign, then at least one digit;
    a value out of the int64 range is an error. *)
Definition ParseInt (s : string) : option Z :=
  match s with
  | String "+"%char s' => parse_signed false s'
  | String "-"%char s' => parse_signed true s'
  | _ => parse_signed false s
  end.

(** [strings.Split(s, sep)] for a one-character separator. *)
Fixpoint Split (sep : Ascii.ascii) (s : string) : list string :=
  match s with
  | EmptyString => [EmptyString]
  | String a s' =>
      if bool_decide (a = sep) then EmptyString :: Split sep s'
      else match Split sep s' with
           | [] => [String a EmptyString]
           | w :: ws => String a w :: ws
           end
  end.

(** [hash/fnv]: 64-bit FNV-1 ([New64]) and FNV-1a ([New64a]). *)
Definition fnv_offset64 : Z := 14695981039346656037.
Definition fnv_prime64 : Z := 1099511628211.

Fixpoint fnv1_write (h : Z) (s : string) : Z :=
  match s with
  | EmptyString => h
  | String c s => fnv1_write (Z.lxor (u64 (h * fnv_prime64)) (Z.of_N (Ascii.N_of_ascii c))) s
  end.

Fixpoint fnv1a_write (h : Z) (s : string) : Z :=
  match s with
  | EmptyString => h
  | String c s => fnv1a_write (u64 (Z.lxor h (Z.of_N (Ascii.N_of_ascii c)) * fnv_prime64)) s
  end.

(** ** Lemmas *)

Section DistinctFacts.
Context `{MapRange} {A : Type} `{Countable A}.

Lemma foldl_snoc_map {B C} (f : B -> C) (l : list B) (acc : list C) :
  foldl (fun res x => res ++ [f x]) acc l = acc ++ map f l.
Proof.
  revert acc. induction l as [|x l IH]; intros acc; simpl.
  - by rewrite app_nil_r.
  - rewrite IH, <- app_assoc. done.
Qed.

Lemma lookup_key_set_acc (vs : list A) (m : gmap A unit) x :
  is_Some (foldl (fun m v => <[v := tt]> m) m vs !! x) <-> x ∈ vs \/ is_Some (m !! x).
Proof.
  revert m. induction vs as [|v vs IH]; intros m; simpl; [set_solver |].
  rewrite IH, elem_of_cons, lookup_insert_is_Some.
  destruct (decide (v = x)); naive_solver.
Qed.

Lemma elem_of_Distinct (vs : list A) x : x ∈ Distinct vs <-> x ∈ vs.
Proof.
  unfold Distinct. rewrite foldl_snoc_map. simpl.
  trans (is_Some (key_set vs !! x)).
  - rewrite list_elem_of_fmap. split.
    + intros ([k []] & -> & Hin). apply elem_of_map_range in Hin. eauto.
    + intros [[] Hx]. exists (x, tt). by rewrite elem_of_map_range.
  - unfold key_set. rewrite lookup_key_set_acc, lookup_empty. split; [intros [?|[? [=]]]|]; auto.
Qed.

Lemma NoDup_Distinct (vs : list A) : NoDup (Distinct vs).
Proof. unfold Distinct. rewrite foldl_snoc_map. apply NoDup_map_range_fst. Qed.

End DistinctFacts.

(** *** Decimal round trip *)

Lemma digit_of_pretty_char (n : N) : (n < 10)%N -> digit_of (pretty_N_char n) = Some (Z.of_N n).
Proof.
  intros Hn.
  assert (n ∈ [0;1;2;3;4;5;6;7;8;9]%N) as Hin by (rewrite !elem_of_cons; lia).
  repeat (apply elem_of_cons in Hin as [-> | Hin]; [reflexivity |]).
  elem_nil.
Qed.

Lemma parse_digits_pretty_go (n : N) (s : string) (acc : Z) :
  exists k : Z, 1 <= k /\
    parse_digits acc (pretty_N_go n s) = parse_digits (acc * k + Z.of_N n) s /\
    ((n = 0)%N -> k = 1).
Proof.
  revert s acc. induction (N.lt_wf_0 n) as [n _ IH]; intros s acc.
  destruct (decide (0 < n)%N) as [Hpos|Hz].
  - rewrite pretty_N_go_step by done.
    destruct (IH (n `div` 10)%N ltac:(apply N.div_lt; lia)
                (String (pretty_N_char (n `mod` 10)) s) acc) as (k & Hk & Hp & _).
    exists (10 * k). repeat split; [lia | | lia].
    rewrite Hp. cbn [parse_digits].
    rewrite digit_of_pretty_char by (apply N.mod_lt; lia). simpl.
    f_equal. rewrite N2Z.inj_div, N2Z.inj_mod. simpl. Z.div_mod_to_equations. lia.
  - exists 1. assert (n = 0%N) as -> by lia. rewrite pretty_N_go_0.
    repeat split; [lia | f_equal; lia].
Qed.

Lemma parse_digits_pretty (n : N) : parse_digits 0 (pretty n) = Some (Z.of_N n).
Proof.
  unfold pretty, pretty_N. case_decide as Hn; [by subst |].
  destruct (parse_digits_pretty_go n "" 0) as (k & _ & -> & _). simpl. f_equal; lia.
Qed.

Lemma pretty_N_head (n : N) :
  exists a s, pretty n = String a s /\ a <> "+"%char /\ a <> "-"%char.
Proof.
  destruct (pretty n) as [|a s] eqn:E.
  - pose proof (parse_digits_pretty n) as Hp. rewrite E in Hp. simpl in Hp.
    assert (n = 0%N) as -> by (injection Hp; lia). done.
  - exists a, s. split; [done |].
    pose proof (parse_digits_pretty n) as Hp. rewrite E in Hp. simpl in Hp.
    split; intros ->; done.
Qed.

Lemma parse_signed_pretty (neg : bool) (n : N) z :
  is_i64 z -> (if neg then - Z.of_N n else Z.of_N n) = z ->
  parse_signed neg (pretty n) = Some z.
Proof.
  intros Hz Hn. unfold parse_signed.
  destruct (pretty_N_head n) as (a & s & E & _).
  rewrite bool_decide_eq_false_2 by (rewrite E; done).
  rewrite parse_digits_pretty. simpl. rewrite Hn.
  by rewrite bool_decide_eq_true_2.
Qed.

Lemma ParseInt_unsigned s : 
  (exists a s', s = String a s' /\ a <> "+"%char /\ a <> "-"%char) ->
  ParseInt s = parse_signed false s.
Proof.
  intros (a & s' & -> & Hplus & Hminus).
  destruct a as [[] [] [] [] [] [] [] []]; done.
Qed.

(** Printing then parsing an int64 gives it back. *)
Lemma ParseInt_fmt_int z : is_i64 z -> ParseInt (fmt_int z) = Some z.
Proof.
  intros Hz. unfold fmt_int. destruct z as [|p|p].
  - by vm_compute.
  - change (pretty (Z.pos p)) with (pretty (Npos p)).
    rewrite ParseInt_unsigned by apply pretty_N_head. by apply parse_signed_pretty.
  - change (pretty (Z.neg p)) with (String "-"%char (pretty (Npos p))).
    by apply parse_signed_pretty.
Qed.

Lemma ParseInt_range s z : ParseInt s = Some z -> is_i64 z.
Proof.
  assert (Hp : forall neg ds, parse_signed neg ds = Some z -> is_i64 z).
  { intros neg ds. unfold parse_signed. case_bool_decide; [done |]. destruct (parse_digits 0 ds); [| done].
    simpl. case_bool_decide as Hr; [| done]. by intros [= <-]. }
  unfold ParseInt. destruct s as [|[[] [] [] [] [] [] [] []] s]; apply Hp.
Qed.

Lemma fmt_int_inj z z' : fmt_int z = fmt_int z' -> z = z'.
Proof. apply (inj pretty). Qed.
