(* ===== verification/Document.v ===== *)
(** * Boolean expressions, conjunctions and documents
      (boolean_expr.go, document.go)

    The data a client hands to the index: a document is a disjunction of
    conjunctions; a conjunction maps a field to the list of expressions on it;
    an expression is a set of values that is included or excluded.  The last
    part of the file gives the meaning of these expressions on a query, which
    is what the indexes are proved to compute. *)

From stdpp Require Import base gmap strings numbers list.
From S2P Require Import Prelude GoValues Ids.
Open Scope Z_scope.

(** ** boolean_expr.go *)

Abbreviation BEField := string (only parsing).

(** [type ValueOpt int] with its constants; other numbers are representable and
    are rejected by the holders. *)
Abbreviation ValueOpt := Z (only parsing).
Definition ValueOptEQ : ValueOpt := 0.
Definition ValueOptGT : ValueOpt := 1.
Definition ValueOptLT : ValueOpt := 2.
Definition ValueOptBetween : ValueOpt := 3.

Record BoolValues := {
  Incl : bool;
  Value : Values;
  Operator : ValueOpt
}.

Record BooleanExpr := {
  be_values : BoolValues;
  be_field : BEField
}.

(** [type Assignments map[BEField]Values] *)
Abbreviation Assignments := (gmap string Values) (only parsing).

(** [func (ass Assignments) Size()]: the fields assigned a non-nil value. *)
(** [for _, v := range ass] *)
Fixpoint size_loop (size : Z) (l : list (BEField * Values)) : res Z :=
  match l with
  | [] => Ok size
  | kv :: l => isnil ← NilInterface kv.2; size_loop (if isnil : bool then size else size + 1) l
  end.

Definition Assignments_Size `{MapRange} (ass : Assignments) : res Z :=
  size_loop 0 (map_range ass).

Definition NewBoolExpr2 (field : BEField) (expr : BoolValues) : BooleanExpr :=
  {| be_values := expr; be_field := field |}.

Definition NewBoolExpr (field : BEField) (inc : bool) (v : Values) : BooleanExpr :=
  {| be_field := field;
     be_values := {| Value := v; Incl := inc; Operator := ValueOptEQ |} |}.

Definition NewIntValues (v : Z) (o : list Z) : Values := VInts KInt (Some ([v] ++ o)).
Definition NewInt32Values (v : Z) (o : list Z) : Values := VInts KInt32 (Some ([v] ++ o)).
Definition NewInt64Values (v : Z) (o : list Z) : Values := VInts KInt64 (Some ([v] ++ o)).
Definition NewStrValues (v : string) (ss : list string) : Values := VStrs (Some ([v] ++ ss)).

Definition NewBoolValue (op : ValueOpt) (value : Values) (incl : bool) : BoolValues :=
  {| Operator := op; Incl := incl; Value := value |}.

Definition NewGTBoolValue (value : Z) : BoolValues :=
  NewBoolValue ValueOptGT (VInt KInt64 value) true.

Definition NewLTBoolValue (value : Z) : BoolValues :=
  NewBoolValue ValueOptLT (VInt KInt64 value) true.

Definition booleanToken (v : BoolValues) : string :=
  if Incl v then "in" else "not".

Definition operatorName (v : BoolValues) : string :=
  if bool_decide (Operator v = ValueOptGT) then ">"
  else if bool_decide (Operator v = ValueOptLT) then "<"
  else if bool_decide (Operator v = ValueOptBetween) then "between"
  else "".

(** ** document.go *)

Record Conjunction := { Expressions : gmap string (list BoolValues) }.

Record Document := {
  doc_ID : DocID;
  doc_Version : Z;
  doc_Cons : list Conjunction
}.

Definition NewDocument (id : DocID) : Document :=
  {| doc_ID := id; doc_Version := 0; doc_Cons := [] |}.

(** [func (s DocIDList) Contain(id DocID) bool] *)
Fixpoint Contain (s : list DocID) (id : DocID) : bool :=
  match s with
  | [] => false
  | v :: s => if bool_decide (v = id) then true else Contain s id
  end.

(** [func (s DocIDList) Sub(other DocIDList)]; the inner loop is a membership
    test with [continue BASE]. *)
Fixpoint Sub_loop (r s other : list DocID) : list DocID :=
  match s with
  | [] => r
  | v :: s => if Contain other v then Sub_loop r s other else Sub_loop (r ++ [v]) s other
  end.

Definition Sub (s other : list DocID) : list DocID := Sub_loop [] s other.

Definition set_Cons (doc : Document) (cons : list Conjunction) : Document :=
  {| doc_ID := doc_ID doc; doc_Version := doc_Version doc; doc_Cons := cons |}.

Definition AddConjunction (doc : Document) (cons : list Conjunction) : Document :=
  foldl (fun doc conj => set_Cons doc (doc_Cons doc ++ [conj])) doc cons.

Definition AddConjunctions (doc : Document) (conj : Conjunction) (others : list Conjunction)
    : Document :=
  foldl (fun doc conj => set_Cons doc (doc_Cons doc ++ [conj]))
        (set_Cons doc (doc_Cons doc ++ [conj])) others.

Definition NewConjunction : Conjunction := {| Expressions := ∅ |}.

Definition addExpression (conj : Conjunction) (field : BEField) (bv : BoolValues) : Conjunction :=
  {| Expressions := <[field := default [] (Expressions conj !! field) ++ [bv]]> (Expressions conj) |}.

Definition In (conj : Conjunction) (field : BEField) (values : Values) : Conjunction :=
  addExpression conj field (NewBoolValue ValueOptEQ values true).

Definition NotIn (conj : Conjunction) (field : BEField) (values : Values) : Conjunction :=
  addExpression conj field (NewBoolValue ValueOptEQ values false).

Definition Include (conj : Conjunction) (field : BEField) (values : Values) : Conjunction :=
  addExpression conj field (NewBoolValue ValueOptEQ values true).

Definition Exclude (conj : Conjunction) (field : BEField) (values : Values) : Conjunction :=
  addExpression conj field (NewBoolValue ValueOptEQ values false).

Definition AddBoolExprs (conj : Conjunction) (exprs : list BooleanExpr) : Conjunction :=
  foldl (fun conj expr => addExpression conj (be_field expr) (be_values expr)) conj exprs.

Definition GreaterThan (conj : Conjunction) (field : BEField) (value : Z) : Conjunction :=
  AddBoolExprs conj [{| be_field := field; be_values := NewGTBoolValue value |}].

Definition LessThan (conj : Conjunction) (field : BEField) (value : Z) : Conjunction :=
  AddBoolExprs conj [{| be_field := field; be_values := NewLTBoolValue value |}].

Definition Between (conj : Conjunction) (field : BEField) (l h : Z) : Conjunction :=
  AddBoolExprs conj
    [{| be_field := field;
        be_values := NewBoolValue ValueOptBetween (VInts KInt64 (Some [l; h])) true |}].

Definition AddExpression3 (conj : Conjunction) (field : string) (include : bool) (values : Values)
    : Conjunction :=
  addExpression conj field (NewBoolValue ValueOptEQ values include).

(** The inner loop of [CalcConjSize]: count the field once, at its first
    include expression ([break EXPR]). *)
Fixpoint size_step (size : Z) (bvs : list BoolValues) : Z :=
  match bvs with
  | [] => size
  | expr :: bvs => if Incl expr then size + 1 else size_step size bvs
  end.

Definition CalcConjSize `{MapRange} (conj : Conjunction) : Z :=
  foldl (fun size kv => size_step size kv.2) 0 (map_range (Expressions conj)).

Definition ExpressionCount (conj : Conjunction) : Z := Z.of_nat (size (Expressions conj)).

(** ** Meaning of an expression on a query

    [hit f e] tells whether the values of expression [e] on field [f] meet the
    value the query assigns to [f].  An exclude expression that is hit makes
    the conjunction false; a field with include expressions needs one of them
    to be hit; a conjunction needs every one of its fields; a document needs
    one of its conjunctions. *)
Section Meaning.
Variable hit : BEField -> BoolValues -> bool.

Definition has_include (exprs : list BoolValues) : bool := existsb Incl exprs.

Definition include_hit (f : BEField) (exprs : list BoolValues) : bool :=
  existsb (fun e => Incl e && hit f e) exprs.

Definition exclude_hit (f : BEField) (exprs : list BoolValues) : bool :=
  existsb (fun e => negb (Incl e) && hit f e) exprs.

Definition field_sat (f : BEField) (exprs : list BoolValues) : bool :=
  negb (exclude_hit f exprs) && (negb (has_include exprs) || include_hit f exprs).

Definition conj_sat (conj : Conjunction) : bool :=
  forallb (fun kv => field_sat kv.1 kv.2) (map_to_list (Expressions conj)).

Definition doc_sat (doc : Document) : bool := existsb conj_sat (doc_Cons doc).

End Meaning.

(** The fields that count towards the size of a conjunction. *)
Definition include_fields (conj : Conjunction) : gmap string (list BoolValues) :=
  filter (fun kv => has_include kv.2 = true) (Expressions conj).

(** ** Lemmas *)

Lemma Contain_spec s id : Contain s id = true <-> id ∈ s.
Proof.
  induction s as [|v s IH]; simpl; [set_solver |].
  rewrite elem_of_cons. case_bool_decide; naive_solver.
Qed.

Lemma Sub_loop_filter r s other : Sub_loop r s other = r ++ filter (fun v => v ∉ other) s.
Proof.
  revert r. induction s as [|v s IH]; intros r; simpl; [by rewrite app_nil_r |].
  rewrite filter_cons. destruct (Contain other v) eqn:E.
  - apply Contain_spec in E. rewrite decide_False by (intros ?; done). apply IH.
  - assert (v ∉ other) by (rewrite <- Contain_spec, E; done).
    rewrite decide_True, IH by done. by rewrite <- app_assoc.
Qed.

Lemma size_step_spec size bvs :
  size_step size bvs = size + (if has_include bvs then 1 else 0).
Proof.
  induction bvs as [|e bvs IH]; simpl; [lia |]. by destruct (Incl e).
Qed.

(** A counting loop over the bindings of a map counts the bindings that pass. *)
Lemma foldl_count {A} (p : A -> bool) (l : list A) (n : Z) :
  foldl (fun acc x => acc + (if p x then 1 else 0)) n l
  = n + Z.of_nat (length (filter (fun x => p x = true) l)).
Proof.
  revert n. induction l as [|x l IH]; intros n; simpl; [lia |].
  rewrite IH, filter_cons.
  destruct (p x); [rewrite decide_True by done | rewrite decide_False by done]; simpl; lia.
Qed.

Lemma foldl_ext_eq {A B} (f g : A -> B -> A) l a :
  (forall a b, f a b = g a b) -> foldl f a l = foldl g a l.
Proof. intros Hfg. revert a. induction l as [|b l IH]; intros a; simpl; [done |]. by rewrite Hfg. Qed.

Section SizeFacts.
Context `{MapRange}.

Lemma CalcConjSize_count conj :
  CalcConjSize conj
  = Z.of_nat (length (filter (fun kv => has_include kv.2 = true) (map_to_list (Expressions conj)))).
Proof.
  unfold CalcConjSize.
  rewrite (foldl_ext_eq _ (fun acc (kv : string * list BoolValues) =>
    acc + (if has_include kv.2 then 1 else 0))) by (intros; apply size_step_spec).
  rewrite foldl_count. simpl. by rewrite map_range_perm.
Qed.

Lemma CalcConjSize_size conj :
  CalcConjSize conj = Z.of_nat (size (include_fields conj)).
Proof.
  rewrite CalcConjSize_count. f_equal. unfold include_fields.
  by rewrite <- length_map_to_list, map_to_list_filter_perm.
Qed.

(** No value of the query is an array. *)
Definition query_plain (ass : Assignments) : Prop := map_Forall (fun _ v => is_array v = false) ass.

#[export] Instance query_plain_dec ass : Decision (query_plain ass).
Proof. unfold query_plain. apply _. Defined.

(** The number of assigned values that are not nil. *)
Definition assigned (ass : Assignments) : nat :=
  length (filter (fun kv => negb (is_nil kv.2) = true) (map_to_list ass)).

Lemma size_loop_cases size l :
  (Forall (fun kv : BEField * Values => is_array kv.2 = false) l /\
   size_loop size l = Ok (size + Z.of_nat (length (filter (fun kv => negb (is_nil kv.2) = true) l)))) \/
  (~ Forall (fun kv : BEField * Values => is_array kv.2 = false) l /\ exists e, size_loop size l = Panic e).
Proof.
  revert size. induction l as [|kv l IH]; intros size; cbn [size_loop].
  - left. split; [constructor |]. simpl. by rewrite Z.add_0_r.
  - unfold NilInterface. destruct (is_array kv.2) eqn:Ea.
    { right. split; [| by eexists]. intros Hall. inversion Hall. congruence. }
    simpl. destruct (IH (if is_nil kv.2 then size else size + 1)) as [[Hall ->] | [Hno He]].
    + left. split; [by constructor |]. f_equal.
      destruct (is_nil kv.2) eqn:En.
      * rewrite filter_cons_False by (by rewrite En). done.
      * rewrite filter_cons_True by (by rewrite En). simpl. lia.
    + right. split; [| done]. intros Hall. inversion Hall. done.
Qed.

Lemma query_plain_range (ass : Assignments) :
  query_plain ass <-> Forall (fun kv => is_array kv.2 = false) (map_range ass).
Proof.
  unfold query_plain. rewrite map_Forall_to_list, map_range_perm. split; intros Hall; (eapply Forall_impl; [exact Hall |]); by intros [].
Qed.

Lemma Assignments_Size_cases (ass : Assignments) :
  (query_plain ass /\ Assignments_Size ass = Ok (Z.of_nat (assigned ass))) \/
  (~ query_plain ass /\ exists e, Assignments_Size ass = Panic e).
Proof.
  rewrite query_plain_range. unfold Assignments_Size, assigned.
  destruct (size_loop_cases 0 (map_range ass)) as [[Hall ->] | ?]; [left | by right].
  split; [done |]. simpl. by rewrite map_range_perm.
Qed.

End SizeFacts.

Section MeaningFacts.
Variable hit : BEField -> BoolValues -> bool.

Lemma has_include_spec exprs : has_include exprs = true <-> exists e, e ∈ exprs /\ Incl e = true.
Proof.
  unfold has_include. rewrite existsb_exists.
  by setoid_rewrite <- list_elem_of_In.
Qed.

Lemma include_hit_spec f exprs :
  include_hit hit f exprs = true <-> exists e, e ∈ exprs /\ Incl e = true /\ hit f e = true.
Proof.
  unfold include_hit. rewrite existsb_exists.
  setoid_rewrite <- list_elem_of_In. by setoid_rewrite andb_true_iff.
Qed.

Lemma exclude_hit_spec f exprs :
  exclude_hit hit f exprs = true <-> exists e, e ∈ exprs /\ Incl e = false /\ hit f e = true.
Proof.
  unfold exclude_hit. rewrite existsb_exists.
  setoid_rewrite <- list_elem_of_In. setoid_rewrite andb_true_iff.
  by setoid_rewrite negb_true_iff.
Qed.

Lemma field_sat_spec f exprs :
  field_sat hit f exprs = true <->
  exclude_hit hit f exprs = false /\
  (has_include exprs = true -> include_hit hit f exprs = true).
Proof.
  unfold field_sat. rewrite andb_true_iff, negb_true_iff, orb_true_iff, negb_true_iff.
  destruct (has_include exprs), (include_hit hit f exprs); naive_solver.
Qed.

Lemma conj_sat_spec conj :
  conj_sat hit conj = true <->
  forall f exprs, Expressions conj !! f = Some exprs -> field_sat hit f exprs = true.
Proof.
  unfold conj_sat. rewrite forallb_forall. split.
  - intros Hall f exprs Hf. apply (Hall (f, exprs)).
    by apply list_elem_of_In, elem_of_map_to_list.
  - intros Hall [f exprs] Hin%list_elem_of_In%elem_of_map_to_list. by apply Hall.
Qed.

End MeaningFacts.
