(* ===== verification/Cursor.v ===== *)
(** * Posting-list cursors (index_scanner.go, EntriesCursor)

    A cursor walks a sorted posting list.  [SkipTo] gallops and then searches by
    halving; [linearSkipTo] is the plain loop.  The main result is that the two
    agree on every well-formed cursor, and that both stop at the first entry not
    below the target. *)

From stdpp Require Import base sorting gmap strings numbers list.
From S2P Require Import Prelude GoValues Ids Document.
Open Scope Z_scope.

(** ** Definitions *)

Record QKey := { qk_field : BEField; qk_value : Values }.

Definition NewQKey (field : BEField) (v : Values) : QKey :=
  {| qk_field := field; qk_value := v |}.

Record EntriesCursor := {
  ec_key : QKey;
  ec_cursor : nat;
  ec_entries : Entries;
  ec_idSize : nat;
  ec_curEID : EntryID
}.

Definition NewEntriesCursor (key : QKey) (entries : Entries) : EntriesCursor :=
  {| ec_key := key;
     ec_cursor := 0;
     ec_curEID := match entries with [] => NULLENTRY | e :: _ => e end;
     ec_entries := entries;
     ec_idSize := length entries |}.

(** Every use of [entries[i]] below is guarded by [i < idSize], and [idSize] is
    the length of the slice. *)
Definition at_index (l : Entries) (i : nat) : EntryID := l !!! i.

(** The tail of [SkipTo] and [linearSkipTo]: refresh the cached entry id. *)
Definition refresh (ec : EntriesCursor) (cursor : nat) : EntriesCursor :=
  {| ec_key := ec_key ec;
     ec_cursor := cursor;
     ec_entries := ec_entries ec;
     ec_idSize := ec_idSize ec;
     ec_curEID := if bool_decide (ec_idSize ec <= cursor)%nat then NULLENTRY
                  else at_index (ec_entries ec) cursor |}.

Fixpoint linear_loop (fuel : nat) (idSize : nat) (entries : Entries) (id : EntryID)
    (cursor : nat) : nat :=
  match fuel with
  | O => cursor
  | S fuel =>
      if bool_decide (cursor < idSize)%nat && bool_decide (at_index entries cursor < id)
      then linear_loop fuel idSize entries id (S cursor)
      else cursor
  end.

Definition linearSkipTo (ec : EntriesCursor) (id : EntryID) : EntriesCursor :=
  refresh ec (linear_loop (ec_idSize ec) (ec_idSize ec) (ec_entries ec) id (ec_cursor ec)).

(** First loop of [SkipTo]: double the stride while the entry at its end is
    still below [id].  Returns the cursor and the right side index. *)
Fixpoint gallop_loop (fuel : nat) (idSize : nat) (entries : Entries) (id : EntryID)
    (oc cursor bound : nat) : nat * nat :=
  let rightSideIndex := (oc + bound)%nat in
  match fuel with
  | O => (cursor, rightSideIndex)
  | S fuel =>
      if bool_decide (rightSideIndex < idSize)%nat
         && bool_decide (at_index entries rightSideIndex < id)
      then gallop_loop fuel idSize entries id oc rightSideIndex (bound * 2)
      else (cursor, rightSideIndex)
  end.

(** Second loop of [SkipTo]: halve the range [cursor, rightSideIndex). *)
Fixpoint bisect_loop (fuel : nat) (entries : Entries) (id : EntryID)
    (cursor rightSideIndex : nat) : nat :=
  match fuel with
  | O => cursor
  | S fuel =>
      if bool_decide (cursor < rightSideIndex)%nat && bool_decide (at_index entries cursor < id)
      then
        let bound := Nat.div2 (cursor + rightSideIndex) in
        if bool_decide (at_index entries bound >= id)
        then bisect_loop fuel entries id cursor bound
        else bisect_loop fuel entries id (S bound) rightSideIndex
      else cursor
  end.

Definition SkipTo (ec : EntriesCursor) (id : EntryID) : EntriesCursor :=
  if bool_decide (ec_curEID ec >= id) then ec
  else
    let oc := ec_cursor ec in
    let '(cursor, rightSideIndex) :=
      gallop_loop (ec_idSize ec) (ec_idSize ec) (ec_entries ec) id oc (ec_cursor ec) 1 in
    let rightSideIndex :=
      if bool_decide (ec_idSize ec < rightSideIndex)%nat then ec_idSize ec
      else rightSideIndex in
    refresh ec (bisect_loop (ec_idSize ec) (ec_entries ec) id cursor rightSideIndex).

(** ** Well-formed cursors *)

Record cursor_wf (ec : EntriesCursor) : Prop := {
  cwf_size : ec_idSize ec = length (ec_entries ec);
  cwf_sorted : StronglySorted Z.le (ec_entries ec);
  cwf_below : Forall (fun e => e < NULLENTRY) (ec_entries ec);
  cwf_pos : (ec_cursor ec <= ec_idSize ec)%nat;
  cwf_cur : ec_curEID ec = if bool_decide (ec_idSize ec <= ec_cursor ec)%nat then NULLENTRY
                           else at_index (ec_entries ec) (ec_cursor ec)
}.

(** [k] is where a skip to [id] must stop when it starts at [start]: the first
    position from [start] on whose entry is not below [id]. *)
Record skip_target (l : Entries) (id : EntryID) (start k : nat) : Prop := {
  st_ge : (start <= k <= length l)%nat;
  st_before : forall j e, (start <= j < k)%nat -> l !! j = Some e -> e < id;
  st_stop : forall e, l !! k = Some e -> id <= e
}.

(** ** Lemmas *)

Lemma at_index_lookup l i e : l !! i = Some e -> at_index l i = e.
Proof. apply list_lookup_total_correct. Qed.

Lemma lookup_at_index l i : (i < length l)%nat -> l !! i = Some (at_index l i).
Proof. apply list_lookup_lookup_total_lt. Qed.

Lemma sorted_lookup_le (l : Entries) i j a b :
  StronglySorted Z.le l -> (i <= j)%nat -> l !! i = Some a -> l !! j = Some b -> a <= b.
Proof.
  intros Hs. revert i j. induction Hs as [|x l Hs IH Hx]; intros i j Hij Hi Hj; [done |].
  rewrite Forall_forall in Hx.
  destruct i as [|i], j as [|j]; simpl in *; simplify_eq; try lia.
  - apply Hx. by eapply list_elem_of_lookup_2.
  - apply (IH i j); [lia | done | done].
Qed.

Lemma skip_target_unique l id start k k' :
  skip_target l id start k -> skip_target l id start k' -> k = k'.
Proof.
  intros [H1 H2 H3] [H1' H2' H3'].
  destruct (Nat.lt_trichotomy k k') as [Hlt | [-> | Hlt]]; [exfalso | done | exfalso].
  - pose proof (lookup_at_index l k ltac:(lia)) as Hk.
    specialize (H3 _ Hk). specialize (H2' k _ ltac:(lia) Hk). lia.
  - pose proof (lookup_at_index l k' ltac:(lia)) as Hk.
    specialize (H3' _ Hk). specialize (H2 k' _ ltac:(lia) Hk). lia.
Qed.

(** On a sorted list, everything from the target on is at least [id]. *)
Lemma skip_target_after l id start k j e :
  StronglySorted Z.le l -> skip_target l id start k ->
  (k <= j)%nat -> l !! j = Some e -> id <= e.
Proof.
  intros Hs [H1 _ H3] Hkj Hj.
  assert (k < length l)%nat by (apply lookup_lt_Some in Hj; lia).
  pose proof (lookup_at_index l k ltac:(lia)) as Hk.
  specialize (H3 _ Hk). pose proof (sorted_lookup_le l k j _ _ Hs Hkj Hk Hj). lia.
Qed.

Lemma skip_target_extend l id start mid k :
  (start <= mid)%nat -> (forall j e, (start <= j < mid)%nat -> l !! j = Some e -> e < id) ->
  skip_target l id mid k -> skip_target l id start k.
Proof.
  intros Hm Hlt [H1 H2 H3]. split; [lia | | done].
  intros j e Hj He. destruct (decide (j < mid)%nat); [apply (Hlt j e) | apply (H2 j e)]; auto; lia.
Qed.

Lemma linear_loop_target fuel l id cursor :
  (cursor <= length l)%nat -> (length l - cursor <= fuel)%nat ->
  skip_target l id cursor (linear_loop fuel (length l) l id cursor).
Proof.
  revert cursor. induction fuel as [|fuel IH]; intros cursor Hc Hf; simpl.
  - split; [lia | lia |]. intros e He. apply lookup_lt_Some in He. lia.
  - case_bool_decide as Hlt; simpl; [case_bool_decide as Hid |].
    + apply (skip_target_extend _ _ _ (S cursor)); [lia | | apply IH; lia].
      intros j e Hj He. assert (j = cursor) as -> by lia.
      rewrite (at_index_lookup _ _ _ He) in Hid. lia.
    + split; [lia | lia |]. intros e He. rewrite (at_index_lookup _ _ _ He) in Hid. lia.
    + split; [lia | lia |]. intros e He. apply lookup_lt_Some in He. lia.
Qed.

(** The gallop keeps the cursor on an entry below [id], and ends with a right
    side that is past the end or at an entry that is not below [id]. *)
Lemma gallop_loop_spec fuel l id oc cursor bound c' r' :
  StronglySorted Z.le l ->
  (cursor < length l)%nat -> at_index l cursor < id ->
  (oc <= cursor < oc + bound)%nat -> (length l <= oc + bound + fuel)%nat -> (1 <= bound)%nat ->
  gallop_loop fuel (length l) l id oc cursor bound = (c', r') ->
  (cursor <= c' < r')%nat /\ (c' < length l)%nat /\ at_index l c' < id /\
  ((r' < length l)%nat -> id <= at_index l r').
Proof.
  intros Hs. revert cursor bound.
  induction fuel as [|fuel IH]; intros cursor bound Hc Hid Hoc Hf Hb; simpl.
  - intros [= <- <-]. repeat split; try lia.
  - case_bool_decide as Hlt; simpl; [case_bool_decide as Hr |].
    + intros Hg. apply IH in Hg as (? & ? & ? & ?); [| lia..]. repeat split; auto; lia.
    + intros [= <- <-]. repeat split; auto; lia.
    + intros [= <- <-]. repeat split; auto; lia.
Qed.

(** The halving search finds the target, provided the entry before the range is
    below [id] and the one after it (if any) is not. *)
Lemma bisect_loop_target fuel l id cursor r :
  StronglySorted Z.le l ->
  (cursor <= r <= length l)%nat -> (r - cursor <= fuel)%nat ->
  ((r < length l)%nat -> id <= at_index l r) ->
  skip_target l id cursor (bisect_loop fuel l id cursor r).
Proof.
  intros Hs. revert cursor r.
  induction fuel as [|fuel IH]; intros cursor r Hc Hf Hr; simpl.
  - split; [lia | lia |]. intros e He. assert (r = cursor) as -> by lia.
    pose proof (lookup_lt_Some _ _ _ He). rewrite (at_index_lookup _ _ _ He) in Hr. lia.
  - case_bool_decide as Hlt; simpl; [case_bool_decide as Hid |].
    + assert (cursor <= Nat.div2 (cursor + r) < r)%nat as Hmid.
      { rewrite Nat.div2_div. split; [apply Nat.div_le_lower_bound; lia |].
        apply Nat.Div0.div_lt_upper_bound; lia. }
      set (mid := Nat.div2 (cursor + r)) in *. clearbody mid.
      case_bool_decide as Hm.
      * apply IH; [lia | lia |]. intros _. lia.
      * pose proof (lookup_at_index l mid ltac:(lia)) as Hml.
        apply (skip_target_extend _ _ _ (S mid)); [lia | | apply IH; [lia | lia | done]].
        intros j e Hj He.
        pose proof (sorted_lookup_le l j mid _ _ Hs ltac:(lia) He Hml). lia.
    + split; [lia | lia |]. intros e He. rewrite (at_index_lookup _ _ _ He) in Hid. lia.
    + split; [lia | lia |]. intros e He. assert (r = cursor) as -> by lia.
      pose proof (lookup_lt_Some _ _ _ He). rewrite (at_index_lookup _ _ _ He) in Hr. lia.
Qed.

Lemma refresh_same ec : cursor_wf ec -> refresh ec (ec_cursor ec) = ec.
Proof. intros [_ _ _ _ Hcur]. unfold refresh. rewrite <- Hcur. by destruct ec. Qed.

(** The current entry, as a lookup. *)
Lemma cursor_cur_lookup ec :
  cursor_wf ec ->
  (ec_entries ec !! ec_cursor ec = Some (ec_curEID ec) /\ ec_curEID ec < NULLENTRY) \/
  (ec_entries ec !! ec_cursor ec = None /\ ec_curEID ec = NULLENTRY).
Proof.
  intros [Hsz _ Hlt Hpos Hcur]. rewrite Hcur. case_bool_decide as Hge.
  - right. split; [apply lookup_ge_None; lia | done].
  - left. pose proof (lookup_at_index (ec_entries ec) (ec_cursor ec) ltac:(lia)) as Hl.
    split; [done |]. rewrite Forall_forall in Hlt. apply Hlt. by eapply list_elem_of_lookup_2.
Qed.

(** [SkipTo] stops at the target. *)
Lemma SkipTo_target ec id :
  cursor_wf ec -> id <= NULLENTRY ->
  exists k, SkipTo ec id = refresh ec k /\ skip_target (ec_entries ec) id (ec_cursor ec) k.
Proof.
  intros Hwf Hid. pose proof (cursor_cur_lookup ec Hwf) as Hcur.
  pose proof Hwf as [Hsz Hs _ Hpos _].
  unfold SkipTo. case_bool_decide as Hge.
  - exists (ec_cursor ec). split; [by rewrite refresh_same |].
    split; [lia | lia |]. intros e He.
    destruct Hcur as [[Hl _] | [Hl _]]; rewrite Hl in He; simplify_eq. lia.
  - destruct Hcur as [[Hl Hlt] | [_ Hn]]; [| lia].
    assert (ec_cursor ec < length (ec_entries ec))%nat by (by eapply lookup_lt_Some).
    rewrite Hsz.
    destruct (gallop_loop (length (ec_entries ec)) (length (ec_entries ec))
                (ec_entries ec) id (ec_cursor ec) (ec_cursor ec) 1) as [c' r'] eqn:Hg.
    apply gallop_loop_spec in Hg as (Hc1 & Hc2 & Hc3 & Hr); try done; try lia.
    2: { rewrite (at_index_lookup _ _ _ Hl). lia. }
    set (r := if bool_decide (length (ec_entries ec) < r')%nat
              then length (ec_entries ec) else r').
    exists (bisect_loop (length (ec_entries ec)) (ec_entries ec) id c' r). split; [done |].
    pose proof (lookup_at_index (ec_entries ec) c' ltac:(lia)) as Hlc.
    apply (skip_target_extend _ _ _ c'); [lia | |].
    + intros j e Hj He. pose proof (sorted_lookup_le _ j c' _ _ Hs ltac:(lia) He Hlc). lia.
    + subst r. apply bisect_loop_target; [done | | |]; case_bool_decide; lia.
Qed.

Lemma linearSkipTo_target ec id :
  cursor_wf ec ->
  exists k, linearSkipTo ec id = refresh ec k /\ skip_target (ec_entries ec) id (ec_cursor ec) k.
Proof.
  intros [Hsz _ _ Hpos _]. unfold linearSkipTo. rewrite Hsz in *.
  eexists. split; [done |]. apply linear_loop_target; lia.
Qed.

Lemma refresh_wf ec k :
  cursor_wf ec -> (k <= length (ec_entries ec))%nat -> cursor_wf (refresh ec k).
Proof. intros [Hsz Hs Hlt _ _] Hk. split; simpl; try done. lia. Qed.

Lemma SkipTo_entries ec id : ec_entries (SkipTo ec id) = ec_entries ec.
Proof.
  unfold SkipTo. case_bool_decide; [done |]. by destruct (gallop_loop _ _ _ _ _ _ _).
Qed.

Lemma SkipTo_wf ec id : cursor_wf ec -> id <= NULLENTRY -> cursor_wf (SkipTo ec id).
Proof.
  intros Hwf Hid. destruct (SkipTo_target ec id Hwf Hid) as (k & -> & Hk).
  apply refresh_wf; [done | apply Hk].
Qed.

(** A fresh cursor over a sorted posting list. *)
Lemma NewEntriesCursor_wf key l :
  StronglySorted Z.le l -> Forall (fun e => e < NULLENTRY) l -> cursor_wf (NewEntriesCursor key l).
Proof. intros Hs Hlt. split; simpl; try done; [lia |]. by destruct l. Qed.
