(* ===== verification/FieldCursor.v ===== *)
(** * Field cursors (index_scanner.go, FieldCursor and FieldCursors)

    A field cursor merges the posting lists of the values a query assigns to one
    field; its current entry is the least of theirs.  [FieldCursors.Sort] is the
    hand-written insertion sort of the scanners.  The file ends with the
    frontier: all that a scan needs to know about the position of a cursor. *)

From stdpp Require Import base sorting gmap strings numbers list.
From S2P Require Import Prelude GoValues Ids Document Cursor.
Open Scope Z_scope.

(** ** Definitions *)

(** The pointer [current]: [NewFieldCursor] leaves it at a copy of a cursor
    (the loop variable), [SkipTo] at an element of the group. *)
Inductive CursorPtr :=
| PCopy (ec : EntriesCursor)
| PGroup (i : nat).

Record FieldCursor := {
  fc_current : CursorPtr;
  fc_group : list EntriesCursor
}.

(** [fc.current.curEID].  A pointer into the group is always in range. *)
Definition fc_GetCurEntryID (fc : FieldCursor) : EntryID :=
  match fc_current fc with
  | PCopy ec => ec_curEID ec
  | PGroup i => match fc_group fc !! i with
                | Some ec => ec_curEID ec
                | None => NULLENTRY
                end
  end.

Definition fc_ReachEnd (fc : FieldCursor) : bool := IsNULLEntry (fc_GetCurEntryID fc).

(** The loop of [NewFieldCursor]: keep a copy of the first cursor with the least
    current entry. *)
Definition pick_current (current : option EntriesCursor) (cursor : EntriesCursor)
    : option EntriesCursor :=
  match current with
  | None => Some cursor
  | Some c => if bool_decide (ec_curEID cursor < ec_curEID c) then Some cursor else Some c
  end.

(** With no cursor at all [current] stays nil, and the first [GetCurEntryID]
    dereferences it; both call sites pass at least one cursor. *)
Definition NewFieldCursor (cursors : list EntriesCursor) : res FieldCursor :=
  match foldl pick_current None cursors with
  | None => Panic "nil pointer dereference"
  | Some ec => Ok {| fc_current := PCopy ec; fc_group := cursors |}
  end.

(** The loop of [FieldCursor.SkipTo] from position [idx] of the group on. *)
Fixpoint skip_group (id : EntryID) (idx : nat) (group : list EntriesCursor)
    (newMin : EntryID) (current : CursorPtr) : list EntriesCursor * EntryID * CursorPtr :=
  match group with
  | [] => ([], newMin, current)
  | cur :: group =>
      let cur := SkipTo cur id in
      let eid := ec_curEID cur in
      let '(newMin, current) :=
        if bool_decide (eid <= newMin) then (eid, PGroup idx) else (newMin, current) in
      let '(group, newMin, current) := skip_group id (S idx) group newMin current in
      (cur :: group, newMin, current)
  end.

Definition fc_SkipTo (fc : FieldCursor) (id : EntryID) : FieldCursor :=
  let '(group, _, current) := skip_group id 0 (fc_group fc) NULLENTRY (fc_current fc) in
  {| fc_current := current; fc_group := group |}.

(** [s[j], s[j-1] = s[j-1], s[j]] *)
Definition swap_at (s : list FieldCursor) (i j : nat) : list FieldCursor :=
  match s !! i, s !! j with
  | Some a, Some b => <[i := b]> (<[j := a]> s)
  | _, _ => s
  end.

(** [for j := i; j > 0 && s[j] < s[j-1]; j--] *)
Fixpoint sort_inner (j : nat) (s : list FieldCursor) : list FieldCursor :=
  match j with
  | O => s
  | S j' =>
      match s !! j, s !! j' with
      | Some a, Some b =>
          if bool_decide (fc_GetCurEntryID a < fc_GetCurEntryID b)
          then sort_inner j' (swap_at s j j')
          else s
      | _, _ => s
      end
  end.

Definition FieldCursors_Sort (s : list FieldCursor) : list FieldCursor :=
  let x := length s in
  if bool_decide (x <= 1)%nat then s
  else foldl (fun s i => sort_inner i s) s (seq 1 (x - 1)).

(** ** Sorting *)

Definition fc_le (a b : FieldCursor) : Prop := fc_GetCurEntryID a <= fc_GetCurEntryID b.

#[export] Instance fc_le_preorder : PreOrder fc_le.
Proof. split; unfold fc_le; [intros a; lia | intros a b c; lia]. Qed.

Lemma swap_at_adjacent p b a rest :
  swap_at (p ++ b :: a :: rest) (S (length p)) (length p) = p ++ a :: b :: rest.
Proof.
  unfold swap_at.
  rewrite (lookup_app_r p) by lia. replace (S (length p) - length p)%nat with 1%nat by lia.
  rewrite list_lookup_middle by done. simpl.
  rewrite insert_app_r_alt by lia. rewrite Nat.sub_diag. simpl.
  rewrite insert_app_r_alt by lia. replace (S (length p) - length p)%nat with 1%nat by lia. done.
Qed.

(** One pass of the inner loop inserts the element after a sorted prefix into
    the prefix, and leaves the rest alone. *)
Lemma sort_inner_insert p a rest :
  StronglySorted fc_le p ->
  exists p', sort_inner (length p) (p ++ a :: rest) = p' ++ rest /\
    p' ≡ₚ a :: p /\ StronglySorted fc_le p'.
Proof.
  revert rest. induction p as [|b p IH] using rev_ind; intros rest Hs.
  - exists [a]. repeat split; simpl; auto. repeat constructor.
  - rewrite length_app, Nat.add_1_r. simpl.
    rewrite <- app_assoc. simpl.
    rewrite (lookup_app_r p) by lia. replace (S (length p) - length p)%nat with 1%nat by lia.
    rewrite list_lookup_middle by done. simpl.
    apply StronglySorted_app in Hs as (Hpb & Hp & _).
    case_bool_decide as Hlt.
    + rewrite swap_at_adjacent. destruct (IH (b :: rest) Hp) as (p' & -> & Hperm & Hs').
      exists (p' ++ [b]). rewrite <- app_assoc. repeat split.
      * rewrite Hperm. by rewrite app_comm_cons.
      * apply StronglySorted_app. repeat split; [| done | repeat constructor].
        intros x y Hx Hy%list_elem_of_singleton. subst y.
        rewrite Hperm, elem_of_cons in Hx. destruct Hx as [-> | Hx].
        -- unfold fc_le. lia.
        -- by apply Hpb; [| apply list_elem_of_singleton].
    + exists (p ++ [b; a]). rewrite <- app_assoc. repeat split.
      * rewrite (Permutation_app_comm p). simpl. rewrite Permutation_swap.
        by rewrite (Permutation_app_comm p).
      * apply StronglySorted_app. repeat split.
        -- intros x y Hx. rewrite !elem_of_cons, elem_of_nil. intros [-> | [-> | []]].
           ++ by apply Hpb; [| apply list_elem_of_singleton].
           ++ trans b; [by apply Hpb; [| apply list_elem_of_singleton] | unfold fc_le; lia].
        -- done.
        -- repeat constructor. unfold fc_le. lia.
Qed.

Lemma sort_outer p rest :
  StronglySorted fc_le p ->
  exists s', foldl (fun s i => sort_inner i s) (p ++ rest) (seq (length p) (length rest)) = s' /\
    s' ≡ₚ p ++ rest /\ StronglySorted fc_le s'.
Proof.
  revert p. induction rest as [|a rest IH]; intros p Hs; simpl.
  - exists p. by rewrite app_nil_r.
  - destruct (sort_inner_insert p a rest Hs) as (p' & -> & Hperm & Hs').
    assert (S (length p) = length p') as -> by by rewrite Hperm.
    destruct (IH p' Hs') as (s' & -> & Hperm' & Hss). exists s'. repeat split; auto.
    rewrite Hperm', Hperm. simpl. apply Permutation_middle.
Qed.

Lemma FieldCursors_Sort_spec s :
  FieldCursors_Sort s ≡ₚ s /\ StronglySorted fc_le (FieldCursors_Sort s).
Proof.
  unfold FieldCursors_Sort. destruct s as [|a s]; [by repeat constructor |].
  case_bool_decide as Hx.
  - destruct s; [| simpl in Hx; lia]. by repeat constructor.
  - destruct (sort_outer [a] s) as (s' & Heq & Hp & Hs); [by repeat constructor |].
    simpl in *. rewrite Nat.sub_0_r, Heq. done.
Qed.

(** ** The frontier

    A field cursor is at the frontier [G] when each of its cursors stands at the
    first entry whose conjunction id is at least [G]. *)

Definition fc_entries (fc : FieldCursor) : Entries := fc_group fc ≫= ec_entries.

Definition cursor_at (G : ConjID) (ec : EntriesCursor) : Prop :=
  cursor_wf ec /\ Forall valid_eid (ec_entries ec) /\
  forall i e, ec_entries ec !! i = Some e -> ((i < ec_cursor ec)%nat <-> GetConjID e < G).

Record fc_at (G : ConjID) (fc : FieldCursor) : Prop := {
  fa_cursors : Forall (cursor_at G) (fc_group fc);
  fa_cur_in : fc_GetCurEntryID fc ∈ (ec_curEID <$> fc_group fc);
  fa_cur_min : forall e, e ∈ (ec_curEID <$> fc_group fc) -> fc_GetCurEntryID fc <= e
}.

(** [id] is a skip target that separates the conjunctions below [G] from the
    others. *)
Definition aligned (id : EntryID) (G : ConjID) : Prop :=
  id <= NULLENTRY /\ forall e, valid_eid e -> (id <= e <-> G <= GetConjID e).

Lemma aligned_block_start c : 0 <= c < 2 ^ 60 -> aligned (NewEntryID c false) c.
Proof.
  intros Hc. split; [| intros e; by apply block_start].
  rewrite NewEntryID_arith by done. unfold NULLENTRY. lia.
Qed.

Lemma aligned_block_end c : 0 <= c < 2 ^ 60 -> aligned (u64 (NewEntryID c true + 1)) (c + 1).
Proof.
  intros Hc. split; [| intros e; by apply block_end].
  pose proof (u64_range (NewEntryID c true + 1)). unfold NULLENTRY. lia.
Qed.

Lemma elem_of_fc_entries fc e :
  e ∈ fc_entries fc <-> exists ec, ec ∈ fc_group fc /\ e ∈ ec_entries ec.
Proof.
  unfold fc_entries. rewrite list_elem_of_bind. naive_solver.
Qed.

Lemma cursor_at_skip G G' ec id :
  cursor_at G ec -> G <= G' -> aligned id G' -> cursor_at G' (SkipTo ec id).
Proof.
  intros (Hwf & Hv & Hfront) HG [Hid Hal].
  split; [by apply SkipTo_wf |]. rewrite SkipTo_entries. split; [done |].
  destruct (SkipTo_target ec id Hwf Hid) as (k & -> & Hk). simpl.
  intros i e He.
  assert (valid_eid e) as Hve.
  { rewrite Forall_forall in Hv. apply Hv. by eapply list_elem_of_lookup_2. }
  specialize (Hal e Hve). specialize (Hfront i e He). split.
  - intros Hik. destruct (decide (i < ec_cursor ec)%nat); [lia |].
    pose proof (st_before _ _ _ _ Hk i e ltac:(lia) He). lia.
  - intros Hc. destruct (decide (i < k)%nat); [done |].
    pose proof (skip_target_after _ _ _ _ i e (cwf_sorted _ Hwf) Hk ltac:(lia) He). lia.
Qed.

Lemma cursor_at_stay G G' ec :
  cursor_at G ec -> G <= G' ->
  (forall e, e ∈ ec_entries ec -> G <= GetConjID e -> G' <= GetConjID e) -> cursor_at G' ec.
Proof.
  intros (Hwf & Hv & Hfront) HG Hgap. split; [done |]. split; [done |].
  intros i e He. rewrite (Hfront i e He).
  specialize (Hgap e ltac:(by eapply list_elem_of_lookup_2)). lia.
Qed.

(** The current entry of a cursor at the frontier is the least entry from the
    frontier on. *)
Lemma cursor_at_cur G ec :
  cursor_at G ec ->
  (ec_curEID ec = NULLENTRY /\ forall e, e ∈ ec_entries ec -> GetConjID e < G) \/
  (ec_curEID ec ∈ ec_entries ec /\ G <= GetConjID (ec_curEID ec) /\
   forall e, e ∈ ec_entries ec -> G <= GetConjID e -> ec_curEID ec <= e).
Proof.
  intros (Hwf & Hv & Hfront).
  destruct (cursor_cur_lookup ec Hwf) as [[Hl Hlt] | [Hl Hn]].
  - right. split; [by eapply list_elem_of_lookup_2 |]. split.
    + pose proof (Hfront _ _ Hl). lia.
    + intros e [i He]%list_elem_of_lookup Hc. pose proof (Hfront _ _ He).
      apply (sorted_lookup_le (ec_entries ec) (ec_cursor ec) i);
        [apply Hwf | lia | done | done].
  - left. split; [done |]. intros e [i He]%list_elem_of_lookup.
    apply lookup_ge_None in Hl. pose proof (lookup_lt_Some _ _ _ He).
    apply (Hfront i e He). lia.
Qed.

Lemma fc_at_valid G fc e : fc_at G fc -> e ∈ fc_entries fc -> valid_eid e.
Proof.
  intros [Hc _ _] (ec & Hec & He)%elem_of_fc_entries.
  rewrite Forall_forall in Hc. destruct (Hc ec Hec) as (_ & Hv & _).
  rewrite Forall_forall in Hv. by apply Hv.
Qed.

Lemma fc_at_cur G fc :
  fc_at G fc ->
  (fc_GetCurEntryID fc = NULLENTRY /\ forall e, e ∈ fc_entries fc -> GetConjID e < G) \/
  (fc_GetCurEntryID fc ∈ fc_entries fc /\ G <= GetConjID (fc_GetCurEntryID fc) /\
   forall e, e ∈ fc_entries fc -> G <= GetConjID e -> fc_GetCurEntryID fc <= e).
Proof.
  intros Hat. pose proof Hat as [Hc Hin Hmin]. rewrite Forall_forall in Hc.
  assert (Hbound : forall e, e ∈ fc_entries fc -> G <= GetConjID e -> fc_GetCurEntryID fc <= e).
  { intros e (ec & Hec & He)%elem_of_fc_entries HGe.
    specialize (Hmin (ec_curEID ec) ltac:(by apply list_elem_of_fmap_2)).
    destruct (cursor_at_cur G ec (Hc ec Hec)) as [[_ Hall] | (_ & _ & Hall)].
    - specialize (Hall e He). lia.
    - specialize (Hall e He HGe). lia. }
  apply list_elem_of_fmap in Hin as (ec & Hcur & Hec).
  destruct (cursor_at_cur G ec (Hc ec Hec)) as [[Hn _] | (He & HG & _)].
  - left. rewrite Hcur. split; [done |]. intros e He.
    destruct (decide (GetConjID e < G)); [done | exfalso].
    pose proof (valid_eid_bound e (fc_at_valid G fc e Hat He)).
    specialize (Hbound e He ltac:(lia)). unfold NULLENTRY in *. lia.
  - right. rewrite Hcur in *. split; [| done]. apply elem_of_fc_entries. eauto.
Qed.

Lemma skip_group_spec id idx group newMin current group' newMin' current' :
  skip_group id idx group newMin current = (group', newMin', current') ->
  group' = (fun ec => SkipTo ec id) <$> group /\
  (forall e, e ∈ (ec_curEID <$> group') -> newMin' <= e) /\ newMin' <= newMin /\
  ((newMin' = newMin /\ current' = current /\
    forall e, e ∈ (ec_curEID <$> group') -> newMin < e) \/
   (exists i ec, current' = PGroup (idx + i)%nat /\ group' !! i = Some ec /\ ec_curEID ec = newMin')).
Proof.
  revert idx newMin current group' newMin' current'.
  induction group as [|c group IH]; intros idx newMin current group' newMin' current'; simpl.
  - intros [= <- <- <-]. repeat split; simpl; [set_solver | lia | left; set_solver].
  - destruct (if bool_decide _ then _ else _) as [nm cu] eqn:Hif.
    destruct (skip_group id (S idx) group nm cu) as [[g' nm'] cu'] eqn:Hrec.
    intros [= <- <- <-]. apply IH in Hrec as (-> & Hmin & Hle & Hcase).
    assert (Hnm : nm <= ec_curEID (SkipTo c id) /\ nm <= newMin /\
                  ((nm = newMin /\ cu = current /\ newMin < ec_curEID (SkipTo c id)) \/
                   (nm = ec_curEID (SkipTo c id) /\ cu = PGroup idx))).
    { case_bool_decide; simplify_eq; repeat split; auto; try lia. left. repeat split; auto; lia. }
    destruct Hnm as (Hn1 & Hn2 & Hn3). split; [done |]. split; [| split; [lia |]].
    + intros e. rewrite fmap_cons, elem_of_cons. intros [-> | He]; [lia |].
      specialize (Hmin e He). lia.
    + destruct Hcase as [(-> & -> & Hlt) | (i & ec & -> & Hi & He)].
      * destruct Hn3 as [(-> & -> & Hn3) | (-> & ->)].
        -- left. repeat split; auto. intros e.
           rewrite fmap_cons, elem_of_cons. intros [-> | He]; [done | by apply Hlt].
        -- right. exists 0%nat, (SkipTo c id). rewrite Nat.add_0_r. done.
      * right. exists (S i), ec. rewrite Nat.add_succ_r. done.
Qed.

Lemma fc_SkipTo_entries fc id : fc_entries (fc_SkipTo fc id) = fc_entries fc.
Proof.
  unfold fc_SkipTo.
  destruct (skip_group id 0 (fc_group fc) NULLENTRY (fc_current fc)) as [[g nm] cu] eqn:E.
  apply skip_group_spec in E as (-> & _). unfold fc_entries. simpl.
  clear. induction (fc_group fc) as [|ec group IH]; [done |].
  rewrite fmap_cons, !bind_cons, SkipTo_entries. by f_equal.
Qed.

Lemma fc_at_skip G G' fc id :
  fc_at G fc -> G <= G' -> aligned id G' -> fc_at G' (fc_SkipTo fc id).
Proof.
  intros [Hc Hin Hmin] HG Hal. unfold fc_SkipTo.
  destruct (skip_group id 0 (fc_group fc) NULLENTRY (fc_current fc)) as [[g nm] cu] eqn:E.
  apply skip_group_spec in E as (-> & Hnm & _ & Hcase).
  assert (Hat : Forall (cursor_at G') ((fun ec => SkipTo ec id) <$> fc_group fc)).
  { rewrite Forall_fmap. eapply Forall_impl; [exact Hc |]. intros ec Hec.
    by eapply cursor_at_skip. }
  destruct Hcase as [(_ & _ & Hlt) | (i & ec & -> & Hi & <-)].
  - exfalso. apply list_elem_of_fmap in Hin as (ec & _ & Hec).
    rewrite Forall_forall in Hat.
    assert (SkipTo ec id ∈ (fun ec => SkipTo ec id) <$> fc_group fc) as Hs
      by by apply (list_elem_of_fmap_2 (fun ec => SkipTo ec id)).
    specialize (Hlt (ec_curEID (SkipTo ec id)) ltac:(by apply list_elem_of_fmap_2)).
    destruct (Hat _ Hs) as [Hwf _].
    destruct (cursor_cur_lookup _ Hwf) as [[_ ?] | [_ ?]]; lia.
  - assert (Hget : fc_GetCurEntryID {| fc_current := PGroup (0 + i);
                     fc_group := (fun ec => SkipTo ec id) <$> fc_group fc |} = ec_curEID ec).
    { unfold fc_GetCurEntryID. cbn [fc_current fc_group]. by rewrite Nat.add_0_l, Hi. }
    split; [done | |]; rewrite Hget; cbn [fc_group].
    + apply list_elem_of_fmap_2. by eapply list_elem_of_lookup_2.
    + done.
Qed.

Lemma fc_at_stay G G' fc :
  fc_at G fc -> G <= G' ->
  (forall e, e ∈ fc_entries fc -> G <= GetConjID e -> G' <= GetConjID e) -> fc_at G' fc.
Proof.
  intros [Hc Hin Hmin] HG Hgap. split; [| done | done].
  rewrite Forall_forall in *. intros ec Hec. apply (cursor_at_stay G); [by apply Hc | done |].
  intros e He. apply Hgap, elem_of_fc_entries. eauto.
Qed.

(** ** Fresh field cursors *)

Lemma pick_current_spec cursors cur :
  exists ec, foldl pick_current (Some cur) cursors = Some ec /\
    (ec = cur \/ ec ∈ cursors) /\ ec_curEID ec <= ec_curEID cur /\
    forall c, c ∈ cursors -> ec_curEID ec <= ec_curEID c.
Proof.
  revert cur. induction cursors as [|c cursors IH]; intros cur; simpl.
  - exists cur. repeat split; auto; [lia | set_solver].
  - destruct (IH (if bool_decide (ec_curEID c < ec_curEID cur) then c else cur))
      as (ec & Hf & Hin & Hle & Hall).
    exists ec. split; [by case_bool_decide |].
    case_bool_decide; (split; [set_solver |]); (split; [lia |]);
      intros c'; rewrite elem_of_cons; intros [-> | Hc']; auto; lia.
Qed.

(** A fresh cursor over sorted, valid entries is at every frontier that no
    entry is below. *)
Lemma NewFieldCursor_at cursors :
  cursors <> [] -> Forall (cursor_at 0) cursors ->
  exists fc, NewFieldCursor cursors = Ok fc /\ fc_group fc = cursors /\ fc_at 0 fc.
Proof.
  intros Hne Hall. unfold NewFieldCursor.
  destruct cursors as [|c cursors]; [done |]. simpl.
  destruct (pick_current_spec cursors c) as (ec & -> & Hin & Hle & Hmin).
  eexists. split; [done |]. split; [done |].
  split; [done | |]; unfold fc_GetCurEntryID; simpl.
  - apply elem_of_cons. destruct Hin as [-> | Hin]; [by left | right].
    by apply list_elem_of_fmap_2.
  - intros e. rewrite elem_of_cons. intros [-> | He]; [done |].
    apply list_elem_of_fmap in He as (c' & -> & Hc'). by apply Hmin.
Qed.

Lemma NewEntriesCursor_at key l :
  StronglySorted Z.le l -> Forall valid_eid l -> cursor_at 0 (NewEntriesCursor key l).
Proof.
  intros Hs Hv. split; [| split; [done |]].
  - apply NewEntriesCursor_wf; [done |]. eapply Forall_impl; [exact Hv |].
    intros e He%valid_eid_bound. lia.
  - simpl. intros i e He. split; [lia |].
    rewrite Forall_forall in Hv. specialize (Hv e ltac:(by eapply list_elem_of_lookup_2)).
    apply valid_eid_arith in Hv as [Hc _]. unfold valid_conj in Hc. lia.
Qed.
