(* ===== verification/Collector.v ===== *)
(** * Result collectors (result_collector.go) and the bitmaps they use

    [roaring64.Bitmap] is a third-party set of uint64 values: its operations are
    a class, its documented behaviour (a finite set, iterated in increasing
    order) a class of laws.  [DocIDCollector] collects matched documents in such
    a bitmap and is recycled through a pool. *)

From stdpp Require Import base sorting gmap strings numbers list.
From S2P Require Import Prelude GoValues Ids.
Open Scope Z_scope.

(** ** Bitmaps *)

Class Roaring64 (B : Type) := {
  bm_new : B;
  bm_add : B -> Z -> B;
  bm_clear : B -> B;
  bm_or : B -> B -> B;
  bm_and : B -> B -> B;
  bm_andnot : B -> B -> B;
  bm_cardinality : B -> Z;
  bm_iter : B -> list Z
}.

(** [IsEmpty], [AddMany] and [ToArray] in terms of the others. *)
Definition bm_is_empty {B} `{Roaring64 B} (b : B) : bool := bool_decide (bm_cardinality b = 0).
Definition bm_add_many {B} `{Roaring64 B} (b : B) (xs : list Z) : B := foldl bm_add b xs.

Class Roaring64Spec (B : Type) `{Roaring64 B} : Prop := {
  bm_iter_sorted : forall b, StronglySorted Z.lt (bm_iter b);
  bm_iter_new : bm_iter bm_new = [];
  bm_iter_clear : forall b, bm_iter (bm_clear b) = [];
  elem_of_bm_add : forall b x y, y ∈ bm_iter (bm_add b x) <-> y = x \/ y ∈ bm_iter b;
  elem_of_bm_or : forall b b' y, y ∈ bm_iter (bm_or b b') <-> y ∈ bm_iter b \/ y ∈ bm_iter b';
  elem_of_bm_and : forall b b' y, y ∈ bm_iter (bm_and b b') <-> y ∈ bm_iter b /\ y ∈ bm_iter b';
  elem_of_bm_andnot : forall b b' y,
    y ∈ bm_iter (bm_andnot b b') <-> y ∈ bm_iter b /\ y ∉ bm_iter b';
  bm_cardinality_length : forall b, bm_cardinality b = Z.of_nat (length (bm_iter b))
}.

(** ** Collectors *)

Class ResultCollector (C : Type) := {
  Add : C -> DocID -> ConjID -> C;
  GetDocIDs : C -> list DocID
}.

(** [ctx.collector.Add(conjID.DocID(), conjID)], for each conjunction found. *)
Definition add_conj {C} `{ResultCollector C} (c : C) (conjID : ConjID) : C :=
  Add c (conj_DocID conjID) conjID.

Record DocIDCollector (B : Type) := { docBits : B }.
Arguments docBits {B} _.

Section DocIDCollector.
Context {B : Type} `{Roaring64 B}.

Definition NewDocIDCollector : DocIDCollector B := {| docBits := bm_new |}.

Definition DocCount (c : DocIDCollector B) : Z := bm_cardinality (docBits c).

Definition collector_Reset (c : DocIDCollector B) : DocIDCollector B :=
  {| docBits := bm_clear (docBits c) |}.

Definition DocIDCollector_Add (c : DocIDCollector B) (docID : DocID) (_ : ConjID)
    : DocIDCollector B :=
  {| docBits := bm_add (docBits c) (u64 docID) |}.

Definition DocIDCollector_GetDocIDs (c : DocIDCollector B) : list DocID :=
  if bool_decide (DocCount c = 0) then []
  else foldl (fun ids x => ids ++ [i64 x]) [] (bm_iter (docBits c)).

(** [GetDocIDsInto] appends to the caller's list. *)
Definition GetDocIDsInto (c : DocIDCollector B) (ids : list DocID) : list DocID :=
  if bool_decide (DocCount c = 0) then ids
  else foldl (fun ids x => ids ++ [i64 x]) ids (bm_iter (docBits c)).

#[export] Instance DocIDCollector_collector : ResultCollector (DocIDCollector B) := {
  Add := DocIDCollector_Add;
  GetDocIDs := DocIDCollector_GetDocIDs
}.

(** [collectorPool] (be_indexer.go): [sync.Pool] hands out a pooled collector or
    makes a new one. *)
Definition PickCollector (pool : list (DocIDCollector B))
    : list (DocIDCollector B) * DocIDCollector B :=
  match pool with
  | [] => ([], NewDocIDCollector)
  | c :: pool => (pool, c)
  end.

Definition PutCollector (pool : list (DocIDCollector B)) (c : DocIDCollector B)
    : list (DocIDCollector B) :=
  collector_Reset c :: pool.

(** Everything in the pool is empty. *)
Definition pool_ok (pool : list (DocIDCollector B)) : Prop :=
  Forall (fun c => bm_iter (docBits c) = []) pool.

End DocIDCollector.

(** ** Lemmas *)

Section CollectorFacts.
Context {B : Type} `{Roaring64Spec B}.
Implicit Types (c : DocIDCollector B) (pool : list (DocIDCollector B)).

Lemma bm_is_empty_spec (b : B) : bm_is_empty b = true <-> bm_iter b = [].
Proof.
  unfold bm_is_empty. rewrite bool_decide_eq_true, bm_cardinality_length.
  split; [| intros ->; done]. intros Hz. apply nil_length_inv. lia.
Qed.

Lemma elem_of_bm_add_many (b : B) xs y :
  y ∈ bm_iter (bm_add_many b xs) <-> y ∈ xs \/ y ∈ bm_iter b.
Proof.
  unfold bm_add_many. revert b. induction xs as [|x xs IH]; intros b; simpl; [set_solver |].
  rewrite IH, elem_of_bm_add, elem_of_cons. tauto.
Qed.

Lemma GetDocIDs_fmap c : GetDocIDs c = i64 <$> bm_iter (docBits c).
Proof.
  simpl. unfold DocIDCollector_GetDocIDs, DocCount. rewrite foldl_snoc_map.
  case_bool_decide as Hz; [| done].
  rewrite bm_cardinality_length in Hz.
  rewrite (nil_length_inv (bm_iter (docBits c))); [done | lia].
Qed.

Lemma GetDocIDsInto_spec c ids : GetDocIDsInto c ids = ids ++ GetDocIDs c.
Proof.
  rewrite GetDocIDs_fmap. unfold GetDocIDsInto, DocCount. rewrite foldl_snoc_map.
  case_bool_decide as Hz; [| done].
  rewrite bm_cardinality_length in Hz.
  rewrite (nil_length_inv (bm_iter (docBits c))); [by rewrite app_nil_r | lia].
Qed.

Lemma PickCollector_empty pool pool' c :
  pool_ok pool -> PickCollector pool = (pool', c) -> pool_ok pool' /\ bm_iter (docBits c) = [].
Proof.
  intros Hp. destruct Hp as [|c0 pool Hc Hp]; simpl; intros [= <- <-].
  - split; [constructor | apply bm_iter_new].
  - done.
Qed.

Lemma PutCollector_ok pool c : pool_ok pool -> pool_ok (PutCollector pool c).
Proof. intros Hp. constructor; [apply bm_iter_clear | done]. Qed.

(** The bits of a collector after the conjunctions [hits] were added. *)
Lemma docBits_add_conj c (hits : list ConjID) x :
  x ∈ bm_iter (docBits (foldl add_conj c hits)) <->
  (exists h, h ∈ hits /\ x = u64 (conj_DocID h)) \/ x ∈ bm_iter (docBits c).
Proof.
  revert c. induction hits as [|h hits IH]; intros c; simpl.
  - split; [by right | intros [(h & Hh & _) | Hx]; [elem_nil | done]].
  - rewrite IH. unfold add_conj. simpl. rewrite elem_of_bm_add.
    split.
    + intros [(h' & Hh' & ->) | [-> | Hx]]; [left; exists h' | left; exists h | by right];
        set_solver.
    + intros [(h' & Hh' & ->) | Hx]; [| tauto].
      apply elem_of_cons in Hh' as [-> | Hh']; [tauto | left; eauto].
Qed.

(** An answer is determined by the ids in it. *)
Lemma u64_sorted_unique (l l' : list Z) :
  StronglySorted (fun x y => u64 x < u64 y) l -> StronglySorted (fun x y => u64 x < u64 y) l' ->
  (forall x, x ∈ l <-> x ∈ l') -> l = l'.
Proof.
  intros Hs. revert l'. induction Hs as [|x l Hs IH Hx]; intros l' Hs' Heq.
  - destruct l' as [|y l']; [done |]. assert (y ∈ []) as Hy by (apply Heq; by left).
    elem_nil.
  - destruct Hs' as [|y l' Hs' Hy].
    { assert (x ∈ []) as Hin by (apply Heq; by left). elem_nil. }
    rewrite Forall_forall in Hx, Hy.
    assert (x = y) as <-.
    { assert (x ∈ y :: l') as Hxy by (apply Heq; by left).
      assert (y ∈ x :: l) as Hyx by (apply Heq; by left).
      apply elem_of_cons in Hxy as [-> | Hxy]; [done |].
      apply elem_of_cons in Hyx as [-> | Hyx]; [done |].
      specialize (Hx y Hyx). specialize (Hy x Hxy). lia. }
    f_equal. apply IH; [done |]. intros z. specialize (Heq z). rewrite !elem_of_cons in Heq.
    split; intros Hz.
    + destruct (proj1 Heq (or_intror Hz)) as [-> | ?]; [specialize (Hx x Hz); lia | done].
    + destruct (proj2 Heq (or_intror Hz)) as [-> | ?]; [specialize (Hy x Hz); lia | done].
Qed.

(** The documents a collector reports are increasing as uint64 values, hence
    without duplicates. *)
Lemma GetDocIDs_sorted c :
  (forall x, x ∈ bm_iter (docBits c) -> exists d, is_i64 d /\ x = u64 d) ->
  StronglySorted (fun a b => u64 a < u64 b) (GetDocIDs c).
Proof.
  rewrite GetDocIDs_fmap. pose proof (bm_iter_sorted (docBits c)) as Hs.
  induction Hs as [|x l Hs IH Hx]; intros Hd; simpl; constructor.
  - apply IH. intros y Hy. apply Hd. by right.
  - rewrite Forall_fmap. rewrite Forall_forall in *. intros y Hy. simpl.
    destruct (Hd x) as (d & Hdx & ->); [by left |].
    destruct (Hd y) as (d' & Hdy & ->); [by right |].
    rewrite !i64_u64 by done. by apply Hx.
Qed.

End CollectorFacts.

(** ** A concrete bitmap: a strictly increasing list *)

Definition zset : Type := gset Z.

Definition zset_iter (s : zset) : list Z := sortZ (elements s).

#[export] Instance zset_roaring : Roaring64 zset := {
  bm_new := ∅;
  bm_add s x := {[x]} ∪ s;
  bm_clear _ := ∅;
  bm_or s s' := s ∪ s';
  bm_and s s' := s ∩ s';
  bm_andnot s s' := s ∖ s';
  bm_cardinality s := Z.of_nat (size s);
  bm_iter := zset_iter
}.

Lemma elem_of_zset_iter (s : zset) x : x ∈ zset_iter s <-> x ∈ s.
Proof. unfold zset_iter. by rewrite elem_of_sortZ, elem_of_elements. Qed.

Lemma sorted_le_nodup_lt (l : list Z) :
  StronglySorted Z.le l -> NoDup l -> StronglySorted Z.lt l.
Proof.
  induction 1 as [|x l Hs IH Hx]; intros Hnd; constructor;
    apply NoDup_cons in Hnd as [Hnx Hnd]; [by apply IH |].
  rewrite Forall_forall in *. intros y Hy. specialize (Hx y Hy).
  assert (x <> y) by congruence. lia.
Qed.

#[export] Instance zset_roaring_spec : Roaring64Spec zset.
Proof.
  split; simpl; try setoid_rewrite elem_of_zset_iter; unfold zset.
  - intros b. apply sorted_le_nodup_lt; [apply sortZ_sorted |].
    unfold zset_iter. rewrite sortZ_perm. apply NoDup_elements.
  - done.
  - done.
  - set_solver.
  - set_solver.
  - set_solver.
  - set_solver.
  - intros b. unfold zset_iter. by rewrite length_sortZ.
Qed.
