(* ===== verification/Scan.v ===== *)
(** * Scanning field cursors
      (be_indexer_kgroups.go retrieveK, be_indexer_compact.go RetrieveWithCollector)

    The loops that walk the sorted field cursors and report conjunctions.  A
    conjunction is reported when enough fields stand at an include entry of it
    and no field at an exclude entry.  Both scanners are proved to report exactly
    these conjunctions, each once, in increasing order, and to terminate. *)

From stdpp Require Import base sorting gmap strings numbers list.
From S2P Require Import Prelude GoValues Ids Document Cursor FieldCursor Collector.
Open Scope Z_scope.

(** ** Definitions *)

Section Scanners.
Context {C : Type} `{ResultCollector C}.

(** [for i := needMatchCnt; i < len(fieldCursors); i++] of the exclude branch. *)
Definition skip_tail (need : nat) (nextID : EntryID) (fcs : list FieldCursor) : list FieldCursor :=
  take need fcs ++
  ((fun fc => if bool_decide (fc_GetCurEntryID fc < nextID) then fc_SkipTo fc nextID else fc)
     <$> drop need fcs).

(** [for i := 0; i < needMatchCnt; i++ { fieldCursors[i].SkipTo(nextID) }] *)
Definition skip_head (need : nat) (nextID : EntryID) (fcs : list FieldCursor) : list FieldCursor :=
  ((fun fc => fc_SkipTo fc nextID) <$> take need fcs) ++ drop need fcs.

(** The body of one round, the same code in both scanners: compare the
    conjunctions at position 0 and at position [need-1], report or reject, and
    advance.  [eid] and [endEID] are the entries at these positions. *)
Definition scan_round (need : nat) (eid endEID : EntryID) (fcs : list FieldCursor) (c : C)
    : list FieldCursor * C :=
  let conjID := GetConjID eid in
  let endConjID := GetConjID endEID in
  if bool_decide (conjID = endConjID) then
    let nextID := u64 (NewEntryID endConjID true + 1) in
    if IsInclude eid then
      (skip_head need nextID fcs, add_conj c conjID)
    else
      (skip_head need nextID (skip_tail need nextID fcs), c)
  else
    (skip_head need (NewEntryID endConjID false) fcs, c).

(** The loop of [retrieveK]. *)
Fixpoint retrieveK_loop (fuel : nat) (need : nat) (fcs : list FieldCursor) (c : C) : res C :=
  match fuel with
  | O => OutOfFuel
  | S fuel =>
      match fcs !! 0%nat, fcs !! (need - 1)%nat with
      | Some f0, Some fe =>
          if IsNULLEntry (fc_GetCurEntryID fe) then Ok c
          else
            let '(fcs, c) := scan_round need (fc_GetCurEntryID f0) (fc_GetCurEntryID fe) fcs c in
            retrieveK_loop fuel need (FieldCursors_Sort fcs) c
      | _, _ => Panic "index out of range"
      end
  end.

(** Each round passes at least one entry, so the number of entries bounds the
    number of rounds. *)
Definition scan_fuel (fcs : list FieldCursor) : nat := S (length (fcs ≫= fc_entries)).

Definition retrieveK (fcs : list FieldCursor) (need : nat) (c : C) : res C :=
  if bool_decide (length fcs < need)%nat then Ok c
  else retrieveK_loop (scan_fuel fcs) need (FieldCursors_Sort fcs) c.

(** [for len(fieldCursors) > 0 && fieldCursors[len-1].ReachEnd() { ... }]: drop
    the exhausted cursors from the end. *)
Fixpoint trim_rev (rfcs : list FieldCursor) : list FieldCursor :=
  match rfcs with
  | fc :: rest => if fc_ReachEnd fc then trim_rev rest else rfcs
  | [] => []
  end.

Definition trim_ended (fcs : list FieldCursor) : list FieldCursor :=
  reverse (trim_rev (reverse fcs)).

(** [util.MaxInt(1, conjID.Size())] *)
Definition compact_need (conjID : ConjID) : nat := Z.to_nat (MaxInt 1 (conj_Size conjID)).

(** The loop of [CompactBEIndex.RetrieveWithCollector]. *)
Fixpoint compact_loop (fuel : nat) (fcs : list FieldCursor) (c : C) : res C :=
  match fuel with
  | O => OutOfFuel
  | S fuel =>
      match fcs with
      | [] => Ok c
      | f0 :: _ =>
          let eid := fc_GetCurEntryID f0 in
          let need := compact_need (GetConjID eid) in
          if bool_decide (length fcs < need)%nat then Ok c
          else
            match fcs !! (need - 1)%nat with
            | Some fe =>
                let '(fcs, c) := scan_round need eid (fc_GetCurEntryID fe) fcs c in
                compact_loop fuel (trim_ended (FieldCursors_Sort fcs)) c
            | None => Panic "index out of range"
            end
      end
  end.

Definition compact_scan (fcs : list FieldCursor) (c : C) : res C :=
  compact_loop (scan_fuel fcs) (FieldCursors_Sort fcs) c.

End Scanners.

(** ** What a scan must report

    [E] lists, for each field of the query, the entries of its posting lists. *)

(** In how many fields conjunction [c] is included. *)
Definition count_inc (E : list Entries) (c : ConjID) : nat :=
  length (filter (fun es => NewEntryID c true ∈ es) E).

Definition excluded (E : list Entries) (c : ConjID) : Prop :=
  Exists (fun es => NewEntryID c false ∈ es) E.

Definition matched (E : list Entries) (n : nat) (c : ConjID) : Prop :=
  (n <= count_inc E c)%nat /\ ~ excluded E c.

(** Entries still to be scanned from the frontier [G] on. *)
Definition remaining (E : list Entries) (G : ConjID) : nat :=
  length (filter (fun e => G <= GetConjID e) (mjoin E)).

(** ** Lemmas *)

#[export] Instance count_inc_perm : Proper ((≡ₚ) ==> (=) ==> (=)) count_inc.
Proof. intros E E' HE c c' <-. unfold count_inc. by rewrite HE. Qed.

#[export] Instance excluded_perm : Proper ((≡ₚ) ==> (=) ==> iff) excluded.
Proof. intros E E' HE c c' <-. unfold excluded. by rewrite HE. Qed.

#[export] Instance matched_perm : Proper ((≡ₚ) ==> (=) ==> (=) ==> iff) matched.
Proof. intros E E' HE n n' <- c c' <-. unfold matched. by rewrite HE. Qed.

#[export] Instance remaining_perm : Proper ((≡ₚ) ==> (=) ==> (=)) remaining.
Proof. intros E E' HE G G' <-. unfold remaining. by rewrite HE. Qed.

Lemma excluded_spec E c : excluded E c <-> exists es, es ∈ E /\ NewEntryID c false ∈ es.
Proof. unfold excluded. rewrite Exists_exists. naive_solver. Qed.

Lemma count_inc_app E E' c : count_inc (E ++ E') c = (count_inc E c + count_inc E' c)%nat.
Proof. unfold count_inc. by rewrite filter_app, length_app. Qed.

Lemma count_inc_le E c : (count_inc E c <= length E)%nat.
Proof. unfold count_inc. apply length_filter. Qed.

Lemma count_inc_none E c :
  (forall es, es ∈ E -> NewEntryID c true ∉ es) -> count_inc E c = 0%nat.
Proof.
  intros Hno. unfold count_inc. apply length_zero_iff_nil.
  apply elem_of_nil_inv. intros es (Hin & He)%list_elem_of_filter. by apply (Hno es).
Qed.

Lemma count_inc_all E c :
  (forall es, es ∈ E -> NewEntryID c true ∈ es) -> count_inc E c = length E.
Proof.
  intros Hall. induction E as [|es E IH]; [done |].
  unfold count_inc in *. rewrite filter_cons, decide_True by (apply Hall; by left).
  simpl. rewrite IH; [done |]. intros es' Hes'. apply Hall. by right.
Qed.

Lemma remaining_decreases E G G' e :
  e ∈ mjoin E -> G <= GetConjID e < G' -> (remaining E G' < remaining E G)%nat.
Proof.
  unfold remaining. intros Hin HG.
  apply list_elem_of_split in Hin as (l1 & l2 & ->).
  rewrite !filter_app, !length_app, !filter_cons.
  rewrite decide_False, decide_True by lia. simpl.
  assert (Hmono : forall l : list Z,
    (length (filter (fun e => (G' <= GetConjID e)%Z) l)
     <= length (filter (fun e => (G <= GetConjID e)%Z) l))%nat).
  { induction l as [|x l IH]; [done |]. rewrite !filter_cons.
    repeat case_decide; simpl; lia. }
  pose proof (Hmono l1). pose proof (Hmono l2). lia.
Qed.

Lemma remaining_le E G : (remaining E G <= length (mjoin E))%nat.
Proof. unfold remaining. apply length_filter. Qed.

(** *** Order of valid entries and of their conjunctions *)

Lemma conj_mono e e' : e <= e' -> GetConjID e <= GetConjID e'.
Proof. rewrite !GetConjID_div. intros. apply Z.div_le_mono; lia. Qed.

(** An entry of field [fc] at or after the frontier is not before the field's
    current entry. *)
Lemma fc_cur_le G fc e :
  fc_at G fc -> e ∈ fc_entries fc -> G <= GetConjID e -> fc_GetCurEntryID fc <= e.
Proof.
  intros Hat He HG. destruct (fc_at_cur G fc Hat) as [[_ Hall] | (_ & _ & Hall)].
  - specialize (Hall e He). lia.
  - by apply Hall.
Qed.

(** Frontier advance for a cursor that stands past the new frontier. *)
Lemma fc_at_past G G' fc :
  fc_at G fc -> G <= G' -> G' <= GetConjID (fc_GetCurEntryID fc) -> fc_at G' fc.
Proof.
  intros Hat HG Hcur. apply (fc_at_stay G); [done | done |].
  intros e He Hge. pose proof (conj_mono _ _ (fc_cur_le G fc e Hat He Hge)). lia.
Qed.

(** *** Sorted field cursors *)

Lemma fcs_lookup_le fcs i j a b :
  StronglySorted fc_le fcs -> (i <= j)%nat -> fcs !! i = Some a -> fcs !! j = Some b -> fc_le a b.
Proof.
  intros Hsorted. revert i j.
  induction Hsorted as [|x l Hs IH Hx]; intros i j Hij Hi Hj; [done |].
  rewrite Forall_forall in Hx. destruct i as [|i], j as [|j]; simpl in *; simplify_eq.
  - done.
  - apply Hx. by eapply list_elem_of_lookup_2.
  - lia.
  - apply (IH i j); [lia | done | done].
Qed.

Lemma fcs_head_le fcs f0 fc :
  StronglySorted fc_le fcs -> fcs !! 0%nat = Some f0 -> fc ∈ fcs -> fc_le f0 fc.
Proof.
  intros Hs Hf0 [i Hi]%list_elem_of_lookup.
  apply (fcs_lookup_le fcs 0 i); [done | lia | done | done].
Qed.

Lemma fcs_drop_ge fcs i n fe fc :
  StronglySorted fc_le fcs -> fcs !! i = Some fe -> (i <= n)%nat -> fc ∈ drop n fcs -> fc_le fe fc.
Proof.
  intros Hs Hfe Hin [k Hk]%list_elem_of_lookup. rewrite lookup_drop in Hk.
  apply (fcs_lookup_le fcs i (n + k)); [done | lia | done | done].
Qed.

Section Round.
Context {C : Type} `{ResultCollector C}.
Variables (need : nat) (G : ConjID) (fcs : list FieldCursor) (f0 fe : FieldCursor).
Hypothesis Hat : Forall (fc_at G) fcs.
Hypothesis Hsorted : StronglySorted fc_le fcs.
Hypothesis Hneed : (1 <= need)%nat.
Hypothesis Hf0 : fcs !! 0%nat = Some f0.
Hypothesis Hfe : fcs !! (need - 1)%nat = Some fe.
Hypothesis Hend : fc_GetCurEntryID fe <> NULLENTRY.

Let E := fc_entries <$> fcs.
Let eid := fc_GetCurEntryID f0.
Let endEID := fc_GetCurEntryID fe.

Lemma round_at fc : fc ∈ fcs -> fc_at G fc.
Proof. rewrite Forall_forall in Hat. apply Hat. Qed.

Lemma round_head_le fc : fc ∈ fcs -> eid <= fc_GetCurEntryID fc.
Proof. by apply fcs_head_le. Qed.

Lemma round_tail_ge fc : fc ∈ drop (need - 1) fcs -> endEID <= fc_GetCurEntryID fc.
Proof. by apply (fcs_drop_ge fcs (need - 1)). Qed.

Lemma round_tail_ge' fc : fc ∈ drop need fcs -> endEID <= fc_GetCurEntryID fc.
Proof. apply (fcs_drop_ge fcs (need - 1)); [done | done | lia]. Qed.

Lemma round_take_le fc : fc ∈ take need fcs -> fc_GetCurEntryID fc <= endEID.
Proof.
  intros [i [Hi Hlt]%lookup_take_Some]%list_elem_of_lookup.
  apply (fcs_lookup_le fcs i (need - 1)); [done | lia | done | done].
Qed.

Lemma round_end_spec :
  endEID ∈ fc_entries fe /\ G <= GetConjID endEID /\ valid_eid endEID.
Proof.
  assert (Hin : fe ∈ fcs) by by eapply list_elem_of_lookup_2.
  destruct (fc_at_cur G fe (round_at fe Hin)) as [[? _] | (He & HG & _)]; [done |].
  split; [done |]. split; [done |]. by apply (fc_at_valid G fe _ (round_at fe Hin)).
Qed.

Lemma round_head_spec :
  eid ∈ fc_entries f0 /\ G <= GetConjID eid /\ valid_eid eid /\ f0 ∈ fcs.
Proof.
  assert (Hin : f0 ∈ fcs) by by eapply list_elem_of_lookup_2.
  destruct (fc_at_cur G f0 (round_at f0 Hin)) as [[Hn _] | (He & HG & _)].
  - exfalso. destruct round_end_spec as (_ & _ & Hv%valid_eid_bound).
    pose proof (round_head_le fe ltac:(by eapply list_elem_of_lookup_2)) as Hle.
    unfold eid, endEID, NULLENTRY in *. lia.
  - repeat split; auto. by apply (fc_at_valid G f0 _ (round_at f0 Hin)).
Qed.

(** A conjunction before the end one is included in fewer than [need] fields. *)
Lemma round_below c :
  valid_conj c -> G <= c -> c < GetConjID endEID -> ~ matched E need c.
Proof.
  intros Hv HG Hlt [Hcnt _].
  assert (Hsplit : E = (fc_entries <$> take (need - 1) fcs) ++ (fc_entries <$> drop (need - 1) fcs))
    by (unfold E; by rewrite <- fmap_app, take_drop).
  rewrite Hsplit, count_inc_app, (count_inc_none (fc_entries <$> drop (need - 1) fcs)) in Hcnt.
  - pose proof (count_inc_le (fc_entries <$> take (need - 1) fcs) c) as Hle.
    rewrite length_fmap, length_take in Hle. lia.
  - intros es (fc & -> & Hfc)%list_elem_of_fmap Hin.
    assert (fc ∈ fcs) as Hfc'.
    { rewrite <- (take_drop (need - 1) fcs). apply elem_of_app. by right. }
    assert (GetConjID (NewEntryID c true) = c) as Hc
      by (apply GetConjID_NewEntryID; unfold valid_conj in Hv; lia).
    pose proof (fc_cur_le G fc _ (round_at fc Hfc') Hin ltac:(lia)) as Hcur.
    pose proof (conj_mono _ _ (round_tail_ge fc Hfc)).
    pose proof (conj_mono _ _ Hcur). lia.
Qed.

(** When the conjunction of position [need-1] is also the first one and its
    first entry is an include entry, it is matched. *)
Lemma round_take_inc fc :
  GetConjID eid = GetConjID endEID -> IsInclude eid = true -> fc ∈ take need fcs ->
  NewEntryID (GetConjID eid) true ∈ fc_entries fc.
Proof.
  intros Heq Hinc Hfc.
  assert (Hin : fc ∈ fcs).
  { rewrite <- (take_drop need fcs). apply elem_of_app. by left. }
  pose proof (round_head_le fc Hin) as H1. pose proof (round_take_le fc Hfc) as H2.
  destruct round_head_spec as (_ & _ & Hv0 & _). destruct round_end_spec as (_ & _ & Hve).
  apply valid_eid_arith in Hv0 as [_ Hv0]. apply valid_eid_arith in Hve as [Hvc Hve].
  destruct (fc_at_cur G fc (round_at fc Hin)) as [[Hn _] | (He & _ & _)].
  - exfalso. unfold valid_conj, NULLENTRY in *. destruct (IsInclude endEID); lia.
  - assert (fc_GetCurEntryID fc = NewEntryID (GetConjID eid) true) as <-; [| done].
    rewrite NewEntryID_arith by (unfold valid_conj in Hvc; lia).
    rewrite Hinc in Hv0. destruct (IsInclude endEID); lia.
Qed.

Lemma round_inc_not_excluded :
  IsInclude eid = true -> ~ excluded E (GetConjID eid).
Proof.
  intros Hinc (es & Hes & Hin)%excluded_spec.
  apply list_elem_of_fmap in Hes as (fc & -> & Hfc).
  destruct round_head_spec as (_ & HG & Hv0 & _).
  apply valid_eid_arith in Hv0 as [Hvc Hv0]. unfold valid_conj in Hvc.
  pose proof (fc_cur_le G fc _ (round_at fc Hfc) Hin) as Hle.
  rewrite GetConjID_NewEntryID in Hle by lia. specialize (Hle HG).
  pose proof (round_head_le fc Hfc). rewrite NewEntryID_arith in Hle by lia.
  rewrite Hinc in Hv0. lia.
Qed.

Lemma round_matched :
  GetConjID eid = GetConjID endEID -> IsInclude eid = true -> matched E need (GetConjID eid).
Proof.
  intros Heq Hinc. split; [| by apply round_inc_not_excluded].
  assert (E = (fc_entries <$> take need fcs) ++ (fc_entries <$> drop need fcs)) as ->
    by (unfold E; by rewrite <- fmap_app, take_drop).
  rewrite count_inc_app, (count_inc_all (fc_entries <$> take need fcs)).
  - rewrite length_fmap, length_take. apply lookup_lt_Some in Hfe. lia.
  - intros es (fc & -> & Hfc)%list_elem_of_fmap. by apply round_take_inc.
Qed.

Lemma round_exc_not_matched : IsInclude eid = false -> ~ matched E need (GetConjID eid).
Proof.
  intros Hexc [_ Hno]. apply Hno, excluded_spec.
  destruct round_head_spec as (He & _ & Hv & Hf).
  exists (fc_entries f0). split; [by apply list_elem_of_fmap_2 |].
  rewrite <- Hexc. by rewrite <- valid_eid_eta.
Qed.

(** If no more than [need] fields include the reported conjunction, the cursors
    after position [need-1] are already past it. *)
Lemma round_tail_past fc :
  GetConjID eid = GetConjID endEID -> IsInclude eid = true ->
  (count_inc E (GetConjID eid) <= need)%nat ->
  fc ∈ drop need fcs -> GetConjID eid + 1 <= GetConjID (fc_GetCurEntryID fc).
Proof.
  intros Heq Hinc Hsize Hfc.
  destruct (decide (GetConjID eid + 1 <= GetConjID (fc_GetCurEntryID fc))) as [|Hnot]; [done | exfalso].
  assert (Hin : fc ∈ fcs).
  { rewrite <- (take_drop need fcs). apply elem_of_app. by right. }
  pose proof (round_tail_ge' fc Hfc) as Hge. pose proof (conj_mono _ _ Hge).
  pose proof (round_head_le fc Hin) as Hle.
  destruct round_head_spec as (_ & _ & Hv0 & _).
  apply valid_eid_arith in Hv0 as [Hvc Hv0]. unfold valid_conj in Hvc.
  destruct (fc_at_cur G fc (round_at fc Hin)) as [[Hn _] | (He & _ & _)].
  { rewrite Hn in Hnot. change (GetConjID NULLENTRY) with (2 ^ 60 - 1) in Hnot. lia. }
  pose proof (fc_at_valid G fc _ (round_at fc Hin) He) as Hvf.
  apply valid_eid_arith in Hvf as [_ Hvf].
  assert (fc_GetCurEntryID fc = NewEntryID (GetConjID eid) true) as Hcur.
  { rewrite NewEntryID_arith by lia. rewrite Hinc in Hv0.
    destruct (IsInclude (fc_GetCurEntryID fc)); lia. }
  rewrite Hcur in He.
  assert (E = (fc_entries <$> take need fcs) ++ (fc_entries <$> drop need fcs)) as HE
    by (unfold E; by rewrite <- fmap_app, take_drop).
  rewrite HE, count_inc_app, (count_inc_all (fc_entries <$> take need fcs)) in Hsize.
  - rewrite length_fmap, length_take in Hsize. apply lookup_lt_Some in Hfe.
    assert (0 < count_inc (fc_entries <$> drop need fcs) (GetConjID eid))%nat; [| lia].
    unfold count_inc. apply Nat.neq_0_lt_0. intros Hz%length_zero_iff_nil.
    assert (fc_entries fc ∈ filter (fun es => NewEntryID (GetConjID eid) true ∈ es)
              (fc_entries <$> drop need fcs)) as Hf.
    { apply list_elem_of_filter. split; [done | by apply list_elem_of_fmap_2]. }
    rewrite Hz in Hf. elem_nil.
  - intros es (fc' & -> & Hfc')%list_elem_of_fmap. by apply round_take_inc.
Qed.

Lemma skip_head_at G' nextID l :
  Forall (fc_at G) (take need l) -> Forall (fc_at G') (drop need l) ->
  G <= G' -> aligned nextID G' -> Forall (fc_at G') (skip_head need nextID l).
Proof.
  intros Ht Hd HG Hal. unfold skip_head. apply Forall_app. split; [| done].
  rewrite Forall_fmap. eapply Forall_impl; [exact Ht |]. intros fc Hfc.
  by eapply fc_at_skip.
Qed.

Lemma skip_head_entries nextID l : fc_entries <$> skip_head need nextID l = fc_entries <$> l.
Proof.
  unfold skip_head. rewrite fmap_app, <- list_fmap_compose.
  rewrite <- (take_drop need l) at 3. rewrite fmap_app. f_equal.
  apply list_fmap_ext. intros i fc _. simpl. apply fc_SkipTo_entries.
Qed.

Lemma skip_tail_entries nextID l : fc_entries <$> skip_tail need nextID l = fc_entries <$> l.
Proof.
  unfold skip_tail. rewrite fmap_app, <- list_fmap_compose.
  rewrite <- (take_drop need l) at 3. rewrite fmap_app. f_equal.
  apply list_fmap_ext. intros i fc _. simpl. case_bool_decide; [apply fc_SkipTo_entries | done].
Qed.

(** The exclude branch moves every cursor past the rejected conjunction. *)
Lemma skip_both_at G' nextID :
  Forall (fc_at G) fcs -> G <= G' -> aligned nextID G' ->
  Forall (fc_at G') (skip_head need nextID (skip_tail need nextID fcs)).
Proof.
  intros Hall HG Hal. apply skip_head_at; [| | lia | done]; unfold skip_tail.
  - rewrite take_app_le, take_take by (rewrite length_take; apply lookup_lt_Some in Hfe; lia).
    rewrite Nat.min_id. by apply Forall_take.
  - rewrite drop_app_ge by (rewrite length_take; lia).
    apply Forall_drop. rewrite Forall_fmap.
    eapply Forall_impl; [exact (Forall_drop _ need _ Hall) |]. intros fc Hfc. simpl.
    case_bool_decide as Hcur; [eapply fc_at_skip; [done | lia | done] |].
    apply (fc_at_stay G); [done | lia |]. intros e He HGe'.
    pose proof (fc_cur_le G fc e Hfc He HGe').
    apply Hal; [by eapply fc_at_valid | lia].
Qed.

(** One round: the frontier advances past the first conjunction, the posting
    lists are unchanged, and what is reported is what is matched in between. *)
Lemma scan_round_spec c :
  (count_inc E (GetConjID eid) <= need)%nat \/ excluded E (GetConjID eid) ->
  exists fcs' hits G',
    scan_round need eid endEID fcs c = (fcs', foldl add_conj c hits) /\
    G <= GetConjID eid < G' /\ Forall (fc_at G') fcs' /\ fc_entries <$> fcs' = E /\
    (hits = [] \/ hits = [GetConjID eid]) /\
    forall c0, valid_conj c0 -> G <= c0 < G' -> (c0 ∈ hits <-> matched E need c0).
Proof.
  intros Hsize. destruct round_head_spec as (He0 & HG0 & Hv0 & Hf0in).
  destruct round_end_spec as (_ & HGe & Hve).
  assert (Hmono : GetConjID eid <= GetConjID endEID)
    by (apply conj_mono, round_head_le; by eapply list_elem_of_lookup_2).
  pose proof (proj1 (valid_eid_arith _ Hve)) as Hce. unfold valid_conj in Hce.
  assert (Htake : Forall (fc_at G) (take need fcs)) by by apply Forall_take.
  assert (Hdrop : Forall (fc_at G) (drop need fcs)) by by apply Forall_drop.
  unfold scan_round. case_bool_decide as Heq.
  - assert (Hal := aligned_block_end (GetConjID endEID) ltac:(lia)).
    destruct (IsInclude eid) eqn:Hinc.
    + destruct Hsize as [Hsize | Hex]; [| by apply round_inc_not_excluded in Hex].
      eexists _, [GetConjID eid], (GetConjID endEID + 1). split; [done |].
      split; [lia |]. split.
      { apply skip_head_at; [done | | lia | done].
        rewrite Forall_forall in Hdrop |- *. intros fc Hfc. apply (fc_at_past G); [by apply Hdrop | lia |].
        rewrite <- Heq. by apply round_tail_past. }
      split; [apply skip_head_entries |]. split; [by right |].
      intros c0 Hc0 Hr. rewrite list_elem_of_singleton. split.
      * intros ->. by apply round_matched.
      * intros Hm. destruct (decide (c0 < GetConjID endEID)) as [Hlt | Hnlt]; [| lia].
        destruct (round_below c0 Hc0 ltac:(lia) ltac:(lia) Hm).
    + eexists _, [], (GetConjID endEID + 1). split; [done |].
      split; [lia |]. split; [apply skip_both_at; [done | lia | done] |].
      split; [by rewrite skip_head_entries, skip_tail_entries |]. split; [by left |].
      intros c0 Hc0 Hr. rewrite elem_of_nil. split; [done |]. intros Hm.
      destruct (decide (c0 < GetConjID endEID)) as [Hlt | Hnlt]; [destruct (round_below c0 Hc0 ltac:(lia) ltac:(lia) Hm) |].
      assert (c0 = GetConjID eid) as -> by lia. by apply round_exc_not_matched in Hm.
  - eexists _, [], (GetConjID endEID). split; [done |]. split; [lia |]. split.
    { apply skip_head_at; [done | | lia | apply aligned_block_start; lia].
      rewrite Forall_forall in Hdrop |- *. intros fc Hfc. apply (fc_at_past G); [by apply Hdrop | lia |].
      by apply conj_mono, round_tail_ge'. }
    split; [apply skip_head_entries |]. split; [by left |].
    intros c0 Hc0 Hr. rewrite elem_of_nil. split; [done |]. intros Hm.
    destruct (round_below c0 Hc0 ltac:(lia) ltac:(lia) Hm).
Qed.

End Round.

(** *** The loops *)

Lemma mjoin_fmap_bind (fcs : list FieldCursor) :
  mjoin (fc_entries <$> fcs) = fcs ≫= fc_entries.
Proof.
  induction fcs as [|fc fcs IH]; [done |].
  change (fc_entries fc ++ mjoin (fc_entries <$> fcs) = fc_entries fc ++ (fcs ≫= fc_entries)).
  by rewrite IH.
Qed.

Lemma scan_fuel_enough fcs G : (remaining (fc_entries <$> fcs) G < scan_fuel fcs)%nat.
Proof.
  pose proof (remaining_le (fc_entries <$> fcs) G) as Hle.
  rewrite mjoin_fmap_bind in Hle. unfold scan_fuel. lia.
Qed.

(** [hits] lists, in increasing order, the conjunctions from [G] on for which
    [P] holds. *)
Definition reports (hits : list ConjID) (G : ConjID) (P : ConjID -> Prop) : Prop :=
  StronglySorted Z.lt hits /\ Forall (fun c => valid_conj c /\ G <= c) hits /\
  forall c, valid_conj c -> G <= c -> (c ∈ hits <-> P c).

Lemma reports_nil G P :
  (forall c, valid_conj c -> G <= c -> ~ P c) -> reports [] G P.
Proof.
  intros HP. split; [constructor |]. split; [constructor |].
  intros c Hc HG. rewrite elem_of_nil. split; [done | apply HP; done].
Qed.

(** Extending a report downwards over one round of the scan. *)
Lemma reports_extend hits0 hits G G' cm P :
  (hits0 = [] \/ hits0 = [cm]) -> valid_conj cm -> G <= cm < G' ->
  (forall c, valid_conj c -> G <= c < G' -> (c ∈ hits0 <-> P c)) ->
  reports hits G' P -> reports (hits0 ++ hits) G P.
Proof.
  intros Hh Hcm Hr Hlow (Hs & Hall & Hhigh).
  rewrite Forall_forall in Hall. split; [| split].
  - destruct Hh as [-> | ->]; [done |]. simpl. constructor; [done |].
    rewrite Forall_forall. intros c Hc. destruct (Hall c Hc). lia.
  - apply Forall_app. split.
    + destruct Hh as [-> | ->]; [constructor | constructor; [split; [done | lia] | constructor]].
    + rewrite Forall_forall. intros c Hc. destruct (Hall c Hc). split; [done | lia].
  - intros c Hc HG. rewrite elem_of_app. destruct (decide (c < G')).
    + rewrite Hlow by (done || lia). split; [intros [? | Hin]; [done |] | by left].
      destruct (Hall c Hin). lia.
    + rewrite Hhigh by (done || lia). split; [intros [Hin | ?]; [| done] | by right].
      destruct Hh as [-> | ->]; [elem_nil |].
      apply list_elem_of_singleton in Hin. lia.
Qed.

Section Loops.
Context {C : Type} `{ResultCollector C}.

Lemma valid_conj_head G fcs f0 fe i :
  Forall (fc_at G) fcs -> StronglySorted fc_le fcs ->
  fcs !! 0%nat = Some f0 -> fcs !! i = Some fe -> fc_GetCurEntryID fe <> NULLENTRY ->
  valid_conj (GetConjID (fc_GetCurEntryID f0)).
Proof.
  intros Hat Hs Hf0 Hfe Hend.
  destruct (round_head_spec (S i) G fcs f0 fe) as (_ & _ & Hv & _); auto.
  1: lia. 1: { rewrite <- Hfe. f_equal. lia. }
  by apply valid_eid_arith in Hv as [? _].
Qed.

Lemma retrieveK_loop_spec E need fuel G fcs (c : C) :
  (forall c0, valid_conj c0 -> ~ excluded E c0 -> (count_inc E c0 <= need)%nat) ->
  (remaining E G < fuel)%nat -> Forall (fc_at G) fcs -> StronglySorted fc_le fcs ->
  fc_entries <$> fcs ≡ₚ E -> (1 <= need <= length fcs)%nat ->
  exists hits, retrieveK_loop fuel need fcs c = Ok (foldl add_conj c hits) /\
    reports hits G (matched E need).
Proof.
  intros Hsize. revert G fcs c.
  induction fuel as [|fuel IH]; intros G fcs c Hfuel Hat Hs HE Hn; [lia |].
  simpl.
  destruct (lookup_lt_is_Some_2 fcs 0 ltac:(lia)) as [f0 Hf0].
  destruct (lookup_lt_is_Some_2 fcs (need - 1) ltac:(lia)) as [fe Hfe].
  rewrite Hf0, Hfe. unfold IsNULLEntry. case_bool_decide as Hnull.
  - (* fewer than [need] fields have an entry left *)
    exists []. split; [done |]. apply reports_nil. intros c0 Hc0 HG [Hcnt _].
    rewrite <- HE in Hcnt.
    rewrite <- (take_drop (need - 1) fcs), fmap_app, count_inc_app in Hcnt.
    rewrite (count_inc_none (fc_entries <$> drop (need - 1) fcs)) in Hcnt.
    { pose proof (count_inc_le (fc_entries <$> take (need - 1) fcs) c0) as Hle.
      rewrite length_fmap, length_take in Hle. lia. }
    intros es (fc & -> & Hfc)%list_elem_of_fmap Hin.
    pose proof (fcs_drop_ge fcs _ _ fe fc Hs Hfe (le_n _) Hfc) as Hge. unfold fc_le in Hge.
    rewrite Hnull in Hge.
    rewrite Forall_forall in Hat.
    assert (Hfc' : fc ∈ fcs).
    { rewrite <- (take_drop (need - 1) fcs). apply elem_of_app. by right. }
    pose proof (fc_at_valid G fc _ (Hat fc Hfc') Hin) as Hv%valid_eid_bound.
    pose proof (fc_cur_le G fc _ (Hat fc Hfc') Hin) as Hle.
    rewrite GetConjID_NewEntryID in Hle by (unfold valid_conj in Hc0; lia). lia.
  - pose proof (valid_conj_head G fcs f0 fe (need - 1) Hat Hs Hf0 Hfe Hnull) as Hvc.
    destruct (scan_round_spec need G fcs f0 fe) with (c := c)
      as (fcs' & hits & G' & -> & HG & Hat' & HE' & Hh & Hlow); auto; [lia | |].
    { rewrite HE. destruct (decide (excluded E (GetConjID (fc_GetCurEntryID f0)))); [by right |].
      left. by apply Hsize. }
    destruct (FieldCursors_Sort_spec fcs') as [Hperm Hs'].
    destruct (IH G' (FieldCursors_Sort fcs') (foldl add_conj c hits)) as (hits' & -> & Hrep).
    + assert (fc_GetCurEntryID f0 ∈ mjoin E) as Hin.
      { rewrite <- HE. destruct (round_head_spec need G fcs f0 fe) as (He0 & _ & _ & Hf0in); auto; [lia |].
        apply list_elem_of_join. exists (fc_entries f0). split; [done | by apply list_elem_of_fmap_2]. }
      pose proof (remaining_decreases E G G' _ Hin HG). lia.
    + by rewrite Hperm.
    + done.
    + by rewrite Hperm, HE'.
    + rewrite Hperm. apply (f_equal length) in HE'. rewrite !length_fmap in HE'. lia.
    + exists (hits ++ hits'). rewrite foldl_app. split; [done |].
      eapply reports_extend; [exact Hh | done | exact HG | | done].
      intros c0 Hc0 Hr. rewrite <- HE. by apply Hlow.
Qed.

(** [retrieveK] reports exactly the matched conjunctions. *)
Lemma retrieveK_spec need fcs (c : C) :
  (forall c0, valid_conj c0 -> ~ excluded (fc_entries <$> fcs) c0 ->
     (count_inc (fc_entries <$> fcs) c0 <= need)%nat) ->
  Forall (fc_at 0) fcs -> (1 <= need)%nat ->
  exists hits, retrieveK fcs need c = Ok (foldl add_conj c hits) /\
    reports hits 0 (matched (fc_entries <$> fcs) need).
Proof.
  intros Hsize Hat Hn. unfold retrieveK. case_bool_decide as Hlen.
  - exists []. split; [done |]. apply reports_nil. intros c0 _ _ [Hcnt _].
    pose proof (count_inc_le (fc_entries <$> fcs) c0) as Hle. rewrite length_fmap in Hle. lia.
  - destruct (FieldCursors_Sort_spec fcs) as [Hperm Hs].
    apply retrieveK_loop_spec; auto.
    + apply scan_fuel_enough.
    + by rewrite Hperm.
    + by rewrite Hperm.
    + rewrite Hperm. lia.
Qed.

(** *** The compact scanner *)

Lemma trim_rev_spec rfcs :
  exists dead, rfcs = dead ++ trim_rev rfcs /\
    Forall (fun fc => fc_GetCurEntryID fc = NULLENTRY) dead /\
    match trim_rev rfcs with [] => True | fc :: _ => fc_GetCurEntryID fc <> NULLENTRY end.
Proof.
  induction rfcs as [|fc rfcs IH]; simpl; [by exists [] |].
  unfold fc_ReachEnd, IsNULLEntry. case_bool_decide as Hn.
  - destruct IH as (dead & Heq & Hd & Ht). exists (fc :: dead).
    repeat split; [by rewrite Heq at 1 | by constructor | done].
  - by exists [].
Qed.

(** Trimming a sorted list of cursors removes exactly the exhausted ones. *)
Lemma trim_ended_spec G fcs :
  Forall (fc_at G) fcs -> StronglySorted fc_le fcs ->
  exists dead, fcs = trim_ended fcs ++ dead /\
    Forall (fun fc => fc_GetCurEntryID fc = NULLENTRY) dead /\
    Forall (fun fc => fc_GetCurEntryID fc <> NULLENTRY) (trim_ended fcs) /\
    StronglySorted fc_le (trim_ended fcs).
Proof.
  intros Hat Hs. unfold trim_ended.
  destruct (trim_rev_spec (reverse fcs)) as (dead & Heq & Hd & Ht).
  exists (reverse dead).
  assert (Hfcs : fcs = reverse (trim_rev (reverse fcs)) ++ reverse dead).
  { rewrite <- reverse_app, <- Heq. by rewrite reverse_involutive. }
  split; [done |]. split; [by apply Forall_reverse |].
  rewrite Hfcs in Hs. apply StronglySorted_app in Hs as (_ & Hs & _). split; [| done].
  destruct (trim_rev (reverse fcs)) as [|fl l] eqn:E; [constructor |].
  rewrite reverse_cons in *. rewrite Forall_forall. intros fc Hfc Hnull.
  apply StronglySorted_app in Hs as (Hle & _ & _).
  apply elem_of_app in Hfc as [Hfc | Hfc%list_elem_of_singleton]; [| by subst].
  specialize (Hle fc fl Hfc ltac:(by apply list_elem_of_singleton)).
  unfold fc_le in Hle. rewrite Hnull in Hle.
  assert (Hfl : fl ∈ fcs).
  { rewrite Hfcs, !elem_of_app. left. right. by apply list_elem_of_singleton. }
  rewrite Forall_forall in Hat.
  destruct (fc_at_cur G fl (Hat fl Hfl)) as [[? _] | (He & _ & _)]; [done |].
  pose proof (fc_at_valid G fl _ (Hat fl Hfl) He) as Hv%valid_eid_bound. unfold NULLENTRY in *. lia.
Qed.

Lemma dead_no_entries G fcs es e :
  Forall (fc_at G) fcs -> Forall (fun fc => fc_GetCurEntryID fc = NULLENTRY) fcs ->
  es ∈ (fc_entries <$> fcs) -> e ∈ es -> GetConjID e < G.
Proof.
  intros Hat Hn (fc & -> & Hfc)%list_elem_of_fmap He.
  rewrite Forall_forall in Hat, Hn. specialize (Hat fc Hfc). specialize (Hn fc Hfc).
  destruct (fc_at_cur G fc Hat) as [[_ Hall] | (Hin & _ & _)]; [by apply Hall |].
  pose proof (fc_at_valid G fc _ Hat Hin) as Hv%valid_eid_bound.
  rewrite Hn in Hv. unfold NULLENTRY in Hv. lia.
Qed.

(** Dropping fields without entries from the frontier on changes nothing for the
    conjunctions from the frontier on. *)
Lemma drop_dead E dead G c :
  (forall es e, es ∈ dead -> e ∈ es -> GetConjID e < G) -> valid_conj c -> G <= c ->
  count_inc (E ++ dead) c = count_inc E c /\ (excluded (E ++ dead) c <-> excluded E c).
Proof.
  intros Hdead Hc HG. unfold valid_conj in Hc.
  assert (Hno : forall es b, es ∈ dead -> NewEntryID c b ∉ es).
  { intros es b Hes He. specialize (Hdead es _ Hes He).
    rewrite GetConjID_NewEntryID in Hdead by lia. lia. }
  split.
  - rewrite count_inc_app, (count_inc_none dead); [lia |]. intros es Hes. by apply Hno.
  - rewrite !excluded_spec. setoid_rewrite elem_of_app. split; [| naive_solver].
    intros (es & [Hes | Hes] & He); [eauto | by apply Hno in He].
Qed.

Lemma compact_need_pos c : (1 <= compact_need c)%nat.
Proof. unfold compact_need. rewrite MaxInt_max. lia. Qed.

Lemma compact_need_mono c c' :
  valid_conj c -> valid_conj c' -> c <= c' -> (compact_need c <= compact_need c')%nat.
Proof.
  unfold compact_need, valid_conj. rewrite !MaxInt_max. intros.
  pose proof (conj_Size_mono c c' ltac:(lia) ltac:(lia)). lia.
Qed.

Lemma matched_weaken E n n' c : (n <= n')%nat -> matched E n' c -> matched E n c.
Proof. intros Hn [Hc He]. split; [lia | done]. Qed.

Lemma remaining_app_l E dead G : (remaining E G <= remaining (E ++ dead) G)%nat.
Proof.
  unfold remaining. rewrite join_app, filter_app, length_app. lia.
Qed.

(** No conjunction before the first one has an entry left. *)
Lemma none_before_head G fcs f0 c0 :
  Forall (fc_at G) fcs -> StronglySorted fc_le fcs -> fcs !! 0%nat = Some f0 ->
  valid_conj c0 -> G <= c0 -> c0 < GetConjID (fc_GetCurEntryID f0) ->
  count_inc (fc_entries <$> fcs) c0 = 0%nat.
Proof.
  intros Hat Hs Hf0 Hc0 HG Hlt. apply count_inc_none.
  intros es (fc & -> & Hfc)%list_elem_of_fmap Hin. rewrite Forall_forall in Hat.
  unfold valid_conj in Hc0.
  pose proof (fc_cur_le G fc _ (Hat fc Hfc) Hin) as Hcur.
  rewrite GetConjID_NewEntryID in Hcur by lia.
  pose proof (conj_mono _ _ (fcs_head_le fcs f0 fc Hs Hf0 Hfc)).
  pose proof (conj_mono _ _ (Hcur HG)) as Hm.
  rewrite GetConjID_NewEntryID in Hm by lia. lia.
Qed.

(** Breaking off is safe when the first conjunction needs more fields than there
    are cursors left: the later ones need at least as many. *)
Lemma compact_break G fcs f0 c0 :
  Forall (fc_at G) fcs -> StronglySorted fc_le fcs -> fcs !! 0%nat = Some f0 ->
  valid_conj (GetConjID (fc_GetCurEntryID f0)) ->
  (length fcs < compact_need (GetConjID (fc_GetCurEntryID f0)))%nat ->
  valid_conj c0 -> G <= c0 -> ~ matched (fc_entries <$> fcs) (compact_need c0) c0.
Proof.
  intros Hat Hs Hf0 Hvc Hlen Hc0 HG [Hcnt _].
  destruct (decide (c0 < GetConjID (fc_GetCurEntryID f0))).
  - rewrite (none_before_head G fcs f0) in Hcnt by done. pose proof (compact_need_pos c0). lia.
  - pose proof (compact_need_mono _ c0 Hvc Hc0 ltac:(lia)).
    pose proof (count_inc_le (fc_entries <$> fcs) c0) as Hcl. rewrite length_fmap in Hcl. lia.
Qed.

(** What a round reports does not depend on which conjunction's size is used. *)
Lemma compact_round_matched G G' fcs f0 hits c0 :
  let cm := GetConjID (fc_GetCurEntryID f0) in
  Forall (fc_at G) fcs -> StronglySorted fc_le fcs -> fcs !! 0%nat = Some f0 -> valid_conj cm ->
  (hits = [] \/ hits = [cm]) -> valid_conj c0 -> G <= c0 < G' ->
  (c0 ∈ hits <-> matched (fc_entries <$> fcs) (compact_need cm) c0) ->
  (c0 ∈ hits <-> matched (fc_entries <$> fcs) (compact_need c0) c0).
Proof.
  intros cm Hat Hs Hf0 Hvc Hh Hc0 Hr Hlow.
  destruct (decide (c0 < cm)) as [Hlt | Hge].
  - rewrite Hlow. unfold matched. rewrite (none_before_head G fcs f0) by (done || lia).
    pose proof (compact_need_pos c0). pose proof (compact_need_pos cm). lia.
  - pose proof (compact_need_mono cm c0 Hvc Hc0 ltac:(lia)) as Hmono. split.
    + intros Hin. destruct Hh as [-> | ->]; [elem_nil |].
      pose proof Hin as Hin'. apply list_elem_of_singleton in Hin' as ->. by apply Hlow.
    + intros Hm. by apply Hlow, (matched_weaken _ _ _ _ Hmono).
Qed.

(** Sorting and trimming after a round: the cursors that are dropped have nothing
    left to say from [G] on. *)
Lemma trim_step G fcs fcs' :
  Forall (fc_at G) fcs' -> fc_entries <$> fcs' ≡ₚ fc_entries <$> fcs ->
  let fcs2 := trim_ended (FieldCursors_Sort fcs') in
  Forall (fc_at G) fcs2 /\ StronglySorted fc_le fcs2 /\ Forall (fun fc => fc_GetCurEntryID fc <> NULLENTRY) fcs2 /\
  (remaining (fc_entries <$> fcs2) G <= remaining (fc_entries <$> fcs) G)%nat /\
  forall c0, valid_conj c0 -> G <= c0 ->
    count_inc (fc_entries <$> fcs) c0 = count_inc (fc_entries <$> fcs2) c0 /\
    (excluded (fc_entries <$> fcs) c0 <-> excluded (fc_entries <$> fcs2) c0).
Proof.
  intros Hat HE fcs2. destruct (FieldCursors_Sort_spec fcs') as [Hperm Hs'].
  destruct (trim_ended_spec G (FieldCursors_Sort fcs')) as (dead & Hsplit & Hdead & Hlive & Hst);
    [by rewrite Hperm | done |]. fold fcs2 in Hsplit, Hlive, Hst.
  assert (HE2 : fc_entries <$> fcs ≡ₚ (fc_entries <$> fcs2) ++ (fc_entries <$> dead)).
  { rewrite <- HE, <- fmap_app, <- Hsplit. by rewrite Hperm. }
  assert (Hat2 : Forall (fc_at G) (fcs2 ++ dead)) by (rewrite <- Hsplit; by rewrite Hperm).
  apply Forall_app in Hat2 as [Hat2 Hatd]. split_and!; [done .. | |].
  - rewrite HE2. apply remaining_app_l.
  - intros c0 Hc0 HGc. rewrite HE2.
    apply drop_dead with (G := G); [| done | done]. intros es e. by apply dead_no_entries.
Qed.

Lemma compact_loop_spec fuel G fcs (c : C) :
  (forall c0, valid_conj c0 -> G <= c0 -> ~ excluded (fc_entries <$> fcs) c0 ->
     (count_inc (fc_entries <$> fcs) c0 <= compact_need c0)%nat) ->
  (remaining (fc_entries <$> fcs) G < fuel)%nat -> Forall (fc_at G) fcs ->
  StronglySorted fc_le fcs -> Forall (fun fc => fc_GetCurEntryID fc <> NULLENTRY) fcs ->
  exists hits, compact_loop fuel fcs c = Ok (foldl add_conj c hits) /\
    reports hits G (fun c0 => matched (fc_entries <$> fcs) (compact_need c0) c0).
Proof.
  revert G fcs c. induction fuel as [|fuel IH]; intros G fcs c Hsize Hfuel Hat Hs Hlive; [lia |].
  cbn [compact_loop]. destruct fcs as [|f0 fcs0].
  { exists []. split; [done |]. apply reports_nil. intros c0 _ _ [Hcnt _].
    pose proof (compact_need_pos c0). pose proof (count_inc_le [] c0) as Hz.
    cbn in Hcnt, Hz. lia. }
  assert (Hf0 : (f0 :: fcs0) !! 0%nat = Some f0) by done.
  remember (f0 :: fcs0) as fcs eqn:Hfcs. clear Hfcs.
  assert (Hlive0 : fc_GetCurEntryID f0 <> NULLENTRY).
  { rewrite Forall_forall in Hlive. apply Hlive. by eapply list_elem_of_lookup_2. }
  pose proof (valid_conj_head G fcs f0 f0 0 Hat Hs Hf0 Hf0 Hlive0) as Hvc.
  destruct (round_head_spec 1 G fcs f0 f0) as (He0 & _ & _ & Hf0in); auto.
  set (cm := GetConjID (fc_GetCurEntryID f0)) in *.
  pose proof (compact_need_pos cm) as Hpos.
  case_bool_decide as Hlen.
  { exists []. split; [done |]. apply reports_nil. intros c0. by apply (compact_break G fcs f0). }
  destruct (lookup_lt_is_Some_2 fcs (compact_need cm - 1) ltac:(lia)) as [fe Hfe]. rewrite Hfe.
  assert (Hend : fc_GetCurEntryID fe <> NULLENTRY).
  { rewrite Forall_forall in Hlive. apply Hlive. by eapply list_elem_of_lookup_2. }
  destruct (scan_round_spec (compact_need cm) G fcs f0 fe) with (c := c)
    as (fcs' & hits & G' & -> & HG & Hat' & HE' & Hh & Hlow); auto.
  { destruct (decide (excluded (fc_entries <$> fcs) cm)); [by right |].
    left. apply Hsize; [done | | done]. destruct (round_head_spec 1 G fcs f0 f0) as (_ & ? & _); auto. }
  fold cm in HG, Hh. destruct (trim_step G' fcs fcs') as (Hat2 & Hst & Hlive' & Hrl & Hdrop); [done | by rewrite HE' |].
  set (fcs2 := trim_ended (FieldCursors_Sort fcs')) in *.
  destruct (IH G' fcs2 (foldl add_conj c hits)) as (hits' & -> & Hrs & Hra & Hrp); auto.
  - intros c0 Hc0 HGc Hex. destruct (Hdrop c0 Hc0 HGc) as [Hcnt Hexc].
    rewrite <- Hcnt. apply Hsize; [done | lia |]. by rewrite Hexc.
  - assert (fc_GetCurEntryID f0 ∈ mjoin (fc_entries <$> fcs)) as Hin.
    { apply list_elem_of_join. exists (fc_entries f0). split; [done | by apply list_elem_of_fmap_2]. }
    pose proof (remaining_decreases _ G G' _ Hin HG) as Hdec. lia.
  - exists (hits ++ hits'). rewrite foldl_app. split; [done |].
    eapply reports_extend; [exact Hh | done | exact HG | |].
    + intros c0 Hc0 Hr. eapply (compact_round_matched G G' fcs f0); eauto.
    + split; [done |]. split; [done |]. intros c0 Hc0 HGc. rewrite Hrp by done.
      destruct (Hdrop c0 Hc0 HGc) as [Hcnt Hexc]. unfold matched. by rewrite <- Hcnt, <- Hexc.
Qed.

(** The compact scan reports exactly the conjunctions matched in as many fields
    as their size asks for. *)
Lemma compact_scan_spec fcs (c : C) :
  (forall c0, valid_conj c0 -> ~ excluded (fc_entries <$> fcs) c0 ->
     (count_inc (fc_entries <$> fcs) c0 <= compact_need c0)%nat) ->
  Forall (fc_at 0) fcs -> Forall (fun fc => fc_GetCurEntryID fc <> NULLENTRY) fcs ->
  exists hits, compact_scan fcs c = Ok (foldl add_conj c hits) /\
    reports hits 0 (fun c0 => matched (fc_entries <$> fcs) (compact_need c0) c0).
Proof.
  intros Hsize Hat Hlive. unfold compact_scan.
  destruct (FieldCursors_Sort_spec fcs) as [Hperm Hs].
  assert (Hperm' : fc_entries <$> FieldCursors_Sort fcs ≡ₚ fc_entries <$> fcs) by by rewrite Hperm.
  destruct (compact_loop_spec (scan_fuel fcs) 0 (FieldCursors_Sort fcs) c) as (hits & -> & Hr).
  - intros c0 Hc0 _. rewrite Hperm'. by apply Hsize.
  - rewrite Hperm'. apply scan_fuel_enough.
  - by rewrite Hperm.
  - done.
  - by rewrite Hperm.
  - exists hits. split; [done |]. destruct Hr as (Hrs & Hra & Hrp). split; [done |]. split; [done |].
    intros c0 Hc0 HG. rewrite Hrp by done. by rewrite Hperm'.
Qed.

End Loops.
