(* ===== verification/Holder.v ===== *)
(** * The holder interface (entries_holder.go, entries_holder_factory.go)

    An [EntriesHolder] stores posting lists.  The index and the builder use it
    through the operations of the Go interface; what they rely on is stated once,
    as the laws of [HolderSpec], and discharged by each holder. *)

From Stdlib Require Import Strings.Byte.
From stdpp Require Import base sorting gmap strings numbers list.
From S2P Require Import Prelude GoValues Ids Document Cursor FieldCursor.
Open Scope Z_scope.

(** ** Definitions *)

Definition HolderNameDefault : string := "default".
Definition HolderNameACMatcher : string := "ac_matcher".
Definition HolderNameExtendRange : string := "ext_range".

(** [FieldDesc] (be_indexer.go), with the embedded [FieldOption]. *)
Record FieldDesc := {
  fd_Container : string;
  fd_ID : Z;
  fd_Field : BEField
}.

#[export] Instance FieldDesc_eq_dec : EqDecision FieldDesc.
Proof. solve_decision. Defined.

(** The interface: [H] is the type of holder objects, [D] of their
    [IndexingData].  Methods that mutate the receiver return the new one. *)
Class EntriesHolder (H D : Type) := {
  GetEntries : H -> FieldDesc -> Values -> res (list EntriesCursor);
  BuildFieldIndexingData : H -> FieldDesc -> BoolValues -> H * res D;
  CommitFieldIndexingData : H -> FieldDesc -> EntryID -> option D -> H * res unit;
  DecodeFieldIndexingData : H -> list byte -> res D;
  Encode : D -> res (list byte);
  CompileEntries : H -> H * res unit
}.

(** [holderFactory]: the registry of holder builders by name.  A builder makes a
    fresh holder, always the same one. *)
Abbreviation HolderFactory H := (gmap string H) (only parsing).

Definition RegisterEntriesHolder {H} (factory : HolderFactory H) (name : string) (builder : H)
    : HolderFactory H :=
  <[name := builder]> factory.

Definition HasHolderBuilder {H} (factory : HolderFactory H) (name : string) : bool :=
  bool_decide (is_Some (factory !! name)).

Definition NewEntriesHolder {H} (factory : HolderFactory H) (name : string) : option H :=
  factory !! name.

(** [m[k] = append(m[k], eid)] on a map of posting lists. *)
Definition append_posting {K} `{Countable K} (m : gmap K Entries) (k : K) (eid : EntryID) : gmap K Entries :=
  <[k := default [] (m !! k) ++ [eid]]> m.

Lemma elem_of_append_posting {K} `{Countable K} (m : gmap K Entries) k eid k' e :
  e ∈ default [] (append_posting m k eid !! k') <-> e ∈ default [] (m !! k') \/ (k' = k /\ e = eid).
Proof.
  unfold append_posting. destruct (decide (k = k')) as [<- | Hne].
  - rewrite lookup_insert_eq. simpl. rewrite elem_of_app, list_elem_of_singleton. naive_solver.
  - rewrite lookup_insert_ne by done. naive_solver.
Qed.

Lemma elem_of_append_postings {K} `{Countable K} (ks : list K) eid (m : gmap K Entries) k e :
  e ∈ default [] (foldl (fun m k => append_posting m k eid) m ks !! k) <->
  e ∈ default [] (m !! k) \/ (k ∈ ks /\ e = eid).
Proof.
  revert m. induction ks as [|k' ks IH]; intros m; simpl; [set_solver |].
  rewrite IH, elem_of_append_posting, elem_of_cons. naive_solver.
Qed.

(** ** What a holder promises

    [holder_rep name h txs]: [h] was made by the builder registered as [name] and
    the transactions [txs] (field, entry id, data) have been committed to it;
    [holder_compiled] the same after [CompileEntries].  [data_hits name d x v]
    tells whether the value [v] of a query meets the values prepared as [x]. *)

Abbreviation Txs D := (list (FieldDesc * EntryID * D)) (only parsing).

(** The data that [BuildFieldIndexingData] prepares on a fresh holder. *)
Definition build_data {H D} `{EntriesHolder H D} (factory : HolderFactory H) (name : string)
    (d : FieldDesc) (bv : BoolValues) : res D :=
  match factory !! name with
  | Some h => (BuildFieldIndexingData h d bv).2
  | None => Panic "holder not registered"
  end.

(** The committed transactions a query on [d] can see: field ids tell fields
    apart, and a holder other than the shared default one serves one field. *)
Definition scope_ok {D} (name : string) (txs : Txs D) (d : FieldDesc) : Prop :=
  forall d' e x, (d', e, x) ∈ txs ->
    (fd_ID d' = fd_ID d -> d' = d) /\ (name <> HolderNameDefault -> d' = d).

(** The cursors of a query: fresh, over sorted non-empty posting lists. *)
Definition cursors_ok (cs : list EntriesCursor) : Prop :=
  Forall (fun ec => cursor_at 0 ec /\ ec_entries ec <> []) cs.

Class HolderSpec (H D : Type) `{EntriesHolder H D} (factory : HolderFactory H) := {
  data_hits : string -> FieldDesc -> D -> Values -> bool;
  assign_ok : string -> FieldDesc -> Values -> bool;
  data_ok : string -> D -> Prop;
  holder_rep : string -> H -> Txs D -> Prop;
  holder_compiled : string -> H -> Txs D -> Prop;

  holder_new : forall name h, factory !! name = Some h -> holder_rep name h [];

  holder_build : forall name h txs d bv h' r,
    holder_rep name h txs -> BuildFieldIndexingData h d bv = (h', r) ->
    holder_rep name h' txs /\ r = build_data factory name d bv;

  build_data_ok : forall name d bv x, build_data factory name d bv = Ok x -> data_ok name x;

  build_data_field : forall name d d' bv,
    fd_Field d = fd_Field d' -> build_data factory name d bv = build_data factory name d' bv;

  build_data_fuel : forall name d bv, build_data factory name d bv <> OutOfFuel;

  holder_commit : forall name h txs d e x,
    holder_rep name h txs -> data_ok name x ->
    exists h', CommitFieldIndexingData h d e (Some x) = (h', Ok tt) /\
      holder_rep name h' (txs ++ [(d, e, x)]);

  holder_compile : forall name h txs h' r,
    holder_rep name h txs -> CompileEntries h = (h', r) ->
    match r with
    | Ok _ => holder_compiled name h' txs
    | Err _ => True
    | _ => False
    end;

  holder_get : forall name h txs d v,
    holder_compiled name h txs -> Forall (fun tx => valid_eid tx.1.2) txs -> scope_ok name txs d ->
    match GetEntries h d v with
    | Ok cs => cursors_ok cs /\
        forall e, e ∈ (cs ≫= ec_entries) <->
          exists x, (d, e, x) ∈ txs /\ data_hits name d x v = true
    | OutOfFuel => False
    | _ => assign_ok name d v = false
    end;

  data_hits_nil : forall name d x v, is_nil v = true -> data_hits name d x v = false
}.

(** The round trip that the document cache needs on top. *)
Class HolderCacheSpec (H D : Type) `{EntriesHolder H D} `{!HolderSpec H D factory} : Prop := {
  decode_encode : forall name h txs x bytes,
    holder_rep name h txs -> data_ok name x -> Encode x = Ok bytes ->
    DecodeFieldIndexingData h bytes = Ok x
}.

(** It is asked of the holders only when there is a cache at all. *)
Class CachedHolderSpec (K H D : Type) `{EntriesHolder H D} `{!HolderSpec H D factory} : Prop :=
  cached_codec : inhabited K -> HolderCacheSpec (factory:=factory) H D.

#[export] Instance codec_cached K H D `{EntriesHolder H D} `{!HolderSpec H D factory}
    `{!HolderCacheSpec (factory:=factory) H D} : CachedHolderSpec (factory:=factory) K H D.
Proof. by intros _. Qed.

#[export] Instance uncached_cached H D `{EntriesHolder H D} `{!HolderSpec H D factory} :
  CachedHolderSpec (factory:=factory) Empty_set H D.
Proof. by intros [[]]. Qed.
