(* ===== verification/Index.v ===== *)
(** * Containers and the two indexes
      (be_indexer.go, be_indexer_kgroups.go, be_indexer_compact.go)

    [EntriesContainer] groups the holders of one index partition.  The k-groups
    index keeps one container per conjunction size and scans them from the
    largest size that a query can satisfy down to zero; the compact index keeps
    all conjunctions in one container.  Both share [indexBase] and the interface
    [BEIndex] that the builder uses. *)

From stdpp Require Import base sorting gmap strings numbers list.
From S2P Require Import Prelude GoValues Ids Document Cursor FieldCursor Collector Scan Holder.
Open Scope Z_scope.

(** ** Containers *)

Record EntriesContainer (H : Type) := {
  defaultHolder : option H;
  fieldHolder : gmap string H
}.
Arguments defaultHolder {H} _.
Arguments fieldHolder {H} _.

(** A pointer to a holder inside a container. *)
Inductive HolderRef := RDefault | RField (f : BEField).

#[export] Instance HolderRef_eq_dec : EqDecision HolderRef.
Proof. solve_decision. Defined.

(** [FieldIndexingData] (entries_holder.go): a prepared expression waiting to be
    committed.  The Go pointer [holder] is the container number and the holder's
    place in it. *)
Record FieldIndexingData (D : Type) := {
  fi_field : FieldDesc;
  fi_addr : nat;
  fi_ref : HolderRef;
  fi_EID : EntryID;
  fi_Data : D
}.
Arguments fi_field {D} _.
Arguments fi_addr {D} _.
Arguments fi_ref {D} _.
Arguments fi_EID {D} _.
Arguments fi_Data {D} _.

Section Containers.
Context {H D : Type} `{EntriesHolder H D} `{MapRange}.
Context (factory : gmap string H).

Definition newFieldEntriesContainer : EntriesContainer H :=
  {| defaultHolder := NewEntriesHolder factory HolderNameDefault;
     fieldHolder := ∅ |}.

Definition holder_deref (c : EntriesContainer H) (r : HolderRef) : option H :=
  match r with
  | RDefault => defaultHolder c
  | RField f => fieldHolder c !! f
  end.

Definition holder_update (c : EntriesContainer H) (r : HolderRef) (h : H) : EntriesContainer H :=
  match r with
  | RDefault => {| defaultHolder := Some h; fieldHolder := fieldHolder c |}
  | RField f => {| defaultHolder := defaultHolder c; fieldHolder := <[f := h]> (fieldHolder c) |}
  end.

(** Where [getFieldHolder] and [GetHolder] look for the holder of a field. *)
Definition ref_of (desc : FieldDesc) : HolderRef :=
  if bool_decide (fd_Container desc = HolderNameDefault) then RDefault
  else RField (fd_Field desc).

Definition getFieldHolder (c : EntriesContainer H) (desc : FieldDesc) : option H :=
  if bool_decide (fd_Container desc = HolderNameDefault) then defaultHolder c
  else match fieldHolder c !! fd_Field desc with
       | Some holder => Some holder
       | None => None
       end.

(** The exported method does the same. *)
Definition GetHolder (c : EntriesContainer H) (desc : FieldDesc) : option H :=
  if bool_decide (fd_Container desc = HolderNameDefault) then defaultHolder c
  else match fieldHolder c !! fd_Field desc with
       | Some holder => Some holder
       | None => None
       end.

Definition CreateHolder (desc : FieldDesc) : M (EntriesContainer H) HolderRef :=
  c ← get;
  match getFieldHolder c desc with
  | Some _ => mret (ref_of desc)
  | None =>
      _ ← PanicIf (negb (HasHolderBuilder factory (fd_Container desc)))
                  "container not found, plz register it";
      match NewEntriesHolder factory (fd_Container desc) with
      | Some holder =>
          _ ← put {| defaultHolder := defaultHolder c;
                     fieldHolder := <[fd_Field desc := holder]> (fieldHolder c) |};
          mret (RField (fd_Field desc))
      | None => panic "nil holder"
      end
  end.

(** [holder.CompileEntries()] through a pointer. *)
Definition compile_ref (r : HolderRef) : M (EntriesContainer H) unit := fun c =>
  match holder_deref c r with
  | None => (c, Panic "nil pointer dereference")
  | Some h => let '(h', out) := CompileEntries h in (holder_update c r h', out)
  end.

Definition compileEntries : M (EntriesContainer H) unit :=
  _ ← compile_ref RDefault;
  c ← get;
  forM (map_range (fieldHolder c)) (fun kv => compile_ref (RField kv.1)).

End Containers.

(** ** indexBase (be_indexer.go) *)

Definition WildcardFieldName : BEField := "_Z_".
Definition wildcardQKey : QKey := NewQKey WildcardFieldName (VInt KInt 0).

Record indexBase := {
  ib_fieldsData : gmap string FieldDesc;
  ib_wildcardEntries : Entries
}.

Definition ib_setFieldDesc (bi : indexBase) (fieldsData : gmap string FieldDesc) : indexBase :=
  {| ib_fieldsData := fieldsData; ib_wildcardEntries := ib_wildcardEntries bi |}.

Definition ib_addWildcardEID (bi : indexBase) (id : EntryID) : indexBase :=
  {| ib_fieldsData := ib_fieldsData bi; ib_wildcardEntries := ib_wildcardEntries bi ++ [id] |}.

(** [if bi.wildcardEntries.Len() > 0 { sort.Sort(bi.wildcardEntries) }] *)
Definition ib_sort_wildcard (bi : indexBase) : indexBase :=
  {| ib_fieldsData := ib_fieldsData bi;
     ib_wildcardEntries :=
       if bool_decide (0 < length (ib_wildcardEntries bi))%nat
       then sortZ (ib_wildcardEntries bi) else ib_wildcardEntries bi |}.

(** Options of a retrieval. *)
Inductive IndexOpt (C : Type) :=
| WithStepDetail
| WithDumpEntries
| WithCollector (c : C).
Arguments WithStepDetail {C}.
Arguments WithDumpEntries {C}.
Arguments WithCollector {C} _.

Record retrieveContext (C : Type) := {
  dumpStepInfo : bool;
  dumpEntriesDetail : bool;
  ctx_collector : option C;
  ctx_assigns : Assignments
}.
Arguments dumpStepInfo {C} _.
Arguments dumpEntriesDetail {C} _.
Arguments ctx_collector {C} _.
Arguments ctx_assigns {C} _.

Definition apply_opt {C} (ctx : retrieveContext C) (opt : IndexOpt C) : retrieveContext C :=
  match opt with
  | WithStepDetail =>
      {| dumpStepInfo := true; dumpEntriesDetail := dumpEntriesDetail ctx;
         ctx_collector := ctx_collector ctx; ctx_assigns := ctx_assigns ctx |}
  | WithDumpEntries =>
      {| dumpStepInfo := dumpStepInfo ctx; dumpEntriesDetail := true;
         ctx_collector := ctx_collector ctx; ctx_assigns := ctx_assigns ctx |}
  | WithCollector c =>
      {| dumpStepInfo := dumpStepInfo ctx; dumpEntriesDetail := dumpEntriesDetail ctx;
         ctx_collector := Some c; ctx_assigns := ctx_assigns ctx |}
  end.

Definition newRetrieveCtx {C} (ass : Assignments) (opts : list (IndexOpt C)) : retrieveContext C :=
  foldl apply_opt
    {| dumpStepInfo := false; dumpEntriesDetail := false; ctx_collector := None;
       ctx_assigns := ass |} opts.

(** ** Field cursors for a query *)

Section InitCursors.
Context {H D : Type} `{EntriesHolder H D} `{MapRange}.

(** The wildcard cursor, when there are wildcard entries. *)
Definition wildcard_cursors (wildcardEntries : Entries) : res (list FieldCursor) :=
  if bool_decide (0 < length wildcardEntries)%nat then
    fc ← NewFieldCursor [NewEntriesCursor wildcardQKey wildcardEntries];
    mret [fc]
  else mret [].

(** The body of [for field, values := range ctx.assigns] of [initCursors], the
    same in both indexes. *)
Definition assign_cursor (fieldsData : gmap string FieldDesc) (container : EntriesContainer H)
    (fCursors : list FieldCursor) (kv : BEField * Values) : res (list FieldCursor) :=
  match fieldsData !! kv.1 with
  | None => mret fCursors
  | Some desc =>
      match getFieldHolder container desc with
      | None => mret fCursors
      | Some holder =>
          entriesList ← GetEntries holder desc kv.2;
          if bool_decide (0 < length entriesList)%nat then
            fc ← NewFieldCursor entriesList;
            mret (fCursors ++ [fc])
          else mret fCursors
      end
  end.

Fixpoint assign_cursors (fieldsData : gmap string FieldDesc) (container : EntriesContainer H)
    (assigns : list (BEField * Values)) (fCursors : list FieldCursor) : res (list FieldCursor) :=
  match assigns with
  | [] => mret fCursors
  | kv :: assigns =>
      fCursors ← assign_cursor fieldsData container fCursors kv;
      assign_cursors fieldsData container assigns fCursors
  end.

End InitCursors.

(** ** KGroupsBEIndex (be_indexer_kgroups.go) *)

Record KGroupsBEIndex (H : Type) := {
  kg_base : indexBase;
  kSizeContainers : list (EntriesContainer H)
}.
Arguments kg_base {H} _.
Arguments kSizeContainers {H} _.

Section KGroups.
Context {H D : Type} `{EntriesHolder H D} `{MapRange}.
Context (factory : gmap string H).

Definition NewKGroupsBEIndex : KGroupsBEIndex H :=
  {| kg_base := {| ib_fieldsData := ∅; ib_wildcardEntries := [] |};
     kSizeContainers := [] |}.

Definition maxK (bi : KGroupsBEIndex H) : Z := Z.of_nat (length (kSizeContainers bi)) - 1.

(** [for k >= len(bi.kSizeContainers) { append a new container }], then the
    container [k]. *)
Definition kg_newContainer (bi : KGroupsBEIndex H) (k : nat) : KGroupsBEIndex H * nat :=
  ({| kg_base := kg_base bi;
      kSizeContainers := kSizeContainers bi ++
        replicate (S k - length (kSizeContainers bi)) (newFieldEntriesContainer factory) |}, k).

(** [for _, sizeEntries := range bi.kSizeContainers { compileEntries }] *)
Fixpoint kg_compile_loop (cs : list (EntriesContainer H)) : list (EntriesContainer H) * res unit :=
  match cs with
  | [] => ([], Ok tt)
  | c :: cs =>
      match compileEntries c with
      | (c', Ok _) => let '(cs', out) := kg_compile_loop cs in (c' :: cs', out)
      | (c', out) => (c' :: cs, out)
      end
  end.

Definition kg_compileIndexer : M (KGroupsBEIndex H) unit := fun bi =>
  match kg_compile_loop (kSizeContainers bi) with
  | (cs, Ok _) => ({| kg_base := ib_sort_wildcard (kg_base bi); kSizeContainers := cs |}, Ok tt)
  | (cs, out) => ({| kg_base := kg_base bi; kSizeContainers := cs |}, out)
  end.

Definition getKSizeEntries (bi : KGroupsBEIndex H) (k : nat) : res (EntriesContainer H) :=
  match kSizeContainers bi !! k with
  | Some c => Ok c
  | None => Panic "k out of range"
  end.

Definition kg_initCursors (bi : KGroupsBEIndex H) (assigns : Assignments) (k : nat)
    : res (list FieldCursor) :=
  fCursors ← (if bool_decide (k = 0%nat) then wildcard_cursors (ib_wildcardEntries (kg_base bi))
              else mret []);
  kSizeContainer ← getKSizeEntries bi k;
  assign_cursors (ib_fieldsData (kg_base bi)) kSizeContainer (map_range assigns) fCursors.

(** [for k := ...; k >= 0; k--]: [n] is the number of sizes left, [k = n - 1]. *)
Fixpoint kg_retrieve_loop {C} `{ResultCollector C} (bi : KGroupsBEIndex H)
    (assigns : Assignments) (n : nat) : M C unit :=
  match n with
  | O => mret tt
  | S k =>
      fCursors ← lift (kg_initCursors bi assigns k);
      let needMatchCnt := Z.to_nat (MaxInt (Z.of_nat k) 1) in
      c ← get;
      c' ← lift (retrieveK fCursors needMatchCnt c);
      _ ← put c';
      kg_retrieve_loop bi assigns k
  end.

Definition kg_RetrieveWithCollector {C} `{ResultCollector C} (bi : KGroupsBEIndex H)
    (queries : Assignments) (opts : list (IndexOpt C)) : M C unit :=
  let ctx := newRetrieveCtx queries opts in
  _ ← PanicIf (bool_decide (is_Some (ctx_collector ctx))) "can't specify collector twice";
  size ← lift (Assignments_Size queries);
  kg_retrieve_loop bi (ctx_assigns ctx) (Z.to_nat (MinInt size (maxK bi) + 1)).

End KGroups.

(** ** CompactBEIndex (be_indexer_compact.go) *)

Record CompactBEIndex (H : Type) := {
  cp_base : indexBase;
  cp_container : EntriesContainer H
}.
Arguments cp_base {H} _.
Arguments cp_container {H} _.

Section Compact.
Context {H D : Type} `{EntriesHolder H D} `{MapRange}.
Context (factory : gmap string H).

Definition NewCompactedBEIndex : CompactBEIndex H :=
  {| cp_base := {| ib_fieldsData := ∅; ib_wildcardEntries := [] |};
     cp_container := newFieldEntriesContainer factory |}.

Definition cp_newContainer (bi : CompactBEIndex H) (_ : nat) : CompactBEIndex H * nat := (bi, 0%nat).

Definition cp_compileIndexer : M (CompactBEIndex H) unit := fun bi =>
  let base := ib_sort_wildcard (cp_base bi) in
  let '(c, out) := compileEntries (cp_container bi) in
  ({| cp_base := base; cp_container := c |}, out).

Definition cp_initCursors (bi : CompactBEIndex H) (assigns : Assignments) : res (list FieldCursor) :=
  fCursors ← wildcard_cursors (ib_wildcardEntries (cp_base bi));
  assign_cursors (ib_fieldsData (cp_base bi)) (cp_container bi) (map_range assigns) fCursors.

Definition cp_RetrieveWithCollector {C} `{ResultCollector C} (bi : CompactBEIndex H)
    (queries : Assignments) (opts : list (IndexOpt C)) : M C unit :=
  let ctx := newRetrieveCtx queries opts in
  _ ← PanicIf (bool_decide (is_Some (ctx_collector ctx))) "can't specify collector twice";
  fieldCursors ← lift (cp_initCursors bi (ctx_assigns ctx));
  c ← get;
  c' ← lift (compact_scan fieldCursors c);
  put c'.

End Compact.

(** ** The interface BEIndex (be_indexer.go)

    The methods the builder calls.  A container is reached through the number
    [newContainer] returns, which stands for the Go pointer. *)

Class BEIndex (I H : Type) := {
  index_base : I -> indexBase;
  addWildcardEID : I -> EntryID -> I;
  setFieldDesc : I -> gmap string FieldDesc -> I;
  newContainer : I -> nat -> I * nat;
  container_at : I -> nat -> option (EntriesContainer H);
  set_container : I -> nat -> EntriesContainer H -> I;
  compileIndexer : M I unit;
  RetrieveWithCollector : forall {C : Type} `{ResultCollector C},
    I -> Assignments -> list (IndexOpt C) -> M C unit
}.

Section Instances.
Context {H D : Type} `{EntriesHolder H D} `{MapRange}.
Context (factory : gmap string H).

Definition kg_set_base (bi : KGroupsBEIndex H) (b : indexBase) : KGroupsBEIndex H :=
  {| kg_base := b; kSizeContainers := kSizeContainers bi |}.

Definition KGroups_index : BEIndex (KGroupsBEIndex H) H := {|
  index_base := kg_base;
  addWildcardEID bi id := kg_set_base bi (ib_addWildcardEID (kg_base bi) id);
  setFieldDesc bi fd := kg_set_base bi (ib_setFieldDesc (kg_base bi) fd);
  newContainer := kg_newContainer factory;
  container_at bi a := kSizeContainers bi !! a;
  set_container bi a c := {| kg_base := kg_base bi; kSizeContainers := <[a := c]> (kSizeContainers bi) |};
  compileIndexer := kg_compileIndexer;
  RetrieveWithCollector C _ bi := kg_RetrieveWithCollector bi
|}.

Definition cp_set_base (bi : CompactBEIndex H) (b : indexBase) : CompactBEIndex H :=
  {| cp_base := b; cp_container := cp_container bi |}.

Definition Compact_index : BEIndex (CompactBEIndex H) H := {|
  index_base := cp_base;
  addWildcardEID bi id := cp_set_base bi (ib_addWildcardEID (cp_base bi) id);
  setFieldDesc bi fd := cp_set_base bi (ib_setFieldDesc (cp_base bi) fd);
  newContainer := cp_newContainer;
  container_at bi a := if bool_decide (a = 0%nat) then Some (cp_container bi) else None;
  set_container bi a c := if bool_decide (a = 0%nat)
                          then {| cp_base := cp_base bi; cp_container := c |} else bi;
  compileIndexer := cp_compileIndexer;
  RetrieveWithCollector C _ bi := cp_RetrieveWithCollector bi
|}.

(** A value of the interface type: one of the two indexes. *)
Inductive AnyBEIndex :=
| IKGroups (bi : KGroupsBEIndex H)
| ICompact (bi : CompactBEIndex H).

Definition any_map (f : KGroupsBEIndex H -> KGroupsBEIndex H)
    (g : CompactBEIndex H -> CompactBEIndex H) (bi : AnyBEIndex) : AnyBEIndex :=
  match bi with
  | IKGroups i => IKGroups (f i)
  | ICompact i => ICompact (g i)
  end.

(** Method calls dispatch on the dynamic type. *)
Definition Any_index : BEIndex AnyBEIndex H :=
  let KG := KGroups_index in
  let CP := Compact_index in {|
  index_base bi := match bi with IKGroups i => index_base i | ICompact i => index_base i end;
  addWildcardEID bi id :=
    any_map (fun i => addWildcardEID i id) (fun i => addWildcardEID i id) bi;
  setFieldDesc bi fd :=
    any_map (fun i => setFieldDesc i fd) (fun i => setFieldDesc i fd) bi;
  newContainer bi k :=
    match bi with
    | IKGroups i => let '(i', a) := newContainer i k in (IKGroups i', a)
    | ICompact i => let '(i', a) := newContainer i k in (ICompact i', a)
    end;
  container_at bi a :=
    match bi with IKGroups i => container_at i a | ICompact i => container_at i a end;
  set_container bi a c :=
    any_map (fun i => set_container i a c) (fun i => set_container i a c) bi;
  compileIndexer bi :=
    match bi with
    | IKGroups i => let '(i', r) := compileIndexer i in (IKGroups i', r)
    | ICompact i => let '(i', r) := compileIndexer i in (ICompact i', r)
    end;
  RetrieveWithCollector C _ bi :=
    match bi with
    | IKGroups i => RetrieveWithCollector i
    | ICompact i => RetrieveWithCollector i
    end
|}.

End Instances.
Arguments AnyBEIndex : clear implicits.

(** ** Retrieve

    [Retrieve] (the same in both indexes) runs a retrieval with a pooled
    collector, which goes back to the pool whatever the outcome. *)
Definition Retrieve {I H B} `{BEIndex I H} `{Roaring64 B} (bi : I) (queries : Assignments)
    (opts : list (IndexOpt (DocIDCollector B)))
    : M (list (DocIDCollector B)) (list DocID) := fun pool =>
  let '(pool, collector) := PickCollector pool in
  match RetrieveWithCollector bi queries opts collector with
  | (collector, Ok _) => (PutCollector pool collector, Ok (GetDocIDs collector))
  | (collector, Err e) => (PutCollector pool collector, Err e)
  | (collector, Panic e) => (PutCollector pool collector, Panic e)
  | (collector, OutOfFuel) => (PutCollector pool collector, OutOfFuel)
  end.
