(* ===== verification/IndexSpec.v ===== *)
(** * What an index holds and what a retrieval must report

    The state of an index is related to the list of the transactions committed
    to it ([index_holds]); [idx_matched] says, in terms of these transactions
    alone, which conjunctions a query satisfies.  [BEIndexSpec] is the promise of
    an index to the builder and to its clients. *)

From stdpp Require Import base sorting gmap strings numbers list.
From S2P Require Import Prelude GoValues Ids Document Cursor FieldCursor Collector Scan Holder.
From S2P Require Import Index.
Open Scope Z_scope.

(** ** Definitions *)

Section Content.
Context {H D : Type} `{EntriesHolder H D} `{MapRange}.
Context (factory : gmap string H) `{!HolderSpec H D factory}.

Definition tx_proj (tx : FieldIndexingData D) : FieldDesc * EntryID * D :=
  (fi_field tx, fi_EID tx, fi_Data tx).

(** The transactions committed to the holder at [a], [r]. *)
Definition txs_at (txs : list (FieldIndexingData D)) (a : nat) (r : HolderRef) : Txs D :=
  tx_proj <$> filter (fun tx => fi_addr tx = a /\ fi_ref tx = r) txs.

Definition container_rep (rep : string -> H -> Txs D -> Prop) (descs : gmap string FieldDesc)
    (txs : list (FieldIndexingData D)) (a : nat) (c : EntriesContainer H) : Prop :=
  (exists h, defaultHolder c = Some h /\ rep HolderNameDefault h (txs_at txs a RDefault)) /\
  (forall f h, fieldHolder c !! f = Some h ->
     exists d, descs !! f = Some d /\ fd_Container d <> HolderNameDefault /\
       rep (fd_Container d) h (txs_at txs a (RField f))).

Record index_holds {I} `{BEIndex I H} (caddr : nat -> nat) (rep : string -> H -> Txs D -> Prop)
    (i : I) (descs : gmap string FieldDesc) (txs : list (FieldIndexingData D)) (wild : Entries)
    : Prop := {
  ih_containers : forall a c, container_at i a = Some c -> container_rep rep descs txs a c;
  ih_refs : forall tx, tx ∈ txs ->
    exists c, container_at i (fi_addr tx) = Some c /\ is_Some (holder_deref c (fi_ref tx));
  ih_wild : ib_wildcardEntries (index_base i) ≡ₚ wild;
  ih_wild_container : wild <> [] -> is_Some (container_at i (caddr 0%nat))
}.

(** A compiled index: as above, with sorted posting lists, ready to be queried. *)
Definition index_ready {I} `{BEIndex I H} (caddr : nat -> nat) (i : I)
    (descs : gmap string FieldDesc) (txs : list (FieldIndexingData D)) (wild : Entries) : Prop :=
  index_holds caddr holder_compiled i descs txs wild /\
  ib_fieldsData (index_base i) = descs /\
  StronglySorted Z.le (ib_wildcardEntries (index_base i)).

Definition descs_ok (descs : gmap string FieldDesc) : Prop :=
  (forall f d, descs !! f = Some d -> fd_Field d = f) /\
  (forall f f' d d', descs !! f = Some d -> descs !! f' = Some d' -> fd_ID d = fd_ID d' -> f = f').

(** The container size of the conjunction an entry belongs to. *)
Definition tx_size (tx : FieldIndexingData D) : nat :=
  Z.to_nat (conj_Size (GetConjID (fi_EID tx))).

Record content_ok (caddr : nat -> nat) (descs : gmap string FieldDesc)
    (txs : list (FieldIndexingData D)) (wild : Entries) : Prop := {
  co_descs : descs_ok descs;
  co_field : forall tx, tx ∈ txs -> descs !! fd_Field (fi_field tx) = Some (fi_field tx);
  co_ref : forall tx, tx ∈ txs -> fi_ref tx = ref_of (fi_field tx);
  co_addr : forall tx, tx ∈ txs -> fi_addr tx = caddr (tx_size tx);
  co_valid : forall tx, tx ∈ txs -> valid_eid (fi_EID tx);
  co_wild : forall w, w ∈ wild -> valid_eid w /\ IsInclude w = true /\ conj_Size (GetConjID w) = 0;
  co_size : forall c, valid_conj c -> exists F : gset string,
    (size F <= Z.to_nat (conj_Size c))%nat /\
    forall tx, tx ∈ txs -> fi_EID tx = NewEntryID c true -> fd_Field (fi_field tx) ∈ F
}.

(** *** Matching *)

Definition tx_hit (tx : FieldIndexingData D) (v : Values) : bool :=
  data_hits (fd_Container (fi_field tx)) (fi_field tx) (fi_Data tx) v.

(** Entry [e] is found when the query assigns [kv.2] to field [kv.1]. *)
Definition field_hit (txs : list (FieldIndexingData D)) (e : EntryID) (kv : BEField * Values) : bool :=
  existsb (fun tx => bool_decide (fd_Field (fi_field tx) = kv.1) &&
                     bool_decide (fi_EID tx = e) && tx_hit tx kv.2) txs.

(** The number of assigned fields that include conjunction [c]. *)
Definition inc_count (q : Assignments) (txs : list (FieldIndexingData D)) (c : ConjID) : nat :=
  length (filter (fun kv => field_hit txs (NewEntryID c true) kv = true) (map_to_list q)).

Definition exc_hit (q : Assignments) (txs : list (FieldIndexingData D)) (c : ConjID) : Prop :=
  exists kv, kv ∈ map_to_list q /\ field_hit txs (NewEntryID c false) kv = true.

(** Conjunction [c] is satisfied: no exclude expression is hit; a conjunction of
    size 0 is in the wildcard set, another one is included by as many fields as
    its size. *)
Definition idx_matched (q : Assignments) (txs : list (FieldIndexingData D)) (wild : Entries)
    (c : ConjID) : Prop :=
  ~ exc_hit q txs c /\
  (if bool_decide (conj_Size c = 0) then NewEntryID c true ∈ wild
   else conj_Size c <= Z.of_nat (inc_count q txs c)).

(** Every value of the query is acceptable to the holder of its field. *)
Definition query_ok (descs : gmap string FieldDesc) (q : Assignments) : Prop :=
  forall f v d, q !! f = Some v -> descs !! f = Some d -> assign_ok (fd_Container d) d v = true.

(** *** The promise of an index *)

Class BEIndexSpec (I : Type) `{BEIndex I H} := {
  caddr : I -> nat -> nat;

  newContainer_spec : forall i k i' a, newContainer i k = (i', a) ->
    a = caddr i k /\ caddr i' = caddr i /\ index_base i' = index_base i /\ is_Some (container_at i' a) /\
    (forall a' c, container_at i a' = Some c -> container_at i' a' = Some c) /\
    (forall a' c, container_at i' a' = Some c ->
       container_at i a' = Some c \/
       (container_at i a' = None /\ c = newFieldEntriesContainer factory));

  container_at_set : forall i a c a', is_Some (container_at i a) ->
    container_at (set_container i a c) a' = if decide (a = a') then Some c else container_at i a';
  base_set_container : forall i a c, index_base (set_container i a c) = index_base i;
  caddr_set_container : forall i a c, caddr (set_container i a c) = caddr i;

  base_addWildcardEID : forall i e,
    index_base (addWildcardEID i e) = ib_addWildcardEID (index_base i) e;
  container_at_addWildcardEID : forall i e a,
    container_at (addWildcardEID i e) a = container_at i a;
  caddr_addWildcardEID : forall i e, caddr (addWildcardEID i e) = caddr i;

  base_setFieldDesc : forall i fd, index_base (setFieldDesc i fd) = ib_setFieldDesc (index_base i) fd;
  container_at_setFieldDesc : forall i fd a,
    container_at (setFieldDesc i fd) a = container_at i a;
  caddr_setFieldDesc : forall i fd, caddr (setFieldDesc i fd) = caddr i;

  compileIndexer_spec : forall i descs txs wild i' r,
    index_holds (caddr i) holder_rep i descs txs wild -> ib_fieldsData (index_base i) = descs ->
    compileIndexer i = (i', r) ->
    match r with
    | Ok _ => index_ready (caddr i') i' descs txs wild /\ caddr i' = caddr i
    | Err _ => True
    | _ => False
    end;

  RetrieveWithCollector_spec : forall C `{ResultCollector C} i descs txs wild q (c c' : C) r,
    index_ready (caddr i) i descs txs wild -> content_ok (caddr i) descs txs wild ->
    RetrieveWithCollector i q [] c = (c', r) ->
    match r with
    | Ok _ => exists hits, c' = foldl add_conj c hits /\ NoDup hits /\
        forall c0, c0 ∈ hits <-> valid_conj c0 /\ idx_matched q txs wild c0
    | Err _ => ~ query_ok descs q
    | Panic _ => ~ (query_plain q /\ query_ok descs q)
    | OutOfFuel => False
    end
}.

End Content.
