(* ===== verification/IndexProofs.v ===== *)
(** * The k-groups and the compact index keep the promise of [BEIndexSpec]

    Compilation turns every holder of the index into its compiled form;
    [initCursors] yields one field cursor per assigned field that has entries;
    the scanners of Scan.v then report what [idx_matched] asks for. *)

From stdpp Require Import base sorting gmap strings numbers list.
From S2P Require Import Prelude GoValues Ids Document Cursor FieldCursor Collector Scan Holder.
From S2P Require Import Index IndexSpec.
Open Scope Z_scope.

Section Proofs.
Context {H D : Type} `{EntriesHolder H D} `{MapRange}.
Context (factory : gmap string H) `{!HolderSpec H D factory}.
Implicit Types (txs : list (FieldIndexingData D)).

(** ** Compilation *)

Lemma compile_ref_spec r c c' out :
  compile_ref r c = (c', out) -> is_Some (holder_deref c r) ->
  exists h h', holder_deref c r = Some h /\ CompileEntries h = (h', out) /\
    c' = holder_update c r h'.
Proof.
  unfold compile_ref. intros Hc [h Hh]. rewrite Hh in Hc.
  destruct (CompileEntries h) as [h' o] eqn:E. simplify_eq. eauto.
Qed.

Lemma deref_update (c : EntriesContainer H) r h r' :
  holder_deref (holder_update c r h) r' = if decide (r = r') then Some h else holder_deref c r'.
Proof.
  destruct (decide (r = r')) as [<- | Hne].
  - destruct r; simpl; [done | apply lookup_insert_eq].
  - destruct r as [|f], r' as [|f']; simpl; try done. apply lookup_insert_ne. congruence.
Qed.

(** The outcome of compiling the holders [fs] one after the other. *)
Lemma compile_fields_spec fs (c c' : EntriesContainer H) out :
  NoDup fs -> (forall f, f ∈ fs -> is_Some (fieldHolder c !! f)) ->
  forM fs (fun f => compile_ref (RField f)) c = (c', out) ->
  match out with
  | Ok _ => forall r,
      match r with
      | RField f => if decide (f ∈ fs)
                    then exists h h', holder_deref c r = Some h /\ holder_deref c' r = Some h' /\
                           CompileEntries h = (h', Ok tt)
                    else holder_deref c' r = holder_deref c r
      | RDefault => holder_deref c' r = holder_deref c r
      end
  | _ => exists f h h', f ∈ fs /\ fieldHolder c !! f = Some h /\ CompileEntries h = (h', out)
  end.
Proof.
  revert c. induction fs as [|f fs IH]; intros c Hnd Hsome; simpl.
  - intros [= <- <-]. by intros [|f].
  - apply NoDup_cons in Hnd as [Hf Hnd].
    unfold mbind, M_bind.
    destruct (compile_ref (RField f) c) as [c1 o1] eqn:E1.
    apply compile_ref_spec in E1 as (h & h' & Hh & Hcomp & ->); [| by apply Hsome; left].
    simpl in Hh.
    destruct o1 as [[]|e|e|]; [| intros [= <- <-]; exists f, h, h'; split; [by left | done] ..].
    intros Hrest. apply IH in Hrest; [| done |].
    2: { intros f' Hf'. simpl. destruct (decide (f = f')) as [-> | Hne].
         - rewrite lookup_insert_eq. eauto.
         - rewrite lookup_insert_ne by done. apply Hsome. by right. }
    destruct out as [u|e|e|].
    + intros r. specialize (Hrest r). destruct r as [|f'].
      * rewrite Hrest. done.
      * rewrite !deref_update in Hrest.
        destruct (decide (f' ∈ fs)) as [Hin | Hin].
        -- rewrite decide_True by by right.
           rewrite decide_False in Hrest by (intros [= ->]; done). done.
        -- destruct (decide (f' = f)) as [-> | Hne].
           ++ rewrite decide_True by by left. rewrite decide_True in Hrest by done.
              exists h, h'. done.
           ++ rewrite decide_False by (rewrite elem_of_cons; tauto).
              rewrite decide_False in Hrest by congruence. done.
    + destruct Hrest as (f' & h0 & h0' & Hin & Hl & Hc). exists f', h0, h0'.
      split; [by right |]. simpl in Hl. rewrite lookup_insert_ne in Hl by (intros ->; done). done.
    + destruct Hrest as (f' & h0 & h0' & Hin & Hl & Hc). exists f', h0, h0'.
      split; [by right |]. simpl in Hl. rewrite lookup_insert_ne in Hl by (intros ->; done). done.
    + destruct Hrest as (f' & h0 & h0' & Hin & Hl & Hc). exists f', h0, h0'.
      split; [by right |]. simpl in Hl. rewrite lookup_insert_ne in Hl by (intros ->; done). done.
Qed.

Lemma forM_fmap {S A B} (g : A -> B) (xs : list A) (body : B -> M S unit) s :
  forM xs (fun x => body (g x)) s = forM (g <$> xs) body s.
Proof.
  revert s. induction xs as [|x xs IH]; intros s; simpl; [done |].
  unfold mbind, M_bind. destruct (body (g x) s) as [s' [u|e|e|]]; done.
Qed.

(** Compiling a container keeps its holders and what was committed to them. *)
Lemma compileEntries_spec descs txs a c c' out :
  container_rep holder_rep descs txs a c -> compileEntries c = (c', out) ->
  match out with
  | Ok _ => container_rep holder_compiled descs txs a c' /\
      forall r, is_Some (holder_deref c r) -> is_Some (holder_deref c' r)
  | Err _ => True
  | _ => False
  end.
Proof.
  intros [(hd & Hhd & Hrepd) Hreps] Hc. unfold compileEntries, mbind, M_bind in Hc.
  destruct (compile_ref RDefault c) as [c1 o1] eqn:E1.
  apply compile_ref_spec in E1 as (h & h' & Hh & Hcomp & ->); [| simpl; eauto].
  simpl in Hh. simplify_eq.
  pose proof (holder_compile _ _ _ _ _ Hrepd Hcomp) as Hd.
  destruct o1 as [[]|e|e|]; [| by simplify_eq ..]. simpl in Hc.
  rewrite (forM_fmap fst _ (fun f => compile_ref (RField f))) in Hc.
  apply compile_fields_spec in Hc.
  2: { apply NoDup_map_range_fst. }
  2: { intros f Hf. simpl. apply list_elem_of_fmap in Hf as ([k v] & -> & Hin%elem_of_map_range).
       simpl in *. eauto. }
  destruct out as [u|e|e|].
  - assert (Hfield : forall f h0, fieldHolder c !! f = Some h0 -> exists h0',
      fieldHolder c' !! f = Some h0' /\ CompileEntries h0 = (h0', Ok tt)).
    { intros f h0 Hf. specialize (Hc (RField f)). simpl in Hc.
      rewrite decide_True in Hc.
      - destruct Hc as (h1 & h1' & Hl & Hl' & Hce). simplify_eq. eauto.
      - apply list_elem_of_fmap. exists (f, h0). by rewrite elem_of_map_range. }
    assert (Hnone : forall f, fieldHolder c !! f = None -> fieldHolder c' !! f = None).
    { intros f Hf. specialize (Hc (RField f)). simpl in Hc. rewrite decide_False in Hc.
      - by rewrite Hc.
      - intros ([k v] & -> & Hin%elem_of_map_range)%list_elem_of_fmap. simpl in *. congruence. }
    split; [split |].
    + exists h'. pose proof (Hc RDefault) as Hc0. simpl in Hc0. by rewrite Hc0.
    + intros f h1 Hf. destruct (fieldHolder c !! f) as [h0|] eqn:Hf0.
      2: { rewrite Hnone in Hf by done. done. }
      destruct (Hfield f h0 Hf0) as (h0' & Hf' & Hce). simplify_eq.
      destruct (Hreps f h0 Hf0) as (d & Hd1 & Hd2 & Hrep). exists d. split; [done |].
      split; [done |]. apply (holder_compile _ _ _ _ _ Hrep Hce).
    + intros [|f] [h0 Hh0]; simpl in *.
      * pose proof (Hc RDefault) as Hc0. simpl in Hc0. rewrite Hc0. eauto.
      * destruct (Hfield f h0 Hh0) as (h0' & -> & _). eauto.
  - done.
  - destruct Hc as (f & h0 & h0' & _ & Hl & Hce). simpl in Hl.
    destruct (Hreps f h0 Hl) as (d & _ & _ & Hrep).
    by apply (holder_compile _ _ _ _ _ Hrep Hce).
  - destruct Hc as (f & h0 & h0' & _ & Hl & Hce). simpl in Hl.
    destruct (Hreps f h0 Hl) as (d & _ & _ & Hrep).
    by apply (holder_compile _ _ _ _ _ Hrep Hce).
Qed.

Lemma ib_sort_wildcard_spec b :
  ib_wildcardEntries (ib_sort_wildcard b) ≡ₚ ib_wildcardEntries b /\
  StronglySorted Z.le (ib_wildcardEntries (ib_sort_wildcard b)) /\
  ib_fieldsData (ib_sort_wildcard b) = ib_fieldsData b.
Proof.
  unfold ib_sort_wildcard. simpl. case_bool_decide as Hlen.
  - split; [apply sortZ_perm |]. split; [apply sortZ_sorted | done].
  - destruct (ib_wildcardEntries b); [| simpl in Hlen; lia].
    split; [done |]. split; [constructor | done].
Qed.

(** ** Field cursors of a query *)

(** What one assigned field contributes: at most one live field cursor, over the
    entries that the field's value hits. *)
Definition binding_cursors txs (kv : BEField * Values) (fs : list FieldCursor) : Prop :=
  (length fs <= 1)%nat /\
  Forall (fun fc => fc_at 0 fc /\ fc_GetCurEntryID fc <> NULLENTRY) fs /\
  forall e, e ∈ (fs ≫= fc_entries) <-> field_hit factory txs e kv = true.

Lemma field_hit_spec txs e kv :
  field_hit factory txs e kv = true <->
  exists tx, tx ∈ txs /\ fd_Field (fi_field tx) = kv.1 /\ fi_EID tx = e /\ tx_hit factory tx kv.2 = true.
Proof.
  unfold field_hit. rewrite existsb_exists. setoid_rewrite <- list_elem_of_In.
  setoid_rewrite andb_true_iff. setoid_rewrite andb_true_iff.
  setoid_rewrite bool_decide_eq_true. naive_solver.
Qed.

Lemma elem_of_txs_at txs a r d e x :
  (d, e, x) ∈ txs_at txs a r <->
  exists tx, tx ∈ txs /\ fi_addr tx = a /\ fi_ref tx = r /\
    fi_field tx = d /\ fi_EID tx = e /\ fi_Data tx = x.
Proof.
  unfold txs_at. rewrite list_elem_of_fmap. setoid_rewrite list_elem_of_filter.
  unfold tx_proj. split.
  - intros (tx & [= -> -> ->] & [? ?] & ?). eauto 10.
  - intros (tx & ? & ? & ? & <- & <- & <-). eauto 10.
Qed.

Section Query.
Variables (cad : nat -> nat) (descs : gmap string FieldDesc) (txs : list (FieldIndexingData D))
  (wild : Entries) (a : nat) (cont : EntriesContainer H).
Hypothesis Hcontent : content_ok cad descs txs wild.
Hypothesis Hcont : container_rep holder_compiled descs txs a cont.
Hypothesis Hrefs : forall tx, tx ∈ txs -> fi_addr tx = a -> is_Some (holder_deref cont (fi_ref tx)).

(** The part of the content that lives in container [a]. *)
Let txsa := filter (fun tx => fi_addr tx = a) txs.

Lemma desc_eq d d' f f' :
  descs !! f = Some d -> descs !! f' = Some d' -> fd_ID d = fd_ID d' -> d = d'.
Proof.
  intros Hd Hd' Hid. destruct (co_descs _ _ _ _ Hcontent) as [_ Hinj].
  assert (f = f') by eauto. congruence.
Qed.

Lemma scope_ok_ref d f :
  descs !! f = Some d -> scope_ok (fd_Container d) (txs_at txs a (ref_of d)) d.
Proof.
  intros Hd d' e x (tx & Htx & _ & Href & <- & _)%elem_of_txs_at.
  pose proof (co_field _ _ _ _ Hcontent tx Htx) as Hd'. split.
  - intros Hid. by eapply desc_eq.
  - intros Hne. rewrite (co_ref _ _ _ _ Hcontent tx Htx) in Href. unfold ref_of in Href.
    rewrite (bool_decide_eq_false_2 (fd_Container d = _)) in Href by done.
    case_bool_decide; [done |]. injection Href as Hf.
    destruct (co_descs _ _ _ _ Hcontent) as [Hname _].
    rewrite Hf, (Hname _ _ Hd) in Hd'. congruence.
Qed.

Lemma valid_txs_at r : Forall (fun tx => valid_eid tx.1.2) (txs_at txs a r).
Proof.
  rewrite Forall_forall. intros [[d e] x] (tx & Htx & _ & _ & _ & <- & _)%elem_of_txs_at.
  simpl. by apply (co_valid _ _ _ _ Hcontent).
Qed.

Lemma getFieldHolder_deref d : getFieldHolder cont d = holder_deref cont (ref_of d).
Proof.
  unfold getFieldHolder, ref_of. case_bool_decide; [done |]. simpl.
  by destruct (fieldHolder cont !! fd_Field d).
Qed.

Lemma holder_at_ref d f h :
  descs !! f = Some d -> holder_deref cont (ref_of d) = Some h ->
  holder_compiled (fd_Container d) h (txs_at txs a (ref_of d)).
Proof.
  intros Hd Hh. destruct Hcont as [(hd & Hhd & Hrepd) Hreps].
  unfold ref_of in *. case_bool_decide as Hc; simpl in Hh.
  - rewrite Hc. by simplify_eq.
  - destruct (Hreps _ _ Hh) as (d' & Hd' & _ & Hrep).
    destruct (co_descs _ _ _ _ Hcontent) as [Hname _].
    rewrite (Hname _ _ Hd) in Hd'. by simplify_eq.
Qed.

(** Hits of a field, read off the transactions of its holder. *)
Lemma field_hit_at d f v e :
  descs !! f = Some d ->
  field_hit factory txsa e (f, v) = true <->
  exists x, (d, e, x) ∈ txs_at txs a (ref_of d) /\ data_hits (fd_Container d) d x v = true.
Proof.
  intros Hd. rewrite field_hit_spec. simpl. unfold txsa. setoid_rewrite list_elem_of_filter.
  destruct (co_descs _ _ _ _ Hcontent) as [Hname _]. split.
  - intros (tx & [Ha Htx] & Hf & He & Hhit).
    pose proof (co_field _ _ _ _ Hcontent tx Htx) as Hd'. rewrite Hf in Hd'.
    assert (fi_field tx = d) as Hfd by congruence. unfold tx_hit in Hhit. rewrite Hfd in Hhit.
    exists (fi_Data tx). split; [| done]. apply elem_of_txs_at. exists tx.
    rewrite (co_ref _ _ _ _ Hcontent tx Htx), Hfd. done.
  - intros (x & (tx & Htx & Ha & _ & <- & <- & <-)%elem_of_txs_at & Hhit).
    exists tx. by repeat split; auto.
Qed.

Lemma no_holder_no_hit d f v e :
  descs !! f = Some d -> holder_deref cont (ref_of d) = None ->
  field_hit factory txsa e (f, v) = false.
Proof.
  intros Hd Hnone. apply not_true_is_false. intros (x & Hx & _)%(field_hit_at d f v e Hd).
  apply elem_of_txs_at in Hx as (tx & Htx & Ha & Href & _).
  destruct (Hrefs tx Htx Ha) as [h Hh]. rewrite Href in Hh. congruence.
Qed.

Lemma no_desc_no_hit f v e : descs !! f = None -> field_hit factory txsa e (f, v) = false.
Proof.
  intros Hnone. apply not_true_is_false. intros (tx & Htx & Hf & _)%field_hit_spec.
  unfold txsa in Htx. apply list_elem_of_filter in Htx as [_ Htx]. simpl in Hf.
  pose proof (co_field _ _ _ _ Hcontent tx Htx) as Hd. rewrite Hf in Hd. congruence.
Qed.

Lemma binding_none kv :
  (forall e, field_hit factory txsa e kv = false) -> binding_cursors txsa kv [].
Proof.
  intros Hno. split; [simpl; lia |]. split; [constructor |].
  intros e. rewrite Hno. simpl. split; [| done]. intros He. elem_nil.
Qed.

(** A field cursor made from the entries of a holder. *)
Lemma field_cursor_fresh cs :
  cursors_ok cs -> (0 < length cs)%nat ->
  exists fc, NewFieldCursor cs = Ok fc /\ fc_at 0 fc /\ fc_GetCurEntryID fc <> NULLENTRY /\
    fc_entries fc = cs ≫= ec_entries.
Proof.
  intros Hcs Hlen. unfold cursors_ok in Hcs.
  destruct (NewFieldCursor_at cs) as (fc & Hnew & Hgroup & Hat).
  { intros ->. simpl in Hlen. lia. }
  { eapply Forall_impl; [exact Hcs |]. by intros ec [? _]. }
  exists fc. split; [done |]. split; [done |].
  assert (Hent : fc_entries fc = cs ≫= ec_entries) by (unfold fc_entries; by rewrite Hgroup).
  split; [| done]. intros Hnull.
  destruct (fc_at_cur 0 fc Hat) as [[_ Hall] | (Hin & _ & _)].
  - destruct cs as [|ec cs]; [simpl in Hlen; lia |].
    apply Forall_cons in Hcs as [[(_ & Hv & _) Hne] _].
    destruct (ec_entries ec) as [|e es] eqn:He; [done |].
    apply Forall_cons in Hv as [Hve _]. apply valid_eid_arith in Hve as [Hc _].
    specialize (Hall e). rewrite Hent in Hall. simpl in Hall. rewrite He in Hall.
    specialize (Hall ltac:(by left)). unfold valid_conj in Hc. lia.
  - rewrite Hnull in Hin. pose proof (fc_at_valid 0 fc _ Hat Hin) as Hv%valid_eid_bound.
    unfold NULLENTRY in Hv. lia.
Qed.

Lemma assign_cursor_spec fcs0 kv :
  match assign_cursor descs cont fcs0 kv with
  | Ok fcs => exists fs, fcs = fcs0 ++ fs /\ binding_cursors txsa kv fs
  | OutOfFuel => False
  | _ => exists d, descs !! kv.1 = Some d /\ assign_ok (fd_Container d) d kv.2 = false
  end.
Proof.
  destruct kv as [f v]. unfold assign_cursor. cbn [fst snd].
  destruct (descs !! f) as [d|] eqn:Hd.
  2: { exists []. rewrite app_nil_r. split; [done |]. apply binding_none.
       intros e. by apply no_desc_no_hit. }
  rewrite getFieldHolder_deref. destruct (holder_deref cont (ref_of d)) as [h|] eqn:Hh.
  2: { exists []. rewrite app_nil_r. split; [done |]. apply binding_none.
       intros e. by eapply no_holder_no_hit. }
  pose proof (holder_get _ h _ d v (holder_at_ref d f h Hd Hh) (valid_txs_at _) (scope_ok_ref d f Hd))
    as Hget.
  destruct (GetEntries h d v) as [cs|e|e|]; simpl; [| by exists d | by exists d | done].
  destruct Hget as [Hcs Hent].
  case_bool_decide as Hlen.
  - destruct (field_cursor_fresh cs Hcs Hlen) as (fc & -> & Hat & Hlive & Hfe).
    simpl. exists [fc]. split; [done |]. split; [simpl; lia |].
    split; [by constructor |]. intros e. simpl. rewrite app_nil_r, Hfe, Hent.
    by rewrite field_hit_at.
  - exists []. rewrite app_nil_r. split; [done |]. apply binding_none. intros e.
    apply not_true_is_false. intros Hhit%(field_hit_at d f v e Hd).
    apply Hent in Hhit. destruct cs; [elem_nil | simpl in Hlen; lia].
Qed.

Lemma assign_cursors_spec assigns fcs0 :
  match assign_cursors descs cont assigns fcs0 with
  | Ok fcs => exists fss, fcs = fcs0 ++ mjoin fss /\ Forall2 (binding_cursors txsa) assigns fss
  | OutOfFuel => False
  | _ => exists f v d, (f, v) ∈ assigns /\ descs !! f = Some d /\
           assign_ok (fd_Container d) d v = false
  end.
Proof.
  revert fcs0. induction assigns as [|kv assigns IH]; intros fcs0; simpl.
  - exists []. rewrite app_nil_r. split; [done | constructor].
  - pose proof (assign_cursor_spec fcs0 kv) as Hkv.
    destruct (assign_cursor descs cont fcs0 kv) as [fcs|e|e|]; simpl; try done.
    + destruct Hkv as (fs & -> & Hfs). specialize (IH (fcs0 ++ fs)).
      destruct (assign_cursors descs cont assigns (fcs0 ++ fs)) as [fcs|e|e|]; try done.
      1: destruct IH as (fss & -> & Hall); exists (fs :: fss); simpl;
        rewrite <- app_assoc; (split; [done | by constructor]).
      all: destruct IH as (f & v & d & Hin & Hd); exists f, v, d; (split; [by right | done]).
    + destruct kv as [f v]. destruct Hkv as (d & Hd). exists f, v, d. split; [by left | done].
    + destruct kv as [f v]. destruct Hkv as (d & Hd). exists f, v, d. split; [by left | done].
Qed.

End Query.

(** ** From cursors to matching *)

Section Counting.
Variables (txs : list (FieldIndexingData D)).

Lemma bindings_count kvs fss c0 :
  Forall2 (binding_cursors txs) kvs fss ->
  count_inc (fc_entries <$> mjoin fss) c0
  = length (filter (fun kv => field_hit factory txs (NewEntryID c0 true) kv = true) kvs).
Proof.
  induction 1 as [|kv fs kvs fss (Hlen & Hat & Hent) Hall IH]; [done |].
  change (mjoin (fs :: fss)) with (fs ++ mjoin fss).
  rewrite fmap_app, count_inc_app, IH, filter_cons. clear IH.
  specialize (Hent (NewEntryID c0 true)).
  destruct fs as [|fc [|]]; simpl in Hlen; [| | lia].
  - rewrite decide_False; [done |]. rewrite <- Hent. apply not_elem_of_nil.
  - simpl in Hent. rewrite app_nil_r in Hent. unfold count_inc at 1. simpl.
    rewrite filter_cons, filter_nil.
    destruct (decide (NewEntryID c0 true ∈ fc_entries fc)) as [Hin | Hin].
    + rewrite decide_True by by apply Hent. done.
    + rewrite decide_False by by rewrite <- Hent. done.
Qed.

Lemma bindings_excluded kvs fss c0 :
  Forall2 (binding_cursors txs) kvs fss ->
  excluded (fc_entries <$> mjoin fss) c0 <->
  exists kv, kv ∈ kvs /\ field_hit factory txs (NewEntryID c0 false) kv = true.
Proof.
  induction 1 as [|kv fs kvs fss (Hlen & Hat & Hent) Hall IH].
  - rewrite excluded_spec. simpl. split; intros (x & Hx & _); elem_nil.
  - change (mjoin (fs :: fss)) with (fs ++ mjoin fss). rewrite fmap_app.
    rewrite excluded_spec. setoid_rewrite elem_of_app. rewrite excluded_spec in IH.
    setoid_rewrite elem_of_cons. specialize (Hent (NewEntryID c0 false)).
    rewrite list_elem_of_bind in Hent. split.
    + intros (es & [Hes | Hes] & He).
      * apply list_elem_of_fmap in Hes as (fc & -> & Hfc).
        exists kv. split; [by left |]. apply Hent. eauto.
      * destruct (proj1 IH) as (kv' & Hkv' & Hh); [eauto |]. exists kv'. split; [by right | done].
    + intros (kv' & [-> | Hkv'] & Hh).
      * apply Hent in Hh as (fc & He & Hfc). exists (fc_entries fc).
        split; [left; by apply list_elem_of_fmap_2 | done].
      * destruct (proj2 IH) as (es & Hes & He); [eauto |]. eauto.
Qed.

Lemma bindings_at kvs fss :
  Forall2 (binding_cursors txs) kvs fss ->
  Forall (fun fc => fc_at 0 fc /\ fc_GetCurEntryID fc <> NULLENTRY) (mjoin fss).
Proof.
  induction 1 as [|kv fs kvs fss (_ & Hat & _) Hall IH]; [constructor |].
  change (mjoin (fs :: fss)) with (fs ++ mjoin fss). by apply Forall_app.
Qed.

End Counting.

(** The wildcard cursor. *)
Lemma wildcard_cursors_spec (W : Entries) :
  StronglySorted Z.le W -> Forall valid_eid W ->
  exists fs, wildcard_cursors W = Ok fs /\
    Forall (fun fc => fc_at 0 fc /\ fc_GetCurEntryID fc <> NULLENTRY) fs /\
    ((W = [] /\ fs = []) \/ exists fc, fs = [fc] /\ fc_entries fc = W).
Proof.
  intros Hs Hv. unfold wildcard_cursors. case_bool_decide as Hlen.
  - destruct (field_cursor_fresh [NewEntriesCursor wildcardQKey W]) as (fc & -> & Hat & Hlive & Hent).
    + constructor; [| constructor]. split; [by apply NewEntriesCursor_at |].
      simpl. intros ->. simpl in Hlen. lia.
    + simpl. lia.
    + exists [fc]. split; [done |]. split; [by constructor |]. right. exists fc. split; [done |].
      rewrite Hent. simpl. by rewrite app_nil_r.
  - destruct W; [| simpl in Hlen; lia]. exists []. split; [done |]. split; [constructor | by left].
Qed.

(** Include and exclude counts with the wildcard cursor in front. *)
Lemma wildcard_count W fs c0 :
  ((W = [] /\ fs = []) \/ exists fc, fs = [fc] /\ fc_entries fc = W) ->
  (count_inc (fc_entries <$> fs) c0 = if decide (NewEntryID c0 true ∈ W) then 1 else 0)%nat /\
  (excluded (fc_entries <$> fs) c0 <-> NewEntryID c0 false ∈ W).
Proof.
  intros [[-> ->] | (fc & -> & Hent)].
  - rewrite decide_False by apply not_elem_of_nil. split; [done |].
    rewrite excluded_spec. simpl. split; [intros (es & Hes & _) | intros Hes];
      elem_nil.
  - simpl. rewrite Hent. unfold count_inc. rewrite filter_cons, filter_nil.
    split; [by case_decide |]. rewrite excluded_spec.
    setoid_rewrite list_elem_of_singleton. naive_solver.
Qed.

(** ** One scan *)

Lemma filter_length_mono {A} (P Q : A -> Prop) `{!forall x, Decision (P x), !forall x, Decision (Q x)} l :
  (forall x, P x -> Q x) -> (length (filter P l) <= length (filter Q l))%nat.
Proof.
  intros HPQ. induction l as [|x l IH]; [done |]. rewrite !filter_cons.
  repeat case_decide; simpl; try lia. exfalso. auto.
Qed.

Lemma filter_length_none {A} (P : A -> Prop) `{forall x, Decision (P x)} (l : list A) :
  (forall x, ~ P x) -> length (filter P l) = 0%nat.
Proof.
  intros Hno. induction l as [|x l IH]; [done |]. by rewrite filter_cons_False.
Qed.

Lemma filter_length_ext {A} (P Q : A -> Prop) `{!forall x, Decision (P x), !forall x, Decision (Q x)} l :
  (forall x, P x <-> Q x) -> length (filter P l) = length (filter Q l).
Proof. intros HPQ. apply Nat.le_antisymm; apply filter_length_mono; intros x; apply HPQ. Qed.

(** A conjunction is included by at most as many fields as its size. *)
Lemma inc_count_le cad descs txs wild q c0 :
  content_ok cad descs txs wild -> valid_conj c0 ->
  (inc_count factory q txs c0 <= Z.to_nat (conj_Size c0))%nat.
Proof.
  intros Hco Hc0. destruct (co_size _ _ _ _ Hco c0 Hc0) as (F & HF & Hin).
  etransitivity; [| exact HF]. unfold inc_count, size, set_size. rewrite <- (length_fmap fst).
  apply submseteq_length, NoDup_submseteq.
  - eapply sublist_NoDup; [apply (NoDup_fst_map_to_list q) |].
    apply fmap_sublist, sublist_filter.
  - intros f ([k v] & -> & [Hhit _]%list_elem_of_filter)%list_elem_of_fmap.
    apply field_hit_spec in Hhit as (tx & Htx & Hf & He & _). simpl in *. subst k.
    apply elem_of_elements. by apply Hin.
Qed.

(** Only fields with a non-nil value are hit. *)
Lemma inc_count_le_Size txs q c0 :
  (inc_count factory q txs c0 <= assigned q)%nat.
Proof.
  apply filter_length_mono.
  intros [f v] (tx & _ & _ & _ & Hhit)%field_hit_spec. simpl in *.
  unfold tx_hit in Hhit. destruct (is_nil v) eqn:Hn; [| done].
  by rewrite data_hits_nil in Hhit.
Qed.

(** The scan of one container, for a conjunction that lives in it. *)
Lemma level_matched cad descs txs txsa wild q W wfs fss c0 :
  content_ok cad descs txs wild ->
  Forall2 (binding_cursors txsa) (map_range q) fss ->
  ((W = [] /\ wfs = []) \/ exists fc, wfs = [fc] /\ fc_entries fc = W) ->
  (forall w, w ∈ W -> w ∈ wild) -> valid_conj c0 ->
  (forall b kv, field_hit factory txsa (NewEntryID c0 b) kv = field_hit factory txs (NewEntryID c0 b) kv) ->
  (conj_Size c0 = 0 -> NewEntryID c0 true ∈ W <-> NewEntryID c0 true ∈ wild) ->
  let E := fc_entries <$> (wfs ++ mjoin fss) in
  let need := Z.to_nat (Z.max 1 (conj_Size c0)) in
  (count_inc E c0 <= need)%nat /\
  (matched E need c0 <-> idx_matched factory q txs wild c0).
Proof.
  intros Hco Hfss Hw HW Hc0 Hsame Hwild E need.
  destruct (wildcard_count W wfs c0 Hw) as [Hwc Hwe].
  assert (Hcnt : count_inc E c0 = ((if decide (NewEntryID c0 true ∈ W) then 1 else 0)
                                   + inc_count factory q txs c0)%nat).
  { unfold E. rewrite fmap_app, count_inc_app, Hwc, (bindings_count _ _ _ _ Hfss). f_equal.
    unfold inc_count. rewrite map_range_perm. apply filter_length_ext. intros kv. by rewrite Hsame. }
  assert (Hexc : excluded E c0 <-> exc_hit factory q txs c0).
  { unfold E. rewrite fmap_app. unfold excluded. rewrite Exists_app. fold (excluded (fc_entries <$> wfs) c0).
    fold (excluded (fc_entries <$> mjoin fss) c0). rewrite Hwe, (bindings_excluded _ _ _ _ Hfss).
    unfold exc_hit. setoid_rewrite map_range_perm. setoid_rewrite Hsame.
    split; [intros [Hin%HW | ?]; [| done] | by right].
    apply (co_wild _ _ _ _ Hco) in Hin as (_ & Hinc & _).
    unfold valid_conj in Hc0. rewrite IsInclude_NewEntryID in Hinc by lia. done. }
  pose proof (inc_count_le cad descs txs wild q c0 Hco Hc0) as Hle.
  pose proof (conj_Size_bound c0) as Hsz.
  assert (HinW : NewEntryID c0 true ∈ W -> conj_Size c0 = 0).
  { intros Hin%HW. apply (co_wild _ _ _ _ Hco) in Hin as (_ & _ & Hz).
    unfold valid_conj in Hc0. by rewrite GetConjID_NewEntryID in Hz by lia. }
  unfold matched, idx_matched. rewrite Hexc, Hcnt. unfold need.
  case_bool_decide as Hz.
  - rewrite <- (Hwild Hz). rewrite Hz in *. change (Z.to_nat 0) with 0%nat in Hle.
    change (Z.to_nat (Z.max 1 0)) with 1%nat. case_decide; split; try lia; split; try tauto;
      intros [? ?]; split; try tauto; lia.
  - rewrite decide_False by (intros ?%HinW; done). split; [lia |].
    split; intros [? ?]; split; try tauto; lia.
Qed.

(** Transactions of another container do not hit the conjunctions of this one. *)
Lemma field_hit_filter (P : FieldIndexingData D -> Prop) `{!forall tx, Decision (P tx)} txs e kv :
  (forall tx, tx ∈ txs -> fi_EID tx = e -> P tx) ->
  field_hit factory (filter P txs) e kv = field_hit factory txs e kv.
Proof.
  intros HP. apply Bool.eq_iff_eq_true. rewrite !field_hit_spec.
  setoid_rewrite list_elem_of_filter. naive_solver.
Qed.

Lemma field_hit_filter_none (P : FieldIndexingData D -> Prop) `{!forall tx, Decision (P tx)} txs e kv :
  (forall tx, tx ∈ txs -> fi_EID tx = e -> ~ P tx) ->
  field_hit factory (filter P txs) e kv = false.
Proof.
  intros HP. apply not_true_is_false. intros (tx & [HPt Htx]%list_elem_of_filter & _ & He & _)%field_hit_spec.
  by apply (HP tx).
Qed.

(** A query value that its holder refuses. *)
Lemma not_query_ok descs q :
  (exists f v d, (f, v) ∈ map_range q /\ descs !! f = Some d /\ assign_ok (fd_Container d) d v = false) ->
  ~ query_ok factory descs q.
Proof.
  intros (f & v & d & Hin%elem_of_map_range & Hd & Hno) Hq. by rewrite (Hq f v d Hin Hd) in Hno.
Qed.

End Proofs.
