(* ===== verification/IndexInstances.v ===== *)
(** * The two indexes implement [BEIndexSpec]

    The k-groups index scans one container per size, the compact index a single
    container; both report, for a query, exactly the conjunctions that
    [idx_matched] describes. *)

From stdpp Require Import base sorting gmap strings numbers list.
From S2P Require Import Prelude GoValues Ids Document Cursor FieldCursor Collector Scan Holder.
From S2P Require Import Index IndexSpec IndexProofs.
Open Scope Z_scope.

Lemma StronglySorted_lt_NoDup (l : list Z) : StronglySorted Z.lt l -> NoDup l.
Proof.
  induction 1 as [|x l Hs IH Hx]; constructor; [| done].
  intros Hin. rewrite Forall_forall in Hx. specialize (Hx x Hin). lia.
Qed.

Section KGroupsProofs.
Context {H D : Type} `{EntriesHolder H D} `{MapRange}.
Context (factory : gmap string H) `{!HolderSpec H D factory}.
#[local] Hint Extern 0 (BEIndex (KGroupsBEIndex _) _) => exact (KGroups_index factory) : typeclass_instances.

(** ** k-groups *)

Lemma kg_compile_loop_spec descs txs cs cs' out :
  (forall a c, cs !! a = Some c -> exists a', container_rep holder_rep descs txs a' c) ->
  kg_compile_loop cs = (cs', out) ->
  match out with
  | Ok _ => Forall2 (fun c c' => compileEntries c = (c', Ok tt)) cs cs'
  | Err _ => True
  | _ => False
  end.
Proof.
  revert cs' out. induction cs as [|c cs IH]; intros cs' out Hreps; simpl.
  - intros [= <- <-]. constructor.
  - destruct (compileEntries c) as [c' o] eqn:Ec.
    destruct (Hreps 0%nat c eq_refl) as (a' & Hrep).
    pose proof (compileEntries_spec factory _ _ _ _ _ _ Hrep Ec) as Hc.
    destruct o as [[]|e|e|]; [| intros [= <- <-]; done ..].
    destruct (kg_compile_loop cs) as [cs1 o1] eqn:El. intros [= <- <-].
    specialize (IH cs1 o1 (fun a c Ha => Hreps (S a) c Ha) eq_refl).
    destruct o1; try done. by constructor.
Qed.

Lemma kg_compile_spec (i : KGroupsBEIndex H) descs txs wild i' r :
  index_holds (I:=KGroupsBEIndex H) (fun k => k) holder_rep i descs txs wild ->
  ib_fieldsData (index_base i) = descs -> kg_compileIndexer i = (i', r) ->
  match r with
  | Ok _ => index_ready factory (fun k => k) i' descs txs wild
  | Err _ => True
  | _ => False
  end.
Proof.
  intros [Hcont Hrefs Hwild Hwc] Hfd. unfold kg_compileIndexer. simpl in *.
  destruct (kg_compile_loop (kSizeContainers i)) as [cs out] eqn:El.
  pose proof El as El'. apply (kg_compile_loop_spec descs txs) in El; [| eauto].
  destruct out as [u|e|e|]; intros [= <- <-]; try done.
  destruct (ib_sort_wildcard_spec (kg_base i)) as (Hwp & Hws & Hwf).
  assert (Hlook : forall a c', cs !! a = Some c' ->
    exists c, kSizeContainers i !! a = Some c /\ compileEntries c = (c', Ok tt)).
  { intros a c' Ha. destruct (Forall2_lookup_r _ _ _ _ _ El Ha) as (c & ? & ?). eauto. }
  assert (Hlook' : forall a c, kSizeContainers i !! a = Some c ->
    exists c', cs !! a = Some c' /\ compileEntries c = (c', Ok tt)).
  { intros a c Ha. destruct (Forall2_lookup_l _ _ _ _ _ El Ha) as (c' & ? & ?). eauto. }
  split; [split | split]; simpl.
  - intros a c' (c & Hc & Hce)%Hlook.
    by apply (compileEntries_spec factory _ _ _ _ _ _ (Hcont a c Hc) Hce).
  - intros tx Htx. destruct (Hrefs tx Htx) as (c & Hc & Hr).
    destruct (Hlook' _ _ Hc) as (c' & Hc' & Hce). exists c'. split; [done |].
    by apply (compileEntries_spec factory _ _ _ _ _ _ (Hcont _ c Hc) Hce).
  - by rewrite Hwp.
  - intros Hne. destruct (Hwc Hne) as [c Hc]. destruct (Hlook' _ _ Hc) as (c' & Hc' & _). eauto.
  - done.
  - done.
Qed.

Section KGRetrieve.
Context {C : Type} `{ResultCollector C}.
Variables (i : KGroupsBEIndex H) (descs : gmap string FieldDesc)
  (txs : list (FieldIndexingData D)) (wild : Entries) (q : Assignments).
Hypothesis Hready : index_ready factory (I:=KGroupsBEIndex H) (fun k => k) i descs txs wild.
Hypothesis Hco : content_ok (fun k => k) descs txs wild.

Lemma kg_wild_valid : Forall valid_eid (ib_wildcardEntries (kg_base i)).
Proof.
  destruct Hready as ([_ _ Hw _] & _). simpl in Hw. rewrite Forall_forall. intros w Hin.
  rewrite Hw in Hin. by apply (co_wild _ _ _ _ Hco).
Qed.

(** The cursors of size [k]. *)
Lemma kg_initCursors_spec k cont :
  kSizeContainers i !! k = Some cont ->
  match kg_initCursors i q k with
  | Ok fcs => exists W wfs fss, fcs = wfs ++ mjoin fss /\
      W = (if bool_decide (k = 0%nat) then ib_wildcardEntries (kg_base i) else []) /\
      ((W = [] /\ wfs = []) \/ exists fc, wfs = [fc] /\ fc_entries fc = W) /\
      Forall (fun fc => fc_at 0 fc /\ fc_GetCurEntryID fc <> NULLENTRY) wfs /\
      Forall2 (binding_cursors factory (filter (fun tx => fi_addr tx = k) txs)) (map_range q) fss
  | OutOfFuel => False
  | _ => ~ query_ok factory descs q
  end.
Proof.
  intros Hk. destruct Hready as ([Hcont Hrefs Hw Hwc] & Hfd & Hsorted). simpl in *.
  unfold kg_initCursors.
  set (W := if bool_decide (k = 0%nat) then ib_wildcardEntries (kg_base i) else []).
  assert (exists wfs, (if bool_decide (k = 0%nat) then wildcard_cursors (ib_wildcardEntries (kg_base i))
              else mret []) = Ok wfs /\
      Forall (fun fc => fc_at 0 fc /\ fc_GetCurEntryID fc <> NULLENTRY) wfs /\
      ((W = [] /\ wfs = []) \/ exists fc, wfs = [fc] /\ fc_entries fc = W)) as (wfs & -> & Hwat & Hwfs).
  { subst W. case_bool_decide; [by apply wildcard_cursors_spec; [| apply kg_wild_valid] |].
    exists []. split; [done |]. split; [constructor | by left]. }
  simpl. unfold getKSizeEntries. rewrite Hk. simpl.
  pose proof (assign_cursors_spec factory (fun k => k) descs txs wild k cont Hco (Hcont k cont Hk)) as Has.
  rewrite Hfd. specialize (Has (fun tx Htx Ha => ltac:(destruct (Hrefs tx Htx) as (c' & Hc' & Hd);
    rewrite Ha, Hk in Hc'; injection Hc' as <-; exact Hd)) (map_range q) wfs).
  destruct (assign_cursors descs cont (map_range q) wfs) as [fcs|e|e|]; try done.
  - destruct Has as (fss & -> & Hfss). exists W, wfs, fss. done.
  - by eapply not_query_ok.
  - by eapply not_query_ok.
Qed.

(** Scanning container [k] reports the matched conjunctions of size [k]. *)
Lemma kg_wild_sub k w :
  w ∈ (if bool_decide (k = 0%nat) then ib_wildcardEntries (kg_base i) else []) -> w ∈ wild.
Proof.
  destruct Hready as ([_ _ Hw _] & _). simpl in Hw. case_bool_decide; [by rewrite Hw | intros Hin; elem_nil].
Qed.

(** A conjunction of another size has no include entry under the cursors of a
    container. *)
Lemma kg_other_size k W wfs fss c0 :
  W = (if bool_decide (k = 0%nat) then ib_wildcardEntries (kg_base i) else []) ->
  ((W = [] /\ wfs = []) \/ exists fc, wfs = [fc] /\ fc_entries fc = W) ->
  Forall2 (binding_cursors factory (filter (fun tx => fi_addr tx = k) txs)) (map_range q) fss ->
  valid_conj c0 -> conj_Size c0 <> Z.of_nat k -> count_inc (fc_entries <$> (wfs ++ mjoin fss)) c0 = 0%nat.
Proof.
  intros HW Hwfs Hfss Hc0 Hsz. pose proof (kg_wild_sub k) as HWw. rewrite <- HW in HWw.
  rewrite fmap_app, count_inc_app.
  destruct (wildcard_count W wfs c0 Hwfs) as [-> _]. rewrite (bindings_count _ _ _ _ _ Hfss).
  rewrite decide_False.
  - apply filter_length_none. intros kv.
    rewrite field_hit_filter_none; [done |]. intros tx Htx He Ha.
    rewrite (co_addr _ _ _ _ Hco tx Htx) in Ha. unfold tx_size in Ha.
    rewrite He, GetConjID_NewEntryID in Ha by (unfold valid_conj in Hc0; lia).
    pose proof (conj_Size_bound c0). lia.
  - intros HinW. pose proof (HWw _ HinW) as Hinw.
    apply (co_wild _ _ _ _ Hco) in Hinw as (_ & _ & Hz).
    rewrite GetConjID_NewEntryID in Hz by (unfold valid_conj in Hc0; lia).
    rewrite HW in HinW. case_bool_decide; [lia | elem_nil].
Qed.

Lemma kg_level_spec k cont (c : C) :
  kSizeContainers i !! k = Some cont ->
  match kg_initCursors i q k with
  | Ok fcs => exists hits,
      retrieveK fcs (Z.to_nat (MaxInt (Z.of_nat k) 1)) c = Ok (foldl add_conj c hits) /\ NoDup hits /\
      forall c0, c0 ∈ hits <->
        valid_conj c0 /\ conj_Size c0 = Z.of_nat k /\ idx_matched factory q txs wild c0
  | OutOfFuel => False
  | _ => ~ query_ok factory descs q
  end.
Proof.
  intros Hk. pose proof (kg_initCursors_spec k cont Hk) as Hinit.
  destruct (kg_initCursors i q k) as [fcs|e|e|]; try done.
  destruct Hinit as (W & wfs & fss & -> & HW & Hwfs & Hwat & Hfss).
  pose proof (kg_wild_sub k) as HWw. rewrite <- HW in HWw.
  assert (Hin : forall c0, valid_conj c0 -> conj_Size c0 = Z.of_nat k ->
    let E := fc_entries <$> (wfs ++ mjoin fss) in
    let need := Z.to_nat (Z.max 1 (conj_Size c0)) in
    (count_inc E c0 <= need)%nat /\ (matched E need c0 <-> idx_matched factory q txs wild c0)).
  { intros c0 Hc0 Hsz. eapply (level_matched factory); [exact Hco | exact Hfss | exact Hwfs | done | done | |].
    - intros b kv. apply field_hit_filter. intros tx Htx He.
      rewrite (co_addr _ _ _ _ Hco tx Htx). unfold tx_size.
      rewrite He, GetConjID_NewEntryID by (unfold valid_conj in Hc0; lia). lia.
    - intros Hz. rewrite HW, bool_decide_eq_true_2 by lia.
      destruct Hready as ([_ _ Hw _] & _). simpl in Hw. by rewrite Hw. }
  assert (Hout : forall c0, valid_conj c0 -> conj_Size c0 <> Z.of_nat k ->
    count_inc (fc_entries <$> (wfs ++ mjoin fss)) c0 = 0%nat).
  { intros c0. by apply (kg_other_size k W). }
  set (need := Z.to_nat (MaxInt (Z.of_nat k) 1)).
  assert (Hneed : need = Z.to_nat (Z.max 1 (Z.of_nat k))) by (unfold need; rewrite MaxInt_max; lia).
  destruct (retrieveK_spec need (wfs ++ mjoin fss) c) as (hits & -> & Hs & Hall & Hrep).
  - intros c0 Hc0 _. destruct (decide (conj_Size c0 = Z.of_nat k)) as [Hsz | Hsz].
    + destruct (Hin c0 Hc0 Hsz) as [Hle _]. rewrite Hsz in Hle. by rewrite Hneed.
    + rewrite Hout by done. lia.
  - apply Forall_app. split; [eapply Forall_impl; [exact Hwat |]; by intros fc [? _] |].
    eapply Forall_impl; [exact (bindings_at _ _ _ _ Hfss) |]. by intros fc [? _].
  - lia.
  - exists hits. split; [done |]. split.
    { by apply StronglySorted_lt_NoDup. }
    intros c0. rewrite Forall_forall in Hall. split.
    + intros Hc. destruct (Hall c0 Hc) as [Hv H0c]. pose proof (proj1 (Hrep c0 Hv H0c) Hc) as Hm.
      destruct (decide (conj_Size c0 = Z.of_nat k)) as [Hsz | Hsz].
      * split; [done |]. split; [done |]. apply (Hin c0 Hv Hsz). rewrite Hsz. by rewrite <- Hneed.
      * destruct Hm as [Hm _]. rewrite Hout in Hm by done. lia.
    + intros (Hv & Hsz & Hm). apply Hrep; [done | unfold valid_conj in Hv; lia |].
      destruct (Hin c0 Hv Hsz) as [_ Hiff]. rewrite Hsz, <- Hneed in Hiff. by apply Hiff.
Qed.

Lemma kg_retrieve_loop_spec n (c c' : C) r :
  (n <= length (kSizeContainers i))%nat -> kg_retrieve_loop i q n c = (c', r) ->
  match r with
  | Ok _ => exists hits, c' = foldl add_conj c hits /\ NoDup hits /\
      forall c0, c0 ∈ hits <->
        valid_conj c0 /\ conj_Size c0 < Z.of_nat n /\ idx_matched factory q txs wild c0
  | OutOfFuel => False
  | _ => ~ query_ok factory descs q
  end.
Proof.
  revert c. induction n as [|k IH]; intros c Hlen; cbn [kg_retrieve_loop].
  - intros [= <- <-]. exists []. split; [done |]. split; [constructor |].
    intros c0. split; [intros Hc0; elem_nil |].
    intros (_ & Hsz & _). pose proof (conj_Size_bound c0). lia.
  - destruct (lookup_lt_is_Some_2 (kSizeContainers i) k ltac:(lia)) as [cont Hk].
    pose proof (kg_level_spec k cont c Hk) as Hlevel.
    unfold mbind, M_bind, lift, get, put. cbn beta iota.
    destruct (kg_initCursors i q k) as [fcs|e|e|]; [| by intros [= <- <-] ..].
    destruct Hlevel as (hits & -> & Hnd & Hhits). cbn beta iota.
    intros Hrest. apply IH in Hrest; [| lia]. destruct r as [u|e|e|]; try done.
    destruct Hrest as (hits' & -> & Hnd' & Hhits').
    exists (hits ++ hits'). split; [by rewrite foldl_app |]. split.
    + apply NoDup_app. split; [done |]. split; [| done].
      intros c0 (_ & Hsz & _)%Hhits (_ & Hsz' & _)%Hhits'. lia.
    + intros c0. rewrite elem_of_app, Hhits, Hhits'. split.
      { intros [(? & ? & ?) | (? & ? & ?)]; (split; [done | split; [lia | done]]). }
      intros (Hv & Hsz & Hm). destruct (decide (conj_Size c0 = Z.of_nat k)); [tauto |].
      right. split; [done | split; [lia | done]].
Qed.

(** No conjunction of a larger size than the scan starts with is matched. *)
Lemma kg_start_enough c0 :
  valid_conj c0 -> idx_matched factory q txs wild c0 ->
  conj_Size c0 < MinInt (Z.of_nat (assigned q)) (maxK i) + 1.
Proof.
  intros Hc0 [_ Hm]. rewrite MinInt_min. pose proof (conj_Size_bound c0) as Hb.
  assert (Hcontainer : forall k, is_Some (kSizeContainers i !! k) -> Z.of_nat k <= maxK i).
  { intros k [cont Hk%lookup_lt_Some]. unfold maxK. lia. }
  destruct Hready as ([_ Hrefs Hw Hwc] & _). simpl in Hrefs, Hw, Hwc.
  case_bool_decide as Hz.
  - destruct (Hwc ltac:(intros ->; by apply not_elem_of_nil in Hm)) as [cont Hk].
    specialize (Hcontainer 0%nat ltac:(eauto)). lia.
  - pose proof (inc_count_le_Size factory txs q c0) as Hqs.
    assert (0 < inc_count factory q txs c0)%nat as Hpos by lia.
    unfold inc_count in Hpos.
    destruct (filter (fun kv => field_hit factory txs (NewEntryID c0 true) kv = true) (map_to_list q))
      as [|kv l] eqn:Hl; [simpl in Hpos; lia |].
    assert (kv ∈ filter (fun kv => field_hit factory txs (NewEntryID c0 true) kv = true) (map_to_list q))
      as Hkv by (rewrite Hl; by left).
    apply list_elem_of_filter in Hkv as [(tx & Htx & _ & He & _)%field_hit_spec _].
    destruct (Hrefs tx Htx) as (cont & Hcont & _).
    rewrite (co_addr _ _ _ _ Hco tx Htx) in Hcont. unfold tx_size in Hcont.
    rewrite He, GetConjID_NewEntryID in Hcont by (unfold valid_conj in Hc0; lia).
    specialize (Hcontainer _ ltac:(eauto)). lia.
Qed.

Lemma kg_Retrieve_spec (c c' : C) r :
  kg_RetrieveWithCollector i q [] c = (c', r) ->
  match r with
  | Ok _ => exists hits, c' = foldl add_conj c hits /\ NoDup hits /\
      forall c0, c0 ∈ hits <-> valid_conj c0 /\ idx_matched factory q txs wild c0
  | Err _ => ~ query_ok factory descs q
  | Panic _ => ~ (query_plain q /\ query_ok factory descs q)
  | OutOfFuel => False
  end.
Proof.
  unfold kg_RetrieveWithCollector. simpl. unfold mbind, M_bind, lift. simpl.
  destruct (Assignments_Size_cases q) as [[Hplain ->] | [Hno [e ->]]].
  2: { intros [= <- <-]. by intros [? _]. }
  intros Hr. apply kg_retrieve_loop_spec in Hr.
  2: { rewrite MinInt_min. unfold maxK. lia. }
  destruct r as [u|e|e|]; [| done | by intros [_ ?] | done]. destruct Hr as (hits & -> & Hnd & Hhits).
  exists hits. split; [done |]. split; [done |]. intros c0. rewrite Hhits.
  split; [tauto |]. intros [Hv Hm]. pose proof (kg_start_enough c0 Hv Hm).
  split; [done | split; [lia | done]].
Qed.

End KGRetrieve.

#[export] Instance KGroups_spec : BEIndexSpec factory (KGroupsBEIndex H).
Proof.
  refine {| caddr := fun _ k => k |}.
  - intros i k i' a [= <- <-]. simpl. split; [done |]. split; [done |]. split; [done |]. split.
    { apply lookup_lt_is_Some_2. rewrite length_app, length_replicate. lia. }
    split.
    + intros a' c Ha. by apply lookup_app_l_Some.
    + intros a' c [Ha | [Ha Hr]]%lookup_app_Some; [by left |]. right.
      apply lookup_replicate in Hr as [-> _]. split; [by apply lookup_ge_None | done].
  - intros i a c a' [c0 Ha]. simpl in *. destruct (decide (a = a')) as [<- | Hne].
    + apply list_lookup_insert_eq. by eapply lookup_lt_Some.
    + by apply list_lookup_insert_ne.
  - done.
  - done.
  - done.
  - done.
  - done.
  - done.
  - done.
  - done.
  - intros i descs txs wild i' r Hh Hfd Hr. pose proof (kg_compile_spec _ _ _ _ _ _ Hh Hfd Hr). by destruct r.
  - intros C HC i descs txs wild q c c' r Hready Hco. by apply kg_Retrieve_spec.
Defined.

End KGroupsProofs.

(** ** Compact *)

Section CompactProofs.
Context {H D : Type} `{EntriesHolder H D} `{MapRange}.
Context (factory : gmap string H) `{!HolderSpec H D factory}.
#[local] Hint Extern 0 (BEIndex (CompactBEIndex _) _) => exact (Compact_index (H:=H)) : typeclass_instances.
Local Abbreviation cp_addr := (fun _ : nat => 0%nat).

Lemma cp_compile_spec (i : CompactBEIndex H) descs txs wild i' r :
  index_holds (I:=CompactBEIndex H) cp_addr holder_rep i descs txs wild ->
  ib_fieldsData (index_base i) = descs -> cp_compileIndexer i = (i', r) ->
  match r with
  | Ok _ => index_ready factory cp_addr i' descs txs wild
  | Err _ => True
  | _ => False
  end.
Proof.
  intros [Hcont Hrefs Hwild Hwc] Hfd. unfold cp_compileIndexer. simpl in *.
  destruct (compileEntries (cp_container i)) as [c' out] eqn:Ec.
  pose proof (compileEntries_spec factory _ _ _ _ _ _ (Hcont 0%nat _ eq_refl) Ec) as Hc.
  intros [= <- <-]. destruct out as [u|e|e|]; try done.
  destruct (ib_sort_wildcard_spec (cp_base i)) as (Hwp & Hws & Hwf).
  split; [split | split]; simpl.
  - intros a c. case_bool_decide as Ha; [intros [= <-]; subst a; apply Hc | done].
  - intros tx Htx. destruct (Hrefs tx Htx) as (c & Ha & Hr).
    case_bool_decide; [| done]. injection Ha as <-. exists c'. split; [done |]. by apply Hc.
  - by rewrite Hwp.
  - intros _. eauto.
  - done.
  - done.
Qed.

Section CPRetrieve.
Context {C : Type} `{ResultCollector C}.
Variables (i : CompactBEIndex H) (descs : gmap string FieldDesc)
  (txs : list (FieldIndexingData D)) (wild : Entries) (q : Assignments).
Hypothesis Hready : index_ready factory (I:=CompactBEIndex H) cp_addr i descs txs wild.
Hypothesis Hco : content_ok cp_addr descs txs wild.

Lemma cp_initCursors_spec :
  match cp_initCursors i q with
  | Ok fcs => exists W (wfs : list FieldCursor) (fss : list (list FieldCursor)),
      fcs = wfs ++ mjoin fss /\ W = ib_wildcardEntries (cp_base i) /\
      ((W = [] /\ wfs = []) \/ exists fc, wfs = [fc] /\ fc_entries fc = W) /\
      Forall (fun fc => fc_at 0 fc /\ fc_GetCurEntryID fc <> NULLENTRY) wfs /\
      Forall2 (binding_cursors factory (filter (fun tx => fi_addr tx = 0%nat) txs)) (map_range q) fss
  | OutOfFuel => False
  | _ => ~ query_ok factory descs q
  end.
Proof.
  destruct Hready as ([Hcont Hrefs Hw Hwc] & Hfd & Hsorted). simpl in *. unfold cp_initCursors.
  destruct (wildcard_cursors_spec (ib_wildcardEntries (cp_base i))) as (wfs & -> & Hwat & Hwfs); [done | |].
  { rewrite Forall_forall. intros w Hin. rewrite Hw in Hin. by apply (co_wild _ _ _ _ Hco). }
  simpl.
  pose proof (assign_cursors_spec factory cp_addr descs txs wild 0%nat (cp_container i) Hco
    (Hcont 0%nat _ eq_refl)) as Has.
  rewrite Hfd. specialize (Has (fun tx Htx Ha => ltac:(destruct (Hrefs tx Htx) as (c' & Hc' & Hd);
    case_bool_decide; [injection Hc' as <-; exact Hd | done])) (map_range q) wfs).
  destruct (assign_cursors descs (cp_container i) (map_range q) wfs) as [fcs|e|e|]; try done.
  - destruct Has as (fss & -> & Hfss). by exists (ib_wildcardEntries (cp_base i)), wfs, fss.
  - by eapply not_query_ok.
  - by eapply not_query_ok.
Qed.

Lemma cp_Retrieve_spec (c c' : C) r :
  cp_RetrieveWithCollector i q [] c = (c', r) ->
  match r with
  | Ok _ => exists hits, c' = foldl add_conj c hits /\ NoDup hits /\
      forall c0, c0 ∈ hits <-> valid_conj c0 /\ idx_matched factory q txs wild c0
  | Err _ => ~ query_ok factory descs q
  | Panic _ => ~ (query_plain q /\ query_ok factory descs q)
  | OutOfFuel => False
  end.
Proof.
  unfold cp_RetrieveWithCollector. simpl. unfold mbind, M_bind, lift, get, put. simpl.
  pose proof cp_initCursors_spec as Hinit.
  destruct (cp_initCursors i q) as [fcs|e|e|];
    [| by intros [= <- <-] | intros [= <- <-]; by intros [_ ?] | done].
  destruct Hinit as (W & wfs & fss & -> & -> & Hwfs & Hwat & Hfss).
  assert (Hw : ib_wildcardEntries (cp_base i) ≡ₚ wild) by apply Hready.
  assert (Hin : forall c0, valid_conj c0 ->
    (count_inc (fc_entries <$> (wfs ++ mjoin fss)) c0 <= compact_need c0)%nat /\
    (matched (fc_entries <$> (wfs ++ mjoin fss)) (compact_need c0) c0 <->
     idx_matched factory q txs wild c0)).
  { intros c0 Hc0. unfold compact_need. rewrite MaxInt_max.
    eapply (level_matched factory); [exact Hco | exact Hfss | exact Hwfs | | done | |].
    - intros w. by rewrite Hw.
    - intros b kv. apply field_hit_filter. intros tx Htx _. by rewrite (co_addr _ _ _ _ Hco tx Htx).
    - intros _. by rewrite Hw. }
  assert (Hat : Forall (fun fc => fc_at 0 fc /\ fc_GetCurEntryID fc <> NULLENTRY) (wfs ++ mjoin fss)).
  { apply Forall_app. split; [done |]. exact (bindings_at _ _ _ _ Hfss). }
  destruct (compact_scan_spec (wfs ++ mjoin fss) c) as (hits & -> & Hs & Hall & Hrep).
  - intros c0 Hc0 _. exact (proj1 (Hin c0 Hc0)).
  - eapply Forall_impl; [exact Hat |]. by intros fc [? _].
  - eapply Forall_impl; [exact Hat |]. by intros fc [_ ?].
  - intros [= <- <-].
    exists hits. split; [done |]. split; [by apply StronglySorted_lt_NoDup |].
    rewrite Forall_forall in Hall. intros c0. split.
    + intros Hc. destruct (Hall c0 Hc) as [Hv H0c]. split; [done |].
      exact (proj1 (proj2 (Hin c0 Hv)) (proj1 (Hrep c0 Hv H0c) Hc)).
    + intros [Hv Hm]. apply Hrep; [done | unfold valid_conj in Hv; lia |]. exact (proj2 (proj2 (Hin c0 Hv)) Hm).
Qed.

End CPRetrieve.

#[export] Instance Compact_spec : BEIndexSpec factory (CompactBEIndex H).
Proof.
  refine {| caddr := fun _ => cp_addr |}.
  - intros i k i' a [= <- <-]. simpl. split_and!; eauto.
  - intros i a c a' [c0 Ha]. simpl in *. case_bool_decide; [| done]. subst a.
    destruct (decide (0%nat = a')) as [<- | Hne]; [done |]. by rewrite !bool_decide_eq_false_2.
  - intros i a c. simpl. by case_bool_decide.
  - done.
  - done.
  - done.
  - done.
  - done.
  - done.
  - done.
  - intros i descs txs wild i' r Hh Hfd Hr. pose proof (cp_compile_spec _ _ _ _ _ _ Hh Hfd Hr). by destruct r.
  - intros C HC i descs txs wild q c c' r Hready Hco. by apply cp_Retrieve_spec.
Defined.

End CompactProofs.

(** ** The interface value *)

Section AnyProofs.
Context {H D : Type} `{EntriesHolder H D} `{MapRange}.
Context (factory : gmap string H) `{!HolderSpec H D factory}.
Local Abbreviation KG := (KGroups_index factory).
Local Abbreviation CP := (Compact_index (H:=H)).
Local Abbreviation AN := (Any_index factory).

Definition any_caddr (bi : AnyBEIndex H) : nat -> nat :=
  match bi with
  | IKGroups i => caddr factory (BEIndexSpec:=KGroups_spec factory) i
  | ICompact i => caddr factory (BEIndexSpec:=Compact_spec factory) i
  end.

(** Two indexes that show the same containers and base hold the same data. *)
Lemma index_holds_view {I J} (XI : BEIndex I H) (XJ : BEIndex J H) ca rep i j descs
    (txs : list (FieldIndexingData D)) wild :
  (forall a, @container_at I H XI i a = @container_at J H XJ j a) ->
  @index_base I H XI i = @index_base J H XJ j ->
  index_holds (H2:=XI) ca rep i descs txs wild -> index_holds (H2:=XJ) ca rep j descs txs wild.
Proof.
  intros Hc Hb [H1' H2' H3' H4']. split.
  - intros a c. rewrite <- Hc. apply H1'.
  - intros tx Htx. rewrite <- Hc. by apply H2'.
  - by rewrite <- Hb.
  - rewrite <- Hc. apply H4'.
Qed.

Lemma index_ready_view {I J} (XI : BEIndex I H) (XJ : BEIndex J H) ca i j descs
    (txs : list (FieldIndexingData D)) wild :
  (forall a, @container_at I H XI i a = @container_at J H XJ j a) ->
  @index_base I H XI i = @index_base J H XJ j ->
  index_ready factory (H2:=XI) ca i descs txs wild -> index_ready factory (H2:=XJ) ca j descs txs wild.
Proof.
  intros Hc Hb (Hh & Hf & Hs). split; [by eapply (index_holds_view XI XJ) | by rewrite <- Hb].
Qed.

Lemma any_compile_spec i descs (txs : list (FieldIndexingData D)) wild i' r :
  index_holds (H2:=AN) (any_caddr i) holder_rep i descs txs wild ->
  ib_fieldsData (@index_base _ _ AN i) = descs -> @compileIndexer _ _ AN i = (i', r) ->
  match r with
  | Ok _ => index_ready factory (H2:=AN) (any_caddr i') i' descs txs wild /\ any_caddr i' = any_caddr i
  | Err _ => True
  | _ => False
  end.
Proof.
  intros Hh Hfd. destruct i as [i|i]; cbn [compileIndexer Any_index].
  - destruct (@compileIndexer _ _ KG i) as [j o] eqn:E. intros [= <- <-].
    assert (Hh' : index_holds (H2:=KG) (caddr factory (BEIndexSpec:=KGroups_spec factory) i) holder_rep i descs txs wild)
      by by apply (index_holds_view AN KG _ _ (IKGroups i)).
    pose proof (compileIndexer_spec factory _ _ _ _ _ _ Hh' Hfd E) as Hc.
    destruct o; try done. destruct Hc as [Hc Hca]. split; [| exact Hca].
    by eapply (index_ready_view KG AN).
  - destruct (@compileIndexer _ _ CP i) as [j o] eqn:E. intros [= <- <-].
    assert (Hh' : index_holds (H2:=CP) (caddr factory (BEIndexSpec:=Compact_spec factory) i) holder_rep i descs txs wild)
      by by apply (index_holds_view AN CP _ _ (ICompact i)).
    pose proof (compileIndexer_spec factory _ _ _ _ _ _ Hh' Hfd E) as Hc.
    destruct o; try done. destruct Hc as [Hc Hca]. split; [| exact Hca].
    by eapply (index_ready_view CP AN).
Qed.

#[export] Instance Any_spec : @BEIndexSpec H D _ factory _ (AnyBEIndex H) AN.
Proof.
  refine (@Build_BEIndexSpec H D _ factory _ (AnyBEIndex H) AN any_caddr _ _ _ _ _ _ _ _ _ _ _ _).
  - intros [i|i] k i' a; cbn [newContainer Any_index].
    + destruct (@newContainer _ _ KG i k) as [j a'] eqn:E. intros [= <- <-].
      exact (newContainer_spec factory (BEIndexSpec:=KGroups_spec factory) i k j a' E).
    + destruct (@newContainer _ _ CP i k) as [j a'] eqn:E. intros [= <- <-].
      exact (newContainer_spec factory (BEIndexSpec:=Compact_spec factory) i k j a' E).
  - intros [i|i] a c a' Ha.
    + exact (container_at_set factory (BEIndexSpec:=KGroups_spec factory) i a c a' Ha).
    + exact (container_at_set factory (BEIndexSpec:=Compact_spec factory) i a c a' Ha).
  - intros [i|i] a c; [done |].
    exact (base_set_container factory (BEIndexSpec:=Compact_spec factory) i a c).
  - by intros [i|i] a c.
  - by intros [i|i] e.
  - by intros [i|i] e a.
  - by intros [i|i] e.
  - by intros [i|i] fd.
  - by intros [i|i] fd a.
  - by intros [i|i] fd.
  - intros i descs txs wild i' r. apply any_compile_spec.
  - intros C HC [i|i] descs txs wild q c c' r Hr Hco Hrun.
    + eapply (RetrieveWithCollector_spec factory (BEIndexSpec:=KGroups_spec factory)); [| exact Hco | exact Hrun].
      by apply (index_ready_view AN KG _ (IKGroups i)).
    + eapply (RetrieveWithCollector_spec factory (BEIndexSpec:=Compact_spec factory)); [| exact Hco | exact Hrun].
      by apply (index_ready_view AN CP _ (ICompact i)).
Defined.

End AnyProofs.
