(* ===== verification/Parsers.v ===== *)
(** * Value parsers (package parser)

    Tokenizers turn values into the strings the default holder indexes
    (tokenizer.go); number parsers turn them into integers (types.go,
    number_parser.go); id generators into numeric ids, through an allocator
    (id_allocator.go, common_parser.go, str_parser_hash.go). *)

From Stdlib Require Import SpecFloat.
From stdpp Require Import base gmap strings numbers list.
From S2P Require Import Prelude GoValues.
Open Scope Z_scope.

(** [for _, x := range xs { r, err := f(x); if err != nil { return err }; append }] *)
Fixpoint map_res {A B} (f : A -> res B) (xs : list A) : res (list B) :=
  match xs with
  | [] => Ok []
  | x :: xs => y ← f x; ys ← map_res f xs; Ok (y :: ys)
  end.

Section Parsers.
Context `{GoFloat}.

(** ** tokenizer.go *)

(** The interface [ValueTokenizer]: one reading of values when indexing, one
    when querying. *)
Record ValueTokenizer := {
  TokenizeValue : Values -> res (list string);
  TokenizeAssign : Values -> res (list string)
}.

(** [funcTokenizer]: the same function both ways. *)
Definition funcTokenizer (f : Values -> res (list string)) : ValueTokenizer :=
  {| TokenizeValue := f; TokenizeAssign := f |}.

Definition ValueToString (v : Values) : res string :=
  match v with
  | VStr val => Ok val
  | VJsonNumber val => Ok val
  | VInt _ val => Ok (fmt_int val)
  | VUint _ val => Ok (fmt_int val)
  | VFloat k val => Ok (fmt_float k val)
  | _ => Err "unsupported value type"
  end.

Definition ValuesToStrings (v : Values) : res (list string) :=
  match v with
  | VNil => Ok []
  | VStr _ | VJsonNumber _ | VInt _ _ | VUint _ _ | VFloat _ _ =>
      s ← ValueToString v; Ok [s]
  | VStrs val => Ok (elems val)
  | VJsonNumbers val => Ok (elems val)
  | VInts _ val => Ok (fmt_int <$> elems val)
  | VUints _ val => Ok (fmt_int <$> elems val)
  | VFloats k val => Ok (fmt_float k <$> elems val)
  | VIfaces val => map_res ValueToString (elems val)
  | _ => Err "unsupported value type"
  end.

Definition NewDefaultTokenizer : ValueTokenizer :=
  {| TokenizeValue := ValuesToStrings; TokenizeAssign := ValuesToStrings |}.

(** ** types.go *)

Definition ParseIntegerNumber (v : Values) (floatToInt : bool) : res Z :=
  match v with
  | VInt _ n => Ok (i64 n)
  | VUint _ n => Ok (i64 n)
  | VStr s | VJsonNumber s =>
      match ParseInt s with
      | Some num => Ok num
      | None =>
          if floatToInt then
            match ParseFloat s with
            | Some fv => Ok (float_to_int64 fv)
            | None => Err "invalid number"
            end
          else Err "invalid number"
      end
  | VFloat _ f => if floatToInt then Ok (float_to_int64 f) else Err "not supported number type"
  | _ => Err "not supported number type"
  end.

(** [rv.Index(i).Interface()] for the elements of a slice value. *)
Definition slice_values (v : Values) : option (list Values) :=
  match v with
  | VStrs l => Some (VStr <$> elems l)
  | VJsonNumbers l => Some (VJsonNumber <$> elems l)
  | VInts k l => Some (VInt k <$> elems l)
  | VUints k l => Some (VUint k <$> elems l)
  | VFloats k l => Some (VFloat k <$> elems l)
  | _ => None
  end.

Definition is_single (v : Values) : bool :=
  match v with
  | VStr _ | VJsonNumber _ | VInt _ _ | VUint _ _ | VFloat _ _ => true
  | _ => false
  end.

Definition ParseIntegers (v : Values) (floatToInt : bool) : res (list Z) :=
  isnil ← NilInterface v;
  if isnil : bool then Ok []
  else if is_single v then
    match ParseIntegerNumber v floatToInt with
    | Ok num => Ok [num]
    | _ => Err "value type not support"
    end
  else match slice_values v with
  | Some vs => map_res (fun vi => ParseIntegerNumber vi floatToInt) vs
  | None =>
      match v with
      | VIfaces t => map_res (fun iv => ParseIntegerNumber iv floatToInt) (elems t)
      | _ => Err "value type not support"
      end
  end.

(** [reflect.TypeOf(v).String()] in an error message: a nil pointer dereference
    on the nil interface. *)
Definition type_error {A} (v : Values) : res A :=
  match v with
  | VNil => Panic "nil pointer dereference"
  | _ => Err "value type not support"
  end.

(** ** number_parser.go *)

Record NumberParser := { floatAsInt : bool }.

Definition NewNumberParser : NumberParser := {| floatAsInt := true |}.
Definition NewNumberParser2 (f2i : bool) : NumberParser := {| floatAsInt := true |}.

Definition number_ParseValue (p : NumberParser) (v : Values) : res (list Z) :=
  if is_single v then
    match ParseIntegerNumber v (floatAsInt p) with
    | Ok num => Ok [u64 num]
    | _ => type_error v
    end
  else match slice_values v with
  | Some vs => map_res (fun vi => u64 <$> ParseIntegerNumber vi (floatAsInt p)) vs
  | None =>
      match v with
      | VIfaces t => map_res (fun iv => u64 <$> ParseIntegerNumber iv (floatAsInt p)) (elems t)
      | _ => type_error v
      end
  end.

Definition number_ParseAssign (p : NumberParser) (v : Values) : res (list Z) :=
  isnil ← NilInterface v;
  if isnil : bool then Ok [] else number_ParseValue p v.

Definition number_TokenizeAssign (p : NumberParser) (v : Values) : res (list string) :=
  ids ← number_ParseAssign p v; Ok (fmt_int <$> (ids : list Z)).

Definition number_TokenizeValue (p : NumberParser) (v : Values) : res (list string) :=
  ids ← number_ParseValue p v; Ok (fmt_int <$> (ids : list Z)).

Definition number_tokenizer (p : NumberParser) : ValueTokenizer :=
  {| TokenizeValue := number_TokenizeValue p; TokenizeAssign := number_TokenizeAssign p |}.

(** ** str_parser_hash.go *)

Definition fnvHashString (s : string) : Z := fnv1_write fnv_offset64 s.

Definition strhash_ParseValue (v : Values) : res (list Z) :=
  match v with
  | VStr str => Ok [fnvHashString str]
  | VStrs l => Ok (fnvHashString <$> elems l)
  | VIfaces l =>
      map_res (fun s => match s with
                        | VStr strValue => Ok (fnvHashString strValue)
                        | _ => Err "not a string"
                        end) (elems l)
  | _ => Err "not a string"
  end.

Definition strhash_ParseAssign (v : Values) : res (list Z) :=
  isnil ← NilInterface v;
  if isnil : bool then Ok [] else strhash_ParseValue v.

(** ** id_allocator.go *)

(** The interface [IDAllocator]; allocating changes the receiver. *)
Class IDAllocator (A : Type) := {
  AllocStringID : A -> string -> A * Z;
  FindStringID : A -> string -> option Z
}.

Record HashAllocator := { hashFn : string -> Z }.

Definition NewHashAllocator (fn : option (string -> Z)) : HashAllocator :=
  {| hashFn := match fn with Some f => f | None => fnvHashString end |}.

#[export] Instance HashAllocator_alloc : IDAllocator HashAllocator := {
  AllocStringID alloc v := (alloc, hashFn alloc v);
  FindStringID alloc v := Some (hashFn alloc v)
}.

Record IDAllocatorImpl := { strBox : gmap string Z }.

Definition NewIDAllocatorImpl : IDAllocatorImpl := {| strBox := ∅ |}.

Definition TotalIDCount (alloc : IDAllocatorImpl) : Z := Z.of_nat (size (strBox alloc)).

#[export] Instance IDAllocatorImpl_alloc : IDAllocator IDAllocatorImpl := {
  AllocStringID alloc v :=
    match strBox alloc !! v with
    | Some id => (alloc, id)
    | None =>
        let id := Z.of_nat (size (strBox alloc)) in
        ({| strBox := <[v := id]> (strBox alloc) |}, id)
    end;
  FindStringID alloc v := strBox alloc !! v
}.

(** ** common_parser.go *)

Section Common.
Context {A : Type} `{IDAllocator A}.
Variable EnableFloat2Int : bool.

(** [fmt.Sprintf("%v", x)] of an element of a slice. *)
Definition element_strings (v : Values) : option (list string) :=
  match v with
  | VStrs l | VJsonNumbers l => Some (elems l)
  | VInts _ l | VUints _ l => Some (fmt_int <$> elems l)
  | _ => None
  end.

(** Look up ids, leaving out the strings that have none. *)
Fixpoint find_ids (alloc : A) (ss : list string) : list Z :=
  match ss with
  | [] => []
  | s :: ss => match FindStringID alloc s with
               | Some id => id :: find_ids alloc ss
               | None => find_ids alloc ss
               end
  end.

Fixpoint alloc_ids (alloc : A) (ss : list string) : A * list Z :=
  match ss with
  | [] => (alloc, [])
  | s :: ss => let '(alloc, id) := AllocStringID alloc s in
               let '(alloc, ids) := alloc_ids alloc ss in (alloc, id :: ids)
  end.

(** The string under which a single value is looked up. *)
Definition single_string (v : Values) : option string :=
  match v with
  | VStr s | VJsonNumber s => Some s
  | VInt _ n | VUint _ n => Some (fmt_int n)
  | VFloat _ f => if EnableFloat2Int then Some (fmt_int (float_to_uint64 f)) else None
  | _ => None
  end.

Definition find_single (alloc : A) (iv : Values) : option Z :=
  s ← single_string iv; FindStringID alloc s.

(** An element of another type is reported on standard output with its type
    name, which panics when the element is nil. *)
Definition findInterfaceID (alloc : A) (iv : Values) : res (option Z) :=
  match iv with
  | VNil => Panic "nil pointer dereference"
  | _ => Ok (find_single alloc iv)
  end.

Definition common_ParseAssign (alloc : A) (v : Values) : res (list Z) :=
  isnil ← NilInterface v;
  if isnil : bool then Ok [] else
  match v with
  | VStr _ | VJsonNumber _ | VInt _ _ | VUint _ _ =>
      Ok (match find_single alloc v with Some id => [id] | None => [] end)
  | VFloat _ _ =>
      if EnableFloat2Int
      then Ok (match find_single alloc v with Some id => [id] | None => [] end)
      else Err "value type not support"
  | VFloats _ l =>
      if EnableFloat2Int
      then Ok (find_ids alloc ((fun f => fmt_int (float_to_uint64 f)) <$> elems l))
      else Err "value type not support"
  | VIfaces t => ids ← map_res (findInterfaceID alloc) (elems t); Ok (omap id (ids : list (option Z)))
  | _ => match element_strings v with
         | Some ss => Ok (find_ids alloc ss)
         | None => Err "value type not support"
         end
  end.

Definition allocInterfaceID (iv : Values) : M A Z := fun alloc =>
  match single_string iv with
  | Some s => let '(alloc, id) := AllocStringID alloc s in (alloc, Ok id)
  | None => (alloc, Err "type not supported")
  end.

Fixpoint alloc_ifaces (t : list Values) : M A (list Z) :=
  match t with
  | [] => mret []
  | iv :: t => num ← allocInterfaceID iv; nums ← alloc_ifaces t; mret (num :: nums)
  end.

Definition alloc_all (ss : list string) : M A (list Z) := fun alloc =>
  let '(alloc, ids) := alloc_ids alloc ss in (alloc, Ok ids).

Definition common_ParseValue (v : Values) : M A (list Z) :=
  match v with
  | VInt _ _ | VUint _ _ | VStr _ | VJsonNumber _ =>
      id ← allocInterfaceID v; mret [id]
  | VFloat _ _ => id ← allocInterfaceID v; mret [id]
  | VFloats k l =>
      if EnableFloat2Int then alloc_all (fmt_float k <$> elems l)
      else fail "type []float not supported"
  | VIfaces t => alloc_ifaces (elems t)
  | _ => match element_strings v with
         | Some ss => alloc_all ss
         | None => lift (type_error v)
         end
  end.

End Common.
End Parsers.

(** ** Lemmas *)

Section ParserFacts.
Context `{GoFloat}.

Lemma map_res_Ok {A B} (f : A -> res B) xs ys :
  map_res f xs = Ok ys <-> Forall2 (fun x y => f x = Ok y) xs ys.
Proof.
  revert ys. induction xs as [|x xs IH]; intros ys; simpl.
  - split; [intros [= <-]; constructor | intros ->%Forall2_nil_inv_l; done].
  - split.
    + destruct (f x) as [y|e|e|] eqn:Ef; try done. simpl.
      destruct (map_res f xs) as [ys'|e|e|]; try done. intros [= <-].
      constructor; [done |]. by apply IH.
    + intros (y & ys' & Hy & Hys & ->)%Forall2_cons_inv_l. rewrite Hy. simpl.
      apply IH in Hys. by rewrite Hys.
Qed.

Lemma map_res_outcome {A B} (f : A -> res B) xs :
  (forall x, x ∈ xs -> is_Ok (f x) \/ is_Err (f x)) -> is_Ok (map_res f xs) \/ is_Err (map_res f xs).
Proof.
  induction xs as [|x xs IH]; intros Hall; simpl; [left; by eexists |].
  destruct (Hall x) as [[y ->] | [e ->]]; [by left | | by right; eexists]. simpl.
  destruct IH as [[ys ->] | [e ->]]; [intros; apply Hall; by right | left | right]; by eexists.
Qed.

(** Tokenizing never panics, and an unset value has no token. *)
Lemma ValuesToStrings_outcome v : is_Ok (ValuesToStrings v) \/ is_Err (ValuesToStrings v).
Proof.
  destruct v; simpl; try (left; by eexists); try (right; by eexists).
  apply map_res_outcome. intros x _. destruct x; simpl; eauto; (left; by eexists) || (right; by eexists).
Qed.

Lemma ValuesToStrings_nil v ss :
  is_nil v = true -> ValuesToStrings v = Ok ss -> ss = [].
Proof.
  destruct v; simpl; try done; try (intros ->%bool_decide_eq_true; by intros [= <-]);
    try (by intros _ [= <-]).
  - destruct l; [done |]. by intros _ [= <-].
  - destruct l; [done |]. by intros _ [= <-].
Qed.

Lemma ParseIntegerNumber_outcome v f2i :
  is_Ok (ParseIntegerNumber v f2i) \/ is_Err (ParseIntegerNumber v f2i).
Proof.
  destruct v; simpl; repeat (case_match; simpl); (left; by eexists) || (right; by eexists).
Qed.

Lemma number_ParseValue_fuel p v : number_ParseValue p v <> OutOfFuel.
Proof.
  assert (Hmap : forall vs, map_res (fun vi => u64 <$> ParseIntegerNumber vi (floatAsInt p)) vs <> OutOfFuel).
  { intros vs Hvs. destruct (map_res_outcome (fun vi => u64 <$> ParseIntegerNumber vi (floatAsInt p)) vs)
      as [[ys Hy] | [e He]]; [| congruence ..].
    intros x _. destruct (ParseIntegerNumber_outcome x (floatAsInt p)) as [[y ->] | [e ->]];
      [left | right]; by eexists. }
  unfold number_ParseValue. destruct (is_single v).
  - destruct (ParseIntegerNumber v (floatAsInt p)); try done; by destruct v.
  - destruct (slice_values v); [done |]. destruct v; by try apply Hmap.
Qed.

(** *** IDAllocatorImpl *)

(** Ids are handed out densely and never twice. *)
Definition alloc_inv (alloc : IDAllocatorImpl) : Prop :=
  (forall s id, strBox alloc !! s = Some id -> 0 <= id < TotalIDCount alloc) /\
  (forall s s' id, strBox alloc !! s = Some id -> strBox alloc !! s' = Some id -> s = s').

Lemma alloc_inv_new : alloc_inv NewIDAllocatorImpl.
Proof.
  split; simpl.
  - intros s id. by rewrite lookup_empty.
  - intros s s' id. by rewrite lookup_empty.
Qed.

Lemma AllocStringID_spec (alloc alloc' : IDAllocatorImpl) s id :
  alloc_inv alloc -> AllocStringID alloc s = (alloc', id) ->
  alloc_inv alloc' /\ FindStringID alloc' s = Some id /\
  (forall s' id', FindStringID alloc s' = Some id' -> FindStringID alloc' s' = Some id') /\
  (forall s' id', FindStringID alloc' s' = Some id' -> FindStringID alloc s' = Some id' \/ s' = s).
Proof.
  intros [Hr Hi]. simpl. destruct (strBox alloc !! s) as [id0|] eqn:Es; intros [= <- <-].
  - split; [done |]. split; [done |]. auto.
  - assert (Hsz : size (<[s := Z.of_nat (size (strBox alloc))]> (strBox alloc)) = S (size (strBox alloc)))
      by by apply map_size_insert_None.
    split; [split |].
    + intros s' id'. unfold TotalIDCount. simpl. rewrite Hsz.
      intros [[<- <-] | [_ Hl]]%lookup_insert_Some; [lia |].
      specialize (Hr _ _ Hl). unfold TotalIDCount in Hr. lia.
    + simpl. intros s1 s2 id' [[<- <-] | [_ H1]]%lookup_insert_Some [[<- Heq] | [_ H2]]%lookup_insert_Some;
        try done; eauto.
      * specialize (Hr _ _ H2). unfold TotalIDCount in Hr. lia.
      * subst id'. specialize (Hr _ _ H1). unfold TotalIDCount in Hr. lia.
    + simpl. split; [by rewrite lookup_insert_eq |]. split.
      * intros s' id' Hl. destruct (decide (s = s')) as [<- | Hne]; [congruence |].
        by rewrite lookup_insert_ne.
      * intros s' id' [[<- _] | [_ Hl]]%lookup_insert_Some; auto.
Qed.

Lemma alloc_ids_spec ss (alloc alloc' : IDAllocatorImpl) ids :
  alloc_inv alloc -> alloc_ids alloc ss = (alloc', ids) ->
  alloc_inv alloc' /\ Forall2 (fun s id => FindStringID alloc' s = Some id) ss ids /\
  (forall s' id', FindStringID alloc s' = Some id' -> FindStringID alloc' s' = Some id').
Proof.
  revert alloc alloc' ids. induction ss as [|s ss IH]; intros alloc alloc' ids Hinv; cbn [alloc_ids].
  - intros [= <- <-]. split; [done |]. split; [constructor | done].
  - destruct (AllocStringID alloc s) as [a1 id] eqn:Ea.
    destruct (AllocStringID_spec _ _ _ _ Hinv Ea) as (Hinv1 & Hf & Hold & _).
    destruct (alloc_ids a1 ss) as [a2 ids2] eqn:El. intros [= <- <-].
    destruct (IH _ _ _ Hinv1 El) as (Hinv2 & Hall & Hold2).
    split; [done |]. split; [constructor; [by apply Hold2 | done] | auto].
Qed.

End ParserFacts.
