(* ===== verification/Utf8.v ===== *)
(** * Go's conversions between strings and runes

    A Go string is a sequence of bytes; [[]rune(s)] decodes it as UTF-8, with
    U+FFFD for each byte that is no part of a well-formed encoding, and
    [string(runes)] encodes it again.  Decoding inverts encoding on what decoding
    produces, and strings that are not well-formed do not survive the round
    trip. *)

From Stdlib Require Import Ascii String.
From stdpp Require Import base strings numbers list.
From S2P Require Import Prelude.
Open Scope Z_scope.

(** ** Definitions *)

Definition RuneError : Z := 0xFFFD.

Definition bytes_of (s : string) : list Z :=
  (fun c => Z.of_N (Ascii.N_of_ascii c)) <$> String.list_ascii_of_string s.

Definition string_of_bytes (bs : list Z) : string :=
  String.string_of_list_ascii ((fun b => Ascii.ascii_of_N (Z.to_N b)) <$> bs).

Definition cont (b : Z) : bool := bool_decide (0x80 <= b <= 0xBF).

(** Well-formed sequences of two, three and four bytes, without overlong forms,
    surrogates and values above U+10FFFF. *)
Definition two_ok (b0 b1 : Z) : bool := bool_decide (0xC2 <= b0 <= 0xDF) && cont b1.

Definition three_ok (b0 b1 b2 : Z) : bool :=
  bool_decide (0xE0 <= b0 <= 0xEF) && cont b1 && cont b2 &&
  negb (bool_decide (b0 = 0xE0 /\ b1 < 0xA0)) && negb (bool_decide (b0 = 0xED /\ 0x9F < b1)).

Definition four_ok (b0 b1 b2 b3 : Z) : bool :=
  bool_decide (0xF0 <= b0 <= 0xF4) && cont b1 && cont b2 && cont b3 &&
  negb (bool_decide (b0 = 0xF0 /\ b1 < 0x90)) && negb (bool_decide (b0 = 0xF4 /\ 0x8F < b1)).

Fixpoint utf8_decode (bs : list Z) : list Z :=
  match bs with
  | [] => []
  | b0 :: t =>
      if bool_decide (b0 < 0x80) then b0 :: utf8_decode t
      else match t with
           | [] => RuneError :: utf8_decode t
           | b1 :: t1 =>
               if two_ok b0 b1 then (b0 - 0xC0) * 64 + (b1 - 0x80) :: utf8_decode t1
               else match t1 with
                    | [] => RuneError :: utf8_decode t
                    | b2 :: t2 =>
                        if three_ok b0 b1 b2
                        then (b0 - 0xE0) * 4096 + (b1 - 0x80) * 64 + (b2 - 0x80) :: utf8_decode t2
                        else match t2 with
                             | [] => RuneError :: utf8_decode t
                             | b3 :: t3 =>
                                 if four_ok b0 b1 b2 b3
                                 then (b0 - 0xF0) * 262144 + (b1 - 0x80) * 4096 + (b2 - 0x80) * 64 + (b3 - 0x80)
                                        :: utf8_decode t3
                                 else RuneError :: utf8_decode t
                             end
                    end
           end
  end.

(** A Unicode scalar value. *)
Definition scalar (r : Z) : Prop := 0 <= r < 0xD800 \/ 0xE000 <= r <= 0x10FFFF.

#[export] Instance scalar_dec r : Decision (scalar r).
Proof. unfold scalar. apply _. Defined.

Definition encode_rune (r : Z) : list Z :=
  let r := if bool_decide (scalar r) then r else RuneError in
  if bool_decide (r < 0x80) then [r]
  else if bool_decide (r < 0x800) then [0xC0 + r / 64; 0x80 + r mod 64]
  else if bool_decide (r < 0x10000) then [0xE0 + r / 4096; 0x80 + (r / 64) mod 64; 0x80 + r mod 64]
  else [0xF0 + r / 262144; 0x80 + (r / 4096) mod 64; 0x80 + (r / 64) mod 64; 0x80 + r mod 64].

Definition runes_of (s : string) : list Z := utf8_decode (bytes_of s).
Definition string_of_runes (rs : list Z) : string := string_of_bytes (rs ≫= encode_rune).

(** Strings that the conversion to runes keeps. *)
Definition utf8_valid (s : string) : bool := bool_decide (string_of_runes (runes_of s) = s).

(** ** Round trips *)

Lemma bytes_of_string_of_bytes bs : Forall (fun b => 0 <= b < 256) bs -> bytes_of (string_of_bytes bs) = bs.
Proof.
  intros Hbs. unfold bytes_of, string_of_bytes. rewrite list_ascii_of_string_of_list_ascii, <- list_fmap_compose.
  induction Hbs as [|b bs Hb _ IH]; [done |]. rewrite fmap_cons, IH. f_equal. simpl.
  rewrite N_ascii_embedding by lia. lia.
Qed.

Lemma bytes_of_range s : Forall (fun b => 0 <= b < 256) (bytes_of s).
Proof.
  unfold bytes_of. apply Forall_fmap, Forall_true. intros c. simpl.
  pose proof (N_ascii_bounded c). lia.
Qed.

Lemma encode_rune_bytes r : Forall (fun b => 0 <= b < 256) (encode_rune r).
Proof.
  unfold encode_rune. set (r' := if bool_decide (scalar r) then r else RuneError).
  assert (scalar r') as Hr by (subst r'; case_bool_decide; [done | by right; vm_compute]). unfold scalar in Hr.
  generalize dependent r'. clear r. intros r Hr.
  repeat case_bool_decide; repeat constructor; Z.div_mod_to_equations; lia.
Qed.

Lemma two_ok_spec b0 b1 : two_ok b0 b1 = true <-> 0xC2 <= b0 <= 0xDF /\ 0x80 <= b1 <= 0xBF.
Proof. unfold two_ok, cont. rewrite andb_true_iff, !bool_decide_eq_true. tauto. Qed.

Lemma three_ok_spec b0 b1 b2 :
  three_ok b0 b1 b2 = true <->
  0xE0 <= b0 <= 0xEF /\ 0x80 <= b1 <= 0xBF /\ 0x80 <= b2 <= 0xBF /\
  ~ (b0 = 0xE0 /\ b1 < 0xA0) /\ ~ (b0 = 0xED /\ 0x9F < b1).
Proof.
  unfold three_ok, cont. rewrite !andb_true_iff, !negb_true_iff, !bool_decide_eq_true, !bool_decide_eq_false. tauto.
Qed.

Lemma four_ok_spec b0 b1 b2 b3 :
  four_ok b0 b1 b2 b3 = true <->
  0xF0 <= b0 <= 0xF4 /\ 0x80 <= b1 <= 0xBF /\ 0x80 <= b2 <= 0xBF /\ 0x80 <= b3 <= 0xBF /\
  ~ (b0 = 0xF0 /\ b1 < 0x90) /\ ~ (b0 = 0xF4 /\ 0x8F < b1).
Proof.
  unfold four_ok, cont. rewrite !andb_true_iff, !negb_true_iff, !bool_decide_eq_true, !bool_decide_eq_false. tauto.
Qed.

(** Decoding one well-formed sequence, by its length. *)
Lemma utf8_decode_2 b0 b1 t : two_ok b0 b1 = true ->
  utf8_decode (b0 :: b1 :: t) = (b0 - 0xC0) * 64 + (b1 - 0x80) :: utf8_decode t.
Proof.
  intros Hok. pose proof (proj1 (two_ok_spec _ _) Hok). cbn [utf8_decode].
  by rewrite bool_decide_eq_false_2, Hok by lia.
Qed.

Lemma utf8_decode_3 b0 b1 b2 t : three_ok b0 b1 b2 = true ->
  utf8_decode (b0 :: b1 :: b2 :: t) = (b0 - 0xE0) * 4096 + (b1 - 0x80) * 64 + (b2 - 0x80) :: utf8_decode t.
Proof.
  intros Hok. pose proof (proj1 (three_ok_spec _ _ _) Hok). cbn [utf8_decode].
  rewrite bool_decide_eq_false_2 by lia.
  assert (two_ok b0 b1 = false) as -> by (apply not_true_iff_false; rewrite two_ok_spec; lia). by rewrite Hok.
Qed.

Lemma utf8_decode_4 b0 b1 b2 b3 t : four_ok b0 b1 b2 b3 = true ->
  utf8_decode (b0 :: b1 :: b2 :: b3 :: t) =
  (b0 - 0xF0) * 262144 + (b1 - 0x80) * 4096 + (b2 - 0x80) * 64 + (b3 - 0x80) :: utf8_decode t.
Proof.
  intros Hok. pose proof (proj1 (four_ok_spec _ _ _ _) Hok). cbn [utf8_decode].
  rewrite bool_decide_eq_false_2 by lia.
  assert (two_ok b0 b1 = false) as -> by (apply not_true_iff_false; rewrite two_ok_spec; lia).
  assert (three_ok b0 b1 b2 = false) as -> by (apply not_true_iff_false; rewrite three_ok_spec; lia). by rewrite Hok.
Qed.

Lemma decode_encode_rune r bs : scalar r -> utf8_decode (encode_rune r ++ bs) = r :: utf8_decode bs.
Proof.
  intros Hr. unfold encode_rune. rewrite (bool_decide_eq_true_2 (scalar r)) by done. unfold scalar in Hr.
  case_bool_decide as H1; [cbn [app utf8_decode]; by rewrite bool_decide_eq_true_2 |].
  case_bool_decide as H2; [| case_bool_decide as H3]; cbn [app].
  - rewrite utf8_decode_2 by (apply two_ok_spec; Z.div_mod_to_equations; lia). f_equal. Z.div_mod_to_equations. lia.
  - rewrite utf8_decode_3 by (apply three_ok_spec; Z.div_mod_to_equations; lia). f_equal. Z.div_mod_to_equations. lia.
  - rewrite utf8_decode_4 by (apply four_ok_spec; Z.div_mod_to_equations; lia). f_equal. Z.div_mod_to_equations. lia.
Qed.

Lemma decode_encode rs : Forall scalar rs -> utf8_decode (rs ≫= encode_rune) = rs.
Proof.
  induction 1 as [|r rs Hr _ IH]; [done |].
  change ((r :: rs) ≫= encode_rune) with (encode_rune r ++ (rs ≫= encode_rune)). by rewrite decode_encode_rune, IH.
Qed.

(** Decoding yields scalar values only. *)
Lemma utf8_decode_scalar n : forall bs, (length bs <= n)%nat -> Forall (fun b => 0 <= b < 256) bs -> Forall scalar (utf8_decode bs).
Proof.
  assert (scalar RuneError) as Herr by (right; vm_compute; split; discriminate).
  induction n as [|n IH]; intros bs Hlen Hbs; (destruct bs as [|b0 t]; [constructor | simpl in Hlen]); [lia |].
  inversion Hbs as [|? ? Hb0 Ht]; subst. assert (Hrec := IH t ltac:(lia) Ht). cbn [utf8_decode].
  case_bool_decide; [constructor; [left; lia | done] |].
  destruct t as [|b1 t1]; [by constructor |]. inversion Ht as [|? ? Hb1 Ht1]; subst. simpl in Hlen.
  destruct (two_ok b0 b1) eqn:H2; [constructor; [apply two_ok_spec in H2; left; lia | apply IH; [lia | done]] |].
  destruct t1 as [|b2 t2]; [by constructor |]. inversion Ht1 as [|? ? Hb2 Ht2]; subst. simpl in Hlen.
  destruct (three_ok b0 b1 b2) eqn:H3;
    [constructor; [apply three_ok_spec in H3; unfold scalar; lia | apply IH; [lia | done]] |].
  destruct t2 as [|b3 t3]; [by constructor |]. inversion Ht2 as [|? ? Hb3 Ht3]; subst. simpl in Hlen.
  destruct (four_ok b0 b1 b2 b3) eqn:H4; [| by constructor].
  constructor; [apply four_ok_spec in H4; unfold scalar; lia | apply IH; [lia | done]].
Qed.

(** Converting to runes and back and to runes again changes nothing. *)
Lemma runes_of_string_of_runes s : runes_of (string_of_runes (runes_of s)) = runes_of s.
Proof.
  unfold runes_of at 1, string_of_runes. rewrite bytes_of_string_of_bytes.
  - apply decode_encode. unfold runes_of. eapply utf8_decode_scalar; [done | apply bytes_of_range].
  - apply Forall_bind, Forall_true. intros r. apply encode_rune_bytes.
Qed.

(** ASCII text is kept. *)
Lemma utf8_decode_ascii bs : Forall (fun b => 0 <= b < 128) bs -> utf8_decode bs = bs.
Proof.
  induction 1 as [|b bs Hb _ IH]; [done |]. cbn [utf8_decode]. rewrite bool_decide_eq_true_2 by lia. by rewrite IH.
Qed.

(** Text without U+FFFD was well-formed: encoding its runes gives it back. *)
Lemma encode_rune_2 b0 b1 : two_ok b0 b1 = true -> encode_rune ((b0 - 0xC0) * 64 + (b1 - 0x80)) = [b0; b1].
Proof.
  intros Hok%two_ok_spec. unfold encode_rune. rewrite (bool_decide_eq_true_2 (scalar _)) by (unfold scalar; lia).
  rewrite bool_decide_eq_false_2, bool_decide_eq_true_2 by lia. repeat f_equal; Z.div_mod_to_equations; lia.
Qed.

Lemma encode_rune_3 b0 b1 b2 : three_ok b0 b1 b2 = true ->
  encode_rune ((b0 - 0xE0) * 4096 + (b1 - 0x80) * 64 + (b2 - 0x80)) = [b0; b1; b2].
Proof.
  intros Hok%three_ok_spec. unfold encode_rune. rewrite (bool_decide_eq_true_2 (scalar _)) by (unfold scalar; lia).
  rewrite !bool_decide_eq_false_2, bool_decide_eq_true_2 by lia. repeat f_equal; Z.div_mod_to_equations; lia.
Qed.

Lemma encode_rune_4 b0 b1 b2 b3 : four_ok b0 b1 b2 b3 = true ->
  encode_rune ((b0 - 0xF0) * 262144 + (b1 - 0x80) * 4096 + (b2 - 0x80) * 64 + (b3 - 0x80)) = [b0; b1; b2; b3].
Proof.
  intros Hok%four_ok_spec. unfold encode_rune. rewrite (bool_decide_eq_true_2 (scalar _)) by (unfold scalar; lia).
  rewrite !bool_decide_eq_false_2 by lia. repeat f_equal; Z.div_mod_to_equations; lia.
Qed.

Lemma encode_decode n : forall bs, (length bs <= n)%nat -> Forall (fun b => 0 <= b < 256) bs ->
  RuneError ∉ utf8_decode bs -> utf8_decode bs ≫= encode_rune = bs.
Proof.
  induction n as [|n IH]; intros bs Hlen Hbs; (destruct bs as [|b0 t]; [done | simpl in Hlen]); [lia |].
  inversion Hbs as [|? ? Hb0 Ht]; subst. cbn [utf8_decode].
  assert (Hcons : forall r rest bs' , encode_rune r = bs' -> (length rest <= n)%nat -> Forall (fun b => 0 <= b < 256) rest ->
    RuneError ∉ r :: utf8_decode rest -> (r :: utf8_decode rest) ≫= encode_rune = bs' ++ rest).
  { intros r rest bs' <- Hl Hr Hno. change ((r :: utf8_decode rest) ≫= encode_rune)
      with (encode_rune r ++ (utf8_decode rest ≫= encode_rune)). f_equal. apply IH; [done | done |].
    intros Hin. apply Hno. by right. }
  case_bool_decide as Hascii.
  { apply (Hcons b0 t [b0]); [| lia | done]. unfold encode_rune.
    rewrite (bool_decide_eq_true_2 (scalar b0)), bool_decide_eq_true_2 by (unfold scalar; lia). done. }
  destruct t as [|b1 t1]; [intros Hno; destruct Hno; by left |]. inversion Ht as [|? ? Hb1 Ht1]; subst. simpl in Hlen.
  destruct (two_ok b0 b1) eqn:H2; [apply (Hcons _ _ [b0; b1]); [by apply encode_rune_2 | lia | done] |].
  destruct t1 as [|b2 t2]; [intros Hno; destruct Hno; by left |]. inversion Ht1 as [|? ? Hb2 Ht2]; subst. simpl in Hlen.
  destruct (three_ok b0 b1 b2) eqn:H3; [apply (Hcons _ _ [b0; b1; b2]); [by apply encode_rune_3 | lia | done] |].
  destruct t2 as [|b3 t3]; [intros Hno; destruct Hno; by left |]. inversion Ht2 as [|? ? Hb3 Ht3]; subst. simpl in Hlen.
  destruct (four_ok b0 b1 b2 b3) eqn:H4; [| intros Hno; destruct Hno; by left].
  apply (Hcons _ _ [b0; b1; b2; b3]); [by apply encode_rune_4 | lia | done].
Qed.

Lemma string_of_bytes_of s : string_of_bytes (bytes_of s) = s.
Proof.
  unfold string_of_bytes, bytes_of. rewrite <- list_fmap_compose.
  rewrite (list_fmap_ext _ id) by (intros i c _; simpl; by rewrite N2Z.id, ascii_N_embedding).
  rewrite list_fmap_id. apply string_of_list_ascii_of_string.
Qed.

Lemma utf8_valid_clean s : RuneError ∉ runes_of s -> utf8_valid s = true.
Proof.
  intros Hno. unfold utf8_valid. apply bool_decide_eq_true. unfold string_of_runes, runes_of in *.
  rewrite (encode_decode (length (bytes_of s))); [apply string_of_bytes_of | done | apply bytes_of_range | done].
Qed.

Lemma utf8_valid_ascii s : Forall (fun b => 0 <= b < 128) (bytes_of s) -> utf8_valid s = true.
Proof.
  intros Hs. apply utf8_valid_clean. unfold runes_of. rewrite utf8_decode_ascii by done.
  intros Hin. rewrite Forall_forall in Hs. specialize (Hs _ Hin). unfold RuneError in Hs. lia.
Qed.
