(* ===== verification/DefaultHolder.v ===== *)
(** * The default holder (entries_holder.go)

    A hash map from (field id, token) to the posting list of the entries that
    index this token.  Tokens come from the field's tokenizer.  The holder
    implements [HolderSpec]; its data round-trips through the encoding used by
    the document cache. *)

From Stdlib Require Import Strings.Byte.
From stdpp Require Import base sorting gmap strings numbers list.
From S2P Require Import Prelude GoValues Utf8 Ids Document Cursor FieldCursor Parsers Holder.
Open Scope Z_scope.

(** ** Definitions *)

Record Term := { FieldID : Z; term_Value : string }.

#[export] Instance Term_eq_dec : EqDecision Term.
Proof. solve_decision. Defined.

#[export] Instance Term_countable : Countable Term.
Proof.
  apply (inj_countable' (fun t => (FieldID t, term_Value t))
           (fun p => {| FieldID := p.1; term_Value := p.2 |})).
  by intros [f v].
Defined.

Definition NewTerm (fid : Z) (value : string) : Term := {| FieldID := fid; term_Value := value |}.

(** [StrTokenData]: the generated message [cache.StrListValues] is a list of
    strings. *)
Record StrTokenData := { std_Values : list string }.

(** [proto.Marshal] and [proto.Unmarshal] of a [StrListValues] message. *)
Class ProtoStrList := {
  proto_Marshal : list string -> res (list byte);
  proto_Unmarshal : list byte -> res (list string)
}.

(** What is documented of them: decoding inverts encoding, only the empty message
    has the empty encoding, and the strings of a proto3 message have to be well-formed
    UTF-8. *)
Class ProtoStrListSpec `{ProtoStrList} : Prop := {
  Unmarshal_Marshal : forall vs bytes, proto_Marshal vs = Ok bytes -> proto_Unmarshal bytes = Ok vs;
  Marshal_empty : forall vs, proto_Marshal vs = Ok [] -> vs = [];
  Marshal_utf8 : forall vs, is_Ok (proto_Marshal vs) <-> Forall (fun s => utf8_valid s = true) vs
}.

Section DefaultHolder.
Context `{MapRange} `{GoFloat} `{ProtoStrList}.

Record DefaultEntriesHolder := {
  maxLen : Z;
  avgLen : Z;
  plEntries : gmap Term Entries;
  fieldParser : gmap string ValueTokenizer
}.

Definition NewDefaultEntriesHolder : DefaultEntriesHolder :=
  {| maxLen := 0; avgLen := 0; plEntries := ∅; fieldParser := ∅ |}.

Definition default_Encode (std : StrTokenData) : res (list byte) := proto_Marshal (std_Values std).

Definition default_DecodeFieldIndexingData (h : DefaultEntriesHolder) (data : list byte)
    : res StrTokenData :=
  if bool_decide (length data = 0%nat) then Ok {| std_Values := [] |}
  else vs ← proto_Unmarshal data; Ok {| std_Values := vs |}.

Definition GetTokenizer (h : DefaultEntriesHolder) (field : BEField) : ValueTokenizer :=
  match fieldParser h !! field with
  | Some p => p
  | None => NewDefaultTokenizer
  end.

Definition RegisterFieldTokenizer (h : DefaultEntriesHolder) (field : BEField)
    (tokenizer : option ValueTokenizer) : DefaultEntriesHolder :=
  {| maxLen := maxLen h; avgLen := avgLen h; plEntries := plEntries h;
     fieldParser := match tokenizer with
                    | None => delete field (fieldParser h)
                    | Some t => <[field := t]> (fieldParser h)
                    end |}.

Fixpoint get_entries_loop (h : DefaultEntriesHolder) (field : FieldDesc) (values : list string)
    (r : list EntriesCursor) : list EntriesCursor :=
  match values with
  | [] => r
  | value :: values =>
      match plEntries h !! NewTerm (fd_ID field) value with
      | Some entries =>
          if bool_decide (0 < length entries)%nat
          then get_entries_loop h field values
                 (r ++ [NewEntriesCursor (NewQKey (fd_Field field) (VStr value)) entries])
          else get_entries_loop h field values r
      | None => get_entries_loop h field values r
      end
  end.

Definition default_GetEntries (h : DefaultEntriesHolder) (field : FieldDesc) (assigns : Values)
    : res (list EntriesCursor) :=
  values ← TokenizeAssign (GetTokenizer h (fd_Field field)) assigns;
  Ok (get_entries_loop h field values []).

Definition default_BuildFieldIndexingData (h : DefaultEntriesHolder) (field : FieldDesc) (bv : BoolValues)
    : DefaultEntriesHolder * res StrTokenData :=
  (h, if bool_decide (Operator bv <> ValueOptEQ)
      then Panic "default container support EQ operator only"
      else match TokenizeValue (GetTokenizer h (fd_Field field)) (Value bv) with
           | Ok values => Ok {| std_Values := values |}
           | Err e => Err e
           | Panic e => Panic e
           | OutOfFuel => OutOfFuel
           end).

Definition set_plEntries (h : DefaultEntriesHolder) (pl : gmap Term Entries) : DefaultEntriesHolder :=
  {| maxLen := maxLen h; avgLen := avgLen h; plEntries := pl; fieldParser := fieldParser h |}.

Definition default_CommitFieldIndexingData (h : DefaultEntriesHolder) (field : FieldDesc) (eid : EntryID)
    (data : option StrTokenData) : DefaultEntriesHolder * res unit :=
  match data with
  | None => (h, Ok tt)
  | Some data =>
      let values := DistinctString (std_Values data) in
      (set_plEntries h
         (foldl (fun pl value => append_posting pl (NewTerm (fd_ID field) value) eid) (plEntries h) values),
       Ok tt)
  end.

(** The statistics: the longest posting list, and the mean length rounded
    towards zero. *)
Definition makeEntriesSorted (h : DefaultEntriesHolder) : DefaultEntriesHolder :=
  let pl := sortZ <$> plEntries h in
  let total := foldl (fun total kv => total + Z.of_nat (length kv.2)) 0 (map_range pl) in
  {| maxLen := foldl (fun m kv => if bool_decide (m < Z.of_nat (length kv.2))
                                  then Z.of_nat (length kv.2) else m) (maxLen h) (map_range pl);
     avgLen := if bool_decide (0 < size pl)%nat then Z.quot total (Z.of_nat (size pl)) else avgLen h;
     plEntries := pl;
     fieldParser := fieldParser h |}.

Definition default_CompileEntries (h : DefaultEntriesHolder) : DefaultEntriesHolder * res unit :=
  (makeEntriesSorted h, Ok tt).

#[export] Instance DefaultEntriesHolder_holder : EntriesHolder DefaultEntriesHolder StrTokenData := {
  GetEntries := default_GetEntries;
  BuildFieldIndexingData := default_BuildFieldIndexingData;
  CommitFieldIndexingData := default_CommitFieldIndexingData;
  DecodeFieldIndexingData := default_DecodeFieldIndexingData;
  Encode := default_Encode;
  CompileEntries := default_CompileEntries
}.

(** [InitHolderDefaults] (entries_holder_factory.go). *)
Definition InitHolderDefaults : gmap string DefaultEntriesHolder :=
  RegisterEntriesHolder ∅ HolderNameDefault NewDefaultEntriesHolder.

(** ** What is asked of a tokenizer

    It terminates, and finds no token in an unset query value. *)
Definition tokenizer_ok (t : ValueTokenizer) : Prop :=
  (forall v, TokenizeValue t v <> OutOfFuel) /\
  (forall v, TokenizeAssign t v <> OutOfFuel) /\
  (forall v ss, is_nil v = true -> TokenizeAssign t v = Ok ss -> ss = []).

(** A registry of default holders: fresh ones, whose tokenizers are as above. *)
Definition factory_ok (factory : gmap string DefaultEntriesHolder) : Prop :=
  forall name h, factory !! name = Some h ->
    plEntries h = ∅ /\ forall f t, fieldParser h !! f = Some t -> tokenizer_ok t.

(** The tokenizer of field [d] in the holders registered as [name]. *)
Definition registered_tokenizer (factory : gmap string DefaultEntriesHolder) (name : string)
    (d : FieldDesc) : ValueTokenizer :=
  match factory !! name with
  | Some h => GetTokenizer h (fd_Field d)
  | None => NewDefaultTokenizer
  end.

(** A query value meets an expression when they share a token. *)
Definition default_hits (factory : gmap string DefaultEntriesHolder) (name : string) (d : FieldDesc)
    (x : StrTokenData) (v : Values) : bool :=
  match TokenizeAssign (registered_tokenizer factory name d) v with
  | Ok values => existsb (fun value => bool_decide (value ∈ std_Values x)) values
  | _ => false
  end.

Definition default_assign_ok (factory : gmap string DefaultEntriesHolder) (name : string) (d : FieldDesc)
    (v : Values) : bool :=
  match TokenizeAssign (registered_tokenizer factory name d) v with
  | Ok _ => true
  | _ => false
  end.

(** The posting list of a term holds the entries that index it. *)
Definition default_rep (factory : gmap string DefaultEntriesHolder) (name : string)
    (h : DefaultEntriesHolder) (txs : Txs StrTokenData) : Prop :=
  (exists h0, factory !! name = Some h0 /\ fieldParser h = fieldParser h0) /\
  forall key e, e ∈ default [] (plEntries h !! key) <->
    exists d x, (d, e, x) ∈ txs /\ fd_ID d = FieldID key /\ term_Value key ∈ std_Values x.

Definition default_compiled (factory : gmap string DefaultEntriesHolder) (name : string)
    (h : DefaultEntriesHolder) (txs : Txs StrTokenData) : Prop :=
  default_rep factory name h txs /\
  forall key l, plEntries h !! key = Some l -> StronglySorted Z.le l.

(** ** Lemmas *)

Lemma elem_of_append_entries fid values eid pl key e :
  e ∈ default [] (foldl (fun pl value => append_posting pl (NewTerm fid value) eid) pl values !! key) <->
  e ∈ default [] (pl !! key) \/ (fid = FieldID key /\ term_Value key ∈ values /\ e = eid).
Proof.
  revert pl. induction values as [|v values IH]; intros pl; simpl; [set_solver |].
  rewrite IH, elem_of_append_posting, elem_of_cons. destruct key as [f s]. unfold NewTerm. simpl.
  split.
  - intros [[Hin | [[= -> ->] ->]] | (-> & Hs & ->)]; auto.
  - intros [Hin | (-> & [-> | Hs] & ->)]; auto.
Qed.

Lemma get_entries_loop_app h field values r :
  get_entries_loop h field values r = r ++ get_entries_loop h field values [].
Proof.
  revert r. induction values as [|v values IH]; intros r; simpl; [by rewrite app_nil_r |].
  destruct (plEntries h !! _) as [l|]; [| done]. case_bool_decide; [| done].
  rewrite (IH (r ++ _)), (IH [_]), <- app_assoc. done.
Qed.

(** The cursors of a query are those of its tokens with a posting list. *)
Lemma elem_of_get_entries h field values ec :
  ec ∈ get_entries_loop h field values [] <->
  exists value l, value ∈ values /\ plEntries h !! NewTerm (fd_ID field) value = Some l /\ l <> [] /\
    ec = NewEntriesCursor (NewQKey (fd_Field field) (VStr value)) l.
Proof.
  induction values as [|v values IH]; simpl.
  - split; [intros Hx; elem_nil | intros (v & l & Hv & _); elem_nil].
  - destruct (plEntries h !! NewTerm (fd_ID field) v) as [l|] eqn:El.
    + case_bool_decide as Hl.
      * rewrite get_entries_loop_app. simpl. rewrite elem_of_cons, IH. split.
        -- intros [-> | (v' & l' & Hv' & Hrest)]; [exists v, l | exists v', l'].
           ++ split; [by left |]. split; [done |]. split; [| done]. intros ->. simpl in Hl. lia.
           ++ split; [by right | done].
        -- intros (v' & l' & [-> | Hv']%elem_of_cons & Hl' & Hne & ->); [left; congruence |].
           right. eauto 6.
      * rewrite IH. split; intros (v' & l' & Hv' & Hl' & Hne & ->).
        -- exists v', l'. split; [by right | done].
        -- exists v', l'. apply elem_of_cons in Hv' as [-> | Hv']; [| done].
           rewrite El in Hl'. injection Hl' as <-. destruct l; [done |]. simpl in Hl. lia.
    + rewrite IH. split; intros (v' & l' & Hv' & Hl' & Hne & ->).
      * exists v', l'. split; [by right | done].
      * exists v', l'. apply elem_of_cons in Hv' as [-> | Hv']; [congruence | done].
Qed.

Lemma default_tokenizer_ok : tokenizer_ok NewDefaultTokenizer.
Proof.
  assert (forall v, ValuesToStrings v <> OutOfFuel) as Hfuel.
  { intros v Hv. destruct (ValuesToStrings_outcome v) as [[ss Hs] | [e He]]; congruence. }
  split; [| split]; [done | done | apply ValuesToStrings_nil].
Qed.

Lemma number_tokenizer_ok p : tokenizer_ok (number_tokenizer p).
Proof.
  assert (forall v, number_TokenizeValue p v <> OutOfFuel) as Hval.
  { intros v. unfold number_TokenizeValue. pose proof (number_ParseValue_fuel p v).
    by destruct (number_ParseValue p v). }
  split; [done |]. split; simpl; unfold number_TokenizeAssign, number_ParseAssign, NilInterface.
  - intros v. destruct (is_array v); [done |]. simpl. destruct (is_nil v); [done |].
    pose proof (number_ParseValue_fuel p v). by destruct (number_ParseValue p v).
  - intros v ss Hn. destruct (is_array v); [done |]. simpl. rewrite Hn. by intros [= <-].
Qed.

Lemma registered_ok factory name d : factory_ok factory -> tokenizer_ok (registered_tokenizer factory name d).
Proof.
  intros Hok. unfold registered_tokenizer, GetTokenizer. destruct (factory !! name) as [h|] eqn:Eh.
  - destruct (fieldParser h !! fd_Field d) as [t|] eqn:Et; [| apply default_tokenizer_ok].
    by eapply (Hok name h Eh).
  - apply default_tokenizer_ok.
Qed.

Section Spec.
Variable factory : gmap string DefaultEntriesHolder.
Hypothesis Hfactory : factory_ok factory.

Lemma rep_tokenizer name h txs d :
  default_rep factory name h txs -> GetTokenizer h (fd_Field d) = registered_tokenizer factory name d.
Proof.
  intros [(h0 & Hh0 & Heq) _]. unfold registered_tokenizer, GetTokenizer. by rewrite Hh0, Heq.
Qed.

Lemma default_commit_spec name h txs d e (x : StrTokenData) :
  default_rep factory name h txs ->
  exists h', default_CommitFieldIndexingData h d e (Some x) = (h', Ok tt) /\
    default_rep factory name h' (txs ++ [(d, e, x)]).
Proof.
  intros [Hh0 Hpl]. eexists. split; [done |]. split; [done |]. simpl. intros key e'.
  rewrite elem_of_append_entries, Hpl. unfold DistinctString. rewrite elem_of_Distinct.
  setoid_rewrite elem_of_app. setoid_rewrite list_elem_of_singleton. split.
  - intros [(d' & x' & Hin & ?) | (? & ? & ->)]; [exists d', x' | exists d, x]; naive_solver.
  - intros (d' & x' & [Hin | [= -> -> ->]] & ? & ?); [left; eauto | right; done].
Qed.

Lemma default_compile_spec name h txs :
  default_rep factory name h txs -> default_compiled factory name (makeEntriesSorted h) txs.
Proof.
  intros [Hh0 Hpl]. split; [split; [done |] |]; simpl.
  - intros key e. rewrite lookup_fmap, <- Hpl. destruct (plEntries h !! key); simpl; [| done].
    apply elem_of_sortZ.
  - intros key l. rewrite lookup_fmap. destruct (plEntries h !! key); simpl; [| done].
    intros [= <-]. apply sortZ_sorted.
Qed.

Lemma default_get_spec name h txs d v :
  default_compiled factory name h txs -> Forall (fun tx => valid_eid tx.1.2) txs -> scope_ok name txs d ->
  match default_GetEntries h d v with
  | Ok cs => cursors_ok cs /\
      forall e, e ∈ (cs ≫= ec_entries) <-> exists x, (d, e, x) ∈ txs /\ default_hits factory name d x v = true
  | OutOfFuel => False
  | _ => default_assign_ok factory name d v = false
  end.
Proof.
  intros [Hrep Hsorted] Hvalid Hscope. pose proof (rep_tokenizer _ _ _ d Hrep) as Htok.
  destruct (registered_ok factory name d Hfactory) as (_ & Hout & _).
  unfold default_GetEntries, default_assign_ok, default_hits. rewrite Htok.
  specialize (Hout v). destruct (TokenizeAssign _ v) as [values|err|err|] eqn:Hv; simpl; [| done ..].
  destruct Hrep as [_ Hpl]. rewrite Forall_forall in Hvalid. split.
  - unfold cursors_ok. rewrite Forall_forall. intros ec (value & l & _ & Hl & Hne & ->)%elem_of_get_entries.
    split; [| done]. apply NewEntriesCursor_at; [by eapply Hsorted |]. rewrite Forall_forall.
    intros e He. specialize (Hpl (NewTerm (fd_ID d) value) e). rewrite Hl in Hpl.
    apply Hpl in He as (d' & x & Hin & _). by apply (Hvalid (d', e, x)).
  - intros e. rewrite list_elem_of_bind. setoid_rewrite existsb_exists.
    setoid_rewrite <- list_elem_of_In. setoid_rewrite bool_decide_eq_true. split.
    + intros (ec & He & (value & l & Hval & Hl & Hne & ->)%elem_of_get_entries). simpl in He.
      specialize (Hpl (NewTerm (fd_ID d) value) e). rewrite Hl in Hpl.
      apply Hpl in He as (d' & x & Hin & Hid & Hx). simpl in Hid, Hx.
      assert (d' = d) as -> by exact (proj1 (Hscope d' e x Hin) Hid). eauto.
    + intros (x & Hin & value & Hval & Hx).
      assert (e ∈ default [] (plEntries h !! NewTerm (fd_ID d) value)) as He by (apply Hpl; eauto).
      destruct (plEntries h !! NewTerm (fd_ID d) value) as [l|] eqn:El; simpl in He;
        [| elem_nil].
      exists (NewEntriesCursor (NewQKey (fd_Field d) (VStr value)) l). split; [done |].
      apply elem_of_get_entries. exists value, l. split_and!; try done.
      intros ->. elem_nil.
Qed.

Lemma default_build_spec name h txs d bv h' r :
  default_rep factory name h txs -> default_BuildFieldIndexingData h d bv = (h', r) ->
  default_rep factory name h' txs /\ r = build_data factory name d bv.
Proof.
  intros Hrep [= <- <-]. split; [done |]. unfold build_data.
  destruct (proj1 Hrep) as (h0 & Hh0 & Heq). rewrite Hh0. simpl.
  unfold default_BuildFieldIndexingData, GetTokenizer. by rewrite Heq.
Qed.

Definition DefaultHolder_spec : HolderSpec DefaultEntriesHolder StrTokenData factory.
Proof.
  refine {| data_hits := default_hits factory; assign_ok := default_assign_ok factory;
            data_ok := fun _ _ => True; holder_rep := default_rep factory;
            holder_compiled := default_compiled factory |}.
  - intros name h Hh. split; [eauto |]. intros key e. rewrite (proj1 (Hfactory name h Hh)), lookup_empty. simpl.
    split; [intros Hx; elem_nil | intros (d & x & Hx & _); elem_nil].
  - intros name h txs d bv h' r. apply default_build_spec.
  - done.
  - intros name d d' bv Hf. unfold build_data. destruct (factory !! name); [| done]. simpl.
    unfold default_BuildFieldIndexingData. by rewrite Hf.
  - intros name d bv. unfold build_data. destruct (factory !! name) as [h|] eqn:Eh; [| done]. simpl.
    destruct (bool_decide _); [done |].
    assert (GetTokenizer h (fd_Field d) = registered_tokenizer factory name d) as ->
      by (unfold registered_tokenizer; by rewrite Eh).
    destruct (registered_ok factory name d Hfactory) as (Hf & _).
    specialize (Hf (Value bv)). by destruct (TokenizeValue _ _).
  - intros name h txs d e x Hrep _. by apply default_commit_spec.
  - intros name h txs h' r Hrep [= <- <-]. by apply default_compile_spec.
  - intros name h txs d v. apply default_get_spec.
  - intros name d x v Hnil. unfold default_hits.
    destruct (registered_ok factory name d Hfactory) as (_ & _ & Hn).
    destruct (TokenizeAssign _ v) as [ss|e|e|] eqn:Et; try done. by rewrite (Hn v ss Hnil Et).
Defined.

#[local] Existing Instance DefaultHolder_spec.

Lemma default_cache_spec `{!ProtoStrListSpec} : HolderCacheSpec DefaultEntriesHolder StrTokenData.
Proof.
  split. intros name h txs [vs] bytes _ _ Henc. simpl in *. unfold default_Encode in Henc. simpl in Henc.
  unfold default_DecodeFieldIndexingData. case_bool_decide as Hl.
  - apply nil_length_inv in Hl as ->. by rewrite (Marshal_empty vs Henc).
  - by rewrite (Unmarshal_Marshal vs bytes Henc).
Qed.

End Spec.

Lemma InitHolderDefaults_ok : factory_ok InitHolderDefaults.
Proof.
  intros name h. unfold InitHolderDefaults, RegisterEntriesHolder.
  intros [[_ <-] | [_ Hl]]%lookup_insert_Some; [| by rewrite lookup_empty in Hl].
  split; [done |]. intros f t. simpl. by rewrite lookup_empty.
Qed.

End DefaultHolder.
