(* ===== verification/RangeParser.v ===== *)
(** * Range descriptions (parser/range_parser.go)

    The text [start:end] or [start:end:step] stands for the numbers from [start]
    to [end], both included, in steps of [step].  Enumerating them is a loop over
    int64 values that does not terminate for every description, so the model runs
    it with fuel. *)

From Stdlib Require Import Ascii.
From stdpp Require Import base sorting gmap strings numbers list.
From S2P Require Import Prelude GoValues Parsers.
Open Scope Z_scope.

(** ** Definitions *)

Record RangeDesc := { rd_start : Z; rd_end : Z; rd_step : Z }.

Definition NewRangeDesc (v : string) : option RangeDesc :=
  match Split ":" v with
  | v0 :: v1 :: vs =>
      end_ ← ParseInt v1;
      start ← ParseInt v0;
      match vs with
      | [] => Some {| rd_start := start; rd_end := end_; rd_step := 1 |}
      | v2 :: _ =>
          step ← ParseInt v2;
          Some {| rd_start := start; rd_end := end_; rd_step := step |}
      end
  | _ => None
  end.

(** [Values] returns the start again in place of the step. *)
Definition RangeDesc_Values (rgd : RangeDesc) : Z * Z * Z := (rd_start rgd, rd_end rgd, rd_start rgd).

(** [for s := opt.start; s <= opt.end; s += opt.step { res = append(res, uint64(s)) }] *)
Fixpoint range_loop (fuel : nat) (s end_ step : Z) (acc : list Z) : res (list Z) :=
  match fuel with
  | O => OutOfFuel
  | S fuel =>
      if bool_decide (s <= end_) then range_loop fuel (i64 (s + step)) end_ step (acc ++ [u64 s])
      else Ok acc
  end.

Section NumberRangeParser.
Context `{GoFloat}.

(** One description after the other, into the same result. *)
Fixpoint range_descs (fuel : nat) (vs : list (option string)) (acc : list Z) : res (list Z) :=
  match vs with
  | [] => Ok acc
  | v :: vs =>
      match v ≫= NewRangeDesc with
      | None => Err "NumberRangeParser need:'start:end:step'"
      | Some opt =>
          acc ← range_loop fuel (rd_start opt) (rd_end opt) (rd_step opt) acc;
          range_descs fuel vs acc
      end
  end.

Definition numrange_ParseValue (fuel : nat) (v : Values) : res (list Z) :=
  match v with
  | VStr value => range_descs fuel [Some value] []
  | VStrs value => range_descs fuel (Some <$> elems value) []
  | VIfaces value =>
      range_descs fuel ((fun si => match si with VStr sv => Some sv | _ => None end) <$> elems value) []
  | _ => Err "NumberRangeParser need:'start:end:step'"
  end.

(** The elements of a slice are read and then dropped: the function ends in the
    error after the switch. *)
Definition numrange_ParseAssign (v : Values) : res (list Z) :=
  isnil ← NilInterface v;
  if isnil : bool then Ok []
  else match v with
  | VInt _ _ | VUint _ _ | VFloat _ _ | VJsonNumber _ =>
      num ← ParseIntegerNumber v true; Ok [u64 num]
  | _ =>
      match slice_values v with
      | Some vs =>
          _ ← map_res (fun vi => ParseIntegerNumber vi true) vs;
          Err "not suppoted type"
      | None =>
          match v with
          | VIfaces t =>
              _ ← map_res (fun iv => ParseIntegerNumber iv true) (elems t);
              Err "not suppoted type"
          | _ => Err "not suppoted type"
          end
      end
  end.

End NumberRangeParser.

(** ** The enumeration *)

(** The numbers from [s] in steps of [step], as long as they do not pass [end_]. *)
Definition range_values (s end_ step : Z) : list Z :=
  (fun k => s + step * k) <$> seqZ 0 (Z.max 0 ((end_ - s) / step + 1)).

Lemma range_values_cons s end_ step :
  0 < step -> s <= end_ -> range_values s end_ step = s :: range_values (s + step) end_ step.
Proof.
  intros Hstep Hle. unfold range_values.
  assert (0 <= (end_ - s) / step) as Hq by (apply Z.div_pos; lia).
  assert ((end_ - (s + step)) / step = (end_ - s) / step - 1) as ->.
  { replace (end_ - (s + step)) with (end_ - s + (-1) * step) by lia. rewrite Z.div_add by lia. lia. }
  rewrite (Z.max_r 0 ((end_ - s) / step + 1)) by lia. rewrite Z.max_r by lia.
  rewrite seqZ_cons by lia. simpl. f_equal; [lia |].
  replace (Z.pred ((end_ - s) / step + 1)) with ((end_ - s) / step - 1 + 1) by lia.
  change (Z.succ 0) with 1. rewrite <- (fmap_add_seqZ 1 0). rewrite <- list_fmap_compose.
  apply list_fmap_ext. intros i k _. simpl. lia.
Qed.

Lemma range_values_nil s end_ step : 0 < step -> end_ < s -> range_values s end_ step = [].
Proof.
  intros Hstep Hlt. unfold range_values.
  assert ((end_ - s) / step < 0) by (apply Z.div_lt_upper_bound; lia).
  by rewrite Z.max_l by lia.
Qed.

(** With a positive step that cannot leave int64 at the end, the loop ends. *)
Lemma range_loop_spec fuel s end_ step acc :
  0 < step -> MinInt64 <= s -> end_ + step <= MaxInt64 -> (length (range_values s end_ step) < fuel)%nat ->
  range_loop fuel s end_ step acc = Ok (acc ++ (u64 <$> range_values s end_ step)).
Proof.
  revert s acc. induction fuel as [|fuel IH]; intros s acc Hstep Hs Hend Hlen; [lia |]. cbn [range_loop].
  case_bool_decide as Hle.
  - rewrite range_values_cons in Hlen |- * by done. simpl in Hlen.
    rewrite i64_small by (unfold is_i64; lia). rewrite IH by lia. by rewrite <- app_assoc.
  - rewrite range_values_nil by lia. by rewrite app_nil_r.
Qed.

(** Without progress towards the end it never ends. *)
Lemma range_loop_stuck fuel s end_ acc : s <= end_ -> is_i64 s -> range_loop fuel s end_ 0 acc = OutOfFuel.
Proof.
  intros Hle Hs. revert acc. induction fuel as [|fuel IH]; intros acc; [done |]. cbn [range_loop].
  rewrite bool_decide_eq_true_2 by done. rewrite Z.add_0_r, i64_small by done. apply IH.
Qed.

Lemma range_loop_max fuel s step acc : is_i64 s -> range_loop fuel s MaxInt64 step acc = OutOfFuel.
Proof.
  revert s acc. induction fuel as [|fuel IH]; intros s acc Hs; [done |]. cbn [range_loop].
  rewrite bool_decide_eq_true_2 by apply Hs. apply IH, i64_range.
Qed.
