(* ===== verification/RangeIdx.v ===== *)
(** * The range index (holder/rangeholder/term_ext_range_holder.go, RangeIdx)

    A list of half-open ranges that partition the value space, each with the
    entries of the expressions that cover it.  Indexing a range splits the pieces
    at its ends and appends the entry to the pieces inside.  The main results:
    indexing keeps the partition and adds the entry to exactly the values of the
    range, and the binary search of [Retrieve] finds the piece of a value. *)

From Stdlib Require Import SpecFloat.
From stdpp Require Import base sorting gmap strings numbers list.
From S2P Require Import Prelude GoValues Ids.
Open Scope Z_scope.

(** ** Definitions *)

Record Range := { rg_left : Z; rg_right : Z }.

#[export] Instance Range_eq_dec : EqDecision Range.
Proof. solve_decision. Defined.

Record RangeEntries := { re_Range : Range; re_entries : Entries }.

Definition NewRangeEntries (l r : Z) : RangeEntries :=
  {| re_Range := {| rg_left := l; rg_right := r |}; re_entries := [] |}.

Definition NewRange (l r : Z) : Range :=
  {| rg_left := l; rg_right := if bool_decide (l = r) then i64 (r + 1) else r |}.

(** [float64(n)] of an int64, and the subtraction of float64 values. *)
Definition float64_of_int (n : Z) : spec_float := binary_normalize 53 1024 n 0 false.

Definition range_Size (rg : Range) : spec_float :=
  SFsub 53 1024 (float64_of_int (rg_right rg)) (float64_of_int (rg_left rg)).

Definition IsLeftInf (rg : Range) : bool := bool_decide (rg_left rg = MinInt64).

(** The code compares the left end here, too. *)
Definition IsRightInf (rg : Range) : bool := bool_decide (rg_left rg = MaxInt64).

Definition ContainValue (rg : Range) (v : Z) : bool :=
  bool_decide (v >= rg_left rg) && bool_decide (v < rg_right rg).

Definition range_Equal (rg other : Range) : bool :=
  bool_decide (rg_left rg = rg_left other) && bool_decide (rg_right rg = rg_right other).

Definition ContainRange (rg other : Range) : bool :=
  bool_decide (rg_left other >= rg_left rg) &&
  bool_decide (rg_right other <= rg_right rg) &&
  bool_decide (rg_left other < rg_right rg).

(** The loop of [Explode]: [prev] is [vs[i-1]], [leftValue] the end of the last
    piece, which is [prev] as the loop stores [vs[i]] back. *)
Fixpoint explode_loop (rg_r leftValue : Z) (vs : list Z) (rgs : list Range) : list Range :=
  match vs with
  | [] => rgs
  | v :: vs =>
      if bool_decide (leftValue < rg_r) then
        let v := if bool_decide (v = leftValue) then i64 (v + 1) else v in
        explode_loop rg_r v vs (rgs ++ [{| rg_left := leftValue; rg_right := v |}])
      else rgs
  end.

Definition Explode (rg : Range) (left right : Z) : res (list Range) :=
  if negb (ContainRange rg {| rg_left := left; rg_right := right |}) then Panic "bad sub range"
  else
    let vs := (if bool_decide (left > rg_left rg) then [left] else []) ++ [right] ++
              (if bool_decide (right < rg_right rg) then [rg_right rg] else []) in
    Ok (explode_loop (rg_right rg) (rg_left rg) vs []).

Definition AppendEntry (re : RangeEntries) (eid : EntryID) : RangeEntries :=
  {| re_Range := re_Range re; re_entries := re_entries re ++ [eid] |}.

(** [pl.Range = *item], or a clone of [pl] with that range. *)
Definition with_range (pl : RangeEntries) (item : Range) : RangeEntries :=
  {| re_Range := item; re_entries := re_entries pl |}.

Record RangeIdx := {
  rix_compiled : bool;
  rix_maxLen : Z;
  rix_avgLen : Z;
  valueMin : Z;
  valueMax : Z;
  items : list RangeEntries;
  rgEntries : list RangeEntries
}.

Definition NewRangeIdx (min max : Z) : res RangeIdx :=
  if bool_decide (min >= max) then Panic "bad range"
  else Ok {| rix_compiled := false; rix_maxLen := 0; rix_avgLen := 0; valueMin := min; valueMax := max;
             items := [NewRangeEntries min max]; rgEntries := [] |}.

(** [if cnt := pl.entries.Len(); cnt > 0 { ...; sort.Sort(pl.entries) }] *)
Definition compile_item (pl : RangeEntries) : RangeEntries :=
  if bool_decide (0 < length (re_entries pl))%nat
  then {| re_Range := re_Range pl; re_entries := sortZ (re_entries pl) |} else pl.

Definition rix_Compile (rix : RangeIdx) : RangeIdx :=
  let lens := (fun pl => Z.of_nat (length (re_entries pl))) <$> items rix in
  let rgs := compile_item <$> items rix in
  {| rix_compiled := true;
     rix_maxLen := foldl (fun m cnt => if bool_decide (m < cnt) then cnt else m) (rix_maxLen rix) lens;
     rix_avgLen := if bool_decide (0 < length rgs)%nat
                   then Z.quot (foldl Z.add 0 lens) (Z.of_nat (length rgs)) else rix_avgLen rix;
     valueMin := valueMin rix; valueMax := valueMax rix;
     items := []; rgEntries := rgs |}.

(** [scale]: a range clipped to the bounds of the index (no caller). *)
Definition rix_scale (rix : RangeIdx) (left right : Z) : Z * Z :=
  (Z.max left (valueMin rix), Z.min right (valueMax rix)).

(** [sort.Find(n, cmp)]: the least index with [cmp(i) <= 0], by halving, and
    whether [cmp] is 0 there. *)
Fixpoint find_loop (fuel : nat) (cmp : nat -> Z) (i j : nat) : nat :=
  match fuel with
  | O => i
  | S fuel =>
      if bool_decide (i < j)%nat then
        let h := ((i + j) / 2)%nat in
        if bool_decide (cmp h > 0) then find_loop fuel cmp (S h) j else find_loop fuel cmp i h
      else i
  end.

Definition sort_Find (n : nat) (cmp : nat -> Z) : nat * bool :=
  let i := find_loop n cmp 0 n in
  (i, bool_decide (i < n)%nat && bool_decide (cmp i = 0)).

(** The comparison passed by [Retrieve]. *)
Definition range_cmp (rgs : list RangeEntries) (value : Z) (i : nat) : Z :=
  match rgs !! i with
  | Some re =>
      if ContainValue (re_Range re) value then 0
      else if bool_decide (value >= rg_right (re_Range re)) then 1 else -1
  | None => -1
  end.

(** [RangeIdx.Retrieve]: the position of the piece stands for its pointer. *)
Definition rix_Retrieve (rix : RangeIdx) (value : Z) : option (nat * RangeEntries) :=
  if bool_decide (value < valueMin rix) || bool_decide (value >= valueMax rix) then None
  else
    let '(index, found) := sort_Find (length (rgEntries rix)) (range_cmp (rgEntries rix) value) in
    if found then (fun re => (index, re)) <$> rgEntries rix !! index else None.

(** The walk of [IndexingRange] over [rix.items]: [left] and [right] are the ends
    of the range, [rg] the part still to place.  The flag of a piece tells whether
    its node is in [appendEIDPls]. *)
Fixpoint index_walk (left right : Z) (rg : Range) (its : list RangeEntries)
    : res (list (RangeEntries * bool)) :=
  match its with
  | [] => Ok []
  | pl :: its =>
      if bool_decide (rg_left (re_Range pl) >= rg_right rg) then
        Ok ((fun pl => (pl, false)) <$> (pl :: its))
      else if bool_decide (rg_left rg >= rg_right (re_Range pl)) then
        rest ← index_walk left right rg its; Ok ((pl, false) :: rest)
      else if ContainValue (re_Range pl) (rg_left rg) then
        let plRange := re_Range pl in
        let over := bool_decide (rg_right rg > rg_right plRange) in
        rgs ← Explode plRange (rg_left rg) (if over then rg_right plRange else rg_right rg);
        let rg := if over then NewRange (rg_right plRange) right else rg in
        let fullRg := NewRange left right in
        rest ← index_walk left right rg its;
        Ok (match rgs with
            | [] => [(pl, false)]
            | _ => (fun item => (with_range pl item, ContainRange fullRg item)) <$> rgs
            end ++ rest)
      else
        rest ← index_walk left right rg its; Ok ((pl, false) :: rest)
  end.

Definition IndexingRange (rix : RangeIdx) (left right : Z) (eid : EntryID) : res RangeIdx :=
  let right := if bool_decide (left = right) then i64 (right + 1) else right in
  nodes ← index_walk left right (NewRange left right) (items rix);
  Ok {| rix_compiled := rix_compiled rix; rix_maxLen := rix_maxLen rix; rix_avgLen := rix_avgLen rix;
        valueMin := valueMin rix; valueMax := valueMax rix;
        items := (fun node => if node.2 : bool then AppendEntry node.1 eid else node.1)
                   <$> (nodes : list (RangeEntries * bool));
        rgEntries := rgEntries rix |}.

(** ** Partitions *)

Fixpoint range_partition (lo hi : Z) (its : list RangeEntries) : Prop :=
  match its with
  | [] => lo = hi
  | re :: its => rg_left (re_Range re) = lo /\ lo < rg_right (re_Range re) /\
                 range_partition (rg_right (re_Range re)) hi its
  end.

(** The entries of the pieces that contain [v]. *)
Definition entries_at (its : list RangeEntries) (v : Z) : Entries :=
  its ≫= (fun re => if ContainValue (re_Range re) v then re_entries re else []).

Lemma ContainValue_spec rg v : ContainValue rg v = bool_decide (rg_left rg <= v < rg_right rg).
Proof. unfold ContainValue. repeat case_bool_decide; simpl; try done; lia. Qed.

Lemma partition_le lo hi its : range_partition lo hi its -> lo <= hi.
Proof.
  revert lo. induction its as [|re its IH]; intros lo; simpl; [lia |].
  intros (_ & Hlt & Hp). apply IH in Hp. lia.
Qed.

Lemma entries_at_cons re its v :
  entries_at (re :: its) v = (if ContainValue (re_Range re) v then re_entries re else []) ++ entries_at its v.
Proof. done. Qed.

Lemma entries_at_app its1 its2 v : entries_at (its1 ++ its2) v = entries_at its1 v ++ entries_at its2 v.
Proof. apply bind_app. Qed.

Lemma entries_at_below lo hi its v : range_partition lo hi its -> v < lo -> entries_at its v = [].
Proof.
  revert lo. induction its as [|re its IH]; intros lo; [done |]. intros (Hl & Hlt & Hp) Hv.
  rewrite entries_at_cons, ContainValue_spec, bool_decide_eq_false_2 by lia. by apply (IH _ Hp); lia.
Qed.

Lemma entries_at_above lo hi its v : range_partition lo hi its -> hi <= v -> entries_at its v = [].
Proof.
  revert lo. induction its as [|re its IH]; intros lo; [done |]. intros (Hl & Hlt & Hp) Hv.
  pose proof (partition_le _ _ _ Hp).
  rewrite entries_at_cons, ContainValue_spec, bool_decide_eq_false_2 by lia. by apply (IH _ Hp).
Qed.

Lemma NewRange_lt l r : l < r -> NewRange l r = {| rg_left := l; rg_right := r |}.
Proof. intros Hlt. unfold NewRange. by rewrite bool_decide_eq_false_2 by lia. Qed.

(** ** Explode *)

(** The pieces of [rg] before, inside and after the sub-range [l, r). *)
Lemma Explode_spec rg l r :
  rg_left rg <= l -> l < r -> r <= rg_right rg ->
  Explode rg l r = Ok ((if bool_decide (rg_left rg < l) then [{| rg_left := rg_left rg; rg_right := l |}] else []) ++
                       [{| rg_left := l; rg_right := r |}] ++
                       (if bool_decide (r < rg_right rg) then [{| rg_left := r; rg_right := rg_right rg |}] else [])).
Proof.
  intros Hl Hlt Hr. unfold Explode, ContainRange. simpl. decide_lia. simpl. f_equal.
  destruct (decide (rg_left rg < l)) as [H1 | H1], (decide (r < rg_right rg)) as [H2 | H2];
    decide_lia; simpl; decide_lia; simpl; decide_lia; simpl; decide_lia; try done;
    by assert (rg_left rg = l) as -> by lia.
Qed.

(** ** IndexingRange *)

(** The list after the entry was appended to the marked pieces. *)
Definition append_marked (eid : EntryID) (nodes : list (RangeEntries * bool)) : list RangeEntries :=
  (fun node => if node.2 : bool then AppendEntry node.1 eid else node.1) <$> nodes.

Lemma append_marked_cons eid re b nodes :
  append_marked eid ((re, b) :: nodes) =
  {| re_Range := re_Range re; re_entries := re_entries re ++ (if b then [eid] else []) |} :: append_marked eid nodes.
Proof. unfold append_marked. destruct re, b; simpl; [done |]. by rewrite app_nil_r. Qed.

(** A range that starts before the pieces touches none of them. *)
Lemma index_walk_before left right rg its lo hi :
  range_partition lo hi its -> rg_left rg < lo ->
  index_walk left right rg its = Ok ((fun pl => (pl, false)) <$> its).
Proof.
  revert lo. induction its as [|pl its IH]; intros lo; [done |]. intros (Hl & Hlt & Hp) Hrg. cbn [index_walk].
  rewrite ContainValue_spec. case_bool_decide; [done |]. decide_lia.
  by rewrite (IH (rg_right (re_Range pl)) Hp) by lia.
Qed.

Lemma append_unmarked eid its : append_marked eid ((fun pl => (pl, false)) <$> its) = its.
Proof. induction its as [|[] its IH]; [done |]. cbn. f_equal. apply IH. Qed.

(** The entries of one piece at [v]. *)
Definition piece_at (re : RangeEntries) (v : Z) : Entries :=
  if bool_decide (rg_left (re_Range re) <= v < rg_right (re_Range re)) then re_entries re else [].

Lemma entries_at_piece re its v : entries_at (re :: its) v = piece_at re v ++ entries_at its v.
Proof. unfold piece_at. by rewrite entries_at_cons, ContainValue_spec. Qed.

(** Splitting the piece [pl] around [l, r) and marking the middle. *)
Lemma split_piece left right pl l r nodes eid v :
  rg_left (re_Range pl) <= l -> l < r -> r <= rg_right (re_Range pl) -> r <= right ->
  (l = left \/ (l = rg_left (re_Range pl) /\ left <= l)) ->
  (r = right \/ r = rg_right (re_Range pl)) ->
  exists rgs, Explode (re_Range pl) l r = Ok rgs /\ rgs <> [] /\
    let ns := (fun item => (with_range pl item, ContainRange (NewRange left right) item)) <$> rgs in
    (forall hi, range_partition (rg_right (re_Range pl)) hi (append_marked eid nodes) ->
       range_partition (rg_left (re_Range pl)) hi (append_marked eid (ns ++ nodes))) /\
    entries_at (append_marked eid (ns ++ nodes)) v =
      piece_at pl v ++ (if bool_decide (l <= v < r) then [eid] else []) ++ entries_at (append_marked eid nodes) v.
Proof.
  intros Hl Hlt Hr Hright Hleft Hor. eexists. split; [by apply Explode_spec |].
  assert (left < right) as Hlr by lia. rewrite NewRange_lt by done.
  destruct pl as [[a b] es]. simpl in *. unfold piece_at, ContainRange. simpl.
  destruct (decide (a < l)) as [H1 | H1]; [assert (l = left) as Hll by lia | assert (a = l) as -> by lia];
  (destruct (decide (r < b)) as [H2 | H2]; [assert (r = right) as Hrr by lia | assert (b = r) as -> by lia]);
  decide_lia; simpl; decide_lia; simpl; rewrite ?append_marked_cons; simpl;
  (split; [done |]); (split; [intros hi Hp; repeat split; done || lia |]);
  rewrite ?entries_at_piece; unfold piece_at; simpl; rewrite ?ContainValue_spec; simpl; rewrite ?app_nil_r;
  repeat case_bool_decide; simpl; rewrite <- ?app_assoc, ?app_nil_r; try done; lia.
Qed.

Lemma index_walk_spec left right eid its : forall l lo hi,
  range_partition lo hi its -> l < right -> lo <= l -> (l = left \/ (l = lo /\ left <= lo)) ->
  exists nodes, index_walk left right {| rg_left := l; rg_right := right |} its = Ok nodes /\
    range_partition lo hi (append_marked eid nodes) /\
    forall v, entries_at (append_marked eid nodes) v =
      entries_at its v ++ (if bool_decide (l <= v < right /\ v < hi) then [eid] else []).
Proof.
  induction its as [|pl its IH]; intros l lo hi Hp Hlt Hlo Hl.
  { exists []. split; [done |]. split; [done |]. intros v. simpl in Hp. by decide_lia. }
  pose proof Hp as (Hpl & Hplt & Hrest). pose proof (partition_le _ _ _ Hrest) as Hhi. cbn [index_walk rg_left rg_right].
  rewrite (bool_decide_eq_false_2 (_ >= right)) by lia.
  case_bool_decide as Hskip.
  { destruct (IH l _ hi Hrest Hlt) as (nodes & -> & Hp' & Hent); [lia | lia |]. eexists. split; [done |].
    rewrite append_marked_cons, app_nil_r. split; [done |]. intros v.
    rewrite entries_at_piece, Hent, entries_at_piece. by rewrite <- app_assoc. }
  rewrite ContainValue_spec, (bool_decide_eq_true_2 (_ <= l < _)) by lia.
  destruct (decide (right > rg_right (re_Range pl))) as [Hover | Hover].
  - rewrite bool_decide_eq_true_2 by done.
    destruct (IH (rg_right (re_Range pl)) _ hi Hrest) as (nodes & Hwalk & Hp' & Hent); [lia | lia | lia |].
    assert (forall v, _) as Hsplit by (intros v; apply (split_piece left right pl l (rg_right (re_Range pl)) nodes eid v); lia).
    destruct (Hsplit 0) as (rgs & Hex & Hne & Hpart & _). rewrite Hex. unfold mbind, res_bind; cbn beta iota.
    rewrite (NewRange_lt (rg_right (re_Range pl)) right) by lia. rewrite Hwalk. cbn beta iota. destruct rgs as [|rg0 rgs]; [done |].
    eexists. split; [done |]. split; [rewrite <- Hpl; by apply Hpart |]. intros v.
    destruct (Hsplit v) as (rgs' & Hex' & _ & _ & Hv). rewrite Hex in Hex'. injection Hex' as <-.
    rewrite Hv, Hent, entries_at_piece, <- app_assoc. f_equal.
    destruct (decide (v < rg_right (re_Range pl))) as [Hvb | Hvb].
    + rewrite (entries_at_below _ _ _ _ Hrest Hvb). simpl. decide_lia. simpl.
      repeat case_bool_decide; try done; lia.
    + decide_lia. simpl. f_equal. repeat case_bool_decide; try done; lia.
  - rewrite bool_decide_eq_false_2 by done.
    assert (Hwalk : index_walk left right {| rg_left := l; rg_right := right |} its = Ok ((fun pl => (pl, false)) <$> its))
      by (eapply index_walk_before; [exact Hrest | simpl; lia]).
    assert (forall v, _) as Hsplit by (intros v;
      apply (split_piece left right pl l right ((fun pl => (pl, false)) <$> its) eid v); lia).
    destruct (Hsplit 0) as (rgs & Hex & Hne & Hpart & _). rewrite Hex. unfold mbind, res_bind; cbn beta iota. rewrite Hwalk. cbn beta iota.
    destruct rgs as [|rg0 rgs]; [done |]. eexists. split; [done |].
    split; [rewrite <- Hpl; apply Hpart; by rewrite append_unmarked |]. intros v.
    destruct (Hsplit v) as (rgs' & Hex' & _ & _ & Hv). rewrite Hex in Hex'. injection Hex' as <-.
    rewrite Hv, append_unmarked, entries_at_piece, <- app_assoc. f_equal.
    destruct (decide (v < rg_right (re_Range pl))) as [Hvb | Hvb].
    + rewrite (entries_at_below _ _ _ _ Hrest Hvb), app_nil_r. simpl. repeat case_bool_decide; try done; lia.
    + decide_lia. simpl. by rewrite app_nil_r.
Qed.

(** The pieces partition the value space. *)
Definition rix_inv (rix : RangeIdx) : Prop :=
  valueMin rix < valueMax rix /\ range_partition (valueMin rix) (valueMax rix) (items rix).

Lemma NewRangeIdx_inv min max rix : NewRangeIdx min max = Ok rix ->
  rix_inv rix /\ valueMin rix = min /\ valueMax rix = max /\ (forall v, entries_at (items rix) v = []).
Proof.
  unfold NewRangeIdx. case_bool_decide; [done |]. intros [= <-]. split; [split; simpl; lia |].
  split; [done |]. split; [done |]. intros v. unfold entries_at. simpl. by destruct (ContainValue _ v).
Qed.

(** Indexing a range adds the entry to its values, as far as they lie below the
    maximum; a range that starts below the minimum is dropped. *)
Lemma IndexingRange_spec rix left right eid :
  rix_inv rix -> left < right ->
  exists rix', IndexingRange rix left right eid = Ok rix' /\ rix_inv rix' /\
    valueMin rix' = valueMin rix /\ valueMax rix' = valueMax rix /\
    forall v, entries_at (items rix') v = entries_at (items rix) v ++
      (if bool_decide (valueMin rix <= left /\ left <= v < right /\ v < valueMax rix) then [eid] else []).
Proof.
  intros [Hmm Hp] Hlt. unfold IndexingRange. rewrite (bool_decide_eq_false_2 (left = right)) by lia.
  rewrite NewRange_lt by done. destruct (decide (valueMin rix <= left)) as [Hle | Hle].
  - destruct (index_walk_spec left right eid (items rix) left _ _ Hp Hlt Hle) as (nodes & -> & Hp' & Hent); [by left |].
    eexists. split; [done |]. split; [split; [done | exact Hp'] |]. split; [done |]. split; [done |].
    intros v. etransitivity; [apply Hent |]. f_equal. repeat case_bool_decide; try done; lia.
  - erewrite index_walk_before; [| exact Hp | simpl; lia]. simpl. eexists. split; [done |].
    fold (append_marked eid ((fun pl => (pl, false)) <$> items rix)). rewrite append_unmarked.
    split; [done |]. split; [done |]. split; [done |]. intros v. simpl. decide_lia. by rewrite app_nil_r.
Qed.

(** The empty range from the largest to the least int64 is not placed either. *)
Lemma IndexingRange_empty rix left right eid :
  rix_inv rix -> right < left -> right <= valueMin rix -> IndexingRange rix left right eid = Ok rix.
Proof.
  intros [Hmm Hp] Hlt Hmin. unfold IndexingRange, NewRange. rewrite !(bool_decide_eq_false_2 (left = right)) by lia.
  destruct rix as [c ml al mn mx its es]. simpl in *. destruct its as [|pl its]; simpl in *; [lia |].
  destruct Hp as (Hl & Hlt' & Hp). rewrite bool_decide_eq_true_2 by lia. simpl. do 3 f_equal.
  apply (append_unmarked eid its).
Qed.

(** ** Compile *)

Lemma compile_item_spec pl :
  re_Range (compile_item pl) = re_Range pl /\ re_entries (compile_item pl) ≡ₚ re_entries pl /\
  StronglySorted Z.le (re_entries (compile_item pl)).
Proof.
  unfold compile_item. case_bool_decide as Hl; simpl.
  - split; [done |]. split; [apply sortZ_perm | apply sortZ_sorted].
  - split; [done |]. split; [done |]. destruct (re_entries pl); [constructor | simpl in Hl; lia].
Qed.

Lemma compile_items_spec its hi : forall lo, range_partition lo hi its ->
  range_partition lo hi (compile_item <$> its) /\
  (forall v, entries_at (compile_item <$> its) v ≡ₚ entries_at its v) /\
  Forall (fun re => StronglySorted Z.le (re_entries re)) (compile_item <$> its).
Proof.
  induction its as [|pl its IH]; intros lo Hp; [done |].
  destruct (compile_item_spec pl) as (Hrg & Hperm & Hsort). destruct Hp as (Hl & Hlt & Hp).
  destruct (IH _ Hp) as (Hp' & Hent & Hall). rewrite fmap_cons.
  split; [cbn [range_partition]; by rewrite Hrg |]. split; [| by constructor].
  intros v. rewrite !entries_at_piece, Hent. unfold piece_at. rewrite Hrg. by case_bool_decide; rewrite ?Hperm.
Qed.

Lemma rix_Compile_spec rix : rix_inv rix ->
  let rix' := rix_Compile rix in
  range_partition (valueMin rix') (valueMax rix') (rgEntries rix') /\
  valueMin rix' = valueMin rix /\ valueMax rix' = valueMax rix /\
  (forall v, entries_at (rgEntries rix') v ≡ₚ entries_at (items rix) v) /\
  Forall (fun re => StronglySorted Z.le (re_entries re)) (rgEntries rix').
Proof. intros [_ Hp]. destruct (compile_items_spec _ _ _ Hp) as (H1 & H2 & H3). done. Qed.

(** ** Retrieve *)

Lemma find_loop_spec (cmp : nat -> Z) n :
  (forall h k, (h < n)%nat -> (k <= h)%nat -> cmp h > 0 -> cmp k > 0) ->
  forall fuel i j, (j - i <= fuel)%nat -> (i <= j <= n)%nat ->
  (forall k, (k < i)%nat -> cmp k > 0) -> ((j < n)%nat -> cmp j <= 0) ->
  let r := find_loop fuel cmp i j in
  (r <= n)%nat /\ (forall k, (k < r)%nat -> cmp k > 0) /\ ((r < n)%nat -> cmp r <= 0).
Proof.
  intros Hmono. induction fuel as [|fuel IH]; intros i j Hf Hij Hi Hj; cbn [find_loop].
  { assert (i = j) as -> by lia. split; [lia | done]. }
  case_bool_decide as Hlt; [| assert (i = j) as -> by lia; split; [lia | done]].
  assert (i <= (i + j) / 2 < j)%nat as Hh.
  { split; [apply Nat.div_le_lower_bound; lia | apply Nat.Div0.div_lt_upper_bound; lia]. }
  case_bool_decide as Hc.
  - apply IH; [lia | lia | | done]. intros k Hk. apply (Hmono ((i + j) / 2)%nat); [lia | lia | done].
  - apply IH; [lia | lia | done | lia].
Qed.

(** The piece of a value. *)
Lemma partition_piece lo hi its v :
  range_partition lo hi its -> lo <= v < hi ->
  exists i re, its !! i = Some re /\ rg_left (re_Range re) <= v < rg_right (re_Range re) /\
    entries_at its v = re_entries re /\
    (forall k re', its !! k = Some re' -> (k < i)%nat -> rg_right (re_Range re') <= v) /\
    (forall k re', its !! k = Some re' -> (i < k)%nat ->
       v < rg_left (re_Range re') < rg_right (re_Range re')).
Proof.
  revert lo. induction its as [|pl its IH]; intros lo; [simpl; lia |]. intros (Hl & Hlt & Hp) Hv.
  destruct (decide (v < rg_right (re_Range pl))) as [Hin | Hout].
  - exists 0%nat, pl. split; [done |]. split; [lia |]. split.
    { rewrite entries_at_piece, (entries_at_below _ _ _ _ Hp Hin), app_nil_r. unfold piece_at. by decide_lia. }
    split; [lia |]. intros [|k] re' Hk Hlt'; [lia |]. simpl in Hk.
    clear IH Hv Hl Hlt Hlt'. revert k Hk. generalize dependent (rg_right (re_Range pl)).
    induction its as [|pl' its IH']; intros b Hp Hb k Hk; [done |]. destruct Hp as (Hl' & Hlt' & Hp').
    destruct k as [|k]; [injection Hk as <-; lia |]. eapply (IH' (rg_right (re_Range pl'))); [done | lia | done].
  - destruct (IH _ Hp) as (i & re & Hi & Hre & Hent & Hbelow & Habove); [lia |].
    exists (S i), re. split; [done |]. split; [done |]. split.
    { rewrite entries_at_piece, Hent. unfold piece_at. by decide_lia. }
    split; intros [|k] re' Hk Hlt'; simpl in Hk; try lia.
    + injection Hk as <-. lia.
    + eapply Hbelow; [done | lia].
    + eapply Habove; [done | lia].
Qed.

Lemma rix_Retrieve_spec rix v :
  range_partition (valueMin rix) (valueMax rix) (rgEntries rix) ->
  match rix_Retrieve rix v with
  | Some (i, re) => rgEntries rix !! i = Some re /\ entries_at (rgEntries rix) v = re_entries re
  | None => entries_at (rgEntries rix) v = [] /\ ~ valueMin rix <= v < valueMax rix
  end.
Proof.
  intros Hp. unfold rix_Retrieve. destruct (decide (valueMin rix <= v < valueMax rix)) as [Hv | Hv].
  2: { destruct (decide (v < valueMin rix)); decide_lia; simpl; (split; [| done]).
       - by eapply entries_at_below; [exact Hp | lia].
       - by eapply entries_at_above; [exact Hp | lia]. }
  rewrite (bool_decide_eq_false_2 (v < _)), (bool_decide_eq_false_2 (v >= _)) by lia. simpl.
  destruct (partition_piece _ _ _ v Hp Hv) as (i & re & Hi & Hre & Hent & Hbelow & Habove).
  set (cmp := range_cmp (rgEntries rix) v). set (n := length (rgEntries rix)).
  pose proof (lookup_lt_Some _ _ _ Hi) as Hin.
  assert (Hcmp : forall k, (k < n)%nat -> cmp k = if decide (k < i)%nat then 1 else if decide (k = i) then 0 else -1).
  { intros k Hk. destruct (lookup_lt_is_Some_2 (rgEntries rix) k Hk) as [re' Hk']. unfold cmp, range_cmp.
    rewrite Hk', ContainValue_spec. case_decide as H1; [| case_decide as H2].
    - pose proof (Hbelow _ _ Hk' H1). by decide_lia.
    - subst k. rewrite Hk' in Hi. injection Hi as ->. by decide_lia.
    - pose proof (Habove _ _ Hk' ltac:(lia)).
      by decide_lia. }
  destruct (find_loop_spec cmp n) with (fuel := n) (i := 0%nat) (j := n) as (Hle & Hlow & Hat); try lia.
  { intros h k Hh Hk. rewrite !Hcmp by lia. repeat case_decide; lia. }
  unfold sort_Find. fold n cmp. set (r := find_loop n cmp 0 n) in *.
  assert (r = i) as Hr.
  { destruct (decide (r = i)); [done |]. destruct (decide (r < i)%nat).
    - pose proof (Hat ltac:(lia)) as H1. rewrite Hcmp in H1 by lia. case_decide; lia.
    - pose proof (Hlow i ltac:(lia)) as H1. rewrite Hcmp in H1 by lia. repeat case_decide; lia. }
  rewrite Hr, (bool_decide_eq_true_2 (i < n)%nat) by done.
  rewrite bool_decide_eq_true_2 by (rewrite Hcmp by done; repeat case_decide; lia).
  simpl. by rewrite Hi.
Qed.

(** ** A sequence of ranges *)

Fixpoint index_ranges (rix : RangeIdx) (rgs : list (Range * EntryID)) : res RangeIdx :=
  match rgs with
  | [] => Ok rix
  | (rg, eid) :: rgs => rix ← IndexingRange rix (rg_left rg) (rg_right rg) eid; index_ranges rix rgs
  end.

(** The entries of the ranges that contain [v]. *)
Definition containing (rgs : list (Range * EntryID)) (v : Z) : Entries :=
  (filter (fun p => rg_left p.1 <= v < rg_right p.1) rgs).*2.

(** Those that [IndexingRange] leaves at [v]: it drops a range that starts below the
    minimum, and nothing is held from the maximum on. *)
Definition placed_at (mn mx : Z) (rgs : list (Range * EntryID)) (v : Z) : Entries :=
  (filter (fun p => mn <= rg_left p.1 /\ rg_left p.1 <= v < rg_right p.1 /\ v < mx) rgs).*2.

Lemma placed_at_containing mn mx rgs v :
  v < mx -> placed_at mn mx rgs v = containing (filter (fun p => mn <= rg_left p.1) rgs) v.
Proof.
  intros Hv. unfold placed_at, containing. rewrite list_filter_filter. f_equal. apply list_filter_iff.
  intros p. tauto.
Qed.

Lemma index_ranges_spec rgs : forall rix,
  rix_inv rix -> Forall (fun p => rg_left p.1 < rg_right p.1) rgs ->
  exists rix', index_ranges rix rgs = Ok rix' /\ rix_inv rix' /\
    valueMin rix' = valueMin rix /\ valueMax rix' = valueMax rix /\
    forall v, entries_at (items rix') v = entries_at (items rix) v ++ placed_at (valueMin rix) (valueMax rix) rgs v.
Proof.
  induction rgs as [|[rg eid] rgs IH]; intros rix Hinv Hall.
  - exists rix. split_and!; try done. intros v. by rewrite app_nil_r.
  - inversion Hall as [|? ? Hlt Hall']; subst. simpl in Hlt.
    destruct (IndexingRange_spec rix (rg_left rg) (rg_right rg) eid Hinv Hlt) as (rix1 & Hi & Hinv1 & Hmn & Hmx & Hent).
    destruct (IH rix1 Hinv1 Hall') as (rix2 & Hi2 & Hinv2 & Hmn2 & Hmx2 & Hent2).
    exists rix2. simpl. rewrite Hi. simpl. split; [done |]. split; [done |]. split; [congruence |]. split; [congruence |].
    intros v. rewrite Hent2, Hent, Hmn, Hmx, <- app_assoc. f_equal. unfold placed_at. rewrite filter_cons. simpl.
    case_bool_decide; [by rewrite decide_True | by rewrite decide_False].
Qed.
