(* ===== verification/RangeHolder.v ===== *)
(** * The range holder (holder/rangeholder/term_ext_range_holder.go)

    Integer fields with the operators EQ, LT, GT and Between.  Listed values, and
    ranges shorter than a threshold, go into a map from value to posting list;
    longer ranges into the range index.  The holder implements [HolderSpec]; its
    data does not survive the encoding of the document cache. *)

From Stdlib Require Import SpecFloat Strings.Byte.
From stdpp Require Import base sorting gmap strings numbers list.
From S2P Require Import Prelude GoValues Ids Document Cursor FieldCursor Parsers Holder.
From S2P Require Import RangeParser RangeIdx.
Open Scope Z_scope.

(** ** Definitions *)

Record RangeHolderOption := {
  EnableFloat2Int : bool;
  RangeCvtValuesSize : spec_float;
  RangeMax : Z;
  RangeMin : Z
}.

Record RangeTxData := {
  rtx_Operator : ValueOpt;
  rtx_RgValue : option Range;
  rtx_EqValues : list Z
}.

Record RangeHolder := {
  rh_option : RangeHolderOption;
  rh_maxLen : Z;
  rh_avgLen : Z;
  rh_rangeIdx : RangeIdx;
  rh_plEntries : gmap Z Entries
}.

Definition NewRangeHolderOption : RangeHolderOption :=
  {| EnableFloat2Int := true; RangeCvtValuesSize := float64_of_int 256;
     RangeMax := MaxInt64; RangeMin := MinInt64 |}.

Definition WithRangeHolderOption (opt : RangeHolderOption) : RangeHolderOption -> RangeHolderOption :=
  fun _ => opt.

Definition NewNumberExtendRangeHolder (fns : list (RangeHolderOption -> RangeHolderOption))
    : res RangeHolder :=
  let option := foldl (fun option fn => fn option) NewRangeHolderOption fns in
  rangeIdx ← NewRangeIdx (RangeMin option) (RangeMax option);
  Ok {| rh_option := option; rh_maxLen := 0; rh_avgLen := 0; rh_rangeIdx := rangeIdx; rh_plEntries := ∅ |}.

(** The builder that the package registers for [HolderNameExtendRange]. *)
Definition ext_range_builder : res RangeHolder :=
  NewNumberExtendRangeHolder [WithRangeHolderOption NewRangeHolderOption].

(** [encoding/json] on a [RangeTxData].  The fields of [Range] are not exported,
    so that an object without fields stands for it: what is written and read back
    is the operator, whether there is a range, and the values. *)
Class JsonRangeTx := {
  json_Marshal : ValueOpt -> bool -> list Z -> res (list byte);
  json_Unmarshal : list byte -> res (ValueOpt * bool * list Z)
}.

Class JsonRangeTxSpec `{JsonRangeTx} : Prop := {
  json_Unmarshal_Marshal : forall op rg vs bytes,
    json_Marshal op rg vs = Ok bytes -> json_Unmarshal bytes = Ok (op, rg, vs)
}.

(** The most elements a [[]int64] can be made with: 2^48 bytes on a 64-bit
    platform. *)
Definition maxInt64s : Z := 2 ^ 45.

Section RangeHolder.
Context `{MapRange} `{GoFloat} `{JsonRangeTx}.

Definition range_Encode (txd : RangeTxData) : res (list byte) :=
  json_Marshal (rtx_Operator txd) (bool_decide (is_Some (rtx_RgValue txd))) (rtx_EqValues txd).

(** A range that is read back is a new one: its ends are zero. *)
Definition range_DecodeFieldIndexingData (h : RangeHolder) (data : list byte) : res RangeTxData :=
  t ← json_Unmarshal data;
  Ok {| rtx_Operator := t.1.1;
        rtx_RgValue := if t.1.2 : bool then Some {| rg_left := 0; rg_right := 0 |} else None;
        rtx_EqValues := t.2 |}.

Definition range_CompileEntries (h : RangeHolder) : RangeHolder * res unit :=
  let pl := sortZ <$> rh_plEntries h in
  let total := foldl (fun total kv => total + Z.of_nat (length kv.2)) 0 (map_range pl) in
  ({| rh_option := rh_option h;
      rh_maxLen := foldl (fun m kv => if bool_decide (m < Z.of_nat (length kv.2))
                                      then Z.of_nat (length kv.2) else m) (rh_maxLen h) (map_range pl);
      rh_avgLen := if bool_decide (0 < size pl)%nat then Z.quot total (Z.of_nat (size pl)) else rh_avgLen h;
      rh_rangeIdx := rix_Compile (rh_rangeIdx h);
      rh_plEntries := pl |}, Ok tt).

(** [if entries, hit := h.plEntries[id]; hit && len(entries) > 0] *)
Definition get_listed (h : RangeHolder) (field : FieldDesc) (id : Z) (r : list EntriesCursor)
    : list EntriesCursor :=
  match rh_plEntries h !! id with
  | Some entries =>
      if bool_decide (0 < length entries)%nat
      then r ++ [NewEntriesCursor (NewQKey (fd_Field field) (VInt KInt64 id)) entries] else r
  | None => r
  end.

(** [if pl := h.rangeIdx.Retrieve(id); pl != nil && len(pl.entries) > 0] *)
Definition get_ranged (h : RangeHolder) (id : Z) (rangeResults : gmap nat Z) : gmap nat Z :=
  match rix_Retrieve (rh_rangeIdx h) id with
  | Some (i, pl) =>
      if bool_decide (0 < length (re_entries pl))%nat then <[i := id]> rangeResults else rangeResults
  | None => rangeResults
  end.

(** The loop over the ids: the cursors of listed values, and the pieces of the
    range index that were found, each with the last id that found it. *)
Fixpoint range_get_loop (h : RangeHolder) (field : FieldDesc) (ids : list Z) (r : list EntriesCursor)
    (rangeResults : gmap nat Z) : list EntriesCursor * gmap nat Z :=
  match ids with
  | [] => (r, rangeResults)
  | id :: ids => range_get_loop h field ids (get_listed h field id r) (get_ranged h id rangeResults)
  end.

(** [for rgPl, id := range rangeResults] *)
Definition range_cursors (h : RangeHolder) (field : FieldDesc) (rangeResults : gmap nat Z)
    : list EntriesCursor :=
  map_range rangeResults ≫= (fun kv =>
    match rgEntries (rh_rangeIdx h) !! kv.1 with
    | Some pl => [NewEntriesCursor (NewQKey (fd_Field field) (VInt KInt64 kv.2)) (re_entries pl)]
    | None => []
    end).

Definition range_GetEntries (h : RangeHolder) (field : FieldDesc) (assigns : Values)
    : res (list EntriesCursor) :=
  ids ← ParseIntegers assigns (EnableFloat2Int (rh_option h));
  if bool_decide (length ids <= 0)%nat then Ok []
  else
    let '(r, rangeResults) := range_get_loop h field ids [] ∅ in
    Ok (r ++ range_cursors h field rangeResults).

(** A value of any other type leaves both ends zero.  Numbers of type int64 are
    read at their width. *)
Definition ParseBetween (value : Values) : res Range :=
  ends ← match value with
         | VArrInt64_2 a b => Ok (i64 a, i64 b)
         | VInts KInt64 v =>
             match elems v with
             | [a; b] => Ok (i64 a, i64 b)
             | _ => Err "operator Between need two"
             end
         | VStr v =>
             match NewRangeDesc v with
             | Some rgDesc => let '(l, r, _) := RangeDesc_Values rgDesc in Ok (l, r)
             | None => Err "not a valid range description, need x:y"
             end
         | _ => Ok (0, 0)
         end;
  let '(l, r) := ends in
  if bool_decide (l > r) then Err "bad range" else Ok (NewRange l r).

Definition ParseRange (opt : ValueOpt) (value : Values) (enableF2I : bool) : res Range :=
  if bool_decide (opt = ValueOptBetween) then ParseBetween value
  else if bool_decide (opt = ValueOptGT) || bool_decide (opt = ValueOptLT) then
    match ParseIntegerNumber value enableF2I with
    | Ok number =>
        if bool_decide (opt = ValueOptLT) then Ok (NewRange MinInt64 number)
        else Ok (NewRange (i64 (number + 1)) MaxInt64)
    | _ => Err "lt/gt operator need interger"
    end
  else Err "not supported operator".

(** The part of [BuildFieldIndexingData] after the range was parsed: a short range
    becomes the list of its values. *)
Definition range_tx (h : RangeHolder) (rg : Range) : res RangeTxData :=
  if SFltb (range_Size rg) (RangeCvtValuesSize (rh_option h)) then
    let cap := float_to_int64 (range_Size rg) in
    if bool_decide (cap < 0) || bool_decide (cap > maxInt64s) then Panic "makeslice: cap out of range"
    else Ok {| rtx_Operator := ValueOptEQ; rtx_RgValue := None;
               rtx_EqValues := seqZ (rg_left rg) (rg_right rg - rg_left rg) |}
  else Ok {| rtx_Operator := ValueOptBetween; rtx_RgValue := Some rg; rtx_EqValues := [] |}.

Definition range_BuildFieldIndexingData (h : RangeHolder) (field : FieldDesc) (bv : BoolValues)
    : RangeHolder * res RangeTxData :=
  (h, if bool_decide (Operator bv = ValueOptEQ) then
        match ParseIntegers (Value bv) (EnableFloat2Int (rh_option h)) with
        | Ok ids => Ok {| rtx_Operator := ValueOptEQ; rtx_RgValue := None; rtx_EqValues := ids |}
        | Panic e => Panic e
        | _ => Err "parse fail"
        end
      else if bool_decide (Operator bv = ValueOptLT) || bool_decide (Operator bv = ValueOptGT) ||
              bool_decide (Operator bv = ValueOptBetween) then
        rg ← ParseRange (Operator bv) (Value bv) (EnableFloat2Int (rh_option h));
        range_tx h rg
      else Err "unsupport Operator").

Definition set_range_pl (h : RangeHolder) (pl : gmap Z Entries) : RangeHolder :=
  {| rh_option := rh_option h; rh_maxLen := rh_maxLen h; rh_avgLen := rh_avgLen h;
     rh_rangeIdx := rh_rangeIdx h; rh_plEntries := pl |}.

Definition set_rangeIdx (h : RangeHolder) (rix : RangeIdx) : RangeHolder :=
  {| rh_option := rh_option h; rh_maxLen := rh_maxLen h; rh_avgLen := rh_avgLen h;
     rh_rangeIdx := rix; rh_plEntries := rh_plEntries h |}.

Definition range_CommitFieldIndexingData (h : RangeHolder) (field : FieldDesc) (eid : EntryID)
    (data : option RangeTxData) : RangeHolder * res unit :=
  match data with
  | None => (h, Ok tt)
  | Some data =>
      if bool_decide (rtx_Operator data = ValueOptEQ) then
        (set_range_pl h (foldl (fun pl id => append_posting pl id eid) (rh_plEntries h)
                           (DistinctInteger (rtx_EqValues data))), Ok tt)
      else if bool_decide (rtx_Operator data = ValueOptGT) || bool_decide (rtx_Operator data = ValueOptLT) ||
              bool_decide (rtx_Operator data = ValueOptBetween) then
        match rtx_RgValue data with
        | None => (h, Panic "nil pointer dereference")
        | Some rg =>
            match IndexingRange (rh_rangeIdx h) (rg_left rg) (rg_right rg) eid with
            | Ok rix => (set_rangeIdx h rix, Ok tt)
            | Err e => (h, Err e)
            | Panic e => (h, Panic e)
            | OutOfFuel => (h, OutOfFuel)
            end
        end
      else (h, Err "what happened")
  end.

#[export] Instance RangeHolder_holder : EntriesHolder RangeHolder RangeTxData := {
  GetEntries := range_GetEntries;
  BuildFieldIndexingData := range_BuildFieldIndexingData;
  CommitFieldIndexingData := range_CommitFieldIndexingData;
  DecodeFieldIndexingData := range_DecodeFieldIndexingData;
  Encode := range_Encode;
  CompileEntries := range_CompileEntries
}.

(** ** The data that is prepared *)

(** A range with its ends in order, or the empty range that [NewRange] makes of
    the largest int64. *)
Definition range_ok (rg : Range) : Prop :=
  rg_left rg < rg_right rg \/ (rg_left rg = MaxInt64 /\ rg_right rg = MinInt64).

Definition range_data_ok (x : RangeTxData) : Prop :=
  rtx_Operator x = ValueOptEQ \/
  (rtx_Operator x = ValueOptBetween /\ exists rg, rtx_RgValue x = Some rg /\ range_ok rg).

Lemma ParseIntegerNumber_range v f2i z : ParseIntegerNumber v f2i = Ok z -> is_i64 z.
Proof.
  assert (Hs : forall s, match ParseInt s with
    | Some num => Ok num
    | None => if f2i then match ParseFloat s with
                          | Some fv => Ok (float_to_int64 fv)
                          | None => Err "invalid number"
                          end
              else Err "invalid number"
    end = Ok z -> is_i64 z).
  { intros s. destruct (ParseInt s) as [n|] eqn:Hn; [intros [= <-]; by eapply ParseInt_range |].
    destruct f2i; [| done]. destruct (ParseFloat s); [| done]. intros [= <-]. apply float_to_int64_range. }
  unfold ParseIntegerNumber. destruct v; try done; [apply Hs | apply Hs | | |].
  - intros [= <-]. apply i64_range.
  - intros [= <-]. apply i64_range.
  - destruct f2i; [| done]. intros [= <-]. apply float_to_int64_range.
Qed.

Lemma NewRange_ok l r : is_i64 l -> is_i64 r -> l <= r -> range_ok (NewRange l r).
Proof.
  intros Hl Hr Hle. unfold range_ok, NewRange. simpl. case_bool_decide as Heq; [| left; lia]. subst r.
  destruct (decide (l = MaxInt64)) as [-> | Hne]; [by right |]. left.
  rewrite i64_small; [lia |]. unfold is_i64 in *. lia.
Qed.

Lemma NewRangeDesc_range s rd : NewRangeDesc s = Some rd -> is_i64 (rd_start rd) /\ is_i64 (rd_end rd).
Proof.
  unfold NewRangeDesc. destruct (Split _ s) as [|v0 [|v1 vs]]; try done.
  destruct (ParseInt v1) as [e|] eqn:He; [| done]. destruct (ParseInt v0) as [b|] eqn:Hb; [| done]. simpl.
  apply ParseInt_range in He, Hb. destruct vs as [|v2 vs]; [by intros [= <-] |].
  destruct (ParseInt v2); [| done]. by intros [= <-].
Qed.

Lemma ParseBetween_ok v rg : ParseBetween v = Ok rg -> range_ok rg.
Proof.
  assert (Hend : forall l r, is_i64 l -> is_i64 r ->
    (if bool_decide (l > r) then Err "bad range" else Ok (NewRange l r)) = Ok rg -> range_ok rg).
  { intros l r Hl Hr. case_bool_decide; [done |]. intros [= <-]. apply NewRange_ok; [done | done | lia]. }
  unfold ParseBetween.
  destruct v as [|s|s|k z|k z|k f|l|l|k l|k l|k l|l|a b|a b| |b]; try (by apply Hend).
  - destruct (NewRangeDesc s) as [rd|] eqn:Hrd; [| done]. apply NewRangeDesc_range in Hrd as [??]. by apply Hend.
  - destruct k; try (by apply Hend). destruct (elems l) as [|a [|b [|]]]; try done. apply Hend; apply i64_range.
  - apply Hend; apply i64_range.
Qed.

Lemma ParseRange_ok op v f2i rg : ParseRange op v f2i = Ok rg -> range_ok rg.
Proof.
  unfold ParseRange. case_bool_decide; [apply ParseBetween_ok |]. destruct (_ || _); [| done].
  destruct (ParseIntegerNumber v f2i) as [n|e|e|] eqn:Hn; try done. apply ParseIntegerNumber_range in Hn.
  case_bool_decide; intros [= <-]; apply NewRange_ok; try done; try apply i64_range; try apply Hn.
Qed.

Lemma range_tx_ok h rg x : range_ok rg -> range_tx h rg = Ok x -> range_data_ok x.
Proof.
  intros Hrg. unfold range_tx. destruct (SFltb _ _); [destruct (_ || _); [done |] |]; intros [= <-]; [by left |].
  right. split; [done |]. eauto.
Qed.

Lemma range_build_ok h d bv x : (range_BuildFieldIndexingData h d bv).2 = Ok x -> range_data_ok x.
Proof.
  simpl. case_bool_decide.
  - destruct (ParseIntegers _ _); try done. intros [= <-]. by left.
  - destruct (_ || _ || _); [| done]. destruct (ParseRange _ _ _) as [rg|e|e|] eqn:Hrg; try done.
    apply range_tx_ok. by eapply ParseRange_ok.
Qed.

(** The value [id] is among the values, or in the range, of the data [x], for a
    holder whose range index covers [mn, mx). *)
Definition range_covers (mn mx : Z) (x : RangeTxData) (id : Z) : bool :=
  if bool_decide (rtx_Operator x = ValueOptEQ) then bool_decide (id ∈ rtx_EqValues x)
  else match rtx_RgValue x with
       | Some rg => bool_decide (mn <= rg_left rg /\ rg_left rg <= id < rg_right rg /\ id < mx)
       | None => false
       end.

(** The listed values or the range of the data [x] contain [id]. *)
Definition range_contains (x : RangeTxData) (id : Z) : Prop :=
  if bool_decide (rtx_Operator x = ValueOptEQ) then id ∈ rtx_EqValues x
  else exists rg, rtx_RgValue x = Some rg /\ rg_left rg <= id < rg_right rg.

(** A range that starts below the minimum of the holder is not found. *)
Definition range_dropped (mn : Z) (x : RangeTxData) : Prop :=
  rtx_Operator x <> ValueOptEQ /\ exists rg, rtx_RgValue x = Some rg /\ rg_left rg < mn.

Lemma range_covers_contains mn mx x id :
  range_covers mn mx x id = true <->
  range_contains x id /\ ~ range_dropped mn x /\ (rtx_Operator x = ValueOptEQ \/ id < mx).
Proof.
  unfold range_covers, range_contains, range_dropped. case_bool_decide as Hop.
  - rewrite bool_decide_eq_true. tauto.
  - destruct (rtx_RgValue x) as [rg|]; [rewrite bool_decide_eq_true |].
    + split.
      * intros (Hmn & Hin & Hmx). split; [by exists rg |]. split; [| by right]. intros [_ (? & [= <-] & ?)]. lia.
      * intros ((? & [= <-] & Hin) & Hnd & [? | Hmx]); [done |]. split; [| done].
        destruct (decide (rg_left rg < mn)) as [Hlt | ?]; [| lia]. destruct Hnd. eauto.
    + split; [done |]. intros ((? & ? & _) & _). done.
Qed.

(** ** Committing *)

(** The entries of the value [id], listed or in a range. *)
Definition held (h : RangeHolder) (its : list RangeEntries) (id : Z) : Entries :=
  default [] (rh_plEntries h !! id) ++ entries_at its id.

Record range_holds (mn mx : Z) (h : RangeHolder) (its : list RangeEntries) (txs : Txs RangeTxData) : Prop := {
  rhl_bounds : valueMin (rh_rangeIdx h) = mn /\ valueMax (rh_rangeIdx h) = mx;
  rhl_partition : range_partition mn mx its;
  rhl_entries : forall id e, e ∈ held h its id <->
    exists d x, (d, e, x) ∈ txs /\ range_covers mn mx x id = true
}.

Lemma covers_snoc mn mx (txs : Txs RangeTxData) d eid x id e :
  (exists d' x', (d', e, x') ∈ txs ++ [(d, eid, x)] /\ range_covers mn mx x' id = true) <->
  (exists d' x', (d', e, x') ∈ txs /\ range_covers mn mx x' id = true) \/
  (e = eid /\ range_covers mn mx x id = true).
Proof.
  setoid_rewrite elem_of_app. setoid_rewrite list_elem_of_singleton. split.
  - intros (d' & x' & [Hin | [= -> -> ->]] & Hc); [left; eauto | by right].
  - intros [(d' & x' & Hin & Hc) | [-> Hc]]; [exists d', x' | exists d, x]; auto.
Qed.

Lemma range_commit_spec mn mx h txs d eid x :
  range_holds mn mx h (items (rh_rangeIdx h)) txs -> mn < mx -> MinInt64 <= mn -> range_data_ok x ->
  exists h', range_CommitFieldIndexingData h d eid (Some x) = (h', Ok tt) /\ rh_option h' = rh_option h /\
    range_holds mn mx h' (items (rh_rangeIdx h')) (txs ++ [(d, eid, x)]).
Proof.
  intros [[<- <-] Hp Hent] Hmm Hmin Hx. unfold range_CommitFieldIndexingData.
  destruct Hx as [Heq | (Hop & rg & Hrg & Hok)].
  - rewrite bool_decide_eq_true_2 by done. eexists. split; [done |]. split; [done |]. split; [done | done |].
    intros id e. rewrite covers_snoc, <- Hent. unfold held, range_covers. simpl.
    rewrite (bool_decide_eq_true_2 (_ = ValueOptEQ)) by done.
    rewrite bool_decide_eq_true, !elem_of_app, elem_of_append_postings.
    unfold DistinctInteger. rewrite elem_of_Distinct. tauto.
  - rewrite Hop. simpl. rewrite Hrg.
    assert (Hcov : forall id, range_covers (valueMin (rh_rangeIdx h)) (valueMax (rh_rangeIdx h)) x id =
      bool_decide (valueMin (rh_rangeIdx h) <= rg_left rg /\ rg_left rg <= id < rg_right rg /\
                   id < valueMax (rh_rangeIdx h))) by (intros id; unfold range_covers; by rewrite Hop, Hrg).
    destruct Hok as [Hlt | [Hl Hr]].
    + destruct (IndexingRange_spec (rh_rangeIdx h) (rg_left rg) (rg_right rg) eid)
        as (rix & -> & [_ Hp'] & Hmn & Hmx & Hent'); [done | done |].
      eexists. split; [done |]. split; [done |]. split; simpl; [done | by rewrite <- Hmn, <- Hmx |].
      intros id e. rewrite covers_snoc, <- Hent, Hcov. unfold held. simpl. rewrite Hent', !elem_of_app, bool_decide_eq_true.
      case_bool_decide; rewrite ?list_elem_of_singleton; [tauto |]. set_solver.
    + rewrite IndexingRange_empty; [| done | rewrite Hl, Hr; done | lia].
      eexists. split; [done |]. split; [by destruct h |]. split; simpl; [done | done |].
      intros id e. rewrite covers_snoc, <- Hent, Hcov. unfold held. simpl. rewrite bool_decide_eq_true, Hl, Hr.
      split; [tauto |]. intros [Hin | (_ & _ & Hf & _)]; [done |]. unfold MinInt64, MaxInt64 in Hf. lia.
Qed.

Lemma range_compile_spec mn mx h txs :
  range_holds mn mx h (items (rh_rangeIdx h)) txs -> mn < mx ->
  let h' := (range_CompileEntries h).1 in
  range_holds mn mx h' (rgEntries (rh_rangeIdx h')) txs /\
  (forall id l, rh_plEntries h' !! id = Some l -> StronglySorted Z.le l) /\
  Forall (fun re => StronglySorted Z.le (re_entries re)) (rgEntries (rh_rangeIdx h')).
Proof.
  intros [[<- <-] Hp Hent] Hmm.
  destruct (rix_Compile_spec (rh_rangeIdx h) (conj Hmm Hp)) as (Hp' & Hmn & Hmx & Hperm & Hsort).
  split; [split; [done | done |] |].
  - intros id e. rewrite <- Hent. unfold held. rewrite !elem_of_app.
    change (rh_plEntries (range_CompileEntries h).1) with (sortZ <$> rh_plEntries h).
    change (rgEntries (rh_rangeIdx (range_CompileEntries h).1)) with (rgEntries (rix_Compile (rh_rangeIdx h))).
    rewrite Hperm, lookup_fmap. destruct (rh_plEntries h !! id); simpl; [by rewrite elem_of_sortZ | done].
  - split; [| done]. simpl. intros id l. rewrite lookup_fmap. destruct (rh_plEntries h !! id); simpl; [| done].
    intros [= <-]. apply sortZ_sorted.
Qed.

(** ** Reading *)

Lemma nonempty_length {A} (l : list A) : (0 < length l)%nat <-> l <> [].
Proof. destruct l; simpl; split; intros; try done; lia. Qed.

Lemma elem_of_get_listed h field id r ec :
  ec ∈ get_listed h field id r <-> ec ∈ r \/ exists l, rh_plEntries h !! id = Some l /\ l <> [] /\
    ec = NewEntriesCursor (NewQKey (fd_Field field) (VInt KInt64 id)) l.
Proof.
  unfold get_listed. destruct (rh_plEntries h !! id) as [l|]; [case_bool_decide as Hl; rewrite nonempty_length in Hl |].
  - rewrite elem_of_app, list_elem_of_singleton. naive_solver.
  - naive_solver.
  - naive_solver.
Qed.

Lemma lookup_get_ranged h id m i :
  is_Some (get_ranged h id m !! i) <-> is_Some (m !! i) \/
    exists pl, rix_Retrieve (rh_rangeIdx h) id = Some (i, pl) /\ re_entries pl <> [].
Proof.
  unfold get_ranged. destruct (rix_Retrieve _ id) as [[j pl]|]; [case_bool_decide as Hl; rewrite nonempty_length in Hl |].
  - rewrite lookup_insert_is_Some'. naive_solver.
  - naive_solver.
  - naive_solver.
Qed.

(** What the loop collects. *)
Lemma range_get_loop_spec h field ids r m :
  let res := range_get_loop h field ids r m in
  (forall ec, ec ∈ res.1 <-> ec ∈ r \/
     exists id l, id ∈ ids /\ rh_plEntries h !! id = Some l /\ l <> [] /\
       ec = NewEntriesCursor (NewQKey (fd_Field field) (VInt KInt64 id)) l) /\
  (forall i, is_Some (res.2 !! i) <-> is_Some (m !! i) \/
     exists id pl, id ∈ ids /\ rix_Retrieve (rh_rangeIdx h) id = Some (i, pl) /\ re_entries pl <> []).
Proof.
  revert r m. induction ids as [|id ids IH]; intros r m; cbn [range_get_loop].
  { split; intros ?; split; try tauto; intros [? | (? & ? & Hx & _)]; try done; elem_nil. }
  destruct (IH (get_listed h field id r) (get_ranged h id m)) as [IHr IHm]. setoid_rewrite elem_of_cons. split.
  - intros ec. rewrite IHr, elem_of_get_listed. naive_solver.
  - intros i. rewrite IHm, lookup_get_ranged. naive_solver.
Qed.

(** The cursors of a compiled holder over the ids of a query. *)
Lemma range_get_cursors mn mx h txs d ids cs :
  range_holds mn mx h (rgEntries (rh_rangeIdx h)) txs ->
  cs = (let '(r, m) := range_get_loop h d ids [] ∅ in r ++ range_cursors h d m) ->
  (forall ec, ec ∈ cs -> exists id key l, id ∈ ids /\ ec = NewEntriesCursor key l /\ l <> [] /\
     (rh_plEntries h !! id = Some l \/
      exists i pl, rgEntries (rh_rangeIdx h) !! i = Some pl /\ re_entries pl = l /\
        entries_at (rgEntries (rh_rangeIdx h)) id = l)) /\
  (forall e, e ∈ (cs ≫= ec_entries) <-> exists id, id ∈ ids /\ e ∈ held h (rgEntries (rh_rangeIdx h)) id).
Proof.
  intros [[<- <-] Hp _] ->. destruct (range_get_loop_spec h d ids [] ∅) as [Hr Hm].
  destruct (range_get_loop h d ids [] ∅) as [r m]. simpl in Hr, Hm.
  assert (Hcs : forall ec, ec ∈ range_cursors h d m -> exists id i pl key, id ∈ ids /\
    rgEntries (rh_rangeIdx h) !! i = Some pl /\ re_entries pl <> [] /\
    entries_at (rgEntries (rh_rangeIdx h)) id = re_entries pl /\ ec = NewEntriesCursor key (re_entries pl)).
  { intros ec ([i key] & Hec & Hi%elem_of_map_range)%list_elem_of_bind. simpl in Hec.
    destruct (proj1 (Hm i) (ex_intro _ _ Hi)) as [[? Hx] | (id & pl & Hid & Hret & Hne)]; [by rewrite lookup_empty in Hx |].
    pose proof (rix_Retrieve_spec _ id Hp) as Hspec. rewrite Hret in Hspec. destruct Hspec as [Hl Hat].
    rewrite Hl in Hec. apply list_elem_of_singleton in Hec as ->. eauto 10. }
  split.
  - intros ec [Hec | Hec]%elem_of_app.
    + apply Hr in Hec as [Hx | (id & l & Hid & Hl & Hne & ->)]; [elem_nil |]. eauto 10.
    + apply Hcs in Hec as (id & i & pl & key & Hid & Hl & Hne & Hat & ->). exists id, key, (re_entries pl). eauto 10.
  - intros e. unfold held. rewrite list_elem_of_bind. setoid_rewrite elem_of_app. split.
    + intros (ec & He & [Hec | Hec]).
      * apply Hr in Hec as [Hx | (id & l & Hid & Hl & Hne & ->)]; [elem_nil |]. exists id. rewrite Hl. auto.
      * apply Hcs in Hec as (id & i & pl & key & Hid & Hl & Hne & Hat & ->). exists id. rewrite Hat. auto.
    + intros (id & Hid & [He | He]).
      * destruct (rh_plEntries h !! id) as [l|] eqn:Hl; simpl in He; [| elem_nil].
        eexists. split; [| left; apply Hr; right; exists id, l; split_and!; try done]; [done |].
        intros ->. elem_nil.
      * pose proof (rix_Retrieve_spec _ id Hp) as Hspec.
        destruct (rix_Retrieve _ id) as [[i pl]|] eqn:Hret; [destruct Hspec as [Hl Hat] | rewrite (proj1 Hspec) in He; elem_nil].
        rewrite Hat in He. assert (re_entries pl <> []) as Hne by (intros Hx; rewrite Hx in He; elem_nil).
        destruct (proj2 (Hm i) (or_intror (ex_intro _ id (ex_intro _ pl (conj Hid (conj Hret Hne)))))) as [key Hkey].
        eexists. split; [| right; apply list_elem_of_bind; exists (i, key); rewrite elem_of_map_range; simpl;
          rewrite Hl; split; [by apply list_elem_of_singleton | done]]. done.
Qed.

(** ** The holder contract *)

(** A registry of range holders: fresh ones, under names of their own. *)
Definition range_factory_ok (factory : gmap string RangeHolder) : Prop :=
  forall name h, factory !! name = Some h ->
    name <> HolderNameDefault /\ MinInt64 <= valueMin (rh_rangeIdx h) < valueMax (rh_rangeIdx h) /\
    range_holds (valueMin (rh_rangeIdx h)) (valueMax (rh_rangeIdx h)) h (items (rh_rangeIdx h)) [].

Definition range_hits (factory : gmap string RangeHolder) (name : string) (d : FieldDesc)
    (x : RangeTxData) (v : Values) : bool :=
  match factory !! name with
  | Some h =>
      match ParseIntegers v (EnableFloat2Int (rh_option h)) with
      | Ok ids => existsb (range_covers (valueMin (rh_rangeIdx h)) (valueMax (rh_rangeIdx h)) x) ids
      | _ => false
      end
  | None => false
  end.

Definition range_assign_ok (factory : gmap string RangeHolder) (name : string) (d : FieldDesc)
    (v : Values) : bool :=
  match factory !! name with
  | Some h => match ParseIntegers v (EnableFloat2Int (rh_option h)) with Ok _ => true | _ => false end
  | None => false
  end.

Lemma ParseIntegers_fuel v f2i : ParseIntegers v f2i <> OutOfFuel.
Proof.
  assert (Hmap : forall vs, map_res (fun vi => ParseIntegerNumber vi f2i) vs <> OutOfFuel).
  { intros vs Hvs. destruct (map_res_outcome (fun vi => ParseIntegerNumber vi f2i) vs) as [[? Hx] | [? Hx]];
      [intros; apply ParseIntegerNumber_outcome | congruence | congruence]. }
  unfold ParseIntegers, NilInterface. destruct (is_array v); [done |]. simpl. destruct (is_nil v); [done |].
  destruct (is_single v); [by destruct (ParseIntegerNumber v f2i) |]. destruct (slice_values v); [apply Hmap |].
  by destruct v.
Qed.

Lemma range_build_fuel h d bv : (range_BuildFieldIndexingData h d bv).2 <> OutOfFuel.
Proof.
  simpl. case_bool_decide; [by destruct (ParseIntegers _ _) |]. destruct (_ || _ || _); [| done].
  assert (ParseRange (Operator bv) (Value bv) (EnableFloat2Int (rh_option h)) <> OutOfFuel) as Hne.
  { unfold ParseRange. case_bool_decide.
    - unfold ParseBetween. destruct (Value bv) as [|s|s|k z|k z|k f|l|l|k l|k l|k l|l|a b|a b| |b]; simpl;
        try done; try (by case_bool_decide).
      + destruct (NewRangeDesc s); simpl; [by case_bool_decide | done].
      + destruct k; simpl; try done. destruct (elems l) as [|a [|b [|]]]; simpl; try done.
        by case_bool_decide.
    - destruct (_ || _); [| done]. destruct (ParseIntegerNumber _ _); try done. by case_bool_decide. }
  destruct (ParseRange _ _ _) as [rg|e|e|]; try done. simpl. unfold range_tx.
  destruct (SFltb _ _); [| done]. by destruct (_ || _).
Qed.

Lemma range_get_exact mn mx h txs d v :
  range_holds mn mx h (rgEntries (rh_rangeIdx h)) txs ->
  (forall id l, rh_plEntries h !! id = Some l -> StronglySorted Z.le l) ->
  Forall (fun re => StronglySorted Z.le (re_entries re)) (rgEntries (rh_rangeIdx h)) ->
  Forall (fun tx => valid_eid tx.1.2) txs ->
  match ParseIntegers v (EnableFloat2Int (rh_option h)) with
  | Ok ids => exists cs, range_GetEntries h d v = Ok cs /\ cursors_ok cs /\
      forall e, e ∈ (cs ≫= ec_entries) <->
        exists d' x, (d', e, x) ∈ txs /\ existsb (range_covers mn mx x) ids = true
  | Err e => range_GetEntries h d v = Err e
  | Panic e => range_GetEntries h d v = Panic e
  | OutOfFuel => False
  end.
Proof.
  intros Hholds Hlist Hrange Hvalid. unfold range_GetEntries.
  pose proof (ParseIntegers_fuel v (EnableFloat2Int (rh_option h))) as Hfuel.
  destruct (ParseIntegers v _) as [ids|e|e|]; try done. unfold mbind, res_bind. cbn beta iota. clear Hfuel.
  destruct (range_get_cursors _ _ h txs d ids _ Hholds eq_refl) as [Hcs Hmem].
  exists (let '(r, m) := range_get_loop h d ids [] ∅ in r ++ range_cursors h d m). split.
  { case_bool_decide as Hl; [| by destruct (range_get_loop h d ids [] ∅)]. destruct ids; [| simpl in Hl; lia]. simpl.
    unfold range_cursors. by rewrite map_range_empty. }
  revert Hcs Hmem. generalize (let '(r, m) := range_get_loop h d ids [] ∅ in r ++ range_cursors h d m) as cs.
  intros cs Hcs Hmem. rewrite Forall_forall in Hvalid. pose proof (rhl_entries _ _ _ _ _ Hholds) as Hent. split.
  - unfold cursors_ok. rewrite Forall_forall. intros ec Hec.
    destruct (Hcs ec Hec) as (id & key & l & Hid & -> & Hne & Hl). split; [| done].
    assert (Hin : forall e, e ∈ l -> e ∈ held h (rgEntries (rh_rangeIdx h)) id).
    { intros e He. unfold held. apply elem_of_app. destruct Hl as [-> | (i & pl & _ & _ & ->)]; auto. }
    apply NewEntriesCursor_at.
    + destruct Hl as [Hl | (i & pl & Hi & <- & _)]; [by eapply Hlist |]. by eapply (Forall_lookup_1 _ _ i pl Hrange).
    + apply Forall_forall. intros e He. apply Hin, Hent in He as (d' & x & Htx & _). by apply (Hvalid (d', e, x)).
  - intros e. rewrite Hmem. setoid_rewrite existsb_exists. setoid_rewrite <- list_elem_of_In.
    setoid_rewrite Hent. naive_solver.
Qed.

Section Spec.
Variable factory : gmap string RangeHolder.
Hypothesis Hfactory : range_factory_ok factory.

(** [h] was made by the builder [name]: same options and bounds. *)
Definition range_made (name : string) (h h0 : RangeHolder) : Prop :=
  factory !! name = Some h0 /\ rh_option h = rh_option h0.

Definition range_rep (name : string) (h : RangeHolder) (txs : Txs RangeTxData) : Prop :=
  exists h0, range_made name h h0 /\
    range_holds (valueMin (rh_rangeIdx h0)) (valueMax (rh_rangeIdx h0)) h (items (rh_rangeIdx h)) txs.

Definition range_compiled (name : string) (h : RangeHolder) (txs : Txs RangeTxData) : Prop :=
  exists h0, range_made name h h0 /\
    range_holds (valueMin (rh_rangeIdx h0)) (valueMax (rh_rangeIdx h0)) h (rgEntries (rh_rangeIdx h)) txs /\
    (forall id l, rh_plEntries h !! id = Some l -> StronglySorted Z.le l) /\
    Forall (fun re => StronglySorted Z.le (re_entries re)) (rgEntries (rh_rangeIdx h)).

Lemma range_get_spec name h txs d v :
  range_compiled name h txs -> Forall (fun tx => valid_eid tx.1.2) txs -> scope_ok name txs d ->
  match range_GetEntries h d v with
  | Ok cs => cursors_ok cs /\
      forall e, e ∈ (cs ≫= ec_entries) <-> exists x, (d, e, x) ∈ txs /\ range_hits factory name d x v = true
  | OutOfFuel => False
  | _ => range_assign_ok factory name d v = false
  end.
Proof.
  intros (h0 & [Hh0 Hopt] & Hholds & Hlist & Hrange) Hvalid Hscope.
  pose proof (range_get_exact _ _ h txs d v Hholds Hlist Hrange Hvalid) as Hget.
  unfold range_assign_ok, range_hits. rewrite Hh0. rewrite Hopt in Hget.
  destruct (Hfactory name h0 Hh0) as (Hname & _ & _).
  destruct (ParseIntegers v _) as [ids|e|e|]; [| by rewrite Hget .. | done].
  destruct Hget as (cs & -> & Hcs & Hmem). split; [done |]. intros e. rewrite Hmem. split.
  - intros (d' & x & Htx & Hc). assert (d' = d) as -> by by apply (Hscope d' e x Htx). eauto.
  - intros (x & Htx & Hc). eauto.
Qed.

Definition RangeHolder_spec : HolderSpec RangeHolder RangeTxData factory.
Proof.
  refine {| data_hits := range_hits factory; assign_ok := range_assign_ok factory;
            data_ok := fun _ => range_data_ok; holder_rep := range_rep; holder_compiled := range_compiled |}.
  - intros name h Hh. exists h. split; [done |]. by apply (Hfactory name h Hh).
  - intros name h txs d bv h' r Hrep [= <- <-]. split; [done |].
    destruct Hrep as (h0 & [Hh0 Hopt] & _). unfold build_data, range_tx. rewrite Hh0. simpl. unfold range_tx. by rewrite Hopt.
  - intros name d bv x. unfold build_data. destruct (factory !! name); [| done]. apply range_build_ok.
  - done.
  - intros name d bv. unfold build_data. destruct (factory !! name); [| done]. apply range_build_fuel.
  - intros name h txs d e x (h0 & [Hh0 Hopt] & Hholds) Hx. destruct (Hfactory name h0 Hh0) as (_ & Hmm & _).
    destruct (range_commit_spec _ _ _ _ d e x Hholds) as (h' & Hc & Ho & Hh'); [lia | lia | done |].
    exists h'. split; [done |]. exists h0. split; [split; [done | congruence] | done].
  - intros name h txs h' r (h0 & [Hh0 Hopt] & Hholds) [= <- <-]. destruct (Hfactory name h0 Hh0) as (_ & Hmm & _).
    destruct (range_compile_spec _ _ _ _ Hholds) as (Hc & Hl & Hr); [lia |]. by exists h0.
  - intros name h txs d v. apply range_get_spec.
  - intros name d x v Hnil. unfold range_hits, ParseIntegers, NilInterface. destruct (factory !! name); [| done].
    rewrite Hnil. by destruct (is_array v).
Defined.

End Spec.

(** A holder made with sound options is fresh. *)
Lemma NewNumberExtendRangeHolder_ok fns h :
  NewNumberExtendRangeHolder fns = Ok h -> MinInt64 <= RangeMin (rh_option h) ->
  MinInt64 <= valueMin (rh_rangeIdx h) < valueMax (rh_rangeIdx h) /\
  range_holds (valueMin (rh_rangeIdx h)) (valueMax (rh_rangeIdx h)) h (items (rh_rangeIdx h)) [].
Proof.
  unfold NewNumberExtendRangeHolder. destruct (NewRangeIdx _ _) as [rix|e|e|] eqn:Hrix; try done.
  intros [= <-]. simpl. destruct (NewRangeIdx_inv _ _ _ Hrix) as ([Hmm Hp] & Hmn & Hmx & Hnone). intros Hmin.
  split; [lia |]. split; simpl; [done | done |]. intros id e. unfold held. simpl. rewrite lookup_empty, Hnone. simpl.
  split; [intros Hx; elem_nil | intros (d & x & Hx & _); elem_nil].
Qed.

Lemma NewNumberExtendRangeHolder_bounds fns h :
  NewNumberExtendRangeHolder fns = Ok h ->
  valueMin (rh_rangeIdx h) = RangeMin (rh_option h) /\ valueMax (rh_rangeIdx h) = RangeMax (rh_option h).
Proof.
  unfold NewNumberExtendRangeHolder. destruct (NewRangeIdx _ _) as [rix|e|e|] eqn:Hrix; try done.
  intros [= <-]. by destruct (NewRangeIdx_inv _ _ _ Hrix) as (_ & ? & ? & _).
Qed.

(** ** The meaning of range expressions *)

(** The integers that a range expression asks for: those above [m], below [m], or
    from [l] up to but not including [r].  The ends are away from those of int64:
    [gt_max_wraps] is about the others. *)
Inductive range_expr : ValueOpt -> Values -> (Z -> Prop) -> Prop :=
| expr_gt k m : is_i64 m -> m < MaxInt64 - 1 -> range_expr ValueOptGT (VInt k m) (fun n => n > m)
| expr_lt k m : is_i64 m -> MinInt64 < m -> range_expr ValueOptLT (VInt k m) (fun n => n < m)
| expr_between l r : is_i64 l -> is_i64 r -> l < r ->
    range_expr ValueOptBetween (VInts KInt64 (Some [l; r])) (fun n => l <= n < r).

(** The half-open interval that [ParseRange] makes of it has those integers, the
    largest int64 apart. *)
Lemma ParseRange_expr op v P f2i :
  range_expr op v P -> exists l r, ParseRange op v f2i = Ok {| rg_left := l; rg_right := r |} /\
    MinInt64 <= l /\ l < r /\ r <= MaxInt64 /\ forall n, MinInt64 <= n < MaxInt64 -> l <= n < r <-> P n.
Proof.
  intros [k m Hm Hlt | k m Hm Hlt | l' r' Hl Hr Hlt]; unfold is_i64 in *.
  - exists (m + 1), MaxInt64. split; [| split_and!; lia].
    change (ParseRange ValueOptGT (VInt k m) f2i) with (Ok (NewRange (i64 (i64 m + 1)) MaxInt64)).
    rewrite (i64_small m) by done. rewrite i64_small by (unfold is_i64; lia). by rewrite NewRange_lt by lia.
  - exists MinInt64, m. split; [| split_and!; lia].
    change (ParseRange ValueOptLT (VInt k m) f2i) with (Ok (NewRange MinInt64 (i64 m))).
    rewrite i64_small by done. by rewrite NewRange_lt by done.
  - exists l', r'. split; [| split_and!; lia].
    change (ParseRange ValueOptBetween (VInts KInt64 (Some [l'; r'])) f2i)
      with (if bool_decide (i64 l' > i64 r') then Err "bad range" else Ok (NewRange (i64 l') (i64 r'))).
    rewrite !i64_small by done. rewrite bool_decide_eq_false_2 by lia. by rewrite NewRange_lt by done.
Qed.

(** Listing the values of a range keeps its meaning. *)
Lemma range_tx_covers h rg x mn mx id :
  range_tx h rg = Ok x -> rg_left rg < rg_right rg -> mn <= rg_left rg -> rg_right rg <= mx ->
  range_covers mn mx x id = true <-> rg_left rg <= id < rg_right rg.
Proof.
  intros Hx Hlt Hmn Hmx. unfold range_tx in Hx. unfold range_covers.
  destruct (SFltb _ _); [destruct (_ || _); [done |] |]; injection Hx as <-; simpl; rewrite bool_decide_eq_true.
  - rewrite elem_of_seqZ. lia.
  - lia.
Qed.

Lemma range_build_expr h d bv P :
  range_expr (Operator bv) (Value bv) P ->
  exists l r, ParseRange (Operator bv) (Value bv) (EnableFloat2Int (rh_option h)) = Ok {| rg_left := l; rg_right := r |} /\
    (range_BuildFieldIndexingData h d bv).2 = range_tx h {| rg_left := l; rg_right := r |} /\
    MinInt64 <= l /\ l < r /\ r <= MaxInt64 /\ forall n, MinInt64 <= n < MaxInt64 -> l <= n < r <-> P n.
Proof.
  intros He. destruct (ParseRange_expr _ _ _ (EnableFloat2Int (rh_option h)) He) as (l & r & Hp & Hlr).
  exists l, r. split; [done |]. split; [| done]. simpl. rewrite Hp. destruct bv as [inc v op]. simpl in *. by destruct He.
Qed.

(** What data prepared for an expression covers, over all of int64. *)
Lemma range_expr_covers h d bv P x n :
  range_expr (Operator bv) (Value bv) P -> (range_BuildFieldIndexingData h d bv).2 = Ok x -> is_i64 n ->
  range_covers MinInt64 MaxInt64 x n = true <-> P n /\ n <> MaxInt64.
Proof.
  intros He Hx Hn. destruct (range_build_expr h d bv P He) as (l & r & _ & Hb & Hl & Hlt & Hr & Hmean).
  rewrite Hb in Hx. rewrite (range_tx_covers _ _ _ _ _ n Hx) by done. cbn [rg_left rg_right]. unfold is_i64 in Hn.
  destruct (decide (n = MaxInt64)) as [-> | Hne]; [lia |]. rewrite Hmean by lia. tauto.
Qed.

(** The holder registered as [HolderNameExtendRange]. *)
Definition ext_range_holder : RangeHolder :=
  {| rh_option := NewRangeHolderOption; rh_maxLen := 0; rh_avgLen := 0;
     rh_rangeIdx := {| rix_compiled := false; rix_maxLen := 0; rix_avgLen := 0;
                       valueMin := MinInt64; valueMax := MaxInt64;
                       items := [NewRangeEntries MinInt64 MaxInt64]; rgEntries := [] |};
     rh_plEntries := ∅ |}.

Lemma ext_range_builder_Ok : ext_range_builder = Ok ext_range_holder.
Proof. reflexivity. Qed.

Definition ext_range_factory : gmap string RangeHolder :=
  RegisterEntriesHolder ∅ HolderNameExtendRange ext_range_holder.

Lemma ext_range_factory_ok : range_factory_ok ext_range_factory.
Proof.
  intros name h. unfold ext_range_factory, RegisterEntriesHolder.
  intros [[<- <-] | [_ Hl]]%lookup_insert_Some; [| by rewrite lookup_empty in Hl]. split; [done |].
  by apply (NewNumberExtendRangeHolder_ok _ _ ext_range_builder_Ok).
Qed.

End RangeHolder.
