(* ===== verification/OptimizedRange.v ===== *)
(** * The optimized range holder (holder/rangeholder/optimized_range_holder.go)

    The ends of all ranges are sorted into a list of coordinates; a range becomes
    an interval of positions in that list and is stored in a segment tree over the
    positions; a query integer is looked up at the position of the next coordinate.
    The segment tree is proved to return exactly the intervals that contain a
    position, and the holder to answer a query integer as if it were the next
    coordinate, which is exact for the coordinates themselves only. *)

From Stdlib Require Import SpecFloat Strings.Byte.
From stdpp Require Import base sorting gmap strings numbers list.
From S2P Require Import Prelude GoValues Ids Document Cursor FieldCursor Parsers Holder.
From S2P Require Import RangeParser RangeIdx RangeHolder.
Open Scope Z_scope.

(** ** Coordinates *)

Record CoordinateCompressor := {
  cc_values : list Z;
  valueToIdx : gmap Z Z;
  cc_built : bool
}.

Definition NewCoordinateCompressor : CoordinateCompressor :=
  {| cc_values := []; valueToIdx := ∅; cc_built := false |}.

Definition AddValue (cc : CoordinateCompressor) (v : Z) : res CoordinateCompressor :=
  if cc_built cc then Panic "compressor already built"
  else match valueToIdx cc !! v with
       | Some _ => Ok cc
       | None => Ok {| cc_values := cc_values cc ++ [v]; valueToIdx := <[v := -1]> (valueToIdx cc);
                       cc_built := false |}
       end.

(** The loop of [Build] over the sorted values. *)
Fixpoint unique_loop (vs unique : list Z) (idx : gmap Z Z) : list Z * gmap Z Z :=
  match vs with
  | [] => (unique, idx)
  | v :: vs =>
      if bool_decide (unique = []) || bool_decide (last unique <> Some v)
      then unique_loop vs (unique ++ [v]) (<[v := Z.of_nat (length unique)]> idx)
      else unique_loop vs unique idx
  end.

Definition cc_Build (cc : CoordinateCompressor) : CoordinateCompressor :=
  if cc_built cc then cc
  else let '(unique, idx) := unique_loop (sortZ (cc_values cc)) [] ∅ in
       {| cc_values := unique; valueToIdx := idx; cc_built := true |}.

Definition GetIdx (cc : CoordinateCompressor) (v : Z) : option Z := valueToIdx cc !! v.

(** [sort.Search(n, f)] runs the loop of [sort.Find]: up while [f] is false. *)
Definition sort_Search (n : nat) (f : nat -> bool) : nat :=
  find_loop n (fun i => if f i then 0 else 1) 0 n.

Definition FindIdx (cc : CoordinateCompressor) (v : Z) : Z :=
  Z.of_nat (sort_Search (length (cc_values cc))
              (fun i => match cc_values cc !! i with Some x => bool_decide (x >= v) | None => true end)).

Definition FindRange (cc : CoordinateCompressor) (left right : Z) : Z * Z :=
  let l := FindIdx cc left in
  let r := FindIdx cc right - 1 in
  (l, if bool_decide (r < l) then l else r).

Definition cc_Size (cc : CoordinateCompressor) : Z := Z.of_nat (length (cc_values cc)).

(** ** The segment tree *)

(** [TNil] is the nil pointer. *)
Inductive SegmentTreeNode :=
| TNil
| TNode (l r : Z) (entries : Entries) (left right : SegmentTreeNode) (isLeaf : bool).

Definition buildTree (l r : Z) : SegmentTreeNode := TNode l r [] TNil TNil (bool_decide (l = r)).

(** [insert]; [cnt] is [h.stats.TreeNodeCount].  The recursion follows the tree,
    which grows as it goes, so it runs on fuel. *)
Fixpoint tree_insert (fuel : nat) (node : SegmentTreeNode) (l r : Z) (eid : EntryID) (cnt : Z)
    : res (SegmentTreeNode * Z) :=
  match fuel with
  | O => OutOfFuel
  | S fuel =>
      match node with
      | TNil => Panic "nil pointer dereference"
      | TNode nl nr entries lc rc isLeaf =>
          if bool_decide (l <= nl) && bool_decide (nr <= r)
          then Ok (TNode nl nr (entries ++ [eid]) lc rc isLeaf, cnt)
          else
            let mid := Z.quot (nl + nr) 2 in
            p ← (if bool_decide (l <= mid) then
                   match lc with
                   | TNil => tree_insert fuel (buildTree nl mid) l r eid (cnt + 1)
                   | _ => tree_insert fuel lc l r eid cnt
                   end
                 else Ok (lc, cnt));
            let '(lc, cnt) := p in
            p ← (if bool_decide (r > mid) then
                   match rc with
                   | TNil => tree_insert fuel (buildTree (mid + 1) nr) l r eid (cnt + 1)
                   | _ => tree_insert fuel rc l r eid cnt
                   end
                 else Ok (rc, cnt));
            let '(rc, cnt) := p in
            Ok (TNode nl nr entries lc rc isLeaf, cnt)
      end
  end.

(** [result[eid] = struct{}{}] for each entry of the node, then one subtree. *)
Fixpoint collectEntries (node : SegmentTreeNode) (idx : Z) (result : gmap EntryID unit)
    : gmap EntryID unit :=
  match node with
  | TNil => result
  | TNode nl nr entries lc rc isLeaf =>
      let result := foldl (fun m eid => <[eid := tt]> m) result entries in
      if isLeaf then result
      else
        let mid := Z.quot (nl + nr) 2 in
        if bool_decide (idx <= mid) && negb (match lc with TNil => true | _ => false end)
        then collectEntries lc idx result
        else if bool_decide (idx > mid) && negb (match rc with TNil => true | _ => false end)
        then collectEntries rc idx result
        else result
  end.

(** ** The holder *)

Record pendingRange := { pr_left : Z; pr_right : Z; pr_eid : EntryID }.

Record HolderStats := {
  OriginalRangeCount : Z;
  CompressedSize : Z;
  TreeNodeCount : Z;
  MemorySavedPercent : spec_float
}.

Record OptimizedRangeTxData := {
  otx_Operator : ValueOpt;
  otx_Range : option Range;
  otx_EqValues : list Z
}.

Record OptimizedRangeHolder := {
  oh_option : RangeHolderOption;
  compressor : CoordinateCompressor;
  root : SegmentTreeNode;
  pendingRanges : list pendingRange;
  oh_built : bool;
  stats : HolderStats
}.

Definition NewOptimizedRangeHolder (fns : list (RangeHolderOption -> RangeHolderOption)) : OptimizedRangeHolder :=
  {| oh_option := foldl (fun opt fn => fn opt) NewRangeHolderOption fns;
     compressor := NewCoordinateCompressor; root := TNil; pendingRanges := []; oh_built := false;
     stats := {| OriginalRangeCount := 0; CompressedSize := 0; TreeNodeCount := 0;
                 MemorySavedPercent := S754_zero false |} |}.

Definition set_compressor (h : OptimizedRangeHolder) (cc : CoordinateCompressor) : OptimizedRangeHolder :=
  {| oh_option := oh_option h; compressor := cc; root := root h; pendingRanges := pendingRanges h;
     oh_built := oh_built h; stats := stats h |}.

Definition set_stats (h : OptimizedRangeHolder) (s : HolderStats) : OptimizedRangeHolder :=
  {| oh_option := oh_option h; compressor := compressor h; root := root h; pendingRanges := pendingRanges h;
     oh_built := oh_built h; stats := s |}.

Definition set_root (h : OptimizedRangeHolder) (t : SegmentTreeNode) : OptimizedRangeHolder :=
  {| oh_option := oh_option h; compressor := compressor h; root := t; pendingRanges := pendingRanges h;
     oh_built := oh_built h; stats := stats h |}.

Definition add_pending (h : OptimizedRangeHolder) (pr : pendingRange) : OptimizedRangeHolder :=
  {| oh_option := oh_option h; compressor := compressor h; root := root h;
     pendingRanges := pendingRanges h ++ [pr]; oh_built := oh_built h; stats := stats h |}.

Section Optimized.
Context `{MapRange} `{GoFloat} `{JsonRangeTx}.

Definition ToSlice (rg : Range) : res (list Z) :=
  let cap := float_to_int64 (range_Size rg) in
  if bool_decide (cap < 0) || bool_decide (cap > maxInt64s) then Panic "makeslice: cap out of range"
  else Ok (seqZ (rg_left rg) (rg_right rg - rg_left rg)).

(** Preparing a range collects its ends. *)
Definition opt_BuildFieldIndexingData (h : OptimizedRangeHolder) (field : FieldDesc) (bv : BoolValues)
    : OptimizedRangeHolder * res OptimizedRangeTxData :=
  if bool_decide (Operator bv = ValueOptEQ) then
    (h, match ParseIntegers (Value bv) (EnableFloat2Int (oh_option h)) with
        | Ok ids => Ok {| otx_Operator := ValueOptEQ; otx_Range := None; otx_EqValues := ids |}
        | Panic e => Panic e
        | _ => Err "parse fail"
        end)
  else if bool_decide (Operator bv = ValueOptLT) || bool_decide (Operator bv = ValueOptGT) ||
          bool_decide (Operator bv = ValueOptBetween) then
    match ParseRange (Operator bv) (Value bv) (EnableFloat2Int (oh_option h)) with
    | Ok rg =>
        if SFltb (range_Size rg) (RangeCvtValuesSize (oh_option h)) then
          (h, vs ← ToSlice rg; Ok {| otx_Operator := ValueOptEQ; otx_Range := None; otx_EqValues := vs |})
        else
          match AddValue (compressor h) (rg_left rg) with
          | Ok cc =>
              match AddValue cc (rg_right rg) with
              | Ok cc => (set_compressor h cc,
                          Ok {| otx_Operator := ValueOptBetween; otx_Range := Some rg; otx_EqValues := [] |})
              | _ => (set_compressor h cc, Panic "compressor already built")
              end
          | _ => (h, Panic "compressor already built")
          end
    | Err e => (h, Err e)
    | Panic e => (h, Panic e)
    | OutOfFuel => (h, OutOfFuel)
    end
  else (h, Err "unsupported operator").

(** [for _, id := range values]: a point range per value. *)
Fixpoint commit_values (h : OptimizedRangeHolder) (eid : EntryID) (ids : list Z)
    : OptimizedRangeHolder * res unit :=
  match ids with
  | [] => (h, Ok tt)
  | id :: ids =>
      let h := add_pending h {| pr_left := id; pr_right := id; pr_eid := eid |} in
      match AddValue (compressor h) id with
      | Ok cc => commit_values (set_compressor h cc) eid ids
      | Err e => (h, Err e)
      | Panic e => (h, Panic e)
      | OutOfFuel => (h, OutOfFuel)
      end
  end.

Definition opt_CommitFieldIndexingData (h : OptimizedRangeHolder) (field : FieldDesc) (eid : EntryID)
    (data : option OptimizedRangeTxData) : OptimizedRangeHolder * res unit :=
  match data with
  | None => (h, Ok tt)
  | Some data =>
      if bool_decide (otx_Operator data = ValueOptEQ) then
        commit_values h eid (DistinctInteger (otx_EqValues data))
      else if bool_decide (otx_Operator data = ValueOptBetween) then
        match otx_Range data with
        | None => (h, Panic "nil pointer dereference")
        | Some rg =>
            let h := add_pending h {| pr_left := rg_left rg; pr_right := rg_right rg; pr_eid := eid |} in
            (set_stats h {| OriginalRangeCount := OriginalRangeCount (stats h) + 1;
                            CompressedSize := CompressedSize (stats h);
                            TreeNodeCount := TreeNodeCount (stats h);
                            MemorySavedPercent := MemorySavedPercent (stats h) |}, Ok tt)
        end
      else (h, Ok tt)
  end.

(** The loop that inserts the pending ranges; the height of the tree bounds the
    fuel of an insertion. *)
Fixpoint insert_pending (cc : CoordinateCompressor) (root : SegmentTreeNode) (cnt : Z)
    (prs : list pendingRange) : res (SegmentTreeNode * Z) :=
  match prs with
  | [] => Ok (root, cnt)
  | pr :: prs =>
      let '(l, r) := FindRange cc (pr_left pr) (pr_right pr) in
      if bool_decide (l <= r) then
        p ← tree_insert (S (S (length (cc_values cc)))) root l r (pr_eid pr) cnt;
        insert_pending cc p.1 p.2 prs
      else insert_pending cc root cnt prs
  end.

(** [calculateMemoryStats]. *)
Definition memory_saved (s : HolderStats) : spec_float :=
  if bool_decide (CompressedSize s > 0) then
    let originalSize := float64_of_int (OriginalRangeCount s * 2) in
    let compressedSize := float64_of_int (CompressedSize s) in
    if SFltb compressedSize originalSize
    then SFmul 53 1024 (SFsub 53 1024 (float64_of_int 1) (SFdiv 53 1024 compressedSize originalSize))
           (float64_of_int 100)
    else MemorySavedPercent s
  else MemorySavedPercent s.

Definition opt_CompileEntries (h : OptimizedRangeHolder) : OptimizedRangeHolder * res unit :=
  let cc := cc_Build (compressor h) in
  let size := cc_Size cc in
  let '(root0, cnt) := if bool_decide (size > 0)
                       then (buildTree 0 (size - 1), TreeNodeCount (stats h) + 1)
                       else (root h, TreeNodeCount (stats h)) in
  let s cnt := {| OriginalRangeCount := OriginalRangeCount (stats h); CompressedSize := size;
                  TreeNodeCount := cnt; MemorySavedPercent := MemorySavedPercent (stats h) |} in
  match insert_pending cc root0 cnt (pendingRanges h) with
  | Ok (root1, cnt) =>
      ({| oh_option := oh_option h; compressor := cc; root := root1; pendingRanges := []; oh_built := true;
          stats := {| OriginalRangeCount := OriginalRangeCount (stats h); CompressedSize := size;
                      TreeNodeCount := cnt; MemorySavedPercent := memory_saved (s cnt) |} |}, Ok tt)
  | Err e => (set_root (set_stats (set_compressor h cc) (s cnt)) root0, Err e)
  | Panic e => (set_root (set_stats (set_compressor h cc) (s cnt)) root0, Panic e)
  | OutOfFuel => (set_root (set_stats (set_compressor h cc) (s cnt)) root0, OutOfFuel)
  end.

(** The loop of [GetEntries] over the ids. *)
Fixpoint collect_ids (h : OptimizedRangeHolder) (ids : list Z) (result : gmap EntryID unit)
    : gmap EntryID unit :=
  match ids with
  | [] => result
  | id :: ids =>
      match GetIdx (compressor h) id with
      | Some idx => collect_ids h ids (collectEntries (root h) idx result)
      | None =>
          let idx := FindIdx (compressor h) id in
          if bool_decide (idx >= CompressedSize (stats h)) then collect_ids h ids result
          else collect_ids h ids (collectEntries (root h) idx result)
      end
  end.

Definition opt_GetEntries (h : OptimizedRangeHolder) (field : FieldDesc) (assigns : Values)
    : res (list EntriesCursor) :=
  if negb (oh_built h) then Err "holder not compiled"
  else
    ids ← ParseIntegers assigns (EnableFloat2Int (oh_option h));
    if bool_decide (length ids = 0%nat) then Ok []
    else
      let resultMap := collect_ids h ids ∅ in
      let result := sortZ (fst <$> map_range resultMap) in
      if bool_decide (0 < length result)%nat
      then Ok [NewEntriesCursor (NewQKey (fd_Field field) (VInt KInt 0)) result]
      else Ok [].

Definition opt_Encode (txd : OptimizedRangeTxData) : res (list byte) :=
  json_Marshal (otx_Operator txd) (bool_decide (is_Some (otx_Range txd))) (otx_EqValues txd).

Definition opt_DecodeFieldIndexingData (h : OptimizedRangeHolder) (data : list byte) : res OptimizedRangeTxData :=
  t ← json_Unmarshal data;
  Ok {| otx_Operator := t.1.1;
        otx_Range := if t.1.2 : bool then Some {| rg_left := 0; rg_right := 0 |} else None;
        otx_EqValues := t.2 |}.

#[export] Instance OptimizedRangeHolder_holder : EntriesHolder OptimizedRangeHolder OptimizedRangeTxData := {
  GetEntries := opt_GetEntries;
  BuildFieldIndexingData := opt_BuildFieldIndexingData;
  CommitFieldIndexingData := opt_CommitFieldIndexingData;
  DecodeFieldIndexingData := opt_DecodeFieldIndexingData;
  Encode := opt_Encode;
  CompileEntries := opt_CompileEntries
}.

End Optimized.

(** ** The segment tree is a map from positions to intervals *)

(** The node covers [a, b], split in the middle; only leaves have no subtrees. *)
Fixpoint tree_wf (a b : Z) (t : SegmentTreeNode) : Prop :=
  match t with
  | TNil => True
  | TNode nl nr _ lc rc isLeaf =>
      nl = a /\ nr = b /\ 0 <= a <= b /\ isLeaf = bool_decide (a = b) /\
      tree_wf a (Z.quot (a + b) 2) lc /\ tree_wf (Z.quot (a + b) 2 + 1) b rc
  end.

(** The entries on the way down to a position. *)
Fixpoint path_entries (t : SegmentTreeNode) (idx : Z) : Entries :=
  match t with
  | TNil => []
  | TNode nl nr entries lc rc isLeaf =>
      entries ++ (if isLeaf then []
                  else if bool_decide (idx <= Z.quot (nl + nr) 2) then path_entries lc idx else path_entries rc idx)
  end.

Lemma lookup_add_entries (entries : Entries) (m : gmap EntryID unit) e :
  is_Some (foldl (fun m eid => <[eid := tt]> m) m entries !! e) <-> is_Some (m !! e) \/ e ∈ entries.
Proof. rewrite lookup_key_set_acc. tauto. Qed.

Lemma collectEntries_spec t idx m e :
  is_Some (collectEntries t idx m !! e) <-> is_Some (m !! e) \/ e ∈ path_entries t idx.
Proof.
  revert m. induction t as [|nl nr es lc IHl rc IHr lf]; intros m; cbn [collectEntries path_entries].
  - split; [by left | intros [? | Hx]; [done | elem_nil]].
  - rewrite elem_of_app, <- Logic.or_assoc, <- lookup_add_entries.
    assert (Hnil : forall m' : gmap EntryID unit, is_Some (m' !! e) <-> is_Some (m' !! e) \/ e ∈ ([] : Entries))
      by (intros m'; split; [by left | intros [? | Hx]; [done | elem_nil]]).
    destruct lf; [apply Hnil |]. case_bool_decide as Hi.
    + destruct lc; simpl negb; cbn [andb]; [| apply IHl].
      rewrite (bool_decide_eq_false_2 (idx > _)) by lia. apply Hnil.
    + rewrite (bool_decide_eq_true_2 (idx > _)) by lia. destruct rc; simpl negb; cbn [andb]; [apply Hnil | apply IHr].
Qed.

Lemma quot_mid a b : 0 <= a < b -> a <= Z.quot (a + b) 2 < b.
Proof. intros. rewrite Z.quot_div_nonneg by lia. Z.div_mod_to_equations. lia. Qed.

Lemma buildTree_wf a b : 0 <= a <= b -> tree_wf a b (buildTree a b) /\ forall idx, path_entries (buildTree a b) idx = [].
Proof.
  intros Hab. split; [simpl; split_and!; done || lia |]. intros idx. simpl.
  case_bool_decide; [done |]. by destruct (bool_decide _).
Qed.

(** What inserting [l, r] into a subtree over [a, b] gives. *)
Definition inserted (a b l r : Z) (eid : EntryID) (t : SegmentTreeNode) (res : res (SegmentTreeNode * Z)) : Prop :=
  exists t' cnt', res = Ok (t', cnt') /\ (t <> TNil -> t' <> TNil) /\ tree_wf a b t' /\
    forall idx e, a <= idx <= b -> e ∈ path_entries t' idx <-> e ∈ path_entries t idx \/ (e = eid /\ l <= idx <= r).

(** One of the two recursive calls, taken when [go] holds. *)
Lemma insert_child fuel c a b l r eid cnt (go : bool) :
  (go = true -> forall t cnt, tree_wf a b t -> t <> TNil ->
     inserted a b l r eid t (tree_insert fuel t l r eid cnt)) ->
  tree_wf a b c -> 0 <= a <= b -> (go = false -> forall idx, a <= idx <= b -> ~ l <= idx <= r) ->
  inserted a b l r eid c
    (if go then match c with
                | TNil => tree_insert fuel (buildTree a b) l r eid (cnt + 1)
                | _ => tree_insert fuel c l r eid cnt
                end
     else Ok (c, cnt)).
Proof.
  intros IH Hwf Hab Hgo. destruct go; [specialize (IH eq_refl) |].
  - destruct c; [| by apply IH]. destruct (buildTree_wf a b Hab) as [Hw Hp].
    destruct (IH (buildTree a b) (cnt + 1) Hw ltac:(done)) as (t' & cnt' & Hr & Hne & Hw' & He).
    exists t', cnt'. split; [done |]. split; [done |]. split; [done |]. intros idx e Hidx. by rewrite He, Hp.
  - exists c, cnt. split_and!; try done. intros idx e Hidx. split; [auto |].
    intros [? | [_ Hin]]; [done |]. by destruct (Hgo eq_refl idx Hidx).
Qed.

Lemma tree_insert_spec fuel : forall t a b l r eid cnt,
  tree_wf a b t -> t <> TNil -> b - a < Z.of_nat fuel -> l <= b -> a <= r ->
  inserted a b l r eid t (tree_insert fuel t l r eid cnt).
Proof.
  induction fuel as [|fuel IH]; intros t a b l r eid cnt Hwf Hne Hf Hl Hr.
  { destruct t; [done |]. destruct Hwf as (_ & _ & Hab & _). lia. }
  destruct t as [|nl nr es lc rc lf]; [done |]. destruct Hwf as (-> & -> & Hab & Hlf & Hwl & Hwr). cbn [tree_insert].
  destruct (decide (l <= a /\ b <= r)) as [[H1 H2] | Hout].
  { decide_lia. simpl. eexists _, _. split; [done |]. split; [done |]. split; [done |].
    intros idx e Hidx. simpl. rewrite !elem_of_app, list_elem_of_singleton.
    split; [intros [[? | ->] | ?] | intros [[?|?] | [-> _]]]; auto. right. split; [done | lia]. }
  assert (a < b) as Hlt by (destruct (decide (a = b)); lia). pose proof (quot_mid a b ltac:(lia)) as Hmid.
  rewrite bool_decide_eq_false_2 in Hlf by lia. subst lf. set (mid := Z.quot (a + b) 2) in *.
  assert (bool_decide (l <= a) && bool_decide (b <= r) = false) as ->
    by (apply andb_false_iff; rewrite !bool_decide_eq_false; lia).
  destruct (insert_child fuel lc a mid l r eid cnt (bool_decide (l <= mid))) as (lc' & cnt1 & -> & _ & Hwl' & Hel);
    [intros ?%bool_decide_eq_true; intros; apply IH; done || lia | done | lia | rewrite bool_decide_eq_false; lia |].
  unfold mbind, res_bind. cbn beta iota.
  destruct (insert_child fuel rc (mid + 1) b l r eid cnt1 (bool_decide (r > mid))) as (rc' & cnt2 & -> & _ & Hwr' & Her);
    [intros ?%bool_decide_eq_true; intros; apply IH; done || lia | done | lia | rewrite bool_decide_eq_false; lia |].
  eexists _, _. split; [done |]. split; [done |].
  split; [simpl; rewrite bool_decide_eq_false_2 by lia; split_and!; done || lia |].
  intros idx e Hidx. simpl. fold mid. rewrite !elem_of_app.
  case_bool_decide as Hi; [rewrite Hel by lia | rewrite Her by lia]; tauto.
Qed.

(** ** The coordinates are sorted, and positions follow them *)

(** The index map of a list without duplicates. *)
Definition index_map (xs : list Z) (idx : gmap Z Z) : Prop :=
  forall v i, idx !! v = Some i <-> exists n, i = Z.of_nat n /\ xs !! n = Some v.

Lemma last_largest (xs : list Z) v u :
  StronglySorted Z.lt xs -> (forall u, u ∈ xs -> u <= v) -> last xs <> Some v -> u ∈ xs -> u < v.
Proof.
  intros Hs Hle Hlast Hu. destruct xs as [|z xs _] using rev_ind; [elem_nil |]. rewrite last_snoc in Hlast.
  assert (z <= v) as Hz by (apply Hle, elem_of_app; right; by left).
  assert (z <> v) as Hzv by congruence.
  apply elem_of_app in Hu as [Hu | ->%list_elem_of_singleton]; [| lia].
  assert (u < z) by (eapply (StronglySorted_app_1_elem_of Z.lt); [exact Hs | done | by left]). lia.
Qed.

Lemma index_map_snoc xs idx v :
  index_map xs idx -> v ∉ xs -> index_map (xs ++ [v]) (<[v := Z.of_nat (length xs)]> idx).
Proof.
  unfold index_map. intros Hidx Hnew w i. destruct (decide (w = v)) as [-> | Hne].
  - rewrite lookup_insert_eq. split.
    + intros [= <-]. exists (length xs). split; [done |]. by apply list_lookup_middle.
    + intros (n & -> & [Hn | [Hlen Hn]]%lookup_app_Some); [by apply list_elem_of_lookup_2 in Hn |].
      apply list_lookup_singleton_Some in Hn as [Hn _]. do 2 f_equal. lia.
  - rewrite lookup_insert_ne by done. rewrite Hidx. split; intros (n & -> & Hn); exists n; (split; [done |]).
    + by apply lookup_app_l_Some.
    + apply lookup_app_Some in Hn as [Hn | [_ [_ ->]%list_lookup_singleton_Some]]; done.
Qed.

Lemma unique_loop_spec vs : forall unique idx,
  StronglySorted Z.le vs -> StronglySorted Z.lt unique -> (forall u v, u ∈ unique -> v ∈ vs -> u <= v) ->
  index_map unique idx ->
  let res := unique_loop vs unique idx in
  StronglySorted Z.lt res.1 /\ (forall x, x ∈ res.1 <-> x ∈ unique \/ x ∈ vs) /\ index_map res.1 res.2.
Proof.
  induction vs as [|v vs IH]; intros unique idx Hvs Hu Hle Hidx; cbn [unique_loop].
  { split; [done |]. split; [| done]. intros x. split; [auto | intros [? | Hx]; [done | elem_nil]]. }
  apply StronglySorted_inv in Hvs as [Hvs Hv]. rewrite Forall_forall in Hv.
  destruct (bool_decide (unique = []) || bool_decide (last unique <> Some v)) eqn:Hb.
  - assert (Hlast : last unique <> Some v).
    { apply orb_true_iff in Hb as [->%bool_decide_eq_true | ?%bool_decide_eq_true]; done. }
    assert (Hnew : forall u, u ∈ unique -> u < v)
      by (intros u Hin; apply (last_largest unique v u Hu); [intros w Hw; apply Hle; [done | by left] | done | done]).
    destruct (IH (unique ++ [v]) (<[v := Z.of_nat (length unique)]> idx)) as (Hs & Hmem & Hmap); [done | | | | ].
    + apply StronglySorted_app_2; [| done | repeat constructor].
      intros u w Hin ->%list_elem_of_singleton. by apply Hnew.
    + intros u w [Hin | ->%list_elem_of_singleton]%elem_of_app Hw; [apply Hle; [done | by right] | by apply Hv].
    + apply index_map_snoc; [done |]. intros Hin%Hnew. lia.
    + split; [done |]. split; [| done]. intros x. rewrite Hmem. set_solver.
  - apply orb_false_iff in Hb as [_ Hb%bool_decide_eq_false]. apply dec_stable in Hb.
    destruct (IH unique idx) as (Hs & Hmem & Hmap); [done | done | | done |].
    + intros u w Hin Hw. apply Hle; [done | by right].
    + split; [done |]. split; [| done]. intros x. rewrite Hmem, elem_of_cons.
      assert (v ∈ unique) by (apply last_Some in Hb as [l ->]; apply elem_of_app; right; by left). naive_solver.
Qed.

(** The compressor after [Build]: strictly increasing, the same values, and the
    index of each. *)
Lemma cc_Build_spec cc :
  cc_built cc = false ->
  let cc' := cc_Build cc in
  StronglySorted Z.lt (cc_values cc') /\ (forall x, x ∈ cc_values cc' <-> x ∈ cc_values cc) /\
  index_map (cc_values cc') (valueToIdx cc') /\ cc_built cc' = true.
Proof.
  intros Hb. unfold cc_Build. rewrite Hb.
  destruct (unique_loop_spec (sortZ (cc_values cc)) [] ∅) as (Hs & Hmem & Hmap).
  - apply sortZ_sorted.
  - constructor.
  - intros u v Hu. elem_nil.
  - intros v i. rewrite lookup_empty. split; [done |]. by intros (n & _ & Hn).
  - destruct (unique_loop _ _ _) as [unique idx]. simpl in *. split; [done |]. split; [| done].
    intros x. rewrite Hmem, elem_of_sortZ. split; [intros [Hx | ?]; [elem_nil | done] | auto].
Qed.

Lemma sorted_lt_le (xs : list Z) : StronglySorted Z.lt xs -> StronglySorted Z.le xs.
Proof. induction 1 as [|x xs _ IH Hx]; constructor; [done |]. eapply Forall_impl; [exact Hx |]. simpl. lia. Qed.

(** [FindIdx] is the position of the next coordinate. *)
Lemma FindIdx_spec cc v :
  StronglySorted Z.lt (cc_values cc) ->
  exists n, FindIdx cc v = Z.of_nat n /\ (n <= length (cc_values cc))%nat /\
    forall i c, cc_values cc !! i = Some c -> (n <= i)%nat <-> v <= c.
Proof.
  intros Hs%sorted_lt_le. unfold FindIdx, sort_Search. set (xs := cc_values cc) in *. 
  match goal with |- context [find_loop _ ?f _ _] => set (cmp := f) end.
  assert (Hcmp : forall i c, xs !! i = Some c -> cmp i = if decide (v <= c) then 0 else 1).
  { intros i c Hi. subst cmp. simpl. rewrite Hi. case_bool_decide; case_decide; lia. }
  destruct (find_loop_spec cmp (length xs)) with (fuel := length xs) (i := 0%nat) (j := length xs)
    as (Hle & Hlow & Hat); try lia.
  { intros h k Hh Hk. destruct (lookup_lt_is_Some_2 xs h Hh) as [c Hc].
    destruct (lookup_lt_is_Some_2 xs k ltac:(lia)) as [c' Hc']. rewrite (Hcmp h c Hc), (Hcmp k c' Hc').
    pose proof (sorted_lookup_le xs k h c' c Hs Hk Hc' Hc). repeat case_decide; lia. }
  exists (find_loop (length xs) cmp 0 (length xs)). split; [done |]. split; [done |].
  set (n := find_loop _ _ _ _) in *. intros i c Hi. pose proof (lookup_lt_Some _ _ _ Hi) as Hlt. split.
  - intros Hni. destruct (lookup_lt_is_Some_2 xs n ltac:(lia)) as [c' Hc'].
    pose proof (Hat ltac:(lia)) as H1. rewrite (Hcmp n c' Hc') in H1.
    pose proof (sorted_lookup_le xs n i c' c Hs Hni Hc' Hi). case_decide; lia.
  - intros Hv. destruct (decide (n <= i)%nat) as [? | Hno]; [done |]. pose proof (Hlow i ltac:(lia)) as H1.
    rewrite (Hcmp i c Hi) in H1. case_decide; lia.
Qed.

(** ** Compiling *)

(** A pending range as a set of coordinates: half-open, or the left end alone. *)
Definition pr_covers (pr : pendingRange) (c : Z) : bool :=
  if bool_decide (pr_right pr <= pr_left pr) then bool_decide (c = pr_left pr)
  else bool_decide (pr_left pr <= c < pr_right pr).

Lemma sorted_lt_NoDup (xs : list Z) : StronglySorted Z.lt xs -> NoDup xs.
Proof.
  induction 1 as [|x xs _ IH Hx]; constructor; [| done]. rewrite Forall_forall in Hx. intros Hin%Hx. lia.
Qed.

Lemma FindRange_spec cc pr l r :
  StronglySorted Z.lt (cc_values cc) -> pr_left pr ∈ cc_values cc ->
  FindRange cc (pr_left pr) (pr_right pr) = (l, r) ->
  0 <= l <= r /\ l < cc_Size cc /\
  forall i c, cc_values cc !! i = Some c -> l <= Z.of_nat i <= r <-> pr_covers pr c = true.
Proof.
  intros Hs [p Hp]%list_elem_of_lookup Hfr. unfold FindRange in Hfr.
  destruct (FindIdx_spec cc (pr_left pr) Hs) as (nl & Hnl & Hnle & Hl).
  destruct (FindIdx_spec cc (pr_right pr) Hs) as (nr & Hnr & Hnre & Hr). rewrite Hnl, Hnr in Hfr.
  assert (Hpos : cc_values cc !! nl = Some (pr_left pr)).
  { pose proof (proj2 (Hl p _ Hp) ltac:(lia)) as Hle. pose proof (lookup_lt_Some _ _ _ Hp) as Hlt.
    destruct (lookup_lt_is_Some_2 (cc_values cc) nl ltac:(lia)) as [c Hc]. rewrite Hc. f_equal.
    pose proof (proj1 (Hl nl c Hc) ltac:(lia)).
    pose proof (sorted_lookup_le _ nl p c _ (sorted_lt_le _ Hs) Hle Hc Hp). lia. }
  pose proof (lookup_lt_Some _ _ _ Hpos) as Hlen. pose proof (Hr nl _ Hpos) as Hrl. unfold cc_Size.
  unfold pr_covers. destruct (decide (pr_right pr <= pr_left pr)) as [Hpt | Hrg].
  - rewrite bool_decide_eq_true_2 in Hfr by lia. injection Hfr as <- <-. split; [lia |]. split; [lia |].
    intros i c Hi. rewrite !(bool_decide_eq_true_2 (_ <= _)) by done. rewrite bool_decide_eq_true. split.
    + intros Hin. assert (i = nl) as -> by lia. congruence.
    + intros ->. assert (i = nl) as ->; [| lia]. by eapply NoDup_lookup; [apply sorted_lt_NoDup | |].
  - rewrite bool_decide_eq_false_2 in Hfr by lia. injection Hfr as <- <-. split; [lia |]. split; [lia |].
    intros i c Hi. rewrite (bool_decide_eq_false_2 (_ <= pr_left _)) by lia. rewrite bool_decide_eq_true.
    pose proof (Hl i c Hi). pose proof (Hr i c Hi). lia.
Qed.

Lemma insert_pending_spec cc prs : forall t cnt,
  StronglySorted Z.lt (cc_values cc) -> Forall (fun pr => pr_left pr ∈ cc_values cc) prs ->
  tree_wf 0 (cc_Size cc - 1) t -> (prs <> [] -> t <> TNil) ->
  exists t' cnt', insert_pending cc t cnt prs = Ok (t', cnt') /\
    forall i c e, cc_values cc !! i = Some c ->
      e ∈ path_entries t' (Z.of_nat i) <->
      e ∈ path_entries t (Z.of_nat i) \/ exists pr, pr ∈ prs /\ pr_eid pr = e /\ pr_covers pr c = true.
Proof.
  induction prs as [|pr prs IH]; intros t cnt Hs Hall Hwf Hne.
  { exists t, cnt. split; [done |]. intros i c e Hi. split; [auto | intros [? | (pr & Hx & _)]; [done | elem_nil]]. }
  inversion Hall as [|? ? Hpr Hall']; subst. cbn [insert_pending].
  destruct (FindRange cc (pr_left pr) (pr_right pr)) as [l r] eqn:Hfr.
  destruct (FindRange_spec cc pr l r Hs Hpr Hfr) as (Hlr & Hlt & Hcov).
  rewrite bool_decide_eq_true_2 by lia.
  destruct (tree_insert_spec (S (S (length (cc_values cc)))) t 0 (cc_Size cc - 1) l r (pr_eid pr) cnt)
    as (t1 & cnt1 & Hins & Hne1 & Hwf1 & He1); [done | by apply Hne | unfold cc_Size; lia | lia | lia |].
  rewrite Hins. unfold mbind, res_bind. cbn beta iota.
  destruct (IH t1 cnt1 Hs Hall' Hwf1 ltac:(intros _; by apply Hne1, Hne)) as (t2 & cnt2 & Hrest & He2).
  exists t2, cnt2. split; [done |]. intros i c e Hi. pose proof (lookup_lt_Some _ _ _ Hi) as Hlen.
  rewrite (He2 i c e Hi), He1 by (unfold cc_Size; lia). rewrite (Hcov i c Hi).
  setoid_rewrite elem_of_cons. naive_solver.
Qed.

(** ** The holder as a state machine *)

(** What can happen to a holder before it is compiled: preparing data and
    committing data that was prepared.  [ps] is the prepared data, [cs] what was
    committed, with the entry ids. *)
Section Machine.
Context `{MapRange} `{GoFloat} `{JsonRangeTx}.

Inductive opt_reach : OptimizedRangeHolder -> list OptimizedRangeTxData ->
    list (EntryID * OptimizedRangeTxData) -> Prop :=
| opt_new fns : opt_reach (NewOptimizedRangeHolder fns) [] []
| opt_build h ps cs d bv h' x :
    opt_reach h ps cs -> opt_BuildFieldIndexingData h d bv = (h', Ok x) -> opt_reach h' (x :: ps) cs
| opt_build_fails h ps cs d bv h' r :
    opt_reach h ps cs -> opt_BuildFieldIndexingData h d bv = (h', r) -> ~ is_Ok r -> opt_reach h' ps cs
| opt_commit h ps cs d e x h' r :
    opt_reach h ps cs -> x ∈ ps -> opt_CommitFieldIndexingData h d e (Some x) = (h', r) ->
    opt_reach h' ps (cs ++ [(e, x)]).

(** The pending ranges that committed data stands for. *)
Definition tx_pending (e : EntryID) (x : OptimizedRangeTxData) (pr : pendingRange) : Prop :=
  pr_eid pr = e /\
  if bool_decide (otx_Operator x = ValueOptEQ) then pr_left pr ∈ otx_EqValues x /\ pr_right pr = pr_left pr
  else exists rg, otx_Range x = Some rg /\ pr_left pr = rg_left rg /\ pr_right pr = rg_right rg.

Record cc_inv (cc : CoordinateCompressor) : Prop := {
  cci_built : cc_built cc = false;
  cci_dom : forall v, is_Some (valueToIdx cc !! v) <-> v ∈ cc_values cc
}.

Record opt_inv (h : OptimizedRangeHolder) (ps : list OptimizedRangeTxData)
    (cs : list (EntryID * OptimizedRangeTxData)) : Prop := {
  oi_cc : cc_inv (compressor h);
  oi_root : root h = TNil;
  oi_prepared : Forall (fun x => otx_Operator x = ValueOptEQ \/
    (otx_Operator x = ValueOptBetween /\ exists rg, otx_Range x = Some rg /\ rg_left rg ∈ cc_values (compressor h))) ps;
  oi_left : Forall (fun pr => pr_left pr ∈ cc_values (compressor h)) (pendingRanges h);
  oi_pending : forall pr, pr ∈ pendingRanges h <-> exists e x, (e, x) ∈ cs /\ tx_pending e x pr
}.

Lemma AddValue_spec cc v :
  cc_inv cc -> exists cc', AddValue cc v = Ok cc' /\ cc_inv cc' /\
    forall x, x ∈ cc_values cc' <-> x ∈ cc_values cc \/ x = v.
Proof.
  intros [Hb Hd]. unfold AddValue. rewrite Hb. destruct (valueToIdx cc !! v) as [i|] eqn:Hv.
  - exists cc. split; [done |]. split; [done |]. intros x. split; [auto |]. intros [? | ->]; [done |].
    apply Hd. by eexists.
  - eexists. split; [done |]. split; [split; [done |] |]; simpl.
    + intros x. rewrite lookup_insert_is_Some', elem_of_app, list_elem_of_singleton, Hd. naive_solver.
    + intros x. by rewrite elem_of_app, list_elem_of_singleton.
Qed.
Lemma elem_of_nonempty {A} (x : A) l : x ∈ l -> (0 < length l)%nat.
Proof. destruct l; [intros Hx; elem_nil | simpl; lia]. Qed.

(** More coordinates do no harm. *)
Lemma opt_inv_coords h ps cs cc :
  opt_inv h ps cs -> cc_inv cc -> (forall x, x ∈ cc_values (compressor h) -> x ∈ cc_values cc) ->
  opt_inv (set_compressor h cc) ps cs.
Proof.
  intros [Hcc Hroot Hps Hleft Hpend] Hcc' Hsub. split; simpl; try done.
  - eapply Forall_impl; [exact Hps |]. intros x [? | (? & rg & ? & ?)]; [by left |]. right. eauto 6.
  - eapply Forall_impl; [exact Hleft |]. auto.
Qed.

Lemma opt_inv_build h ps cs d bv h' r :
  opt_inv h ps cs -> opt_BuildFieldIndexingData h d bv = (h', r) ->
  opt_inv h' (match r with Ok x => [x] | _ => [] end ++ ps) cs.
Proof.
  intros Hinv. unfold opt_BuildFieldIndexingData.
  assert (Hsame : forall r : res OptimizedRangeTxData, (forall x, r = Ok x -> otx_Operator x = ValueOptEQ) ->
    opt_inv h (match r with Ok x => [x] | _ => [] end ++ ps) cs).
  { intros r' Hr. destruct r' as [x|e|e|]; try done. destruct Hinv as [? ? Hps ? ?]. split; try done.
    constructor; [left; by apply Hr | done]. }
  case_bool_decide.
  { intros [= <- <-]. apply Hsame. intros x. destruct (ParseIntegers _ _); try done. by intros [= <-]. }
  destruct (_ || _ || _); [| by intros [= <- <-]].
  destruct (ParseRange _ _ _) as [rg|e|e|]; [| by intros [= <- <-] ..].
  destruct (SFltb _ _).
  { intros [= <- <-]. apply Hsame. intros x. destruct (ToSlice rg); try done. by intros [= <-]. }
  destruct (AddValue_spec (compressor h) (rg_left rg) (oi_cc _ _ _ Hinv)) as (cc1 & -> & Hcc1 & Hv1).
  destruct (AddValue_spec cc1 (rg_right rg) Hcc1) as (cc2 & -> & Hcc2 & Hv2). intros [= <- <-].
  assert (Hsub : forall x, x ∈ cc_values (compressor h) -> x ∈ cc_values cc2)
    by (intros x Hx; apply Hv2; left; apply Hv1; by left).
  destruct (opt_inv_coords h ps cs cc2 Hinv Hcc2 Hsub) as [? ? Hps ? ?]. split; try done. simpl.
  constructor; [| done]. right. split; [done |]. exists rg. split; [done |]. simpl. apply Hv2. left. apply Hv1. by right.
Qed.

Lemma commit_values_spec eid ids : forall h,
  cc_inv (compressor h) -> exists h', commit_values h eid ids = (h', Ok tt) /\ cc_inv (compressor h') /\
    root h' = root h /\ (forall x, x ∈ cc_values (compressor h') <-> x ∈ cc_values (compressor h) \/ x ∈ ids) /\
    pendingRanges h' = pendingRanges h ++ ((fun id => {| pr_left := id; pr_right := id; pr_eid := eid |}) <$> ids).
Proof.
  induction ids as [|id ids IH]; intros h Hcc; cbn [commit_values].
  { exists h. rewrite app_nil_r. split_and!; try done. intros x. split; [auto | intros [? | Hx]; [done | elem_nil]]. }
  simpl. destruct (AddValue_spec (compressor h) id Hcc) as (cc & -> & Hcc' & Hv).
  set (h1 := set_compressor _ cc). destruct (IH h1 Hcc') as (h' & -> & Hcc2 & Hroot & Hv2 & Hp). exists h'.
  split; [done |]. split; [done |]. split; [done |]. split; [| by rewrite Hp; simpl; rewrite <- app_assoc].
  intros x. rewrite Hv2. simpl. rewrite Hv. set_solver.
Qed.

Lemma tx_pending_snoc (cs : list (EntryID * OptimizedRangeTxData)) e x pr :
  (exists e' x', (e', x') ∈ cs ++ [(e, x)] /\ tx_pending e' x' pr) <->
  (exists e' x', (e', x') ∈ cs /\ tx_pending e' x' pr) \/ tx_pending e x pr.
Proof.
  setoid_rewrite elem_of_app. setoid_rewrite list_elem_of_singleton. split.
  - intros (e' & x' & [Hin | [= -> ->]] & Hp); [left; eauto | by right].
  - intros [(e' & x' & Hin & Hp) | Hp]; eauto 6.
Qed.

Lemma opt_inv_commit h ps cs d e x h' r :
  opt_inv h ps cs -> x ∈ ps -> opt_CommitFieldIndexingData h d e (Some x) = (h', r) ->
  r = Ok tt /\ opt_inv h' ps (cs ++ [(e, x)]).
Proof.
  intros Hinv Hx Hc. pose proof (oi_prepared _ _ _ Hinv) as Hps. rewrite Forall_forall in Hps.
  unfold opt_CommitFieldIndexingData in Hc. destruct (Hps x Hx) as [Heq | (Hop & rg & Hrg & Hleft)].
  - rewrite bool_decide_eq_true_2 in Hc by done.
    destruct (commit_values_spec e (DistinctInteger (otx_EqValues x)) h (oi_cc _ _ _ Hinv)) as (h1 & Hc1 & Hcc & Hroot & Hv & Hp).
    rewrite Hc1 in Hc. injection Hc as <- <-. split; [done |].
    destruct Hinv as [_ Hr Hps' Hl Hpend]. split; [done | congruence | | |].
    + eapply Forall_impl; [exact Hps' |]. intros y [? | (? & rg & ? & ?)]; [by left |]. right. split; [done |].
      exists rg. split; [done |]. apply Hv. by left.
    + rewrite Hp, Forall_app. split; [eapply Forall_impl; [exact Hl |]; intros pr Hpr; apply Hv; by left |].
      apply Forall_fmap, Forall_forall. intros id Hid. simpl. apply Hv. by right.
    + intros pr. rewrite Hp, elem_of_app, Hpend, tx_pending_snoc, list_elem_of_fmap. unfold tx_pending at 3.
      rewrite bool_decide_eq_true_2 by done. unfold DistinctInteger. setoid_rewrite elem_of_Distinct. split.
      * intros [? | (id & -> & Hid)]; [by left | by right].
      * intros [? | (<- & Hl' & Hr')]; [by left |]. right. exists (pr_left pr). split; [| done].
        destruct pr; simpl in *; congruence.
  - rewrite Hop in Hc. simpl in Hc. rewrite Hrg in Hc. injection Hc as <- <-. split; [done |].
    destruct Hinv as [Hcc Hr Hps' Hl Hpend]. split; simpl; try done.
    + rewrite Forall_app. split; [done |]. by apply Forall_singleton.
    + intros pr. rewrite elem_of_app, list_elem_of_singleton, Hpend, tx_pending_snoc. unfold tx_pending at 3.
      rewrite Hop. simpl. split.
      * intros [? | ->]; [by left |]. right. simpl. eauto.
      * intros [? | (<- & rg' & Hrg' & Hl' & Hr')]; [by left |]. right. rewrite Hrg in Hrg'. injection Hrg' as <-.
        destruct pr; simpl in *; congruence.
Qed.

(** Every reachable state keeps the invariant. *)
Lemma opt_reach_inv h ps cs : opt_reach h ps cs -> opt_inv h ps cs.
Proof.
  induction 1 as [fns | h ps cs d bv h' x _ IH Hb | h ps cs d bv h' r _ IH Hb Hno | h ps cs d e x h' r _ IH Hx Hc].
  - split; simpl; try done.
    + split; [done |]. intros v. simpl. rewrite lookup_empty. split; [by intros [? [=]] | intros Hx; elem_nil].
    + intros pr. split; [intros Hx; elem_nil | intros (e & x & Hx & _); elem_nil].
  - apply (opt_inv_build _ _ _ _ _ _ _ IH Hb).
  - pose proof (opt_inv_build _ _ _ _ _ _ _ IH Hb) as Hi. destruct r as [x|e|e|]; try done. by destruct Hno; exists x.
  - by apply (opt_inv_commit _ _ _ _ _ _ _ _ IH Hx Hc).
Qed.

(** ** What a compiled holder answers *)

(** The data [x] covers the coordinate [c]; an empty range counts as its left end. *)
Definition opt_covers (x : OptimizedRangeTxData) (c : Z) : bool :=
  if bool_decide (otx_Operator x = ValueOptEQ) then bool_decide (c ∈ otx_EqValues x)
  else match otx_Range x with
       | Some rg => pr_covers {| pr_left := rg_left rg; pr_right := rg_right rg; pr_eid := 0 |} c
       | None => false
       end.

(** The least coordinate that is not below [id]. *)
Definition next_coordinate (coords : list Z) (id c : Z) : Prop :=
  c ∈ coords /\ id <= c /\ forall c', c' ∈ coords -> id <= c' -> c <= c'.

Lemma pending_covers h ps cs e c :
  opt_inv h ps cs ->
  (exists pr, pr ∈ pendingRanges h /\ pr_eid pr = e /\ pr_covers pr c = true) <->
  exists x, (e, x) ∈ cs /\ opt_covers x c = true.
Proof.
  intros Hinv. setoid_rewrite (oi_pending _ _ _ Hinv). unfold opt_covers. split.
  - intros (pr & (e' & x & Hin & Heid & Hp) & <- & Hc). rewrite Heid. exists x. split; [done |]. case_bool_decide.
    + destruct Hp as [Hl Hr]. unfold pr_covers in Hc. rewrite Hr, bool_decide_eq_true_2 in Hc by lia.
      apply bool_decide_eq_true in Hc as ->. by apply bool_decide_eq_true.
    + destruct Hp as (rg & -> & Hl & Hr). unfold pr_covers in *. simpl. by rewrite <- Hl, <- Hr.
  - intros (x & Hin & Hc). case_bool_decide as Hop.
    + apply bool_decide_eq_true in Hc. exists {| pr_left := c; pr_right := c; pr_eid := e |}.
      split; [| split; [done |]; unfold pr_covers; simpl; by rewrite !bool_decide_eq_true_2 by lia].
      exists e, x. split; [done |]. split; [done |]. by rewrite bool_decide_eq_true_2.
    + destruct (otx_Range x) as [rg|] eqn:Hrg; [| done].
      exists {| pr_left := rg_left rg; pr_right := rg_right rg; pr_eid := e |}. split; [| done].
      exists e, x. split; [done |]. split; [done |]. rewrite bool_decide_eq_false_2 by done. eauto.
Qed.

Record opt_compiled (h : OptimizedRangeHolder) (coords : list Z) (cs : list (EntryID * OptimizedRangeTxData)) : Prop := {
  oc_built : oh_built h = true;
  oc_sorted : StronglySorted Z.lt (cc_values (compressor h));
  oc_coords : forall x, x ∈ cc_values (compressor h) <-> x ∈ coords;
  oc_index : index_map (cc_values (compressor h)) (valueToIdx (compressor h));
  oc_size : CompressedSize (stats h) = cc_Size (compressor h);
  oc_path : forall i c e, cc_values (compressor h) !! i = Some c ->
    e ∈ path_entries (root h) (Z.of_nat i) <-> exists x, (e, x) ∈ cs /\ opt_covers x c = true
}.

Lemma opt_CompileEntries_spec h ps cs :
  opt_inv h ps cs ->
  exists h', opt_CompileEntries h = (h', Ok tt) /\ oh_option h' = oh_option h /\
    opt_compiled h' (cc_values (compressor h)) cs.
Proof.
  intros Hinv. destruct (cc_Build_spec (compressor h) (cci_built _ (oi_cc _ _ _ Hinv))) as (Hs & Hmem & Hidx & _).
  unfold opt_CompileEntries. set (cc := cc_Build (compressor h)) in *.
  assert (Hleft : Forall (fun pr => pr_left pr ∈ cc_values cc) (pendingRanges h))
    by (eapply Forall_impl; [apply (oi_left _ _ _ Hinv) |]; intros pr Hpr; by apply Hmem).
  destruct (if bool_decide (cc_Size cc > 0) then _ else _) as [t0 cnt] eqn:Ht0.
  assert (Ht : tree_wf 0 (cc_Size cc - 1) t0 /\ (pendingRanges h <> [] -> t0 <> TNil) /\
    forall idx, path_entries t0 idx = []).
  { rewrite (oi_root _ _ _ Hinv) in Ht0. case_bool_decide as Hsz; injection Ht0 as <- <-.
    - destruct (buildTree_wf 0 (cc_Size cc - 1) ltac:(lia)) as [Hw Hp]. split_and!; done.
    - split_and!; try done. intros Hne. destruct (pendingRanges h) as [|pr prs]; [done |].
      apply Forall_inv in Hleft. apply elem_of_nonempty in Hleft. unfold cc_Size in Hsz. lia. }
  destruct Ht as (Hw & Hne & Hp).
  destruct (insert_pending_spec cc (pendingRanges h) t0 cnt Hs Hleft Hw Hne) as (t1 & cnt1 & -> & Hent).
  eexists. split; [done |]. split; [done |]. split; simpl; try done.
  intros i c e Hi. rewrite (Hent i c e Hi), Hp, <- (pending_covers h ps cs e c Hinv).
  split; [intros [Hx | ?]; [elem_nil | done] | auto].
Qed.

Lemma next_coordinate_unique coords id c c' :
  next_coordinate coords id c -> next_coordinate coords id c' -> c = c'.
Proof.
  intros (Hin & Hle & Hmin) (Hin' & Hle' & Hmin'). pose proof (Hmin _ Hin' Hle'). pose proof (Hmin' _ Hin Hle). lia.
Qed.

(** The position that a query integer is looked up at: that of the next
    coordinate, if there is one. *)
Lemma lookup_position h coords cs id :
  opt_compiled h coords cs ->
  match GetIdx (compressor h) id with
  | Some idx => exists n, idx = Z.of_nat n /\ cc_values (compressor h) !! n = Some id /\ next_coordinate coords id id
  | None =>
      if bool_decide (FindIdx (compressor h) id >= CompressedSize (stats h))
      then forall c, ~ next_coordinate coords id c
      else exists n c, FindIdx (compressor h) id = Z.of_nat n /\ cc_values (compressor h) !! n = Some c /\
             next_coordinate coords id c
  end.
Proof.
  intros [_ Hs Hmem Hidx Hsize _]. unfold GetIdx. destruct (valueToIdx (compressor h) !! id) as [idx|] eqn:Hi.
  { apply Hidx in Hi as (n & -> & Hn). exists n. split; [done |]. split; [done |].
    split; [by eapply Hmem, list_elem_of_lookup_2 |]. split; [lia | done]. }
  destruct (FindIdx_spec (compressor h) id Hs) as (n & -> & Hle & Hpos). rewrite Hsize. unfold cc_Size.
  case_bool_decide as Hn.
  - intros c (Hin & Hc & _). apply Hmem, list_elem_of_lookup in Hin as [j Hj].
    pose proof (lookup_lt_Some _ _ _ Hj). pose proof (proj2 (Hpos j c Hj) Hc). lia.
  - destruct (lookup_lt_is_Some_2 (cc_values (compressor h)) n ltac:(lia)) as [c Hc]. exists n, c.
    split; [done |]. split; [done |]. split; [by eapply Hmem, list_elem_of_lookup_2 |].
    split; [by apply (Hpos n c Hc) |]. intros c' [j Hj]%Hmem%list_elem_of_lookup Hc'.
    apply (sorted_lookup_le _ n j c c' (sorted_lt_le _ Hs)); [by apply (Hpos j c' Hj) | done | done].
Qed.

Lemma collect_ids_spec h coords cs ids m e :
  opt_compiled h coords cs ->
  is_Some (collect_ids h ids m !! e) <-> is_Some (m !! e) \/
    exists id c x, id ∈ ids /\ next_coordinate coords id c /\ (e, x) ∈ cs /\ opt_covers x c = true.
Proof.
  intros Hc. revert m. induction ids as [|id ids IH]; intros m; cbn [collect_ids].
  { split; [auto | intros [? | (? & ? & ? & Hx & _)]; [done | elem_nil]]. }
  assert (Hstep : forall n c, cc_values (compressor h) !! n = Some c -> next_coordinate coords id c ->
    is_Some (collect_ids h ids (collectEntries (root h) (Z.of_nat n) m) !! e) <-> is_Some (m !! e) \/
    exists id0 c x, id0 ∈ id :: ids /\ next_coordinate coords id0 c /\ (e, x) ∈ cs /\ opt_covers x c = true).
  { intros n c Hn Hnext. rewrite IH, collectEntries_spec, (oc_path _ _ _ Hc n c e Hn). setoid_rewrite elem_of_cons. split.
    - intros [[? | (x & Hx & Hcov)] | (id' & c' & x & Hin & Hrest)]; [by left | right .. ].
      + exists id, c, x. auto.
      + exists id', c', x. auto.
    - intros [? | (id' & c' & x & [-> | Hin] & Hnext' & Hx & Hcov)]; [by left; left | left; right | right; eauto 10].
      rewrite (next_coordinate_unique _ _ _ _ Hnext' Hnext) in Hcov. eauto. }
  pose proof (lookup_position h coords cs id Hc) as Hpos. destruct (GetIdx (compressor h) id) as [idx|].
  - destruct Hpos as (n & -> & Hn & Hnext). by apply (Hstep n id).
  - case_bool_decide.
    + rewrite IH. setoid_rewrite elem_of_cons. split; [naive_solver |].
      intros [? | (id' & c' & x & [-> | Hin] & Hnext & Hrest)]; [by left | by destruct (Hpos c') | right; eauto 10].
    + destruct Hpos as (n & c & -> & Hn & Hnext). by apply (Hstep n c).
Qed.

(** The cursors hold the entries whose data covers the next coordinate of one of
    the integers of the query. *)
Lemma opt_GetEntries_spec h coords cs d v :
  opt_compiled h coords cs ->
  match ParseIntegers v (EnableFloat2Int (oh_option h)) with
  | Ok ids => exists cur, opt_GetEntries h d v = Ok cur /\
      Forall (fun ec => StronglySorted Z.le (ec_entries ec) /\ ec_entries ec <> []) cur /\
      forall e, e ∈ (cur ≫= ec_entries) <->
        exists id c x, id ∈ ids /\ next_coordinate coords id c /\ (e, x) ∈ cs /\ opt_covers x c = true
  | Err e => opt_GetEntries h d v = Err e
  | Panic e => opt_GetEntries h d v = Panic e
  | OutOfFuel => False
  end.
Proof.
  intros Hc. unfold opt_GetEntries. rewrite (oc_built _ _ _ Hc). cbn [negb].
  pose proof (ParseIntegers_fuel v (EnableFloat2Int (oh_option h))) as Hfuel.
  destruct (ParseIntegers v _) as [ids|e|e|]; try done. unfold mbind, res_bind. cbn beta iota. clear Hfuel.
  case_bool_decide as Hlen.
  { apply nil_length_inv in Hlen as ->. exists []. split; [done |]. split; [constructor |].
    intros e. split; [intros Hx; elem_nil | intros (? & ? & ? & Hx & _); elem_nil]. }
  set (result := sortZ _).
  assert (Hres : forall e, e ∈ result <->
    exists id c x, id ∈ ids /\ next_coordinate coords id c /\ (e, x) ∈ cs /\ opt_covers x c = true).
  { intros e. subst result. rewrite elem_of_sortZ, list_elem_of_fmap.
    trans (is_Some (collect_ids h ids ∅ !! e)).
    - split; [intros ([k []] & -> & Hk%elem_of_map_range); by eexists |].
      intros [[] Hk]. exists (e, tt). by rewrite elem_of_map_range.
    - rewrite (collect_ids_spec h coords cs ids ∅ e Hc), lookup_empty.
      split; [by intros [[? [=]] | ?] | by right]. }
  case_bool_decide as Hr.
  - eexists. split; [done |]. split.
    + apply Forall_singleton. split; [apply sortZ_sorted |]. simpl. intros Hx. rewrite Hx in Hr. simpl in Hr. lia.
    + intros e. rewrite <- Hres. simpl. by rewrite app_nil_r.
  - exists []. split; [done |]. split; [constructor |]. intros e. rewrite <- Hres.
    destruct result; [done | simpl in Hr; lia].
Qed.

End Machine.
