(* ===== verification/Util.v ===== *)
(** * The rest of package util, and the logger (util/math_helper.go,
      util/slice_util.go, util/type_util.go, logger.go)

    The helpers that the other files do not already hold: comparisons and searches
    at the various integer widths, conversions between integer types, the encoding
    of runes into a buffer, and the level-gated console logger. *)

From stdpp Require Import base gmap strings numbers list.
From S2P Require Import Prelude GoValues Utf8.
Open Scope Z_scope.

(** ** util/math_helper.go at 64 bits *)

Definition util_MaxInt64 (a b : Z) : Z := if bool_decide (a > b) then a else b.
Definition util_MinInt64 (a b : Z) : Z := if bool_decide (a < b) then a else b.
Definition MinUInt64 (a b : Z) : Z := if bool_decide (a < b) then a else b.

(** ** util/slice_util.go *)

(** [for _, v := range vs { if v == t { return true } }; return false], at each
    integer type. *)
Definition ContainUint (vs : list Z) (t : Z) : bool := ContainInt vs t.
Definition ContainInt32 (vs : list Z) (t : Z) : bool := ContainInt vs t.
Definition ContainUint32 (vs : list Z) (t : Z) : bool := ContainInt vs t.
Definition ContainInt64 (vs : list Z) (t : Z) : bool := ContainInt vs t.
Definition ContainUint64 (vs : list Z) (t : Z) : bool := ContainInt vs t.

(** The result is appended to a nil slice, which it stays when there is nothing to
    append. *)
Definition DistinctInt `{MapRange} (vs : list Z) : slice Z :=
  foldl (fun res kv => Some (elems res ++ [kv.1])) None (map_range (key_set vs)).

(** [utf8.RuneLen]: -1 for what is not a Unicode scalar value. *)
Definition RuneLen (r : Z) : Z :=
  if negb (bool_decide (scalar r)) then -1
  else if bool_decide (r < 0x80) then 1
  else if bool_decide (r < 0x800) then 2
  else if bool_decide (r < 0x10000) then 3
  else 4.

(** [count += utf8.EncodeRune(bs[count:], r)]: the encoding is written from
    [count] on; there has to be room for it. *)
Definition EncodeRune_at (bs : list Z) (count : nat) (r : Z) : res (list Z * nat) :=
  if bool_decide (length bs < count)%nat then Panic "slice bounds out of range"
  else
    let e := encode_rune r in
    if bool_decide (length bs - count < length e)%nat then Panic "index out of range"
    else Ok (take count bs ++ e ++ drop (count + length e) bs, (count + length e)%nat).

Fixpoint encode_runes (rs : list Z) (bs : list Z) (count : nat) : res (list Z) :=
  match rs with
  | [] => Ok bs
  | r :: rs => '(bs, count) ← EncodeRune_at bs count r; encode_runes rs bs count
  end.

Definition RunesToBytes (rs : list Z) : res (list Z) :=
  let size := foldl (fun size r => size + RuneLen r) 0 rs in
  if bool_decide (size < 0) then Panic "makeslice: len out of range"
  else encode_runes rs (replicate (Z.to_nat size) 0) 0.

(** ** util/type_util.go: conversions *)

(** The types of the constraint [Integer]; [int] and [uint] have 64 bits. *)
Inductive Integer := TInt (k : int_kind) | TUint (k : uint_kind).

Definition bits (t : Integer) : Z :=
  match t with
  | TInt KInt8 | TUint KUint8 => 8
  | TInt KInt16 | TUint KUint16 => 16
  | TInt KInt32 | TUint KUint32 => 32
  | TInt _ | TUint _ => 64
  end.

(** The values of a type. *)
Definition in_type (t : Integer) (z : Z) : Prop :=
  match t with
  | TInt _ => - 2 ^ (bits t - 1) <= z < 2 ^ (bits t - 1)
  | TUint _ => 0 <= z < 2 ^ bits t
  end.

(** [T(from)]: the low bits, as a number of the type. *)
Definition CastInteger (t : Integer) (from : Z) : Z :=
  match t with
  | TInt _ => (from + 2 ^ (bits t - 1)) mod 2 ^ bits t - 2 ^ (bits t - 1)
  | TUint _ => from mod 2 ^ bits t
  end.

(** [res := make([]T, len(from)); for i, e := range from { res[i] = T(e) }] *)
Definition CastIntegers (t : Integer) (from : list Z) : list Z :=
  foldl (fun res ie => <[ie.1 := CastInteger t ie.2]> res) (replicate (length from) 0) (imap pair from).

(** ** logger.go *)

Definition DebugLevel : Z := 0.
Definition InfoLevel : Z := 1.
Definition ErrorLevel : Z := 2.

(** What [fmt] prints: a format with its arguments, one per line. *)
Abbreviation LogLine := (string * list Values)%type (only parsing).

(** The package variable [LogLevel], and the console. *)
Record Console := { LogLevel : Z; stdout : list LogLine }.

Definition println (line : LogLine) : M Console unit :=
  modify (fun c => {| LogLevel := LogLevel c; stdout := stdout c ++ [line] |}).

(** The methods of [DefaultLogger]: [if LogLevel > level { return }]. *)
Definition logf (level : Z) (format : string) (v : list Values) : M Console unit :=
  c ← get; if bool_decide (LogLevel c > level) then mret tt else println (format, v).

Definition Debugf : string -> list Values -> M Console unit := logf DebugLevel.
Definition Infof : string -> list Values -> M Console unit := logf InfoLevel.
Definition Errorf : string -> list Values -> M Console unit := logf ErrorLevel.

Definition LogDebugIf (condition : bool) (format : string) (v : list Values) : M Console unit :=
  if condition then Debugf format v else mret tt.

Definition LogInfoIf (condition : bool) (format : string) (v : list Values) : M Console unit :=
  if condition then Infof format v else mret tt.

Definition LogErrIf (condition : bool) (format : string) (v : list Values) : M Console unit :=
  if condition then Errorf format v else mret tt.

Definition LogIfErr (err : option string) (format : string) (v : list Values) : M Console unit :=
  match err with
  | None => mret tt
  | Some e => _ ← Errorf format v; Errorf "Error:%s" [VStr e]
  end.

Definition LogErr (format : string) (v : list Values) : M Console unit := Errorf format v.
Definition LogInfo (format : string) (v : list Values) : M Console unit := Infof format v.
Definition LogDebug (format : string) (v : list Values) : M Console unit := Debugf format v.

(** ** Facts *)

Lemma ContainInt_spec vs t : ContainInt vs t = true <-> t ∈ vs.
Proof.
  induction vs as [|v vs IH]; simpl; [split; [done | intros Hx; elem_nil] |].
  rewrite elem_of_cons. case_bool_decide; naive_solver.
Qed.

Section DistinctIntFacts.
Context `{MapRange}.

Lemma DistinctInt_Distinct vs : elems (DistinctInt vs) = Distinct vs.
Proof.
  unfold DistinctInt, Distinct. generalize (map_range (key_set vs)) as l. intros l.
  assert (Hgen : forall acc, elems (foldl (fun (res : slice Z) (kv : Z * unit) => Some (elems res ++ [kv.1])) acc l)
                 = foldl (fun res kv => res ++ [kv.1]) (elems acc) l); [| apply (Hgen None)].
  induction l as [|kv l IH]; intros acc; simpl; [done | apply IH].
Qed.

(** The values, each once; nil when there are none. *)
Lemma DistinctInt_spec vs :
  NoDup (elems (DistinctInt vs)) /\ (forall z, z ∈ elems (DistinctInt vs) <-> z ∈ vs) /\
  (DistinctInt vs = None <-> vs = []).
Proof.
  rewrite DistinctInt_Distinct. split; [apply NoDup_Distinct |]. split; [intros z; apply elem_of_Distinct |].
  split.
  - intros Hn. destruct vs as [|v vs]; [done |]. exfalso.
    assert (v ∈ elems (DistinctInt (v :: vs))) as Hv by (rewrite DistinctInt_Distinct, elem_of_Distinct; by left).
    rewrite Hn in Hv. elem_nil.
  - intros ->. unfold DistinctInt, key_set. simpl. by rewrite map_range_empty.
Qed.

End DistinctIntFacts.

Lemma RuneLen_scalar r : scalar r -> RuneLen r = Z.of_nat (length (encode_rune r)).
Proof.
  intros Hr. unfold RuneLen, encode_rune. rewrite (bool_decide_eq_true_2 (scalar r)) by done.
  by repeat case_bool_decide.
Qed.

Lemma RuneLen_bound r : RuneLen r <= Z.of_nat (length (encode_rune r)) /\ (~ scalar r -> RuneLen r < Z.of_nat (length (encode_rune r))).
Proof.
  destruct (decide (scalar r)) as [Hr | Hr].
  - rewrite RuneLen_scalar by done. split; [lia | done].
  - unfold RuneLen. rewrite bool_decide_eq_false_2 by done. simpl. split; [lia |]. intros _. lia.
Qed.

Lemma foldl_RuneLen rs n : foldl (fun size r => size + RuneLen r) n rs = n + foldl (fun size r => size + RuneLen r) 0 rs.
Proof.
  revert n. induction rs as [|r rs IH]; intros n; simpl; [lia |]. rewrite IH, (IH (0 + RuneLen r)). lia.
Qed.

Lemma sum_RuneLen rs :
  foldl (fun size r => size + RuneLen r) 0 rs <= Z.of_nat (length (rs ≫= encode_rune)) /\
  (Forall scalar rs <-> foldl (fun size r => size + RuneLen r) 0 rs = Z.of_nat (length (rs ≫= encode_rune))).
Proof.
  induction rs as [|r rs [IHle IHeq]]; [simpl; split; [lia |]; split; [done | constructor] |].
  change ((r :: rs) ≫= encode_rune) with (encode_rune r ++ (rs ≫= encode_rune)). rewrite length_app. simpl.
  rewrite foldl_RuneLen, Nat2Z.inj_add. pose proof (RuneLen_bound r) as [Hle Hlt]. split; [lia |].
  rewrite Forall_cons, IHeq. split.
  - intros [Hr Heq]. rewrite RuneLen_scalar by done. lia.
  - intros Heq. destruct (decide (scalar r)) as [Hr | Hr]; [| specialize (Hlt Hr); lia].
    split; [done |]. rewrite RuneLen_scalar in Heq by done. lia.
Qed.

(** With enough room the runes are written one after the other; otherwise the
    loop panics. *)
Lemma encode_runes_spec rs pre rest :
  if bool_decide (length (rs ≫= encode_rune) <= length rest)%nat
  then encode_runes rs (pre ++ rest) (length pre) = Ok (pre ++ (rs ≫= encode_rune) ++ drop (length (rs ≫= encode_rune)) rest)
  else exists e, encode_runes rs (pre ++ rest) (length pre) = Panic e.
Proof.
  revert pre rest. induction rs as [|r rs IH]; intros pre rest; [done |].
  change ((r :: rs) ≫= encode_rune) with (encode_rune r ++ (rs ≫= encode_rune)). cbn [encode_runes].
  unfold EncodeRune_at. rewrite !length_app, (bool_decide_eq_false_2 (length pre + length rest < length pre)%nat) by lia.
  replace (length pre + length rest - length pre)%nat with (length rest) by lia.
  case_bool_decide as Hroom.
  - rewrite bool_decide_eq_false_2 by lia. cbn [mbind res_bind].
    rewrite take_app_length, (drop_app_add' pre rest) by done.
    specialize (IH (pre ++ encode_rune r) (drop (length (encode_rune r)) rest)).
    rewrite length_drop, bool_decide_eq_true_2, <- !app_assoc, length_app in IH by lia.
    by rewrite IH, drop_drop, <- !app_assoc.
  - case_bool_decide as Hr; [by eexists |]. cbn [mbind res_bind].
    rewrite take_app_length, (drop_app_add' pre rest) by done.
    specialize (IH (pre ++ encode_rune r) (drop (length (encode_rune r)) rest)).
    rewrite length_drop, bool_decide_eq_false_2, <- app_assoc, length_app in IH by lia. done.
Qed.

(** C39.  RunesToBytes is the UTF-8 encoding of Unicode scalar values, which Go's
    decoding turns back into the runes, and panics on every slice with another rune
    among them, since such a rune is counted as minus one byte and written as three. *)
Theorem runes_to_bytes rs :
  (Forall scalar rs -> exists bs, RunesToBytes rs = Ok bs /\ bs = rs ≫= encode_rune /\ utf8_decode bs = rs) /\
  (~ Forall scalar rs -> exists e, RunesToBytes rs = Panic e).
Proof.
  destruct (sum_RuneLen rs) as [Hle Heq]. unfold RunesToBytes.
  set (size := foldl _ 0 rs) in *.
  pose proof (encode_runes_spec rs [] (replicate (Z.to_nat size) 0)) as Hrun. simpl in Hrun.
  rewrite length_replicate in Hrun. split.
  - intros Hs. exists (rs ≫= encode_rune). split; [| split; [done | by apply decode_encode]].
    apply Heq in Hs. rewrite bool_decide_eq_false_2 by lia.
    rewrite bool_decide_eq_true_2 in Hrun by lia. rewrite Hrun.
    by rewrite drop_ge, app_nil_r by (rewrite length_replicate; lia).
  - intros Hs. assert (size <> Z.of_nat (length (rs ≫= encode_rune))) by tauto.
    destruct (decide (size < 0)) as [Hneg | Hpos]; [rewrite bool_decide_eq_true_2 by done; by eexists |].
    rewrite bool_decide_eq_false_2 in Hrun by lia. by rewrite (bool_decide_eq_false_2 (size < 0)).
Qed.

Lemma runes_to_bytes_witness :
  (exists bs, RunesToBytes [0x68; 0x4E2D; 0x1F600] = Ok bs /\
     bs = [0x68; 0xE4; 0xB8; 0xAD; 0xF0; 0x9F; 0x98; 0x80] /\ utf8_decode bs = [0x68; 0x4E2D; 0x1F600]) /\
  exists e, RunesToBytes [0x68; 0x68; 0xD800] = Panic e.
Proof.
  split.
  - apply (runes_to_bytes [0x68; 0x4E2D; 0x1F600]). repeat constructor; unfold scalar; lia.
  - apply (runes_to_bytes [0x68; 0x68; 0xD800]). intros Hs. unfold scalar in Hs.
    rewrite !Forall_cons in Hs. lia.
Defined.

(** *** Conversions *)

Lemma bits_pos t : 2 ^ bits t = 2 * 2 ^ (bits t - 1) /\ 0 < 2 ^ (bits t - 1).
Proof. destruct t as [[]|[]]; simpl; lia. Qed.

(** A conversion gives a value of the type, and keeps those that are one already. *)
Lemma CastInteger_spec t z :
  in_type t (CastInteger t z) /\ (in_type t z -> CastInteger t z = z) /\
  (CastInteger t z - z) mod 2 ^ bits t = 0.
Proof.
  destruct (bits_pos t) as [Hb Hp]. unfold in_type, CastInteger. rewrite Hb.
  set (h := 2 ^ (bits t - 1)) in *. clearbody h.
  destruct t as [k|k].
  - pose proof (Z.mod_pos_bound (z + h) (2 * h)) as Hm. split; [lia |]. split.
    + intros Hz. rewrite Z.mod_small by lia. lia.
    + replace ((z + h) mod (2 * h) - h - z) with ((z + h) mod (2 * h) - (z + h)) by lia.
      rewrite Zminus_mod_idemp_l, Z.sub_diag. apply Z.mod_0_l. lia.
  - pose proof (Z.mod_pos_bound z (2 * h)) as Hm. split; [lia |]. split.
    + intros Hz. rewrite Z.mod_small by lia. lia.
    + rewrite Zminus_mod_idemp_l, Z.sub_diag. apply Z.mod_0_l. lia.
Qed.

Lemma CastIntegers_map t from : CastIntegers t from = CastInteger t <$> from.
Proof.
  unfold CastIntegers.
  assert (Hgen : forall done todo, foldl (fun res ie => <[ie.1 := CastInteger t ie.2]> res)
      (done ++ replicate (length todo) 0) (imap (fun i x => (length done + i, x)%nat) todo)
    = done ++ (CastInteger t <$> todo)).
  { intros done todo. revert done. induction todo as [|z todo IH]; intros done; [by rewrite !app_nil_r |].
    rewrite imap_cons. cbn [foldl fst snd length replicate]. rewrite Nat.add_0_r.
    rewrite insert_app_r_alt, Nat.sub_diag by lia. cbn [insert list_insert].
    specialize (IH (done ++ [CastInteger t z])). rewrite <- !app_assoc in IH. simpl in IH.
    rewrite fmap_cons, <- IH. f_equal. apply imap_ext. intros i x _. simpl. f_equal. rewrite length_app. simpl. lia. }
  exact (Hgen [] from).
Qed.

(** int64 and uint64 convert back and forth without loss. *)
Lemma CastInteger_64 z :
  in_type (TInt KInt64) z -> CastInteger (TInt KInt64) (CastInteger (TUint KUint64) z) = z.
Proof.
  unfold in_type, CastInteger. simpl bits. intros Hz.
  rewrite Zplus_mod_idemp_l, Z.mod_small by lia. lia.
Qed.

(** *** The logger *)

Lemma logf_run level format v c :
  logf level format v c =
  ({| LogLevel := LogLevel c;
      stdout := stdout c ++ (if bool_decide (LogLevel c > level) then [] else [(format, v)]) |}, Ok tt).
Proof.
  unfold logf, mbind, M_bind, get. simpl. case_bool_decide; [| done].
  destruct c as [l out]. simpl. by rewrite app_nil_r.
Qed.

(** Messages, with the level of each. *)
Definition log_all (msgs : list (Z * LogLine)) : M Console unit :=
  forM msgs (fun m => logf m.1 m.2.1 m.2.2).

Lemma log_all_run msgs c :
  log_all msgs c =
  ({| LogLevel := LogLevel c; stdout := stdout c ++ (filter (fun m => LogLevel c <= m.1) msgs).*2 |}, Ok tt).
Proof.
  unfold log_all. revert c. induction msgs as [|[l [f v]] msgs IH]; intros c; cbn [forM].
  { destruct c as [l out]. simpl. by rewrite app_nil_r. }
  unfold mbind, M_bind. rewrite logf_run, IH. simpl. rewrite filter_cons. simpl.
  case_bool_decide; [rewrite decide_False by lia | rewrite decide_True by lia]; simpl;
    by rewrite ?app_nil_r, <- ?app_assoc.
Qed.

(** Raising [LogLevel] only takes lines away. *)
Lemma log_level_monotone msgs l l' out :
  l <= l' -> sublist (stdout (log_all msgs {| LogLevel := l'; stdout := out |}).1)
                     (stdout (log_all msgs {| LogLevel := l; stdout := out |}).1).
Proof.
  intros Hl. rewrite !log_all_run. simpl. apply sublist_app; [done |]. apply fmap_sublist.
  induction msgs as [|m msgs IH]; [done |]. rewrite !filter_cons.
  repeat case_decide; try lia; [by constructor | by constructor | done].
Qed.
