(* ===== verification/AhoHolder.v ===== *)
(** * The Aho-Corasick holder (holder/ahoholder)

    An expression lists keywords; a query is a text, and meets the expression when
    one of the keywords occurs in it.  The keywords of all expressions are compiled
    into one matching machine (package github.com/anknown/ahocorasick), which is a
    parameter with its documented behaviour.  The holder implements [HolderSpec]
    and its data round-trips through the document cache. *)

From Stdlib Require Import Strings.Byte.
From stdpp Require Import base sorting gmap strings numbers list.
From S2P Require Import Prelude GoValues Utf8 Ids Document Cursor FieldCursor Parsers Holder DefaultHolder.
Open Scope Z_scope.

(** ** The matching machine *)

(** [Build] of a list of keywords, and the words of the terms that
    [MultiPatternSearch(content, false)] returns, one for each occurrence. *)
Class AhoMachine (Mc : Type) := {
  aho_zero : Mc;
  aho_Build : list (list Z) -> res Mc;
  aho_MultiPatternSearch : Mc -> list Z -> list (list Z)
}.

(** [w] occurs in [content]. *)
Fixpoint occursb (w content : list Z) : bool :=
  bool_decide (take (length w) content = w) ||
  match content with
  | [] => false
  | _ :: content => occursb w content
  end.

(** The search finds the keywords that occur in the text.  What it makes of an
    empty keyword is not documented: it is left to a function of the text. *)
Class AhoMachineSpec (Mc : Type) `{AhoMachine Mc} := {
  aho_match_empty : list Z -> bool;
  aho_search_spec : forall keys m content w,
    aho_Build keys = Ok m ->
    w ∈ aho_MultiPatternSearch m content <->
    w ∈ keys /\ (if bool_decide (w = []) then aho_match_empty content else occursb w content) = true;
  aho_Build_outcome : forall keys, is_Ok (aho_Build keys) \/ is_Err (aho_Build keys)
}.

(** ** aho_match_helper.go *)

(** The string elements of an [[]interface{}], up to the first other element. *)
Fixpoint iface_strings (vs : list Values) : option (list string) :=
  match vs with
  | [] => Some []
  | VStr s :: vs => ss ← iface_strings vs; Some (s :: ss)
  | _ => None
  end.

Definition ParseAcMatchDict (values : Values) : res (list string) :=
  match values with
  | VStr v => Ok [v]
  | VUints KUint8 v => Ok [string_of_bytes (elems v)]
  | VStrs v => Ok (elems v)
  | VIfaces v =>
      match iface_strings (elems v) with
      | Some r => Ok r
      | None => Err "not string(able) value"
      end
  | _ => Err "not string(able) value"
  end.

(** [strings.Join]. *)
Fixpoint Join (sep : string) (ss : list string) : string :=
  match ss with
  | [] => ""
  | [s] => s
  | s :: ss => s +:+ sep +:+ Join sep ss
  end.

(** The loop over the elements of an [[]interface{}]; [idx] counts them. *)
Fixpoint content_loop (joinSep : string) (idx : nat) (vs : list Values) (data : list Z) : res (list Z) :=
  match vs with
  | [] => Ok data
  | VStr str :: vs =>
      let data := if bool_decide (0 < idx)%nat then data ++ runes_of joinSep else data in
      content_loop joinSep (S idx) vs (data ++ runes_of str)
  | _ => Err "not string type"
  end.

Definition BuildAcMatchContent (v : Values) (joinSep : string) : res (list Z) :=
  match v with
  | VStr tv => Ok (runes_of tv)
  | VStrs tv => Ok (runes_of (Join joinSep (elems tv)))
  | VIfaces tv => content_loop joinSep 0 (elems tv) []
  | _ => Err "not string type"
  end.

(** ** ahocorasick_holder.go *)

Record ACHolderOption := { QuerySep : string }.

Record AcHolderTxData := { atx_Keys : list string }.

Record ACEntriesHolder (Mc : Type) := {
  ac_option : ACHolderOption;
  ac_totalTokens : Z;
  ac_maxLen : Z;
  ac_avgLen : Z;
  ac_values : gmap string Entries;
  ac_machine : Mc
}.
Arguments ac_option {Mc} _.
Arguments ac_totalTokens {Mc} _.
Arguments ac_maxLen {Mc} _.
Arguments ac_avgLen {Mc} _.
Arguments ac_values {Mc} _.
Arguments ac_machine {Mc} _.

Section AhoHolder.
Context `{MapRange} `{ProtoStrList} {Mc : Type} `{AhoMachine Mc}.
Local Abbreviation Hd := (ACEntriesHolder Mc).

Definition NewACEntriesHolder (option : ACHolderOption) : Hd :=
  {| ac_option := option; ac_totalTokens := 0; ac_maxLen := 0; ac_avgLen := 0; ac_values := ∅;
     ac_machine := aho_zero |}.

Definition ac_Encode (txd : AcHolderTxData) : res (list byte) := proto_Marshal (atx_Keys txd).

Definition ac_DecodeFieldIndexingData (h : Hd) (data : list byte) : res AcHolderTxData :=
  if bool_decide (length data = 0%nat) then Ok {| atx_Keys := [] |}
  else vs ← proto_Unmarshal data; Ok {| atx_Keys := vs |}.

Definition ac_BuildFieldIndexingData (h : Hd) (field : FieldDesc) (bv : BoolValues) : Hd * res AcHolderTxData :=
  (h, if bool_decide (Operator bv <> ValueOptEQ)
      then Panic "ac_matcher container support EQ operator only"
      else match ParseAcMatchDict (Value bv) with
           | Ok keys => Ok {| atx_Keys := keys |}
           | Err e => Err "ac holder need string(able) value"
           | Panic e => Panic e
           | OutOfFuel => OutOfFuel
           end).

Definition set_ac_values (h : Hd) (values : gmap string Entries) : Hd :=
  {| ac_option := ac_option h; ac_totalTokens := ac_totalTokens h; ac_maxLen := ac_maxLen h;
     ac_avgLen := ac_avgLen h; ac_values := values; ac_machine := ac_machine h |}.

Definition ac_CommitFieldIndexingData (h : Hd) (field : FieldDesc) (eid : EntryID)
    (data : option AcHolderTxData) : Hd * res unit :=
  match data with
  | None => (h, Ok tt)
  | Some data => (set_ac_values h (foldl (fun m v => append_posting m v eid) (ac_values h) (atx_Keys data)), Ok tt)
  end.

(** [for _, term := range terms] *)
Fixpoint ac_term_loop (h : Hd) (field : FieldDesc) (terms : list (list Z)) (cursors : list EntriesCursor)
    : list EntriesCursor :=
  match terms with
  | [] => cursors
  | word :: terms =>
      let key := string_of_runes word in
      match ac_values h !! key with
      | Some pl =>
          if bool_decide (0 < length pl)%nat
          then ac_term_loop h field terms (cursors ++ [NewEntriesCursor (NewQKey (fd_Field field) (VStr key)) pl])
          else ac_term_loop h field terms cursors
      | None => ac_term_loop h field terms cursors
      end
  end.

Definition ac_GetEntries (h : Hd) (field : FieldDesc) (assigns : Values) : res (list EntriesCursor) :=
  if bool_decide (size (ac_values h) = 0%nat) then Ok []
  else
    buf ← BuildAcMatchContent assigns (QuerySep (ac_option h));
    if bool_decide (length buf = 0%nat) then Ok []
    else Ok (ac_term_loop h field (aho_MultiPatternSearch (ac_machine h) buf) []).

Definition ac_CompileEntries (h : Hd) : Hd * res unit :=
  let values := sortZ <$> ac_values h in
  let keys := (fun kv => runes_of kv.1) <$> map_range values in
  let total := foldl (fun total kv => total + Z.of_nat (length kv.2)) 0 (map_range values) in
  let h :=
    {| ac_option := ac_option h;
       ac_totalTokens := if bool_decide (0 < size values)%nat then Z.of_nat (size values) else ac_totalTokens h;
       ac_maxLen := foldl (fun m kv => if bool_decide (m < Z.of_nat (length kv.2))
                                       then Z.of_nat (length kv.2) else m) (ac_maxLen h) (map_range values);
       ac_avgLen := if bool_decide (0 < size values)%nat then Z.quot total (Z.of_nat (size values)) else ac_avgLen h;
       ac_values := values;
       ac_machine := ac_machine h |} in
  if bool_decide (length keys = 0%nat) then (h, Ok tt)
  else match aho_Build keys with
       | Ok machine =>
           ({| ac_option := ac_option h; ac_totalTokens := ac_totalTokens h; ac_maxLen := ac_maxLen h;
               ac_avgLen := ac_avgLen h; ac_values := ac_values h; ac_machine := machine |}, Ok tt)
       | Err e => (h, Err e)
       | Panic e => (h, Panic e)
       | OutOfFuel => (h, OutOfFuel)
       end.

#[export] Instance ACEntriesHolder_holder : EntriesHolder Hd AcHolderTxData := {
  GetEntries := ac_GetEntries;
  BuildFieldIndexingData := ac_BuildFieldIndexingData;
  CommitFieldIndexingData := ac_CommitFieldIndexingData;
  DecodeFieldIndexingData := ac_DecodeFieldIndexingData;
  Encode := ac_Encode;
  CompileEntries := ac_CompileEntries
}.

(** The builder that the package registers for [HolderNameACMatcher]. *)
Definition ac_builder : Hd := NewACEntriesHolder {| QuerySep := " " |}.

(** ** Keywords in a text *)

Context `{!AhoMachineSpec Mc}.

(** The keyword [k] is found in the text: it is well-formed UTF-8 (another one is
    not found again under its own name) and occurs. *)
Definition keyword_hit (content : list Z) (k : string) : bool :=
  utf8_valid k &&
  (if bool_decide (runes_of k = []) then aho_match_empty content else occursb (runes_of k) content).

Definition ac_hits_with (sep : string) (x : AcHolderTxData) (v : Values) : bool :=
  match BuildAcMatchContent v sep with
  | Ok content => bool_decide (0 < length content)%nat && existsb (keyword_hit content) (atx_Keys x)
  | _ => false
  end.

Lemma BuildAcMatchContent_outcome v sep :
  is_Ok (BuildAcMatchContent v sep) \/ is_Err (BuildAcMatchContent v sep).
Proof.
  assert (Hloop : forall vs idx data, is_Ok (content_loop sep idx vs data) \/ is_Err (content_loop sep idx vs data)).
  { induction vs as [|v0 vs IH]; intros idx data; [left; by eexists |]. cbn [content_loop].
    destruct v0; try (right; by eexists). apply IH. }
  destruct v; simpl; try (right; by eexists); try (left; by eexists). apply Hloop.
Qed.

Lemma BuildAcMatchContent_nil v sep content :
  is_nil v = true -> BuildAcMatchContent v sep = Ok content -> content = [].
Proof.
  destruct v as [| | | | | |l| | | | |l| | | |]; simpl; try done.
  - rewrite bool_decide_eq_true. intros ->. by intros [= <-].
  - destruct l; [done |]. by intros _ [= <-].
Qed.

(** The cursors of a query are those of the words found. *)
Lemma elem_of_ac_term_loop h field terms cursors ec :
  ec ∈ ac_term_loop h field terms cursors <-> ec ∈ cursors \/
    exists w l, w ∈ terms /\ ac_values h !! string_of_runes w = Some l /\ l <> [] /\
      ec = NewEntriesCursor (NewQKey (fd_Field field) (VStr (string_of_runes w))) l.
Proof.
  revert cursors. induction terms as [|w terms IH]; intros cursors; cbn [ac_term_loop].
  { split; [auto | intros [? | (? & ? & Hx & _)]; [done | elem_nil]]. }
  setoid_rewrite elem_of_cons. destruct (ac_values h !! string_of_runes w) as [l|] eqn:Hl.
  - case_bool_decide as Hlen; rewrite IH.
    + rewrite elem_of_app, list_elem_of_singleton. assert (l <> []) by (intros ->; simpl in Hlen; lia). naive_solver.
    + assert (l = []) by (destruct l; [done | simpl in Hlen; lia]). naive_solver.
  - rewrite IH. naive_solver.
Qed.

(** ** The holder contract *)

(** A registry of Aho-Corasick holders: fresh ones, under names of their own. *)
Definition ac_factory_ok (factory : gmap string Hd) : Prop :=
  forall name h, factory !! name = Some h -> name <> HolderNameDefault /\ ac_values h = ∅.

Section Spec.
Variable factory : gmap string Hd.
Hypothesis Hfactory : ac_factory_ok factory.

Definition ac_sep (name : string) : string :=
  match factory !! name with Some h => QuerySep (ac_option h) | None => "" end.

Definition ac_holds (h : Hd) (txs : Txs AcHolderTxData) : Prop :=
  forall key e, e ∈ default [] (ac_values h !! key) <-> exists d x, (d, e, x) ∈ txs /\ key ∈ atx_Keys x.

Definition ac_rep (name : string) (h : Hd) (txs : Txs AcHolderTxData) : Prop :=
  (exists h0, factory !! name = Some h0 /\ ac_option h = ac_option h0) /\ ac_holds h txs.

Definition ac_compiled (name : string) (h : Hd) (txs : Txs AcHolderTxData) : Prop :=
  ac_rep name h txs /\ (forall key l, ac_values h !! key = Some l -> StronglySorted Z.le l) /\
  (ac_values h = ∅ \/
   exists keys, aho_Build keys = Ok (ac_machine h) /\
     forall w, w ∈ keys <-> exists key, is_Some (ac_values h !! key) /\ w = runes_of key).

Lemma ac_compile_spec name h txs h' r :
  ac_rep name h txs -> ac_CompileEntries h = (h', r) ->
  match r with
  | Ok _ => ac_compiled name h' txs
  | Err _ => True
  | _ => False
  end.
Proof.
  intros [Hmade Hh] Hc. unfold ac_CompileEntries in Hc. unfold ac_holds in Hh.
  assert (Hsorted : forall key l, (sortZ <$> ac_values h) !! key = Some l -> StronglySorted Z.le l).
  { intros key l. rewrite lookup_fmap. destruct (ac_values h !! key); simpl; [| done]. intros [= <-]. apply sortZ_sorted. }
  assert (Hholds : forall key e, e ∈ default [] ((sortZ <$> ac_values h) !! key) <->
    exists d x, (d, e, x) ∈ txs /\ key ∈ atx_Keys x).
  { intros key e. rewrite lookup_fmap, <- Hh. destruct (ac_values h !! key); simpl; [by rewrite elem_of_sortZ | done]. }
  revert Hc. case_bool_decide as Hlen.
  - intros [= <- <-]. split; [done |]. split; [done |]. left. simpl.
    rewrite length_fmap, length_map_range in Hlen. by apply map_size_empty_inv.
  - pose proof (aho_Build_outcome ((fun kv => runes_of kv.1) <$> map_range (sortZ <$> ac_values h))) as Hout.
    destruct (aho_Build _) as [m|e|e|] eqn:Hb; intros [= <- <-];
      [| done | by destruct Hout as [[? [=]] | [? [=]]] ..].
    split; [done |]. split; [done |]. right. eexists. split; [exact Hb |]. intros w. simpl. rewrite list_elem_of_fmap. split.
    + intros ([key l] & -> & Hin%elem_of_map_range). exists key. split; [by eexists | done].
    + intros (key & [l Hl] & ->). exists (key, l). by rewrite elem_of_map_range.
Qed.

(** Which posting lists a search reaches. *)
Lemma ac_found name h txs content key l :
  ac_compiled name h txs -> ac_values h !! key = Some l ->
  (exists w, w ∈ aho_MultiPatternSearch (ac_machine h) content /\ string_of_runes w = key) <->
  keyword_hit content key = true.
Proof.
  intros (_ & _ & [Hemp | (keys & Hb & Hkeys)]) Hl; [by rewrite Hemp, lookup_empty in Hl |].
  unfold keyword_hit, utf8_valid. rewrite andb_true_iff, bool_decide_eq_true. split.
  - intros (w & Hw & <-). apply (aho_search_spec keys) in Hw as [Hw Hocc]; [| done].
    apply Hkeys in Hw as (key' & _ & ->). by rewrite !runes_of_string_of_runes.
  - intros [Hv Hocc]. exists (runes_of key). split; [| done]. apply (aho_search_spec keys); [done |].
    split; [| done]. apply Hkeys. exists key. split; [by eexists | done].
Qed.

Lemma ac_get_spec name h txs d v :
  ac_compiled name h txs -> Forall (fun tx => valid_eid tx.1.2) txs -> scope_ok name txs d ->
  match ac_GetEntries h d v with
  | Ok cs => cursors_ok cs /\
      forall e, e ∈ (cs ≫= ec_entries) <-> exists x, (d, e, x) ∈ txs /\ ac_hits_with (ac_sep name) x v = true
  | OutOfFuel => False
  | _ => match BuildAcMatchContent v (ac_sep name) with Ok _ => true | _ => false end = false
  end.
Proof.
  intros Hc Hvalid Hscope. pose proof Hc as ([(h0 & Hh0 & Hopt) Hh] & Hsorted & _). rewrite Forall_forall in Hvalid.
  destruct (Hfactory name h0 Hh0) as [Hname _].
  assert (Hsep : ac_sep name = QuerySep (ac_option h)) by (unfold ac_sep; by rewrite Hh0, Hopt).
  assert (Hnone : (forall x e, (d, e, x) ∈ txs -> ac_hits_with (ac_sep name) x v = false) ->
    cursors_ok [] /\ forall e, e ∈ ([] ≫= ec_entries) <-> exists x, (d, e, x) ∈ txs /\ ac_hits_with (ac_sep name) x v = true).
  { intros Hno. split; [constructor |]. intros e. split; [intros Hx; elem_nil |]. intros (x & Hin & Hhit).
    by rewrite (Hno x e Hin) in Hhit. }
  unfold ac_GetEntries. case_bool_decide as Hsize.
  { apply map_size_empty_inv in Hsize. apply Hnone. intros x e Hin. unfold ac_hits_with.
    destruct (BuildAcMatchContent _ _); try done. apply andb_false_iff. right. apply not_true_iff_false.
    intros (k & Hk%list_elem_of_In & _)%existsb_exists. pose proof (proj2 (Hh k e) (ex_intro _ d (ex_intro _ x (conj Hin Hk)))) as He.
    rewrite Hsize, lookup_empty in He. simpl in He. elem_nil. }
  rewrite <- Hsep. pose proof (BuildAcMatchContent_outcome v (ac_sep name)) as Hout.
  destruct (BuildAcMatchContent v (ac_sep name)) as [content|e|e|] eqn:Hcont; [| done | done | by destruct Hout as [[? [=]] | [? [=]]]].
  unfold mbind, res_bind. cbn beta iota. case_bool_decide as Hlen.
  { apply Hnone. intros x e _. unfold ac_hits_with. rewrite Hcont, Hlen. done. }
  split.
  - unfold cursors_ok. rewrite Forall_forall. intros ec [Hx | (w & l & _ & Hl & Hlne & ->)]%elem_of_ac_term_loop; [elem_nil |].
    split; [| done]. apply NewEntriesCursor_at; [by eapply Hsorted |]. apply Forall_forall. intros e He.
    destruct (proj1 (Hh (string_of_runes w) e)) as (d' & x & Hin & _); [by rewrite Hl |]. by apply (Hvalid (d', e, x)).
  - intros e. rewrite list_elem_of_bind. unfold ac_hits_with. rewrite Hcont.
    rewrite bool_decide_eq_true_2 by lia. cbn [andb]. setoid_rewrite existsb_exists. setoid_rewrite <- list_elem_of_In. split.
    + intros (ec & He & [Hx | (w & l & Hw & Hl & Hlne & ->)]%elem_of_ac_term_loop); [elem_nil |]. simpl in He.
      destruct (proj1 (Hh (string_of_runes w) e)) as (d' & x & Hin & Hk); [by rewrite Hl |].
      assert (d' = d) as -> by by apply (Hscope d' e x Hin). exists x. split; [done |]. exists (string_of_runes w).
      split; [done |]. apply (ac_found name h txs content _ l Hc Hl). by exists w.
    + intros (x & Hin & key & Hk & Hhit). assert (He : e ∈ default [] (ac_values h !! key)) by (apply Hh; eauto).
      destruct (ac_values h !! key) as [l|] eqn:Hl; simpl in He; [| elem_nil].
      destruct (proj2 (ac_found name h txs content key l Hc Hl) Hhit) as (w & Hw & Hwk).
      eexists. split; [| apply elem_of_ac_term_loop; right; exists w, l; rewrite Hwk; split_and!; try done].
      * done.
      * intros ->. elem_nil.
Qed.

Definition AhoHolder_spec : HolderSpec Hd AcHolderTxData factory.
Proof.
  refine {| data_hits := fun name _ => ac_hits_with (ac_sep name);
            assign_ok := fun name _ v => match BuildAcMatchContent v (ac_sep name) with Ok _ => true | _ => false end;
            data_ok := fun _ _ => True; holder_rep := ac_rep; holder_compiled := ac_compiled |}.
  - intros name h Hh. split; [eauto |]. intros key e. rewrite (proj2 (Hfactory name h Hh)), lookup_empty. simpl.
    split; [intros Hx; elem_nil | intros (d & x & Hx & _); elem_nil].
  - intros name h txs d bv h' r [(h0 & Hh0 & Hopt) Hh] [= <- <-]. split; [split; [eauto | done] |].
    unfold build_data. by rewrite Hh0.
  - done.
  - done.
  - intros name d bv. unfold build_data. destruct (factory !! name) as [h|]; [| done]. simpl.
    case_bool_decide; [done |]. destruct (Value bv) as [| | | | | | | | |k| |l| | | |]; simpl; try done.
    + by destruct k.
    + by destruct (iface_strings (elems l)).
  - intros name h txs d e x [Hmade Hh] _. unfold ac_holds in Hh. eexists. split; [done |]. split; [done |]. intros key e'. simpl.
    rewrite elem_of_append_postings, (Hh key e'). setoid_rewrite elem_of_app. setoid_rewrite list_elem_of_singleton. split.
    + intros [(d' & x' & Hin & Hk) | [Hk ->]]; [exists d', x' | exists d, x]; auto.
    + intros (d' & x' & [Hin | [= -> -> ->]] & Hk); [left; eauto | by right].
  - intros name h txs h' r. apply ac_compile_spec.
  - intros name h txs d v. apply ac_get_spec.
  - intros name d x v Hnil. unfold ac_hits_with. destruct (BuildAcMatchContent v (ac_sep name)) as [content|e|e|] eqn:Hc; try done.
    by rewrite (BuildAcMatchContent_nil v _ _ Hnil Hc).
Defined.

#[local] Existing Instance AhoHolder_spec.

Lemma ac_cache_spec `{!ProtoStrListSpec} : HolderCacheSpec (factory:=factory) Hd AcHolderTxData.
Proof.
  split. intros name h txs [vs] bytes _ _ Henc. simpl in *. unfold ac_Encode in Henc. simpl in Henc.
  unfold ac_DecodeFieldIndexingData. case_bool_decide as Hl.
  - apply nil_length_inv in Hl as ->. by rewrite (Marshal_empty vs Henc).
  - by rewrite (Unmarshal_Marshal vs bytes Henc).
Qed.

End Spec.
End AhoHolder.
