(* ===== verification/GeoHash.v ===== *)
(** * The geohash parser (parser/geohash_parser.go)

    An expression lists regions [lat:lon:radius]; each becomes the geohash cells
    that cover it.  A query is a coordinate, and becomes the prefixes of its own
    geohash, from the shortest to the longest cell length.  The covering of a
    region and the hash of a coordinate are computed by other packages
    (github.com/echoface/proximityhash, github.com/mmcloughlin/geohash): they are
    parameters. *)

From Stdlib Require Import SpecFloat Ascii String.
From stdpp Require Import base sorting gmap strings numbers list.
From S2P Require Import Prelude GoValues Ids Document Cursor FieldCursor Parsers Holder DefaultHolder.
Open Scope Z_scope.

(** ** Definitions *)

Class GeoHashLib := {
  CreateGeohash : spec_float -> spec_float -> spec_float -> Z -> list string;
  CompressGeoHash : list string -> Z -> Z -> list string;
  geohash_Encode : spec_float -> spec_float -> string;
  ConvertStringToInt : string -> Z
}.

(** What is documented: the hash of a coordinate has 12 characters. *)
Class GeoHashLibSpec `{GeoHashLib} : Prop := {
  Encode_length : forall lat lon, String.length (geohash_Encode lat lon) = 12%nat
}.

Record GeoOption := {
  Precision : Z;
  CompressPrecisionMin : Z;
  CompressPrecisionCutoff : Z
}.

Definition DefaultGeoHashOption : GeoOption :=
  {| Precision := 6; CompressPrecisionMin := 3; CompressPrecisionCutoff := 6 |}.

Definition InitDefault (p : GeoOption) : GeoOption :=
  let precision := if bool_decide (Precision p = 0) then 6 else Precision p in
  let min := if bool_decide (CompressPrecisionMin p = 0) then 4 else CompressPrecisionMin p in
  let cutoff := if bool_decide (CompressPrecisionCutoff p = 0) then 6 else CompressPrecisionCutoff p in
  {| Precision := precision; CompressPrecisionMin := min; CompressPrecisionCutoff := MinInt cutoff precision |}.

(** The parser is its option. *)
Definition NewGeoHashParser (option : option GeoOption) : GeoOption :=
  InitDefault (default DefaultGeoHashOption option).

Section GeoHash.
Context `{MapRange} `{GoFloat} `{GeoHashLib}.

Definition parseLatLonRadius (s : string) : res (spec_float * spec_float * spec_float) :=
  match Split ":" s with
  | [s0; s1; s2] =>
      match ParseFloat s0 with
      | None => Err "strconv.ParseFloat"
      | Some lat =>
          match ParseFloat s1 with
          | None => Err "strconv.ParseFloat"
          | Some lon =>
              match ParseFloat s2 with
              | None => Err "strconv.ParseFloat"
              | Some r => Ok (lat, lon, r)
              end
          end
      end
  | _ => Err "fmt error, need lat:lon:radius"
  end.

Definition genGeoHash (p : GeoOption) (v : string) : res (list string) :=
  t ← parseLatLonRadius v;
  let '(lat, lon, r) := t in
  let codes := CreateGeohash lat lon r (u64 (Precision p)) in
  Ok (CompressGeoHash codes (CompressPrecisionMin p) (CompressPrecisionCutoff p)).

(** [geohashCode[:i]] *)
Definition str_prefix (s : string) (i : Z) : res string :=
  if bool_decide (0 <= i <= Z.of_nat (String.length s)) then Ok (String.substring 0 (Z.to_nat i) s)
  else Panic "slice bounds out of range".

(** The most strings that a slice can be made for. *)
Definition maxStrings : Z := 2 ^ 44.

(** [for i := p.CompressPrecisionMin; i <= p.Precision; i++] *)
Definition genQueryAssignGeoHash (p : GeoOption) (lat lon : spec_float) : res (list string) :=
  if bool_decide (Precision p < 0) || bool_decide (Precision p > maxStrings) then Panic "makeslice: cap out of range"
  else map_res (str_prefix (geohash_Encode lat lon))
         (seqZ (CompressPrecisionMin p) (Precision p - CompressPrecisionMin p + 1)).

Definition geo_TokenizeAssign (p : GeoOption) (v : Values) : res (list string) :=
  match v with
  | VArrFloat64_2 lat lon => genQueryAssignGeoHash p lat lon
  | VFloats KFloat64 value =>
      match elems value with
      | [lat; lon] => genQueryAssignGeoHash p lat lon
      | _ => Err "need lat/lon value"
      end
  | _ => Err "bad query assign fmt, need [lat, lon]"
  end.

Definition geo_ParseAssign (p : GeoOption) (v : Values) : res (list Z) :=
  codes ← geo_TokenizeAssign p v; Ok (ConvertStringToInt <$> (codes : list string)).

(** The loop over the regions of a slice. *)
Fixpoint geo_regions (p : GeoOption) (vs : list (option string)) (results : list string) : res (list string) :=
  match vs with
  | [] => Ok results
  | None :: _ => Err "need format like lat:lon:radius"
  | Some s :: vs => parts ← genGeoHash p s; geo_regions p vs (results ++ parts)
  end.

Definition geo_TokenizeValue (p : GeoOption) (v : Values) : res (list string) :=
  match v with
  | VStr value => genGeoHash p value
  | VStrs value => results ← geo_regions p (Some <$> elems value) []; Ok (DistinctString results)
  | VIfaces value =>
      results ← geo_regions p ((fun vi => match vi with VStr s => Some s | _ => None end) <$> elems value) [];
      Ok (DistinctString results)
  | _ => Err "unsupported geohash type"
  end.

Definition geo_ParseValue (p : GeoOption) (v : Values) : res (list Z) :=
  codes ← geo_TokenizeValue p v; Ok (ConvertStringToInt <$> (codes : list string)).

(** The parser as a tokenizer of the default holder. *)
Definition geo_tokenizer (p : GeoOption) : ValueTokenizer :=
  {| TokenizeAssign := geo_TokenizeAssign p; TokenizeValue := geo_TokenizeValue p |}.

(** ** Facts *)

Lemma genGeoHash_outcome p s : is_Ok (genGeoHash p s) \/ is_Err (genGeoHash p s).
Proof.
  unfold genGeoHash. destruct (parseLatLonRadius s) as [[[lat lon] r]|e|e|] eqn:Hp; simpl; [left; by eexists | right; by eexists | |];
    unfold parseLatLonRadius in Hp; repeat case_match; discriminate.
Qed.

(** The cells of one region, of none when its text is malformed. *)
Definition region_cells (p : GeoOption) (s : string) : list string :=
  match genGeoHash p s with Ok codes => codes | _ => [] end.

Lemma geo_regions_spec p vs : forall results,
  match geo_regions p vs results with
  | Ok cells => Forall (fun o => exists s, o = Some s /\ is_Ok (genGeoHash p s)) vs /\
                cells = results ++ (vs ≫= from_option (region_cells p) [])
  | Err _ => ~ Forall (fun o => exists s, o = Some s /\ is_Ok (genGeoHash p s)) vs
  | _ => False
  end.
Proof.
  induction vs as [|[s|] vs IH]; intros results; cbn [geo_regions].
  - split; [constructor | by rewrite app_nil_r].
  - destruct (genGeoHash_outcome p s) as [[codes Hc] | [e He]].
    + rewrite Hc. unfold mbind at 1, res_bind. specialize (IH (results ++ codes)).
      destruct (geo_regions p vs (results ++ codes)) as [cells|e|e|]; [| | done | done].
      * destruct IH as [Hall ->]. split; [constructor; [exists s; split; [done | by eexists] | done] |].
        rewrite <- app_assoc. cbn. unfold region_cells at 2. by rewrite Hc.
      * by intros [_ ?]%Forall_cons.
    + rewrite He. simpl. intros [(s' & Hs & c & Hc) _]%Forall_cons. congruence.
  - by intros [(s' & Hs & _) _]%Forall_cons.
Qed.

Lemma string_length_app s t : String.length (s +:+ t) = (String.length s + String.length t)%nat.
Proof. induction s as [|c s IH]; [done |]. simpl. by rewrite <- IH. Qed.

(** The prefixes of a string, cut at the given lengths. *)
Lemma str_prefix_spec s i t :
  str_prefix s i = Ok t <-> Z.of_nat (String.length t) = i /\ exists rest, s = t +:+ rest.
Proof.
  unfold str_prefix. case_bool_decide as Hi.
  - assert (Hcut : forall n s, (n <= String.length s)%nat ->
      String.length (String.substring 0 n s) = n /\ exists rest, s = String.substring 0 n s +:+ rest).
    { clear. induction n as [|n IH]; intros s Hn; [destruct s; (split; [done | by eexists]) | destruct s as [|c s]; simpl in Hn; [lia |]].
      destruct (IH s ltac:(lia)) as [Hl [rest Hr]]. simpl. split; [by rewrite Hl |]. exists rest. by rewrite Hr at 1. }
    assert (Happ : forall t rest, String.substring 0 (String.length t) (t +:+ rest) = t).
    { clear. induction t as [|c t IH]; intros rest; simpl; [by destruct rest | by rewrite IH]. }
    destruct (Hcut (Z.to_nat i) s ltac:(lia)) as [Hl [rest Hr]]. split.
    + intros [= <-]. split; [lia | by exists rest].
    + intros [Hlen [rest' ->]]. by rewrite <- Hlen, Nat2Z.id, Happ.
  - split; [done |]. intros [Hlen [rest ->]]. destruct Hi. rewrite string_length_app. lia.
Qed.

Lemma map_res_panic {A C} (f : A -> res C) xs :
  (forall x, x ∈ xs -> is_Ok (f x) \/ exists e, f x = Panic e) ->
  is_Ok (map_res f xs) \/ exists e, map_res f xs = Panic e.
Proof.
  induction xs as [|x xs IH]; intros Hf; [left; by eexists |]. cbn [map_res].
  destruct (Hf x (list_elem_of_here _ _)) as [[y ->] | [e ->]]; [| right; by eexists].
  destruct IH as [[ys ->] | [e ->]]; [intros ? ?; apply Hf; by right | left; by eexists | right; by eexists].
Qed.

Lemma map_res_all {A C} (f : A -> res C) xs : (forall x, x ∈ xs -> is_Ok (f x)) -> is_Ok (map_res f xs).
Proof.
  induction xs as [|x xs IH]; intros Hf; [by eexists |]. cbn [map_res].
  destruct (Hf x (list_elem_of_here _ _)) as [y ->]. destruct IH as [ys ->]; [intros ? ?; apply Hf; by right | by eexists].
Qed.

Lemma elem_of_map_res {A C} (f : A -> res C) xs ys y :
  map_res f xs = Ok ys -> y ∈ ys <-> exists x, x ∈ xs /\ f x = Ok y.
Proof.
  rewrite map_res_Ok. induction 1 as [|x y' xs ys Hf _ IH].
  - split; [intros Hy; elem_nil | intros (x & Hx & _); elem_nil].
  - rewrite elem_of_cons, IH. setoid_rewrite elem_of_cons. split; [naive_solver |].
    intros (x' & [-> | Hx] & Hfx); [left; congruence | eauto].
Qed.

Lemma genQueryAssignGeoHash_outcome p lat lon :
  is_Ok (genQueryAssignGeoHash p lat lon) \/ exists e, genQueryAssignGeoHash p lat lon = Panic e.
Proof.
  unfold genQueryAssignGeoHash. destruct (_ || _); [right; by eexists |]. apply map_res_panic.
  intros i _. unfold str_prefix. case_bool_decide; [left | right]; by eexists.
Qed.

(** The tokens of a coordinate: its geohash, cut at each length of the option. *)
Lemma genQueryAssignGeoHash_spec `{!GeoHashLibSpec} p lat lon :
  0 <= CompressPrecisionMin p -> 0 <= Precision p <= 12 ->
  exists toks, genQueryAssignGeoHash p lat lon = Ok toks /\
    forall t, t ∈ toks <-> CompressPrecisionMin p <= Z.of_nat (String.length t) <= Precision p /\
                          exists rest, geohash_Encode lat lon = t +:+ rest.
Proof.
  intros Hmin Hprec. unfold genQueryAssignGeoHash.
  rewrite !bool_decide_eq_false_2 by (unfold maxStrings; lia). cbn [orb].
  set (cuts := seqZ _ _). assert (Hcuts : forall i, i ∈ cuts <-> CompressPrecisionMin p <= i <= Precision p)
    by (intros i; unfold cuts; rewrite elem_of_seqZ; lia). clearbody cuts.
  assert (Hok : forall i, i ∈ cuts -> exists t, str_prefix (geohash_Encode lat lon) i = Ok t).
  { intros i Hi%Hcuts. unfold str_prefix. rewrite Encode_length, bool_decide_eq_true_2 by lia. by eexists. }
  destruct (map_res_all (str_prefix (geohash_Encode lat lon)) cuts) as [toks Ht].
  - exact Hok.
  - exists toks. split; [done |]. intros t. rewrite (elem_of_map_res _ _ _ _ Ht). setoid_rewrite Hcuts.
    setoid_rewrite str_prefix_spec. naive_solver.
Qed.

Lemma geo_TokenizeValue_outcome p v : is_Ok (geo_TokenizeValue p v) \/ is_Err (geo_TokenizeValue p v).
Proof.
  assert (Hloop : forall vs, is_Ok (results ← geo_regions p vs []; Ok (DistinctString results)) \/
                             is_Err (results ← geo_regions p vs []; Ok (DistinctString results))).
  { intros vs. pose proof (geo_regions_spec p vs []) as Hr.
    destruct (geo_regions p vs []); [left; by eexists | right; by eexists | done | done]. }
  destruct v; simpl; try (right; by eexists); [apply genGeoHash_outcome | apply Hloop | apply Hloop].
Qed.

(** The parser can be registered for a field of the default holder. *)
Lemma geo_tokenizer_ok p : tokenizer_ok (geo_tokenizer p).
Proof.
  split; [| split]; simpl.
  - intros v Hv. destruct (geo_TokenizeValue_outcome p v) as [[? Hx] | [? Hx]]; congruence.
  - intros v Hv. destruct v as [| | | | |k l| | | | |k l| | | | |]; simpl in Hv; try done.
    + destruct k; try done. destruct (elems l) as [|lat [|lon [|? ?]]]; try done.
      destruct (genQueryAssignGeoHash_outcome p lat lon) as [[? Hx] | [? Hx]]; congruence.
    + destruct (genQueryAssignGeoHash_outcome p a b) as [[? Hx] | [? Hx]]; congruence.
  - intros v ss Hn. destruct v; simpl in *; try done. destruct k; try done. by destruct l.
Qed.

End GeoHash.
