(* ===== verification/HolderSum.v ===== *)
(** * Holders of two kinds in one registry (entries_holder_factory.go)

    The Go interface is implemented by several holder types, which the registry
    of builders mixes freely; the data of a field is passed around as an interface
    value and asserted to the holder's own type.  A holder of one of two kinds is
    a sum, a method call a dispatch on it; the sum keeps the contract when both
    kinds do. *)

From Stdlib Require Import Strings.Byte.
From stdpp Require Import base sorting gmap strings numbers list.
From S2P Require Import Prelude GoValues Ids Document Cursor FieldCursor Holder DefaultHolder RangeHolder.
From S2P Require Import OptimizedRange AhoHolder.
Open Scope Z_scope.

(** ** Definitions *)

(** How [CommitFieldIndexingData] of a holder ends when the type assertion on
    [tx.Data] fails. *)
Class WrongData (H : Type) := wrong_data : H -> res unit.

#[export] Instance DefaultEntriesHolder_wrong : WrongData DefaultEntriesHolder := fun _ =>
  Panic "bad TxData need *StringTxData, oops".

#[export] Instance RangeHolder_wrong : WrongData RangeHolder := fun _ => Panic "interface conversion".

#[export] Instance OptimizedRangeHolder_wrong : WrongData OptimizedRangeHolder := fun _ => Panic "interface conversion".

#[export] Instance ACEntriesHolder_wrong Mc : WrongData (ACEntriesHolder Mc) := fun _ => Err "invalid Tx.Data type".

Section Sum.
Context {H1 D1 H2 D2 : Type} `{EntriesHolder H1 D1} `{EntriesHolder H2 D2} `{WrongData H1} `{WrongData H2}.

#[export] Instance Sum_wrong_data : WrongData (H1 + H2) := fun h =>
  match h with inl h1 => wrong_data h1 | inr h2 => wrong_data h2 end.

(** A holder commits data of its own type; its type assertion fails on the data of
    the other kind. *)
Definition sum_commit (h : H1 + H2) (field : FieldDesc) (eid : EntryID) (data : option (D1 + D2))
    : (H1 + H2) * res unit :=
  match h, data with
  | inl h1, None => let '(h1, r) := CommitFieldIndexingData h1 field eid None in (inl h1, r)
  | inr h2, None => let '(h2, r) := CommitFieldIndexingData h2 field eid None in (inr h2, r)
  | inl h1, Some (inl x) => let '(h1, r) := CommitFieldIndexingData h1 field eid (Some x) in (inl h1, r)
  | inr h2, Some (inr x) => let '(h2, r) := CommitFieldIndexingData h2 field eid (Some x) in (inr h2, r)
  | inl h1, Some (inr _) => (h, wrong_data h1)
  | inr h2, Some (inl _) => (h, wrong_data h2)
  end.

Definition sum_build (h : H1 + H2) (field : FieldDesc) (bv : BoolValues) : (H1 + H2) * res (D1 + D2) :=
  match h with
  | inl h1 => let '(h1, r) := BuildFieldIndexingData h1 field bv in (inl h1, inl <$> r)
  | inr h2 => let '(h2, r) := BuildFieldIndexingData h2 field bv in (inr h2, inr <$> r)
  end.

#[export] Instance Sum_holder : EntriesHolder (H1 + H2) (D1 + D2) := {
  GetEntries h field v := match h with inl h1 => GetEntries h1 field v | inr h2 => GetEntries h2 field v end;
  BuildFieldIndexingData := sum_build;
  CommitFieldIndexingData := sum_commit;
  DecodeFieldIndexingData h data :=
    match h with
    | inl h1 => inl <$> DecodeFieldIndexingData h1 data
    | inr h2 => inr <$> DecodeFieldIndexingData h2 data
    end;
  Encode x := match x with inl x => Encode x | inr x => Encode x end;
  CompileEntries h :=
    match h with
    | inl h1 => let '(h1, r) := CompileEntries h1 in (inl h1, r)
    | inr h2 => let '(h2, r) := CompileEntries h2 in (inr h2, r)
    end
}.

(** A registry with builders of both kinds. *)
Definition sum_factory (f1 : gmap string H1) (f2 : gmap string H2) : gmap string (H1 + H2) :=
  (inl <$> f1) ∪ (inr <$> f2).

Section Spec.
Context (f1 : gmap string H1) (f2 : gmap string H2) `{!HolderSpec H1 D1 f1} `{!HolderSpec H2 D2 f2}.
Hypothesis Hdisj : forall name, f1 !! name = None \/ f2 !! name = None.

Definition txs_inl (txs : Txs D1) : Txs (D1 + D2) := (fun tx => (tx.1, inl tx.2)) <$> txs.
Definition txs_inr (txs : Txs D2) : Txs (D1 + D2) := (fun tx => (tx.1, inr tx.2)) <$> txs.

Definition sum_rep (name : string) (h : H1 + H2) (txs : Txs (D1 + D2)) : Prop :=
  match h with
  | inl h1 => is_Some (f1 !! name) /\ exists txs1, txs = txs_inl txs1 /\ holder_rep name h1 txs1
  | inr h2 => is_Some (f2 !! name) /\ exists txs2, txs = txs_inr txs2 /\ holder_rep name h2 txs2
  end.

Definition sum_compiled (name : string) (h : H1 + H2) (txs : Txs (D1 + D2)) : Prop :=
  match h with
  | inl h1 => is_Some (f1 !! name) /\ exists txs1, txs = txs_inl txs1 /\ holder_compiled name h1 txs1
  | inr h2 => is_Some (f2 !! name) /\ exists txs2, txs = txs_inr txs2 /\ holder_compiled name h2 txs2
  end.

Definition sum_data_ok (name : string) (x : D1 + D2) : Prop :=
  match x with
  | inl x => is_Some (f1 !! name) /\ data_ok name x
  | inr x => is_Some (f2 !! name) /\ data_ok name x
  end.

Definition sum_hits (name : string) (d : FieldDesc) (x : D1 + D2) (v : Values) : bool :=
  match x with
  | inl x => data_hits name d x v
  | inr x => data_hits name d x v
  end.

Definition sum_assign_ok (name : string) (d : FieldDesc) (v : Values) : bool :=
  if bool_decide (is_Some (f1 !! name)) then assign_ok (factory:=f1) name d v
  else assign_ok (factory:=f2) name d v.

(** ** Lookups in the registry *)

Lemma disjoint_r name h2 : f2 !! name = Some h2 -> f1 !! name = None.
Proof. intros Hl. destruct (Hdisj name); [done | congruence]. Qed.

Lemma sum_factory_l name h1 : f1 !! name = Some h1 -> sum_factory f1 f2 !! name = Some (inl h1).
Proof. intros Hl. unfold sum_factory. apply lookup_union_Some_l. by rewrite lookup_fmap, Hl. Qed.

Lemma sum_factory_r name h2 : f2 !! name = Some h2 -> sum_factory f1 f2 !! name = Some (inr h2).
Proof.
  intros Hl. unfold sum_factory. rewrite lookup_union_r; [by rewrite lookup_fmap, Hl |].
  rewrite lookup_fmap. by rewrite (disjoint_r name h2 Hl).
Qed.

Lemma sum_factory_inv name h : sum_factory f1 f2 !! name = Some h ->
  match h with
  | inl h1 => f1 !! name = Some h1
  | inr h2 => f2 !! name = Some h2
  end.
Proof.
  unfold sum_factory. intros [Hl | [_ Hl]]%lookup_union_Some_raw;
    rewrite lookup_fmap in Hl; apply fmap_Some in Hl as (h' & Hl & ->); done.
Qed.

Lemma sum_build_data_l name d bv :
  is_Some (f1 !! name) -> build_data (sum_factory f1 f2) name d bv = inl <$> build_data f1 name d bv.
Proof.
  intros [h1 Hl]. unfold build_data. rewrite Hl, (sum_factory_l _ _ Hl). simpl.
  by destruct (BuildFieldIndexingData h1 d bv).
Qed.

Lemma sum_build_data_r name d bv :
  is_Some (f2 !! name) -> build_data (sum_factory f1 f2) name d bv = inr <$> build_data f2 name d bv.
Proof.
  intros [h2 Hl]. unfold build_data. rewrite Hl, (sum_factory_r _ _ Hl). simpl.
  by destruct (BuildFieldIndexingData h2 d bv).
Qed.

(** The data prepared by a registered builder, by kind. *)
Lemma sum_build_data_cases name d bv :
  (is_Some (f1 !! name) /\ build_data (sum_factory f1 f2) name d bv = inl <$> build_data f1 name d bv) \/
  (is_Some (f2 !! name) /\ build_data (sum_factory f1 f2) name d bv = inr <$> build_data f2 name d bv) \/
  build_data (sum_factory f1 f2) name d bv = Panic "holder not registered".
Proof.
  destruct (sum_factory f1 f2 !! name) as [h|] eqn:Hl; [| right; right; unfold build_data; by rewrite Hl].
  apply sum_factory_inv in Hl. destruct h; [left | right; left];
    (split; [by eexists | apply sum_build_data_l || apply sum_build_data_r; by eexists]).
Qed.

Lemma scope_inl name txs d : scope_ok name (txs_inl txs) d -> scope_ok name txs d.
Proof. intros Hs d' e x Hin. apply (Hs d' e (inl x)). apply list_elem_of_fmap. by exists (d', e, x). Qed.

Lemma scope_inr name txs d : scope_ok name (txs_inr txs) d -> scope_ok name txs d.
Proof. intros Hs d' e x Hin. apply (Hs d' e (inr x)). apply list_elem_of_fmap. by exists (d', e, x). Qed.

Lemma valid_inl txs :
  Forall (fun tx => valid_eid tx.1.2) (txs_inl txs) -> Forall (fun tx : FieldDesc * EntryID * D1 => valid_eid tx.1.2) txs.
Proof. unfold txs_inl. by rewrite Forall_fmap. Qed.

Lemma valid_inr txs :
  Forall (fun tx => valid_eid tx.1.2) (txs_inr txs) -> Forall (fun tx : FieldDesc * EntryID * D2 => valid_eid tx.1.2) txs.
Proof. unfold txs_inr. by rewrite Forall_fmap. Qed.

Lemma sum_get_spec name h txs d v :
  sum_compiled name h txs -> Forall (fun tx => valid_eid tx.1.2) txs -> scope_ok name txs d ->
  match GetEntries h d v with
  | Ok cs => cursors_ok cs /\
      forall e, e ∈ (cs ≫= ec_entries) <-> exists x, (d, e, x) ∈ txs /\ sum_hits name d x v = true
  | OutOfFuel => False
  | _ => sum_assign_ok name d v = false
  end.
Proof.
  intros Hc Hv Hs. unfold sum_assign_ok. destruct h as [h1|h2]; destruct Hc as (Hn & txs' & -> & Hc); simpl.
  - rewrite bool_decide_eq_true_2 by done.
    pose proof (holder_get name h1 txs' d v Hc (valid_inl _ Hv) (scope_inl _ _ _ Hs)) as Hget.
    destruct (GetEntries h1 d v) as [cs|e|e|]; try done. destruct Hget as [Hcs Hmem]. split; [done |].
    intros e. rewrite Hmem. unfold txs_inl. setoid_rewrite list_elem_of_fmap. split.
    + intros (x & Hx & Hh). exists (inl x). split; [by exists (d, e, x) | done].
    + intros (x & ([[d' e'] x'] & [= -> -> ->] & Hx) & Hh). eauto.
  - rewrite bool_decide_eq_false_2.
    2: { destruct Hn as [h' Hn]. rewrite (disjoint_r name h' Hn). by intros [? [=]]. }
    pose proof (holder_get name h2 txs' d v Hc (valid_inr _ Hv) (scope_inr _ _ _ Hs)) as Hget.
    destruct (GetEntries h2 d v) as [cs|e|e|]; try done. destruct Hget as [Hcs Hmem]. split; [done |].
    intros e. rewrite Hmem. unfold txs_inr. setoid_rewrite list_elem_of_fmap. split.
    + intros (x & Hx & Hh). exists (inr x). split; [by exists (d, e, x) | done].
    + intros (x & ([[d' e'] x'] & [= -> -> ->] & Hx) & Hh). eauto.
Qed.

Lemma sum_commit_spec name h txs d e x :
  sum_rep name h txs -> sum_data_ok name x ->
  exists h', sum_commit h d e (Some x) = (h', Ok tt) /\ sum_rep name h' (txs ++ [(d, e, x)]).
Proof.
  intros Hr Hx.
  assert (Hexcl : is_Some (f1 !! name) -> is_Some (f2 !! name) -> False).
  { intros [h1 Hl1] [h2 Hl2]. rewrite (disjoint_r name h2 Hl2) in Hl1. done. }
  destruct h as [h1|h2]; destruct Hr as (Hn & txs' & -> & Hr); destruct x as [x|x]; destruct Hx as [Hn' Hx];
    try (by destruct Hexcl); simpl.
  - destruct (holder_commit name h1 txs' d e x Hr Hx) as (h' & -> & Hr'). eexists. split; [done |].
    split; [done |]. exists (txs' ++ [(d, e, x)]). split; [| done]. unfold txs_inl. by rewrite fmap_app.
  - destruct (holder_commit name h2 txs' d e x Hr Hx) as (h' & -> & Hr'). eexists. split; [done |].
    split; [done |]. exists (txs' ++ [(d, e, x)]). split; [| done]. unfold txs_inr. by rewrite fmap_app.
Qed.

Lemma sum_build_spec name h txs d bv h' r :
  sum_rep name h txs -> sum_build h d bv = (h', r) ->
  sum_rep name h' txs /\ r = build_data (sum_factory f1 f2) name d bv.
Proof.
  intros Hr Hb. destruct h as [h1|h2]; destruct Hr as (Hn & txs' & -> & Hr); simpl in Hb.
  - destruct (BuildFieldIndexingData h1 d bv) as [h1' r1] eqn:E1. injection Hb as <- <-.
    destruct (holder_build name h1 txs' d bv h1' r1 Hr E1) as [Hr' ->]. rewrite sum_build_data_l by done.
    split; [| done]. split; [done |]. eauto.
  - destruct (BuildFieldIndexingData h2 d bv) as [h2' r2] eqn:E2. injection Hb as <- <-.
    destruct (holder_build name h2 txs' d bv h2' r2 Hr E2) as [Hr' ->]. rewrite sum_build_data_r by done.
    split; [| done]. split; [done |]. eauto.
Qed.

Definition Sum_spec : HolderSpec (H1 + H2) (D1 + D2) (sum_factory f1 f2).
Proof.
  refine {| data_hits := sum_hits; assign_ok := sum_assign_ok; data_ok := sum_data_ok;
            holder_rep := sum_rep; holder_compiled := sum_compiled |}.
  - intros name h Hl. apply sum_factory_inv in Hl. destruct h as [h1|h2]; split; try (by eexists);
      exists []; (split; [done | by apply holder_new]).
  - intros name h txs d bv h' r. apply sum_build_spec.
  - intros name d bv x Hx.
    destruct (sum_build_data_cases name d bv) as [[Hn Heq] | [[Hn Heq] | Heq]]; rewrite Heq in Hx; [| | done].
    + destruct (build_data f1 name d bv) eqn:Hb; try done. injection Hx as <-. split; [done |]. by eapply build_data_ok.
    + destruct (build_data f2 name d bv) eqn:Hb; try done. injection Hx as <-. split; [done |]. by eapply build_data_ok.
  - intros name d d' bv Hf. unfold build_data. destruct (sum_factory f1 f2 !! name) as [h|] eqn:Hl; [| done].
    apply sum_factory_inv in Hl. destruct h as [h|h]; simpl.
    + pose proof (build_data_field (factory:=f1) name d d' bv Hf) as Heq. unfold build_data in Heq. rewrite Hl in Heq.
      destruct (BuildFieldIndexingData h d bv) as [? r], (BuildFieldIndexingData h d' bv) as [? r']. simpl in *. by subst.
    + pose proof (build_data_field (factory:=f2) name d d' bv Hf) as Heq. unfold build_data in Heq. rewrite Hl in Heq.
      destruct (BuildFieldIndexingData h d bv) as [? r], (BuildFieldIndexingData h d' bv) as [? r']. simpl in *. by subst.
  - intros name d bv. destruct (sum_build_data_cases name d bv) as [[Hn ->] | [[Hn ->] | ->]]; [| | done].
    + pose proof (build_data_fuel (factory:=f1) name d bv). by destruct (build_data f1 name d bv).
    + pose proof (build_data_fuel (factory:=f2) name d bv). by destruct (build_data f2 name d bv).
  - intros name h txs d e x. apply sum_commit_spec.
  - intros name h txs h' r Hr Hc. destruct h as [h1|h2]; destruct Hr as (Hn & txs' & -> & Hr); simpl in Hc.
    + destruct (CompileEntries h1) as [h1' r1] eqn:E1. injection Hc as <- <-.
      pose proof (holder_compile name h1 txs' h1' r1 Hr E1). destruct r1; try done. split; [done |]. eauto.
    + destruct (CompileEntries h2) as [h2' r2] eqn:E2. injection Hc as <- <-.
      pose proof (holder_compile name h2 txs' h2' r2 Hr E2). destruct r2; try done. split; [done |]. eauto.
  - intros name h txs d v. apply sum_get_spec.
  - intros name d [x|x] v Hn; by apply data_hits_nil.
Defined.

End Spec.
End Sum.
