(* ===== verification/Builder.v ===== *)
(** * The builder (index_builder.go) and the document cache (doc_idx_cache.go)

    A builder configures fields, indexes documents in two phases (prepare all
    conjunctions, then commit them) and compiles the index.  With a document
    cache, the prepared data of a document is stored in encoded form and
    restored when the same version is added again. *)

From Stdlib Require Import Strings.Byte.
From stdpp Require Import base sorting gmap strings numbers list.
From S2P Require Import Prelude GoValues Ids Document Cursor FieldCursor Collector Scan Holder.
From S2P Require Import Index.
Open Scope Z_scope.

(** ** doc_idx_cache.go *)

Record DocCacheKey := { ck_DocID : DocID; ck_Version : Z }.

Record IdxCacheEntry := { ce_EID : EntryID; ce_DataBytes : list byte }.

Record FieldIndexes := { fx_Field : BEField; fx_Entries : list IdxCacheEntry }.

Record ConjIdxCache := {
  cc_ConjIdx : Z;
  cc_ConjSize : Z;
  cc_WildcardEID : EntryID;
  cc_FieldCacheIdx : list FieldIndexes
}.

Record DocIdxCache := {
  dc_DocID : DocID;
  dc_Version : Z;
  dc_SchemaHash : Z;
  dc_ConjIdxCaches : list ConjIdxCache
}.

Definition NewDocCacheKey (docID : DocID) (version : Z) : DocCacheKey :=
  {| ck_DocID := docID; ck_Version := version |}.

#[export] Instance DocCacheKey_eq_dec : EqDecision DocCacheKey.
Proof. solve_decision. Defined.

(** The interface [DocLevelCache], implemented by the application; reading may
    reorganise the cache. *)
Class DocLevelCache (K : Type) := {
  cache_Get : K -> DocCacheKey -> K * option DocIdxCache;
  cache_Set : K -> DocCacheKey -> DocIdxCache -> K;
  cache_Clear : K -> K
}.

(** ** index_builder.go: types *)

Definition ErrorBadConj : Z := 0.
Definition SkipBadConj : Z := 1.
Definition PanicBadConj : Z := 2.

Definition IndexerTypeDefault : Z := 0.
Definition IndexerTypeCompact : Z := 1.

Record ConjIndexingData (D : Type) := {
  cd_idx : Z;
  cd_incSize : Z;
  cd_conjID : ConjID;
  cd_fieldData : list (FieldIndexingData D)
}.
Arguments cd_idx {D} _.
Arguments cd_incSize {D} _.
Arguments cd_conjID {D} _.
Arguments cd_fieldData {D} _.

Record IndexerBuilder (I K : Type) := {
  indexerType : Z;
  badConjBehavior : Z;
  docLevelCache : option K;
  indexer : I;
  fieldsData : gmap string FieldDesc;
  schemaHash : Z
}.
Arguments indexerType {I K} _.
Arguments badConjBehavior {I K} _.
Arguments docLevelCache {I K} _.
Arguments indexer {I K} _.
Arguments fieldsData {I K} _.
Arguments schemaHash {I K} _.

Definition set_indexer {I K} (b : IndexerBuilder I K) (i : I) : IndexerBuilder I K :=
  {| indexerType := indexerType b; badConjBehavior := badConjBehavior b;
     docLevelCache := docLevelCache b; indexer := i; fieldsData := fieldsData b;
     schemaHash := schemaHash b |}.

Definition set_cache {I K} (b : IndexerBuilder I K) (k : option K) : IndexerBuilder I K :=
  {| indexerType := indexerType b; badConjBehavior := badConjBehavior b;
     docLevelCache := k; indexer := indexer b; fieldsData := fieldsData b;
     schemaHash := schemaHash b |}.

Definition set_fieldsData {I K} (b : IndexerBuilder I K) (fd : gmap string FieldDesc)
    : IndexerBuilder I K :=
  {| indexerType := indexerType b; badConjBehavior := badConjBehavior b;
     docLevelCache := docLevelCache b; indexer := indexer b; fieldsData := fd;
     schemaHash := schemaHash b |}.

Definition set_schemaHash {I K} (b : IndexerBuilder I K) (h : Z) : IndexerBuilder I K :=
  {| indexerType := indexerType b; badConjBehavior := badConjBehavior b;
     docLevelCache := docLevelCache b; indexer := indexer b; fieldsData := fieldsData b;
     schemaHash := h |}.

Section Builder.
Context {H D I K : Type} `{EntriesHolder H D} `{MapRange} `{BEIndex I H} `{DocLevelCache K}.
Context (factory : gmap string H).
Local Abbreviation Bld := (IndexerBuilder I K).

(** ** Fields *)

Definition updateSchemaHash (b : Bld) : Bld :=
  set_schemaHash b
    (foldl (fun h kv => fnv1a_write (fnv1a_write h kv.1) (fd_Container kv.2))
           fnv_offset64 (map_range (fieldsData b))).

(** [FieldOption] has the container name as its only field. *)
Definition configureField (field : BEField) (container : string) : M Bld FieldDesc := fun b =>
  match fieldsData b !! field with
  | Some _ => (b, Err "can't configure field twice")
  | None =>
      let container := if bool_decide (container = "") then HolderNameDefault else container in
      let desc := {| fd_ID := Z.of_nat (size (fieldsData b)); fd_Field := field;
                     fd_Container := container |} in
      let b := updateSchemaHash (set_fieldsData b (<[field := desc]> (fieldsData b))) in
      (set_cache b (cache_Clear <$> docLevelCache b), Ok desc)
  end.

Definition ConfigField (field : BEField) (container : string) : M Bld unit :=
  _ ← PanicIfErr (configureField field container);
  mret tt.

Definition createFieldData (field : BEField) : M Bld FieldDesc := fun b =>
  match fieldsData b !! field with
  | Some desc => (b, Ok desc)
  | None => PanicIfErr (configureField field HolderNameDefault) b
  end.

(** ** Access to the index through pointers *)

Definition new_container (k : nat) : M Bld nat := fun b =>
  let '(i, a) := newContainer (indexer b) k in (set_indexer b i, Ok a).

Definition with_container {A} (a : nat) (m : M (EntriesContainer H) A) : M Bld A := fun b =>
  match container_at (indexer b) a with
  | None => (b, Panic "nil pointer dereference")
  | Some c => let '(c', r) := m c in (set_indexer b (set_container (indexer b) a c'), r)
  end.

Definition with_holder {A} (r : HolderRef) (m : H -> H * res A) : M (EntriesContainer H) A := fun c =>
  match holder_deref c r with
  | None => (c, Panic "nil pointer dereference")
  | Some h => let '(h', out) := m h in (holder_update c r h', out)
  end.

(** ** Preparing a conjunction *)

(** The body of the inner loop of [indexingConjunction]. *)
Definition indexing_expr (a : nat) (conjID : ConjID) (field : BEField) (expr : BoolValues)
    : M Bld (FieldIndexingData D) :=
  desc ← createFieldData field;
  holder ← with_container a (CreateHolder factory desc);
  txData ← with_container a (with_holder holder (fun h => BuildFieldIndexingData h desc expr));
  mret {| fi_field := desc; fi_addr := a; fi_ref := holder;
          fi_EID := NewEntryID conjID (Incl expr); fi_Data := txData |}.

Fixpoint indexing_exprs (a : nat) (conjID : ConjID) (exprs : list (BEField * BoolValues))
    (txs : list (FieldIndexingData D)) : M Bld (list (FieldIndexingData D)) :=
  match exprs with
  | [] => mret txs
  | (field, expr) :: exprs =>
      tx ← indexing_expr a conjID field expr;
      indexing_exprs a conjID exprs (txs ++ [tx])
  end.

(** [for field, exprs := range conj.Expressions { for _, expr := range exprs ...]:
    the pairs in the order of the two nested loops. *)
Definition conj_exprs (conj : Conjunction) : list (BEField * BoolValues) :=
  map_range (Expressions conj) ≫= (fun kv => pair kv.1 <$> kv.2).

Definition indexingConjunction (conjID : ConjID) (conj : Conjunction)
    : M Bld (list (FieldIndexingData D)) :=
  a ← new_container (Z.to_nat (conj_Size conjID));
  indexing_exprs a conjID (conj_exprs conj) [].

(** ** Committing *)

Definition commit_tx (tx : FieldIndexingData D) : M Bld unit :=
  PanicIfErr (with_container (fi_addr tx) (with_holder (fi_ref tx) (fun h =>
    CommitFieldIndexingData h (fi_field tx) (fi_EID tx) (Some (fi_Data tx))))).

Definition commitConjIndexingData (cd : ConjIndexingData D) : M Bld unit :=
  _ ← (if bool_decide (cd_incSize cd = 0)
       then modify (fun b => set_indexer b (addWildcardEID (indexer b) (NewEntryID (cd_conjID cd) true)))
       else mret tt);
  forM (cd_fieldData cd) commit_tx.

(** ** The cache *)

(** [fieldTxMap] of [toCacheResult]: an expression that cannot be encoded is
    logged and left out. *)
Definition cache_tx (m : gmap string FieldIndexes) (tx : FieldIndexingData D) : gmap string FieldIndexes :=
  let field := fd_Field (fi_field tx) in
  let fx := default {| fx_Field := field; fx_Entries := [] |} (m !! field) in
  let m := <[field := fx]> m in
  match Encode (fi_Data tx) with
  | Ok dataBytes =>
      <[field := {| fx_Field := fx_Field fx;
                    fx_Entries := fx_Entries fx ++ [{| ce_EID := fi_EID tx; ce_DataBytes := dataBytes |}] |}]> m
  | _ => m
  end.

Definition toCacheResult (cd : ConjIndexingData D) : ConjIdxCache :=
  let fieldTxMap := foldl cache_tx ∅ (cd_fieldData cd) in
  {| cc_ConjIdx := cd_idx cd;
     cc_ConjSize := cd_incSize cd;
     cc_WildcardEID := if bool_decide (cd_incSize cd = 0) then NewEntryID (cd_conjID cd) true else 0;
     cc_FieldCacheIdx :=
       foldl (fun l kv => if bool_decide (0 < length (fx_Entries kv.2))%nat then l ++ [kv.2] else l)
             [] (map_range fieldTxMap) |}.

Fixpoint decode_entries (a : nat) (desc : FieldDesc) (holder : HolderRef)
    (entries : list IdxCacheEntry) (txs : list (FieldIndexingData D))
    : M Bld (list (FieldIndexingData D)) :=
  match entries with
  | [] => mret txs
  | txCache :: entries =>
      txData ← with_container a (with_holder holder (fun h =>
                 (h, DecodeFieldIndexingData h (ce_DataBytes txCache))));
      decode_entries a desc holder entries
        (txs ++ [{| fi_field := desc; fi_addr := a; fi_ref := holder;
                    fi_EID := ce_EID txCache; fi_Data := txData |}])
  end.

Fixpoint decode_fields (a : nat) (fields : list FieldIndexes) (txs : list (FieldIndexingData D))
    : M Bld (list (FieldIndexingData D)) :=
  match fields with
  | [] => mret txs
  | fieldTx :: fields =>
      b ← get;
      match fieldsData b !! fx_Field fieldTx with
      | None => fail "field not configured"
      | Some desc =>
          holder ← with_container a (CreateHolder factory desc);
          txs ← decode_entries a desc holder (fx_Entries fieldTx) txs;
          decode_fields a fields txs
      end
  end.

Definition toConjIndexingData (docID : DocID) (conjResult : ConjIdxCache)
    : M Bld (ConjIndexingData D) :=
  conjID ← lift (NewConjID docID (cc_ConjIdx conjResult) (cc_ConjSize conjResult));
  a ← new_container (Z.to_nat (cc_ConjSize conjResult));
  txs ← decode_fields a (cc_FieldCacheIdx conjResult) [];
  mret {| cd_idx := cc_ConjIdx conjResult; cd_conjID := conjID;
          cd_incSize := cc_ConjSize conjResult; cd_fieldData := txs |}.

Definition AddDocIndexingData (cached : DocIdxCache) : M Bld unit :=
  forM (dc_ConjIdxCaches cached) (fun conjResult =>
    cd ← toConjIndexingData (dc_DocID cached) conjResult;
    commitConjIndexingData cd).

(** ** Documents *)

Definition validDocument (doc : Document) : res unit :=
  if bool_decide (length (doc_Cons doc) = 0%nat) then Err "no conjunctions in this document"
  else if bool_decide (Z.of_nat (length (doc_Cons doc)) > 0xFF)
  then Err "number of conjunction need less than 256"
  else Ok tt.

(** Phase 1: [for idx, conj := range doc.Cons]. *)
Fixpoint prepare_conjs (docID : DocID) (idx : Z) (conjs : list Conjunction)
    (all : list (ConjIndexingData D)) : M Bld (list (ConjIndexingData D)) :=
  match conjs with
  | [] => mret all
  | cj :: conjs =>
      let incSize := CalcConjSize cj in
      conjID ← lift (NewConjID docID idx incSize);
      out ← with_err (indexingConjunction conjID cj);
      match out with
      | inl txs =>
          prepare_conjs docID (idx + 1) conjs
            (all ++ [{| cd_idx := idx; cd_conjID := conjID; cd_incSize := incSize;
                        cd_fieldData := txs |}])
      | inr e =>
          b ← get;
          if bool_decide (badConjBehavior b = SkipBadConj) then prepare_conjs docID (idx + 1) conjs all
          else if bool_decide (badConjBehavior b = ErrorBadConj) then fail e
          else panic e
      end
  end.

(** The lookup at the start of [buildDocEntries]: the cached entry, when it is
    usable. *)
Definition cache_lookup (doc : Document) : M Bld (option DocIdxCache) := fun b =>
  match docLevelCache b with
  | Some k =>
      if bool_decide (doc_Version doc > 0) then
        let '(k, found) := cache_Get k (NewDocCacheKey (doc_ID doc) (doc_Version doc)) in
        let b := set_cache b (Some k) in
        match found with
        | Some cached =>
            if bool_decide (dc_SchemaHash cached = schemaHash b) then (b, Ok (Some cached))
            else (b, Ok None)
        | None => (b, Ok None)
        end
      else (b, Ok None)
  | None => (b, Ok None)
  end.

(** The new entry, when the document is to be cached. *)
Definition cache_entry (doc : Document) (b : Bld) : option DocIdxCache :=
  match docLevelCache b with
  | Some _ =>
      if bool_decide (doc_Version doc > 0)
      then Some {| dc_DocID := doc_ID doc; dc_Version := doc_Version doc;
                   dc_SchemaHash := schemaHash b; dc_ConjIdxCaches := [] |}
      else None
  | None => None
  end.

Definition cache_save (doc : Document) (cacheEntry : option DocIdxCache)
    (all : list (ConjIndexingData D)) (b : Bld) : Bld :=
  match cacheEntry, docLevelCache b with
  | Some e, Some k =>
      let caches := dc_ConjIdxCaches e ++ (toCacheResult <$> all) in
      if bool_decide (0 < length caches)%nat then
        set_cache b (Some (cache_Set k (NewDocCacheKey (doc_ID doc) (doc_Version doc))
          {| dc_DocID := dc_DocID e; dc_Version := dc_Version e;
             dc_SchemaHash := dc_SchemaHash e; dc_ConjIdxCaches := caches |}))
      else b
  | _, _ => b
  end.

Definition buildDocEntries (doc : Document) : M Bld unit :=
  _ ← PanicIf (bool_decide (length (doc_Cons doc) = 0%nat)) "no conjunctions in this document";
  _ ← PanicIf (bool_decide (Z.of_nat (length (doc_Cons doc)) > 0xFF))
              "number of conjunction need less than 256";
  hit ← cache_lookup doc;
  match hit with
  | Some cached => AddDocIndexingData cached
  | None =>
      b ← get;
      let cacheEntry := cache_entry doc b in
      all ← prepare_conjs (doc_ID doc) 0 (doc_Cons doc) [];
      _ ← forM all commitConjIndexingData;
      modify (cache_save doc cacheEntry all)
  end.

Definition AddDocument (docs : list Document) : M Bld unit :=
  forM docs (fun doc =>
    _ ← lift (validDocument doc);
    buildDocEntries doc).

(** ** Building *)

Definition BuildIndex : M Bld I := fun b =>
  let i := setFieldDesc (indexer b) (fieldsData b) in
  match compileIndexer i with
  | (i, Ok _) => (set_indexer b i, Ok i)
  | (i, Err e) => (set_indexer b i, Panic e)
  | (i, Panic e) => (set_indexer b i, Panic e)
  | (i, OutOfFuel) => (set_indexer b i, OutOfFuel)
  end.

End Builder.

(** ** Construction and options *)

Inductive BuilderOpt (K : Type) :=
| WithBadConjBehavior (v : Z)
| WithDocLevelCache (cache : K)
| WithIndexerType (t : Z).
Arguments WithBadConjBehavior {K} _.
Arguments WithDocLevelCache {K} _.
Arguments WithIndexerType {K} _.

Section NewBuilder.
Context {H D K : Type} `{EntriesHolder H D} `{MapRange}.
Context (factory : gmap string H).
Local Abbreviation Bld := (IndexerBuilder (AnyBEIndex H) K).

Definition apply_BuilderOpt (b : Bld) (opt : BuilderOpt K) : Bld :=
  match opt with
  | WithBadConjBehavior v =>
      {| indexerType := indexerType b; badConjBehavior := v; docLevelCache := docLevelCache b;
         indexer := indexer b; fieldsData := fieldsData b; schemaHash := schemaHash b |}
  | WithDocLevelCache k => set_cache b (Some k)
  | WithIndexerType t =>
      {| indexerType := t; badConjBehavior := badConjBehavior b; docLevelCache := docLevelCache b;
         indexer := indexer b; fieldsData := fieldsData b; schemaHash := schemaHash b |}
  end.

Definition initIndexer : M Bld unit := fun b =>
  if bool_decide (indexerType b = IndexerTypeDefault)
  then (set_indexer b (IKGroups NewKGroupsBEIndex), Ok tt)
  else if bool_decide (indexerType b = IndexerTypeCompact)
  then (set_indexer b (ICompact (NewCompactedBEIndex factory)), Ok tt)
  else (b, Panic "type not supported").

Definition NewIndexerBuilder (opts : list (BuilderOpt K)) : res Bld :=
  let builder := foldl apply_BuilderOpt
    {| indexerType := 0; badConjBehavior := 0; docLevelCache := None;
       indexer := IKGroups NewKGroupsBEIndex; fieldsData := ∅; schemaHash := 0 |} opts in
  match initIndexer builder with
  | (b, Ok _) => Ok b
  | (_, Err e) => Err e
  | (_, Panic e) => Panic e
  | (_, OutOfFuel) => OutOfFuel
  end.

Definition NewCompactIndexerBuilder (opts : list (BuilderOpt K)) : res Bld :=
  NewIndexerBuilder (opts ++ [WithIndexerType IndexerTypeCompact]).

Definition Reset : M Bld unit := initIndexer.

End NewBuilder.
