(* ===== verification/BuilderSpec.v ===== *)
(** * What the builder guarantees: definitions

    The builder's state is related to a log of the conjunctions it has
    committed.  [binv b log] is the invariant every operation preserves; the
    meaning of a query on the log ([log_hit]) is what retrieval on the built
    index is proved to compute. *)

From stdpp Require Import base sorting gmap strings numbers list.
From S2P Require Import Prelude GoValues Ids Document Cursor FieldCursor Collector Scan Holder.
From S2P Require Import Index IndexSpec Builder.
Open Scope Z_scope.

(** ** The promise of a document cache

    [cache_may k key e]: the cache may answer [key] with [e].  A cache may lose
    entries; it never makes them up, and answers nothing after [Clear]. *)
Class DocLevelCacheSpec (K : Type) `{DocLevelCache K} := {
  cache_may : K -> DocCacheKey -> DocIdxCache -> Prop;
  cache_may_Get : forall k key k' r, cache_Get k key = (k', r) ->
    (forall e, r = Some e -> cache_may k key e) /\
    (forall key' e, cache_may k' key' e -> cache_may k key' e);
  cache_may_Set : forall k key e key' e', cache_may (cache_Set k key e) key' e' ->
    (key' = key /\ e' = e) \/ cache_may k key' e';
  cache_may_Clear : forall k key e, ~ cache_may (cache_Clear k) key e
}.

(** A map as a cache. *)
#[export] Instance map_cache : DocLevelCache (list (DocCacheKey * DocIdxCache)) := {
  cache_Get k key := (k, snd <$> head (filter (fun kv => kv.1 = key) k));
  cache_Set k key e := (key, e) :: k;
  cache_Clear _ := []
}.

#[export] Instance map_cache_spec : DocLevelCacheSpec (list (DocCacheKey * DocIdxCache)).
Proof.
  refine {| cache_may := fun k key e => (key, e) ∈ k |}.
  - simpl. intros k key k' r [= <- <-]. split; [| done]. intros e.
    destruct (filter _ k) as [|[key' e'] l] eqn:El; [done |]. simpl. intros [= ->].
    assert ((key', e) ∈ filter (fun kv : DocCacheKey * DocIdxCache => kv.1 = key) k) as Hin
      by (rewrite El; by left).
    apply list_elem_of_filter in Hin as [Hk Hin]. simpl in Hk. by subst.
  - simpl. intros k key e key' e' [[= -> ->] | Hin]%elem_of_cons; auto.
  - simpl. intros k key e Hin. elem_nil.
Defined.

(** No cache: a builder whose cache type is empty has none. *)
#[export] Instance no_cache : DocLevelCache Empty_set := {
  cache_Get k _ := match k with end;
  cache_Set k _ _ := k;
  cache_Clear k := k
}.

#[export] Instance no_cache_spec : DocLevelCacheSpec Empty_set.
Proof. by refine {| cache_may := fun k _ _ => False |}; intros []. Defined.

(** A committed conjunction with its id. *)
Abbreviation LogEntry := (ConjID * Conjunction)%type (only parsing).

(** ** Documents and the cache *)

Section Cacheable.
Context {H D : Type} `{EntriesHolder H D} (factory : gmap string H).

(** Whatever a holder prepares for an expression of the document can be encoded;
    [toCacheResult] leaves other expressions out. *)
Definition doc_encodes (doc : Document) : Prop :=
  forall cj f exprs bv name d x, cj ∈ doc_Cons doc -> Expressions cj !! f = Some exprs -> bv ∈ exprs ->
    build_data factory name d bv = Ok x -> exists bytes, Encode x = Ok bytes.

(** A document fit for a document cache of type [K]: when it has a version, it is
    the one that its id and version stand for, and its data can be encoded.  Nothing is
    asked when there is no cache ([K] empty). *)
Definition doc_cacheable (K : Type) (docs_of : DocCacheKey -> Document) (doc : Document) : Prop :=
  inhabited K -> doc_Version doc > 0 ->
  docs_of (NewDocCacheKey (doc_ID doc) (doc_Version doc)) = doc /\ doc_encodes doc.

Lemma doc_cacheable_uncached docs_of doc : doc_cacheable Empty_set docs_of doc.
Proof. by intros [[]]. Qed.

Lemma docs_cacheable_uncached docs_of docs : Forall (doc_cacheable Empty_set docs_of) docs.
Proof. apply Forall_true, doc_cacheable_uncached. Qed.

End Cacheable.

Section Spec.
Context {H D I K : Type} `{EntriesHolder H D} `{MapRange} `{BEIndex I H} `{DocLevelCache K}.
Context (factory : gmap string H) `{!HolderSpec H D factory} `{!BEIndexSpec factory I}
  `{!DocLevelCacheSpec K}.
Local Abbreviation Bld := (IndexerBuilder I K).

(** ** Fields *)

Record fields_inv (descs : gmap string FieldDesc) : Prop := {
  fields_ids : forall f d, descs !! f = Some d -> 0 <= fd_ID d < Z.of_nat (size descs);
  fields_descs : descs_ok descs
}.

(** ** The committed content *)

Record built (b : Bld) (txs : list (FieldIndexingData D)) (wild : Entries) : Prop := {
  built_index : index_holds (caddr factory (indexer b)) holder_rep (indexer b) (fieldsData b) txs wild;
  built_fields : fields_inv (fieldsData b)
}.

(** What later steps of the builder keep. *)
Record extends (b b' : Bld) : Prop := {
  ext_fields : fieldsData b ⊆ fieldsData b';
  ext_caddr : caddr factory (indexer b') = caddr factory (indexer b);
  ext_holders : forall a c, container_at (indexer b) a = Some c ->
    exists c', container_at (indexer b') a = Some c' /\
      forall r, is_Some (holder_deref c r) -> is_Some (holder_deref c' r);
  ext_cache : forall k' key e, docLevelCache b' = Some k' -> cache_may k' key e ->
    exists k, docLevelCache b = Some k /\ cache_may k key e;
  ext_behavior : badConjBehavior b' = badConjBehavior b;
  ext_type : indexerType b' = indexerType b
}.

(** A prepared transaction that can be committed. *)
Record tx_ready (b : Bld) (tx : FieldIndexingData D) : Prop := {
  tr_field : fieldsData b !! fd_Field (fi_field tx) = Some (fi_field tx);
  tr_ref : fi_ref tx = ref_of (fi_field tx);
  tr_data : data_ok (fd_Container (fi_field tx)) (fi_Data tx);
  tr_holder : exists c, container_at (indexer b) (fi_addr tx) = Some c /\
    is_Some (holder_deref c (fi_ref tx))
}.

(** ** From conjunctions to transactions *)

(** The data prepared for expression [p.2] on field [p.1]. *)
Definition expr_data (descs : gmap string FieldDesc) (p : BEField * BoolValues) : res D :=
  match descs !! p.1 with
  | Some d => build_data factory (fd_Container d) d p.2
  | None => Err "field not configured"
  end.

(** [tx] is the transaction of expression [p] of conjunction [c]. *)
Record expr_tx (descs : gmap string FieldDesc) (ca : nat -> nat) (c : ConjID)
    (p : BEField * BoolValues) (tx : FieldIndexingData D) : Prop := {
  et_field : descs !! p.1 = Some (fi_field tx);
  et_addr : fi_addr tx = ca (Z.to_nat (conj_Size c));
  et_ref : fi_ref tx = ref_of (fi_field tx);
  et_eid : fi_EID tx = NewEntryID c (Incl p.2);
  et_data : expr_data descs p = Ok (fi_Data tx)
}.

Definition conj_txs (descs : gmap string FieldDesc) (ca : nat -> nat) (p : LogEntry)
    (txs : list (FieldIndexingData D)) : Prop :=
  exists es, es ≡ₚ conj_exprs p.2 /\ Forall2 (expr_tx descs ca p.1) es txs.

(** A conjunction with an expression that its holder refuses. *)
Definition bad_conj (descs : gmap string FieldDesc) (cj : Conjunction) : Prop :=
  exists p, p ∈ conj_exprs cj /\ is_Some (descs !! p.1) /\ forall x, expr_data descs p <> Ok x.

(** All expressions of a conjunction are accepted. *)
Definition indexable (descs : gmap string FieldDesc) (cj : Conjunction) : bool :=
  forallb (fun p => match expr_data descs p with Ok _ => true | _ => false end) (conj_exprs cj).

(** ** Documents *)

Definition conj_entry (docID : DocID) (idx : Z) (cj : Conjunction) : LogEntry :=
  (pack docID idx (CalcConjSize cj), cj).

Fixpoint conj_log (docID : DocID) (idx : Z) (cs : list Conjunction) : list LogEntry :=
  match cs with
  | [] => []
  | cj :: cs => conj_entry docID idx cj :: conj_log docID (idx + 1) cs
  end.

(** The conjunctions of a document with their ids. *)
Definition doc_log (doc : Document) : list LogEntry := conj_log (doc_ID doc) 0 (doc_Cons doc).

(** A conjunction of document [docID], with an id in range. *)
Definition entry_of (docID : DocID) (p : LogEntry) : Prop :=
  exists idx, fields_ok docID idx (CalcConjSize p.2) /\ idx < 255 /\ p = conj_entry docID idx p.2.

Definition entry_ok (p : LogEntry) : Prop := exists docID, entry_of docID p.

(** Why a conjunction is refused: its id is out of range, or it is bad. *)
Definition conj_fault (descs : gmap string FieldDesc) (docID : DocID) (idx : Z) (cj : Conjunction) : Prop :=
  ~ fields_ok docID idx (CalcConjSize cj) \/ bad_conj descs cj.

(** Why a document is refused. *)
Definition doc_fault (descs : gmap string FieldDesc) (doc : Document) : Prop :=
  doc_Cons doc = [] \/ (255 < length (doc_Cons doc))%nat \/
  exists n cj, doc_Cons doc !! n = Some cj /\ conj_fault descs (doc_ID doc) (Z.of_nat n) cj.

(** The conjunctions of a document that are indexed: all of them, or with
    [SkipBadConj] those that are not bad. *)
Inductive kept_of (skip : Prop) (descs : gmap string FieldDesc) (docID : DocID)
    : list LogEntry -> list LogEntry -> Prop :=
| kept_nil : kept_of skip descs docID [] []
| kept_keep p l l' : entry_of docID p -> kept_of skip descs docID l l' ->
    kept_of skip descs docID (p :: l) (p :: l')
| kept_skip p l l' : skip -> bad_conj descs p.2 -> kept_of skip descs docID l l' ->
    kept_of skip descs docID (p :: l) l'.

(** ** The invariant *)

Record logged (descs : gmap string FieldDesc) (ca : nat -> nat) (log : list LogEntry)
    (txs : list (FieldIndexingData D)) (wild : Entries) : Prop := {
  lg_txs : exists txss, txs = mjoin txss /\ Forall2 (conj_txs descs ca) log txss;
  lg_wild : wild = (fun p => NewEntryID p.1 true) <$> filter (fun p => conj_Size p.1 = 0) log;
  lg_ok : Forall entry_ok log
}.

Definition binv (b : Bld) (log : list LogEntry) : Prop :=
  exists txs wild, built b txs wild /\ logged (fieldsData b) (caddr factory (indexer b)) log txs wild.

(** ** Meaning of a query *)

(** Expression [bv] on field [f] is met by the value the query gives to [f]. *)
Definition log_hit (descs : gmap string FieldDesc) (q : Assignments) (f : BEField) (bv : BoolValues)
    : bool :=
  match descs !! f, q !! f with
  | Some d, Some v =>
      match build_data factory (fd_Container d) d bv with
      | Ok x => data_hits (fd_Container d) d x v
      | _ => false
      end
  | _, _ => false
  end.

(** ** The cache *)

(** The cached form of expression [p] of conjunction [c]. *)
Definition cached_expr (descs : gmap string FieldDesc) (c : ConjID) (p : BEField * BoolValues)
    (e : BEField * IdxCacheEntry) : Prop :=
  e.1 = p.1 /\ ce_EID e.2 = NewEntryID c (Incl p.2) /\
  exists x, expr_data descs p = Ok x /\ Encode x = Ok (ce_DataBytes e.2).

Definition flat_entries (fxs : list FieldIndexes) : list (BEField * IdxCacheEntry) :=
  fxs ≫= (fun fx => pair (fx_Field fx) <$> fx_Entries fx).

Record cached_conj (descs : gmap string FieldDesc) (docID : DocID) (p : LogEntry)
    (cc : ConjIdxCache) : Prop := {
  cj_id : fields_ok docID (cc_ConjIdx cc) (cc_ConjSize cc) /\ cc_ConjIdx cc < 255 /\
          cc_ConjSize cc = CalcConjSize p.2 /\ p = conj_entry docID (cc_ConjIdx cc) p.2;
  cj_fields : Forall (fun fx => fx_Entries fx <> []) (cc_FieldCacheIdx cc);
  cj_exprs : exists es, es ≡ₚ conj_exprs p.2 /\
    Forall2 (cached_expr descs p.1) es (flat_entries (cc_FieldCacheIdx cc))
}.

(** [e] describes document [doc]. *)
Definition entry_for (skip : Prop) (descs : gmap string FieldDesc) (doc : Document) (e : DocIdxCache)
    : Prop :=
  dc_DocID e = doc_ID doc /\
  exists kept, kept_of skip descs (doc_ID doc) (doc_log doc) kept /\
    Forall2 (cached_conj descs (doc_ID doc)) kept (dc_ConjIdxCaches e).

Definition skips (b : Bld) : Prop := badConjBehavior b = SkipBadConj.

(** Everything in the cache describes the document its key stands for. *)
Definition cache_sound (docs_of : DocCacheKey -> Document) (b : Bld) : Prop :=
  forall k key e, docLevelCache b = Some k -> cache_may k key e ->
    entry_for (skips b) (fieldsData b) (docs_of key) e.

End Spec.
