(* ===== verification/BuilderProofs.v ===== *)
(** * The builder keeps its invariant

    Each operation of the builder is related to the log of committed
    conjunctions; errors and panics leave the log unchanged. *)

From stdpp Require Import base sorting gmap strings numbers list.
From S2P Require Import Prelude GoValues Ids Document Cursor FieldCursor Collector Scan Holder.
From S2P Require Import Index IndexSpec IndexProofs Builder BuilderSpec.
Open Scope Z_scope.

(** The expressions of a conjunction, one by one. *)
Lemma elem_of_conj_exprs `{MapRange} cj f bv :
  (f, bv) ∈ conj_exprs cj <-> exists exprs, Expressions cj !! f = Some exprs /\ bv ∈ exprs.
Proof.
  unfold conj_exprs. rewrite list_elem_of_bind. split.
  - intros ([g exprs] & Hin & Hg%elem_of_map_range). simpl in *.
    apply list_elem_of_fmap in Hin as (bv' & [= -> ->] & Hin). eauto.
  - intros (exprs & Hf & Hin). exists (f, exprs). split; [| by apply elem_of_map_range].
    simpl. by apply list_elem_of_fmap_2.
Qed.

Section Proofs.
Context {H D I K : Type} `{EntriesHolder H D} `{MapRange} `{BEIndex I H} `{DocLevelCache K}.
Context (factory : gmap string H) `{!HolderSpec H D factory} `{!BEIndexSpec factory I}
  `{!DocLevelCacheSpec K}.
Hypothesis Hdefault : is_Some (factory !! HolderNameDefault).
Local Abbreviation Bld := (IndexerBuilder I K).
Implicit Types (b : Bld) (tx : FieldIndexingData D) (txs : list (FieldIndexingData D)).

(** ** extends *)

#[export] Instance extends_preorder : PreOrder (extends (K:=K) factory).
Proof.
  split.
  - intros b. split; eauto.
  - intros b1 b2 b3 [F1 C1 H1' K1 B1 T1] [F2 C2 H2' K2 B2 T2]. split; try congruence.
    + by transitivity (fieldsData b2).
    + intros a c Hc. destruct (H1' a c Hc) as (c' & Hc' & Hr).
      destruct (H2' a c' Hc') as (c'' & Hc'' & Hr'). eauto.
    + intros k' key e Hk He. destruct (K2 _ _ _ Hk He) as (k & Hk1 & He1). eauto.
Qed.

Lemma tx_ready_extends b b' tx : tx_ready factory b tx -> extends factory b b' -> tx_ready factory b' tx.
Proof.
  intros [F R Dt (c & Hc & Hr)] [EF EC EH EK EB ET]. split; try done.
  - by eapply lookup_weaken.
  - destruct (EH _ _ Hc) as (c' & Hc' & Hr'). eauto.
Qed.

(** ** The index under the builder's steps *)

Lemma txs_at_none txs a r :
  (forall tx, tx ∈ txs -> fi_addr tx = a -> fi_ref tx = r -> False) -> txs_at txs a r = [].
Proof.
  intros Hno. destruct (txs_at txs a r) as [|[[d e] x] l] eqn:El; [done |].
  assert ((d, e, x) ∈ txs_at txs a r) as Hin by (rewrite El; by left).
  unfold txs_at in Hin. apply list_elem_of_fmap in Hin as (tx & _ & Htx).
  apply list_elem_of_filter in Htx as [[Ha Hr] Htx]. naive_solver.
Qed.

Lemma container_rep_fresh descs txs a :
  (forall tx, tx ∈ txs -> fi_addr tx <> a) ->
  container_rep holder_rep descs txs a (newFieldEntriesContainer factory).
Proof.
  intros Hno. split; simpl.
  - destruct Hdefault as [h Hh]. exists h. split; [done |].
    rewrite txs_at_none by (intros tx Htx Ha; by apply Hno in Htx).
    by apply holder_new.
  - intros f h. by rewrite lookup_empty.
Qed.

Lemma built_new_container b txs wild k i' a :
  built factory b txs wild -> newContainer (indexer b) k = (i', a) ->
  built factory (set_indexer b i') txs wild /\ extends factory b (set_indexer b i') /\
  a = caddr factory (indexer b) k /\ is_Some (container_at i' a).
Proof.
  intros [[Hc Hr Hw Hwc] Hf] Hn.
  destruct (newContainer_spec factory _ _ _ _ Hn) as (Ha & Hca & Hb & Hsome & Hold & Hnew).
  split; [| split; [| done]].
  - split; simpl; [| done]. rewrite Hca. split.
    + intros a' c [Hc' | [Hnone ->]]%Hnew; [by apply Hc |].
      apply container_rep_fresh. intros tx Htx <-. destruct (Hr tx Htx) as (c & Hc' & _). congruence.
    + intros tx Htx. destruct (Hr tx Htx) as (c & Hc' & ?). eauto.
    + by rewrite Hb.
    + intros Hne. destruct (Hwc Hne) as [c Hc']. eauto.
  - split; simpl; eauto.
Qed.

(** The name under which the holder at [r] was made. *)
Definition ref_name (descs : gmap string FieldDesc) (r : HolderRef) (name : string) : Prop :=
  match r with
  | RDefault => name = HolderNameDefault
  | RField f => exists d, descs !! f = Some d /\ fd_Container d <> HolderNameDefault /\
                  name = fd_Container d
  end.

Lemma ref_name_ref_of descs d :
  descs !! fd_Field d = Some d -> ref_name descs (ref_of d) (fd_Container d).
Proof. intros Hd. unfold ref_of. case_bool_decide; simpl; eauto. Qed.

Lemma container_rep_deref descs txs a (c : EntriesContainer H) r name h :
  container_rep holder_rep descs txs a c -> ref_name descs r name -> holder_deref c r = Some h ->
  holder_rep name h (txs_at txs a r).
Proof.
  intros [(h0 & Hh0 & Hrep0) Hrep]. destruct r as [|f]; simpl.
  - intros -> Hh. congruence.
  - intros (d & Hd & Hne & ->) Hh. destruct (Hrep f h Hh) as (d' & Hd' & _ & Hr).
    by simplify_eq.
Qed.

(** Replacing the holder at [a], [r] by one that holds [txs']. *)
Lemma built_update b txs txs' wild a c r name h' :
  built factory b txs wild -> container_at (indexer b) a = Some c ->
  ref_name (fieldsData b) r name ->
  (forall a' r', (a', r') <> (a, r) -> txs_at txs' a' r' = txs_at txs a' r') ->
  holder_rep name h' (txs_at txs' a r) ->
  (forall tx, tx ∈ txs' -> tx ∈ txs \/ fi_addr tx = a /\ fi_ref tx = r) ->
  let b' := set_indexer b (set_container (indexer b) a (holder_update c r h')) in
  built factory b' txs' wild /\ extends factory b b' /\
  container_at (indexer b') a = Some (holder_update c r h').
Proof.
  intros [[Hc Hr Hw Hwc] Hf] Ha Hname Hsame Hrep Hin b'.
  assert (Hat : forall a', container_at (indexer b') a' =
      if decide (a = a') then Some (holder_update c r h') else container_at (indexer b) a')
    by (intros a'; apply (container_at_set factory); eauto).
  assert (Hder : forall r', is_Some (holder_deref c r') -> is_Some (holder_deref (holder_update c r h') r')).
  { intros r' Hr'. rewrite deref_update. destruct (decide _); eauto. }
  split; [split; [split |] | split; [split |]]; simpl; try done.
  - intros a' c'. change (set_container _ _ _) with (indexer b'). rewrite Hat.
    destruct (decide (a = a')) as [<- | Hne].
    + intros [= <-]. destruct (Hc a c Ha) as [(h0 & Hh0 & Hrep0) Hfields]. split.
      * destruct r as [|f]; simpl in *; [subst name; eauto |].
        exists h0. split; [done |]. by rewrite Hsame.
      * intros f h1. destruct r as [|g]; simpl.
        -- intros Hl. destruct (Hfields f h1 Hl) as (d & ? & ? & ?). exists d.
           by rewrite Hsame.
        -- destruct (decide (g = f)) as [<- | Hgf].
           ++ rewrite lookup_insert_eq. intros [= <-]. destruct Hname as (d & Hd & Hnd & ->). eauto.
           ++ rewrite lookup_insert_ne by done. intros Hl.
              destruct (Hfields f h1 Hl) as (d & ? & ? & ?). exists d. rewrite Hsame; [done | congruence].
    + intros Hc'. destruct (Hc a' c' Hc') as [(h0 & Hh0 & Hrep0) Hfields]. split.
      * exists h0. rewrite Hsame; [done | congruence].
      * intros f h1 Hl. destruct (Hfields f h1 Hl) as (d & ? & ? & ?). exists d.
        rewrite Hsame; [done | congruence].
  - intros tx Htx. change (set_container _ _ _) with (indexer b'). rewrite Hat.
    destruct (Hin tx Htx) as [Hold | [<- <-]].
    + destruct (Hr tx Hold) as (c' & Hc' & Hd'). destruct (decide _) as [-> | Hne]; [| eauto].
      rewrite Ha in Hc'. injection Hc' as <-. eauto.
    + rewrite decide_True by done. eexists. split; [done |].
      rewrite deref_update, decide_True by done. eauto.
  - by rewrite (base_set_container factory).
  - intros Hne. change (set_container _ _ _) with (indexer b').
    change (indexer b') with (set_container (indexer b) a (holder_update c r h')) in *.
    rewrite (caddr_set_container factory). destruct (Hwc Hne) as [c' Hc'].
    rewrite Hat. destruct (decide _); eauto.
  - by rewrite (caddr_set_container factory).
  - intros a' c' Hc'. change (set_container _ _ _) with (indexer b'). rewrite Hat.
    destruct (decide (a = a')) as [<- | Hne]; [| eauto].
    rewrite Ha in Hc'. injection Hc' as <-. eauto.
  - eauto.
  - change (set_container _ _ _) with (indexer b'). by rewrite Hat, decide_True.
Qed.

(** ** Fields *)

Lemma fields_inv_insert descs f ct :
  fields_inv descs -> descs !! f = None ->
  fields_inv (<[f := {| fd_Container := ct; fd_ID := Z.of_nat (size descs); fd_Field := f |}]> descs).
Proof.
  intros [Hids [Hf Hinj]] Hnone.
  pose proof (map_size_insert_None f {| fd_Container := ct; fd_ID := Z.of_nat (size descs); fd_Field := f |}
    descs Hnone) as Hsz.
  split; [| split].
  - intros g d. rewrite Hsz. intros [[<- <-] | [Hne Hl]]%lookup_insert_Some; simpl; [lia |].
    specialize (Hids _ _ Hl). lia.
  - intros g d [[<- <-] | [_ Hl]]%lookup_insert_Some; eauto.
  - intros g g' d d' [[<- <-] | [Hne Hl]]%lookup_insert_Some [[<- <-] | [Hne' Hl']]%lookup_insert_Some;
      simpl; try done; intros Heq; eauto.
    + specialize (Hids _ _ Hl'). lia.
    + specialize (Hids _ _ Hl). lia.
Qed.

Lemma index_holds_descs ca i descs descs' txs wild :
  descs ⊆ descs' -> index_holds ca holder_rep i descs txs wild ->
  index_holds ca holder_rep i descs' txs wild.
Proof.
  intros Hsub [Hc Hr Hw Hwc]. split; try done.
  intros a c Ha. destruct (Hc a c Ha) as [Hd Hf]. split; [done |].
  intros f h Hl. destruct (Hf f h Hl) as (d & ? & ?). exists d. split; [| done].
  by eapply lookup_weaken.
Qed.

(** A step that prepares: it commits nothing. *)
Definition prepares (b : Bld) txs wild (b' : Bld) : Prop :=
  built factory b' txs wild /\ extends factory b b'.

Lemma prepares_trans b b1 b2 txs wild :
  prepares b txs wild b1 -> prepares b1 txs wild b2 -> prepares b txs wild b2.
Proof. intros [? E1] [? E2]. split; [done |]. by transitivity b1. Qed.

Lemma configureField_spec b txs wild field container :
  built factory b txs wild ->
  wp (configureField field container) (fun r b' => prepares b txs wild b' /\
    match r with
    | Ok desc => fieldsData b !! field = None /\ fd_Field desc = field /\
        fieldsData b' = <[field := desc]> (fieldsData b) /\
        fd_Container desc = (if bool_decide (container = "") then HolderNameDefault else container) /\
        indexer b' = indexer b
    | Err _ => is_Some (fieldsData b !! field) /\ b' = b
    | _ => False
    end) b.
Proof.
  intros Hb. unfold wp, configureField. destruct (fieldsData b !! field) as [d|] eqn:Ef.
  - split; [split; [done | reflexivity] | eauto].
  - destruct Hb as [Hi Hf]. split; [split; split; simpl |]; try done.
    + eapply index_holds_descs; [| exact Hi]. by apply insert_subseteq.
    + by apply fields_inv_insert.
    + by apply insert_subseteq.
    + eauto.
    + intros k' key e Hk He. destruct (docLevelCache b) as [k|] eqn:Ek; [| done].
      injection Hk as <-. by apply cache_may_Clear in He.
Qed.

Lemma createFieldData_spec b txs wild field :
  built factory b txs wild ->
  wp (createFieldData field) (fun r b' => prepares b txs wild b' /\
    exists desc, r = Ok desc /\ fd_Field desc = field /\ fieldsData b' !! field = Some desc /\
      indexer b' = indexer b) b.
Proof.
  intros Hb. unfold createFieldData, wp. destruct (fieldsData b !! field) as [d|] eqn:Ef.
  - split; [split; [done | reflexivity] |]. exists d. split; [done |].
    split; [by apply (built_fields _ _ _ _ Hb) |]. done.
  - apply (wp_PanicIfErr (configureField field HolderNameDefault)).
    wp_call configureField_spec.
    intros [desc|e|e|] b'; intros [Hp Hr]; (split; [done |]); [| by destruct Hr as [[? ?] _]; congruence | done ..].
    destruct Hr as (_ & Hfd & Hins & _ & Hix). exists desc. split; [done |]. split; [done |].
    split; [by rewrite Hins, lookup_insert_eq | done].
Qed.

(** ** Holders *)

(** Writing a container back unchanged. *)
Lemma built_id b txs wild a c :
  built factory b txs wild -> container_at (indexer b) a = Some c ->
  let b' := set_indexer b (set_container (indexer b) a c) in
  prepares b txs wild b' /\ container_at (indexer b') a = Some c.
Proof.
  intros Hb Hc.
  destruct (ih_containers _ _ _ _ _ _ (built_index _ _ _ _ Hb) a c Hc) as [(h & Hh & Hrep) _].
  destruct (built_update b txs txs wild a c RDefault HolderNameDefault h Hb Hc)
    as (Hb' & He & Hat); [done | done | done | by left |].
  assert (holder_update c RDefault h = c) as Hid by (destruct c; simpl in *; by subst).
  rewrite Hid in *. done.
Qed.

Lemma CreateHolder_spec b txs wild a desc :
  built factory b txs wild -> is_Some (container_at (indexer b) a) ->
  fieldsData b !! fd_Field desc = Some desc ->
  wp (with_container a (CreateHolder factory desc)) (fun r b' => prepares b txs wild b' /\
    fieldsData b' = fieldsData b /\ docLevelCache b' = docLevelCache b /\
    match r with
    | Ok ref => ref = ref_of desc /\
        exists c, container_at (indexer b') a = Some c /\ is_Some (holder_deref c ref)
    | Panic _ => factory !! fd_Container desc = None
    | _ => False
    end) b.
Proof.
  intros Hb [c Hc] Hd. unfold wp, with_container, CreateHolder. rewrite Hc.
  unfold mbind, M_bind, get. cbn beta iota.
  rewrite (getFieldHolder_deref c desc).
  destruct (holder_deref c (ref_of desc)) as [h|] eqn:Eh.
  - destruct (built_id b txs wild a c Hb Hc) as [Hp Hat]. split; [exact Hp |].
    split; [done |]. split; [done |]. split; [done |]. exists c. rewrite Eh. eauto.
  - assert (fd_Container desc <> HolderNameDefault) as Hne.
    { intros Heq. unfold ref_of in Eh. rewrite bool_decide_eq_true_2 in Eh by done.
      destruct (ih_containers _ _ _ _ _ _ (built_index _ _ _ _ Hb) a c Hc) as [(h & Hh & _) _].
      simpl in Eh. congruence. }
    unfold ref_of in *. rewrite bool_decide_eq_false_2 in * by done. simpl in Eh.
    unfold PanicIf, HasHolderBuilder, NewEntriesHolder, put, panic.
    destruct (factory !! fd_Container desc) as [h|] eqn:Ef.
    + rewrite bool_decide_eq_true_2 by eauto. cbn [negb mret M_ret].
      assert (txs_at txs a (RField (fd_Field desc)) = []) as Hnil.
      { apply txs_at_none. intros tx Htx <- Hr.
        destruct (ih_refs _ _ _ _ _ _ (built_index _ _ _ _ Hb) tx Htx) as (c' & Hc' & Hd').
        rewrite Hc in Hc'. injection Hc' as <-. rewrite Hr in Hd'. simpl in Hd'.
        rewrite Eh in Hd'. by destruct Hd'. }
      destruct (built_update b txs txs wild a c (RField (fd_Field desc)) (fd_Container desc) h Hb Hc)
        as (Hb' & He & Hat); [simpl; eauto | done | rewrite Hnil; by apply holder_new | by left |].
      split; [split; [exact Hb' | exact He] |]. split; [done |]. split; [done |]. split; [done |].
      eexists. split; [exact Hat |]. simpl. rewrite lookup_insert_eq. eauto.
    + rewrite bool_decide_eq_false_2 by (intros [? ?]; done). cbn [negb].
      destruct (built_id b txs wild a c Hb Hc) as [Hp Hat]. split; [exact Hp | done].
Qed.

(** A method call on the holder at [a], [ref_of desc] that commits nothing. *)
Lemma with_holder_spec {A} b txs wild a desc (m : H -> H * res A) (R : res A -> Prop) :
  built factory b txs wild -> fieldsData b !! fd_Field desc = Some desc ->
  (exists c, container_at (indexer b) a = Some c /\ is_Some (holder_deref c (ref_of desc))) ->
  (forall h h' r, holder_rep (fd_Container desc) h (txs_at txs a (ref_of desc)) -> m h = (h', r) ->
     holder_rep (fd_Container desc) h' (txs_at txs a (ref_of desc)) /\ R r) ->
  wp (with_container a (with_holder (ref_of desc) m)) (fun r b' => prepares b txs wild b' /\
    fieldsData b' = fieldsData b /\ docLevelCache b' = docLevelCache b /\
    (exists c, container_at (indexer b') a = Some c /\ is_Some (holder_deref c (ref_of desc))) /\ R r) b.
Proof.
  intros Hb Hd (c & Hc & [h Hh]) Hm. unfold wp, with_container, with_holder. rewrite Hc, Hh.
  destruct (m h) as [h' r] eqn:Em.
  destruct (Hm h h' r) as [Hrep HR]; [| done |].
  { eapply container_rep_deref; [by apply (built_index _ _ _ _ Hb) | by apply ref_name_ref_of | done]. }
  destruct (built_update b txs txs wild a c (ref_of desc) (fd_Container desc) h' Hb Hc)
    as (Hb' & He & Hat); [by apply ref_name_ref_of | done | done | by left |].
  split; [split; [exact Hb' | exact He] |]. split; [done |]. split; [done |]. split; [| done].
  eexists. split; [exact Hat |]. rewrite deref_update, decide_True by done. eauto.
Qed.

(** ** Preparing conjunctions *)

Lemma expr_data_mono descs descs' p :
  descs ⊆ descs' -> is_Some (descs !! p.1) -> expr_data factory descs' p = expr_data factory descs p.
Proof.
  intros Hsub [d Hd]. unfold expr_data. by rewrite Hd, (lookup_weaken _ _ _ _ Hd Hsub).
Qed.

Lemma expr_tx_mono descs descs' ca c p tx :
  descs ⊆ descs' -> expr_tx factory descs ca c p tx -> expr_tx factory descs' ca c p tx.
Proof.
  intros Hsub [F A R E Dt]. split; try done; [by eapply lookup_weaken |].
  rewrite (expr_data_mono descs); eauto.
Qed.

Lemma bad_conj_mono descs descs' cj :
  descs ⊆ descs' -> bad_conj factory descs cj -> bad_conj factory descs' cj.
Proof.
  intros Hsub (p & Hp & Hs & Hno). exists p. split; [done |]. split.
  - destruct Hs as [d Hd]. exists d. by eapply lookup_weaken.
  - by rewrite (expr_data_mono descs).
Qed.

(** A prepared transaction of expression [p] of conjunction [c]. *)
Definition prepared (b : Bld) (c : ConjID) (p : BEField * BoolValues) tx : Prop :=
  tx_ready factory b tx /\ expr_tx factory (fieldsData b) (caddr factory (indexer b)) c p tx.

Lemma prepared_extends b b' c p tx :
  prepared b c p tx -> extends factory b b' -> prepared b' c p tx.
Proof.
  intros [Hr Hx] He. split; [by eapply tx_ready_extends |].
  rewrite (ext_caddr _ _ _ He). eapply expr_tx_mono; [by apply He | done].
Qed.

(** The transaction of an expression is unique. *)
Lemma prepared_unique b b' c es es' ts ts' :
  es ≡ₚ es' -> Forall2 (prepared b c) es ts -> Forall2 (prepared b' c) es' ts' ->
  extends factory b b' -> ts' ≡ₚ ts.
Proof.
  intros Hes Hall Hall' He. destruct (Permutation_Forall2 Hes Hall) as (ts1 & Hts & Hall1).
  rewrite Hts. clear Hall Hts Hes. replace ts1 with ts'; [done |].
  revert ts' Hall'. induction Hall1 as [|p tx es' ts1 Hp Hall1 IH]; intros ts' Hall'.
  - by apply Forall2_nil_inv_l in Hall'.
  - apply Forall2_cons_inv_l in Hall' as (tx' & ts2 & Hp' & Hall2 & ->). f_equal; [| by apply IH].
    pose proof (prepared_extends _ _ _ _ _ Hp He) as [_ [F A R E Dt]].
    destruct Hp' as [_ [F' A' R' E' Dt']]. destruct tx, tx'; simpl in *. congruence.
Qed.

Lemma indexing_expr_spec b txs wild a c f bv :
  built factory b txs wild -> is_Some (container_at (indexer b) a) ->
  a = caddr factory (indexer b) (Z.to_nat (conj_Size c)) ->
  wp (indexing_expr factory a c f bv) (fun r b' => prepares b txs wild b' /\
    match r with
    | Ok tx => prepared b' c (f, bv) tx
    | OutOfFuel => False
    | _ => is_Some (fieldsData b' !! f) /\ forall x, expr_data factory (fieldsData b') (f, bv) <> Ok x
    end) b.
Proof.
  intros Hb Ha Haddr. unfold indexing_expr. apply wp_bind.
  wp_call createFieldData_spec. intros r b1 [Hp1 (desc & -> & Hf & Hd & Hix)].
  apply wp_bind. eapply wp_mono.
  { apply (CreateHolder_spec b1 txs wild a desc); [apply Hp1 | by rewrite Hix | by rewrite Hf]. }
  intros r b2 (Hp2 & Hfd2 & Hk2 & Hr). pose proof (prepares_trans _ _ _ _ _ Hp1 Hp2) as Hp12.
  destruct r as [ref|e|e|]; [| done | | done].
  2: { split; [done |]. rewrite Hfd2. split; [eauto |]. intros x. unfold expr_data, build_data. simpl.
       by rewrite Hd, Hr. }
  destruct Hr as [-> Hholder].
  apply wp_bind. eapply wp_mono.
  { apply (with_holder_spec b2 txs wild a desc (fun h => BuildFieldIndexingData h desc bv)
      (fun r => r = build_data factory (fd_Container desc) desc bv));
      [apply Hp2 | by rewrite Hfd2, Hf | done |].
    intros h h' r Hrep Hbuild. by eapply holder_build. }
  intros r b3 (Hp3 & Hfd3 & Hk3 & Hholder3 & ->).
  pose proof (prepares_trans _ _ _ _ _ Hp12 Hp3) as Hp.
  assert (Hdesc3 : fieldsData b3 !! f = Some desc) by (by rewrite Hfd3, Hfd2).
  assert (Hdata : expr_data factory (fieldsData b3) (f, bv) = build_data factory (fd_Container desc) desc bv)
    by (unfold expr_data; simpl; by rewrite Hdesc3).
  destruct (build_data factory (fd_Container desc) desc bv) as [x|e|e|] eqn:Ebd.
  - apply wp_ret. split; [done |]. split; split; simpl; try done.
    + by rewrite Hf.
    + by eapply build_data_ok.
    + rewrite Haddr. by rewrite (ext_caddr _ _ _ (proj2 Hp)).
  - split; [done |]. split; [eauto |]. intros x Hx. congruence.
  - split; [done |]. split; [eauto |]. intros x Hx. congruence.
  - by apply (build_data_fuel (factory:=factory)) in Ebd.
Qed.

Lemma indexing_exprs_spec es b txs wild a c es0 acc :
  built factory b txs wild -> is_Some (container_at (indexer b) a) ->
  a = caddr factory (indexer b) (Z.to_nat (conj_Size c)) ->
  Forall2 (prepared b c) es0 acc ->
  wp (indexing_exprs factory a c es acc) (fun r b' => prepares b txs wild b' /\
    match r with
    | Ok acc' => Forall2 (prepared b' c) (es0 ++ es) acc'
    | OutOfFuel => False
    | _ => exists p, p ∈ es /\ is_Some (fieldsData b' !! p.1) /\
             forall x, expr_data factory (fieldsData b') p <> Ok x
    end) b.
Proof.
  revert b es0 acc. induction es as [|[f bv] es IH]; intros b es0 acc Hb Ha Haddr Hacc; simpl.
  - apply wp_ret. rewrite app_nil_r. split; [split; [done | reflexivity] | done].
  - apply wp_bind. wp_call indexing_expr_spec.
    intros r b1 [Hp1 Hr]. destruct r as [tx|e|e|]; try done.
    + assert (Ha1 : is_Some (container_at (indexer b1) a)).
      { destruct Ha as [c0 Hc0]. destruct (ext_holders _ _ _ (proj2 Hp1) _ _ Hc0) as (c1 & ? & _). eauto. }
      eapply wp_mono.
      { apply (IH b1 (es0 ++ [(f, bv)]) (acc ++ [tx])); [apply Hp1 | done | |].
        - rewrite Haddr. by rewrite (ext_caddr _ _ _ (proj2 Hp1)).
        - apply Forall2_app; [| constructor; [done | by apply Forall2_nil]].
          eapply Forall2_impl; [exact Hacc |]. intros p t Hpt. eapply prepared_extends; [done | apply Hp1]. }
      intros r b2 [Hp2 Hr2]. split; [by eapply prepares_trans |].
      destruct r as [acc'|e|e|]; try done.
      1: by rewrite <- app_assoc in Hr2.
      all: destruct Hr2 as (p & Hin & Hbad); exists p; (split; [by right | done]).
    + split; [done |]. exists (f, bv). split; [by left | done].
    + split; [done |]. exists (f, bv). split; [by left | done].
Qed.

Lemma indexingConjunction_spec b txs wild c cj :
  built factory b txs wild ->
  wp (indexingConjunction factory c cj) (fun r b' => prepares b txs wild b' /\
    match r with
    | Ok ts => Forall2 (prepared b' c) (conj_exprs cj) ts /\
        is_Some (container_at (indexer b') (caddr factory (indexer b') (Z.to_nat (conj_Size c))))
    | OutOfFuel => False
    | _ => bad_conj factory (fieldsData b') cj
    end) b.
Proof.
  intros Hb. unfold indexingConjunction. apply wp_bind. apply wp_intro.
  intros b1 r Hn. unfold new_container in Hn.
  destruct (newContainer (indexer b) (Z.to_nat (conj_Size c))) as [i' a] eqn:En. injection Hn as <- <-.
  destruct (built_new_container _ _ _ _ _ _ Hb En) as (Hb1 & He1 & Haddr & Hat).
  assert (Ha1 : a = caddr factory (indexer (set_indexer b i')) (Z.to_nat (conj_Size c)))
    by (rewrite Haddr; by rewrite (ext_caddr _ _ _ He1)).
  eapply wp_mono; [by apply (indexing_exprs_spec _ _ txs wild a c [] []) |].
  intros r b2 [[Hb2 He2] Hr]. split; [split; [done | by transitivity (set_indexer b i')] |].
  destruct r as [ts|e|e|]; try done. split; [done |].
  rewrite (ext_caddr _ _ _ He2), <- Ha1. destruct Hat as [c0 Hc0].
  destruct (ext_holders _ _ _ He2 a c0 Hc0) as (c1 & ? & _). eauto.
Qed.

(** A conjunction ready to be committed. *)
Record cd_ready (b : Bld) (docID : DocID) (p : LogEntry) (cd : ConjIndexingData D) : Prop := {
  cr_id : cd_conjID cd = p.1;
  cr_size : cd_incSize cd = CalcConjSize p.2;
  cr_ok : fields_ok docID (cd_idx cd) (cd_incSize cd);
  cr_idx : cd_idx cd < 255;
  cr_entry : p = conj_entry docID (cd_idx cd) p.2;
  cr_exprs : exists es, es ≡ₚ conj_exprs p.2 /\ Forall2 (prepared b p.1) es (cd_fieldData cd);
  cr_container :
    is_Some (container_at (indexer b) (caddr factory (indexer b) (Z.to_nat (conj_Size p.1))))
}.

Lemma extends_container b b' k :
  extends factory b b' -> is_Some (container_at (indexer b) (caddr factory (indexer b) k)) ->
  is_Some (container_at (indexer b') (caddr factory (indexer b') k)).
Proof.
  intros He [c Hc]. rewrite (ext_caddr _ _ _ He).
  destruct (ext_holders _ _ _ He _ _ Hc) as (c' & ? & _). eauto.
Qed.

Lemma cd_ready_extends b b' docID p cd :
  cd_ready b docID p cd -> extends factory b b' -> cd_ready b' docID p cd.
Proof.
  intros [? ? ? ? ? (es & Hes & Hall) ?] He. split; try done; [| by eapply extends_container].
  exists es. split; [done |]. eapply Forall2_impl; [exact Hall |]. intros. by eapply prepared_extends.
Qed.

Lemma kept_of_mono skip descs descs' docID l l' :
  descs ⊆ descs' -> kept_of factory skip descs docID l l' -> kept_of factory skip descs' docID l l'.
Proof. induction 2; constructor; eauto using bad_conj_mono. Qed.

(** A fault in a list of conjunctions numbered from [idx]. *)
Lemma fault_here descs docID idx cj cjs :
  conj_fault factory descs docID idx cj ->
  exists n cj', (cj :: cjs) !! n = Some cj' /\ conj_fault factory descs docID (idx + Z.of_nat n) cj'.
Proof. intros Hf. exists 0%nat, cj. by rewrite Z.add_0_r. Qed.

Lemma fault_later descs docID idx cj cjs :
  (exists n cj', cjs !! n = Some cj' /\ conj_fault factory descs docID (idx + 1 + Z.of_nat n) cj') ->
  exists n cj', (cj :: cjs) !! n = Some cj' /\ conj_fault factory descs docID (idx + Z.of_nat n) cj'.
Proof.
  intros (n & cj' & Hn & Hf). exists (S n), cj'. split; [done |].
  by replace (idx + Z.of_nat (S n)) with (idx + 1 + Z.of_nat n) by lia.
Qed.

(** What [prepare_conjs] has done when it started with the data of [kept0]. *)
Definition conjs_prepared b txs wild docID idx cjs kept0 (r : res (list (ConjIndexingData D))) b' : Prop :=
  prepares b txs wild b' /\
  match r with
  | Ok all' => exists kept,
      kept_of factory (skips b) (fieldsData b') docID (conj_log docID idx cjs) kept /\
      Forall2 (cd_ready b' docID) (kept0 ++ kept) all'
  | OutOfFuel => False
  | _ => exists n cj, cjs !! n = Some cj /\
           conj_fault factory (fieldsData b') docID (idx + Z.of_nat n) cj
  end.

(** The first conjunction was kept, or skipped. *)
Lemma conjs_prepared_keep b b1 txs wild docID idx cj cjs kept0 r b' :
  prepares b txs wild b1 -> skips b1 = skips b -> fields_ok docID idx (CalcConjSize cj) -> idx < 255 ->
  conjs_prepared b1 txs wild docID (idx + 1) cjs (kept0 ++ [conj_entry docID idx cj]) r b' ->
  conjs_prepared b txs wild docID idx (cj :: cjs) kept0 r b'.
Proof.
  intros Hp Hsk Hok Hidx [Hp2 Hr]. split; [by eapply prepares_trans |]. rewrite Hsk in Hr.
  destruct r as [all'|e|e|]; [| by apply fault_later .. | done].
  destruct Hr as (kept & Hk & Hf). exists (conj_entry docID idx cj :: kept).
  split; [| by rewrite <- app_assoc in Hf]. apply kept_keep; [| done]. by exists idx.
Qed.

Lemma conjs_prepared_skip b b1 txs wild docID idx cj cjs kept0 r b' :
  prepares b txs wild b1 -> skips b1 = skips b -> skips b -> bad_conj factory (fieldsData b1) cj ->
  conjs_prepared b1 txs wild docID (idx + 1) cjs kept0 r b' ->
  conjs_prepared b txs wild docID idx (cj :: cjs) kept0 r b'.
Proof.
  intros Hp Hsk Hskip Hbad [Hp2 Hr]. split; [by eapply prepares_trans |]. rewrite Hsk in Hr.
  destruct r as [all'|e|e|]; [| by apply fault_later .. | done].
  destruct Hr as (kept & Hk & Hf). exists kept. split; [| done].
  apply kept_skip; [done | | done]. eapply bad_conj_mono; [apply Hp2 | done].
Qed.

Lemma prepare_conjs_spec cjs b txs wild docID idx kept0 all :
  built factory b txs wild -> 0 <= idx -> idx + Z.of_nat (length cjs) <= 255 ->
  Forall2 (cd_ready b docID) kept0 all ->
  wp (prepare_conjs factory docID idx cjs all) (conjs_prepared b txs wild docID idx cjs kept0) b.
Proof.
  revert b idx kept0 all.
  induction cjs as [|cj cjs IH]; intros b idx kept0 all Hb Hidx Hlen Hall; cbn [prepare_conjs].
  - apply wp_ret. split; [split; [done | reflexivity] |].
    exists []. split; [constructor |]. by rewrite app_nil_r.
  - apply wp_bind. apply wp_intro. intros b0 r [= <- <-].
    destruct (NewConjID_cases docID idx (CalcConjSize cj)) as [[Hok ->] | [Hbad [e ->]]].
    2: { split; [split; [done | reflexivity] |]. apply fault_here. by left. }
    cbn [length] in Hlen.
    apply wp_bind, wp_with_err. wp_call indexingConjunction_spec.
    intros r b1 [Hp1 Hr].
    assert (Hall1 : Forall2 (cd_ready b1 docID) kept0 all).
    { eapply Forall2_impl; [exact Hall |]. intros. eapply cd_ready_extends; [done | apply Hp1]. }
    assert (Hsk : skips b1 = skips b) by (unfold skips; by rewrite (ext_behavior _ _ _ (proj2 Hp1))).
    destruct r as [ts|e|e|]; try done.
    + destruct Hr as [Hts Hcont].
      eapply wp_mono; [| intros r b2; apply conjs_prepared_keep; [done | done | done | lia]].
      apply IH; [apply Hp1 | lia | lia |]. apply Forall2_app; [done |]. constructor; [| by apply Forall2_nil].
      split; simpl; try done; [lia | eauto].
    + apply wp_bind. apply wp_intro. intros b1' r [= <- <-]. case_bool_decide as Hskip.
      * eapply wp_mono; [apply (IH b1 (idx + 1) kept0 all); [apply Hp1 | lia | lia | done] |].
        intros r b2. apply conjs_prepared_skip; [done | done | by rewrite <- Hsk | done].
      * case_bool_decide as Herr; (split; [done |]); apply fault_here; by right.
    + split; [done |]. apply fault_here. by right.
Qed.

(** ** Committing *)

Lemma txs_at_snoc txs tx a r :
  txs_at (txs ++ [tx]) a r =
  txs_at txs a r ++ (if bool_decide (fi_addr tx = a /\ fi_ref tx = r) then [tx_proj tx] else []).
Proof.
  unfold txs_at. rewrite filter_app, fmap_app. f_equal. simpl.
  case_bool_decide; [by rewrite filter_cons_True | by rewrite filter_cons_False].
Qed.

(** A committing step leaves fields and cache alone. *)
Record commits (b : Bld) txs wild (b' : Bld) : Prop := {
  cm_built : built factory b' txs wild;
  cm_extends : extends factory b b';
  cm_fields : fieldsData b' = fieldsData b;
  cm_cache : docLevelCache b' = docLevelCache b;
  cm_hash : schemaHash b' = schemaHash b
}.

Lemma commit_tx_spec b txs wild tx :
  built factory b txs wild -> tx_ready factory b tx ->
  wp (commit_tx tx) (fun r b' => r = Ok tt /\ commits b (txs ++ [tx]) wild b') b.
Proof.
  intros Hb [Hf Hr Hd (c & Hc & [h Hh])]. apply wp_PanicIfErr.
  unfold wp, with_container, with_holder. rewrite Hc, Hh.
  assert (Hrep : holder_rep (fd_Container (fi_field tx)) h (txs_at txs (fi_addr tx) (fi_ref tx))).
  { rewrite Hr in *. eapply container_rep_deref; [by apply (built_index _ _ _ _ Hb) | by apply ref_name_ref_of | done]. }
  destruct (holder_commit _ _ _ (fi_field tx) (fi_EID tx) _ Hrep Hd) as (h' & -> & Hrep').
  destruct (built_update b txs (txs ++ [tx]) wild (fi_addr tx) c (fi_ref tx) (fd_Container (fi_field tx)) h' Hb Hc)
    as (Hb' & He & Hat).
  - rewrite Hr. by apply ref_name_ref_of.
  - intros a' r' Hne. rewrite txs_at_snoc, bool_decide_eq_false_2 by naive_solver.
    by rewrite app_nil_r.
  - rewrite txs_at_snoc, bool_decide_eq_true_2 by done. exact Hrep'.
  - intros tx' [? | ->%list_elem_of_singleton]%elem_of_app; auto.
  - split; [done |]. by split.
Qed.

Lemma commit_txs_spec ts b txs wild :
  built factory b txs wild -> Forall (tx_ready factory b) ts ->
  wp (forM ts commit_tx) (fun r b' => r = Ok tt /\ commits b (txs ++ ts) wild b') b.
Proof.
  revert b txs. induction ts as [|tx ts IH]; intros b txs Hb Hts; cbn [forM].
  - apply wp_ret. rewrite app_nil_r. split; [done |]. split; try done. 
  - inversion Hts as [|? ? Htx Hts']; subst. apply wp_bind.
    wp_call commit_tx_spec. intros r b1 [-> [Hb1 He1 Hf1 Hk1 Hh1]].
    eapply wp_mono.
    { apply IH; [done |]. eapply Forall_impl; [exact Hts' |]. intros. by eapply tx_ready_extends. }
    intros r b2 [-> [Hb2 He2 Hf2 Hk2 Hh2]]. split; [done |].
    rewrite <- app_assoc in Hb2. split; try congruence; [done | by transitivity b1].
Qed.

Lemma built_addWildcard b txs wild e :
  built factory b txs wild ->
  is_Some (container_at (indexer b) (caddr factory (indexer b) 0%nat)) ->
  commits b txs (wild ++ [e]) (set_indexer b (addWildcardEID (indexer b) e)).
Proof.
  intros [[Hc Hr Hw Hwc] Hf] Hcont. split; try done; split; simpl; try done.
  - rewrite (caddr_addWildcardEID factory). split.
    + intros a c. rewrite (container_at_addWildcardEID factory). apply Hc.
    + intros tx Htx. rewrite (container_at_addWildcardEID factory). by apply Hr.
    + rewrite (base_addWildcardEID factory). simpl. by rewrite Hw.
    + intros _. by rewrite (container_at_addWildcardEID factory).
  - apply (caddr_addWildcardEID factory).
  - intros a c Ha. rewrite (container_at_addWildcardEID factory). eauto.
  - eauto.
Qed.

Lemma conj_txs_mono descs descs' ca p ts :
  descs ⊆ descs' -> conj_txs factory descs ca p ts -> conj_txs factory descs' ca p ts.
Proof.
  intros Hsub (es & Hes & Hall). exists es. split; [done |].
  eapply Forall2_impl; [exact Hall |]. intros. by eapply expr_tx_mono.
Qed.

Lemma logged_mono descs descs' ca log txs wild :
  descs ⊆ descs' -> logged factory descs ca log txs wild -> logged factory descs' ca log txs wild.
Proof.
  intros Hsub [(txss & -> & Hall) Hw Hok]. split; try done. exists txss. split; [done |].
  eapply Forall2_impl; [exact Hall |]. intros. by eapply conj_txs_mono.
Qed.

Lemma binv_prepares b b' log txs wild :
  logged factory (fieldsData b) (caddr factory (indexer b)) log txs wild ->
  prepares b txs wild b' -> binv factory b' log.
Proof.
  intros Hl [Hb He]. exists txs, wild. split; [done |]. rewrite (ext_caddr _ _ _ He).
  eapply logged_mono; [apply He | done].
Qed.

Lemma entry_Size docID idx p :
  fields_ok docID idx (CalcConjSize p.2) -> p = conj_entry docID idx p.2 -> conj_Size p.1 = CalcConjSize p.2.
Proof. intros Hok ->. by apply pack_Size. Qed.

(** The log grows by [new]; fields and cache stay. *)
Record logs (b : Bld) (log : list LogEntry) (b' : Bld) : Prop := {
  ls_binv : binv factory b' log;
  ls_extends : extends factory b b';
  ls_fields : fieldsData b' = fieldsData b;
  ls_cache : docLevelCache b' = docLevelCache b
}.

Lemma commitConj_spec b log docID p cd :
  binv factory b log -> cd_ready b docID p cd ->
  wp (commitConjIndexingData cd) (fun r b' => r = Ok tt /\ logs b (log ++ [p]) b') b.
Proof.
  intros (txs & wild & Hb & Hl) [Hid Hsz Hok Hidx Hentry (es & Hes & Hall) Hcont].
  rewrite Hsz in Hok. pose proof (entry_Size _ _ _ Hok Hentry) as HS.
  assert (Htx : forall b', extends factory b b' -> Forall (tx_ready factory b') (cd_fieldData cd)).
  { intros b' He. rewrite Forall_forall. intros tx Hin.
    apply list_elem_of_lookup in Hin as [i Hi].
    destruct (Forall2_lookup_r _ _ _ _ _ Hall Hi) as (q & _ & [Hr _]). by eapply tx_ready_extends. }
  unfold commitConjIndexingData. rewrite Hsz, Hid. apply wp_bind.
  set (wild' := if bool_decide (CalcConjSize p.2 = 0) then wild ++ [NewEntryID p.1 true] else wild).
  apply (wp_mono _ (fun r b1 => r = Ok tt /\ commits b txs wild' b1)).
  { subst wild'. case_bool_decide as Hz.
    - split; [done |]. apply built_addWildcard; [done |]. by rewrite HS, Hz in Hcont.
    - split; [done |]. split; done. }
  intros r b1 [-> [Hb1 He1 Hf1 Hk1 Hh1]].
  eapply wp_mono; [apply (commit_txs_spec (cd_fieldData cd)); [exact Hb1 | by apply Htx] |].
  intros r b2 [-> [Hb2 He2 Hf2 Hk2 Hh2]]. split; [done |].
  assert (He : extends factory b b2) by by transitivity b1.
  split; [| done | congruence | congruence].
  exists (txs ++ cd_fieldData cd), wild'. split; [done |].
  rewrite Hf2, Hf1, (ext_caddr _ _ _ He). destruct Hl as [(txss & -> & Htxss) Hw Hoks]. split.
  - exists (txss ++ [cd_fieldData cd]). rewrite join_app. simpl. rewrite app_nil_r. split; [done |].
    apply Forall2_app; [done |]. constructor; [| by apply Forall2_nil].
    exists es. split; [done |]. eapply Forall2_impl; [exact Hall |]. by intros q t [_ ?].
  - subst wild'. rewrite filter_app, fmap_app, <- Hw. rewrite <- HS.
    destruct (decide (conj_Size p.1 = 0)) as [Hz | Hz].
    + rewrite bool_decide_eq_true_2 by done. by rewrite filter_cons_True by done.
    + rewrite bool_decide_eq_false_2 by done. rewrite filter_cons_False by done. by rewrite app_nil_r.
  - apply Forall_app. split; [done |]. constructor; [| constructor].
    exists docID, (cd_idx cd). done.
Qed.

Lemma logs_trans b b1 b2 log log' : logs b log b1 -> logs b1 log' b2 -> logs b log' b2.
Proof. intros [? ? ? ?] [? ? ? ?]. split; [done | by transitivity b1 | congruence ..]. Qed.

Lemma commit_all_spec docID all b log kept :
  binv factory b log -> Forall2 (cd_ready b docID) kept all ->
  wp (forM all commitConjIndexingData) (fun r b' => r = Ok tt /\ logs b (log ++ kept) b') b.
Proof.
  revert b log kept. induction all as [|cd all IH]; intros b log kept Hb Hall; cbn [forM].
  - apply Forall2_nil_inv_r in Hall as ->. rewrite app_nil_r. apply wp_ret.
    split; [done |]. by split.
  - apply Forall2_cons_inv_r in Hall as (p & kept' & Hp & Hall & ->). apply wp_bind.
    eapply wp_mono; [by eapply commitConj_spec |]. intros r b1 [-> Hl1].
    eapply wp_mono.
    { apply (IH b1 (log ++ [p]) kept'); [apply Hl1 |].
      eapply Forall2_impl; [exact Hall |]. intros. eapply cd_ready_extends; [done | apply Hl1]. }
    intros r b2 [-> Hl2]. split; [done |]. rewrite <- app_assoc in Hl2. by eapply logs_trans.
Qed.

(** ** Restoring cached data *)

Section Cache.
Context `{!HolderCacheSpec (factory:=factory) H D}.

Lemma cached_expr_Some descs c p e : cached_expr factory descs c p e ->
  exists d x, descs !! p.1 = Some d /\ build_data factory (fd_Container d) d p.2 = Ok x /\
    Encode x = Ok (ce_DataBytes e.2) /\ is_Some (factory !! fd_Container d).
Proof.
  intros (_ & _ & x & Hx & Henc). unfold expr_data in Hx.
  destruct (descs !! p.1) as [d|] eqn:Ed; [| done]. exists d, x. split; [done |]. split; [done |].
  split; [done |]. unfold build_data in Hx. destruct (factory !! fd_Container d); [eauto | done].
Qed.

Lemma decode_entries_spec entries b txs wild a c desc es0 acc es :
  built factory b txs wild -> fieldsData b !! fd_Field desc = Some desc ->
  (exists c0, container_at (indexer b) a = Some c0 /\ is_Some (holder_deref c0 (ref_of desc))) ->
  a = caddr factory (indexer b) (Z.to_nat (conj_Size c)) ->
  Forall2 (prepared b c) es0 acc ->
  Forall2 (cached_expr factory (fieldsData b) c) es (pair (fd_Field desc) <$> entries) ->
  wp (decode_entries a desc (ref_of desc) entries acc) (fun r b' => prepares b txs wild b' /\
    fieldsData b' = fieldsData b /\ docLevelCache b' = docLevelCache b /\
    exists acc', r = Ok acc' /\ Forall2 (prepared b' c) (es0 ++ es) acc') b.
Proof.
  revert b es0 acc es.
  induction entries as [|e entries IH]; intros b es0 acc es Hb Hd Hh Ha Hacc Hes; cbn [decode_entries].
  - apply Forall2_nil_inv_r in Hes as ->. apply wp_ret. rewrite app_nil_r.
    split; [split; [done | reflexivity] |]. eauto.
  - simpl in Hes. apply Forall2_cons_inv_r in Hes as (q & es' & Hq & Hes & ->).
    destruct (cached_expr_Some _ _ _ _ Hq) as (d & x & Hdq & Hx & Henc & _).
    destruct Hq as (Hqf & Hqe & _). simpl in *. rewrite <- Hqf, Hd in Hdq. injection Hdq as <-.
    apply wp_bind. eapply wp_mono.
    { apply (with_holder_spec b txs wild a desc (fun h => (h, DecodeFieldIndexingData h (ce_DataBytes e)))
        (fun r => r = Ok x)); try done.
      intros h h' r Hrep [= <- <-]. split; [done |]. eapply decode_encode; [done | | done].
      by eapply build_data_ok. }
    intros r b1 (Hp1 & Hf1 & Hk1 & Hh1 & ->).
    set (tx := {| fi_field := desc; fi_addr := a; fi_ref := ref_of desc; fi_EID := ce_EID e; fi_Data := x |}).
    assert (Htx : prepared b1 c q tx).
    { split; split; simpl; try done.
      - by rewrite Hf1.
      - by eapply build_data_ok.
      - by rewrite Hf1, <- Hqf.
      - rewrite Ha. by rewrite (ext_caddr _ _ _ (proj2 Hp1)).
      - unfold expr_data. by rewrite Hf1, <- Hqf, Hd. }
    eapply wp_mono.
    { apply (IH b1 (es0 ++ [q]) (acc ++ [tx]) es'); [apply Hp1 | by rewrite Hf1 | done | | | by rewrite Hf1].
      - rewrite Ha. by rewrite (ext_caddr _ _ _ (proj2 Hp1)).
      - apply Forall2_app; [| constructor; [done | by apply Forall2_nil]].
        eapply Forall2_impl; [exact Hacc |]. intros. eapply prepared_extends; [done | apply Hp1]. }
    intros r b2 (Hp2 & Hf2 & Hk2 & acc' & -> & Hacc').
    split; [by eapply prepares_trans |]. split; [congruence |]. split; [congruence |].
    exists acc'. split; [done |]. by rewrite <- app_assoc in Hacc'.
Qed.

Lemma decode_fields_spec fxs b txs wild a c es0 acc es :
  built factory b txs wild -> is_Some (container_at (indexer b) a) ->
  a = caddr factory (indexer b) (Z.to_nat (conj_Size c)) ->
  Forall2 (prepared b c) es0 acc -> Forall (fun fx => fx_Entries fx <> []) fxs ->
  Forall2 (cached_expr factory (fieldsData b) c) es (flat_entries fxs) ->
  wp (decode_fields factory a fxs acc) (fun r b' => prepares b txs wild b' /\
    fieldsData b' = fieldsData b /\ docLevelCache b' = docLevelCache b /\
    exists acc', r = Ok acc' /\ Forall2 (prepared b' c) (es0 ++ es) acc') b.
Proof.
  revert b es0 acc es.
  induction fxs as [|fx fxs IH]; intros b es0 acc es Hb Ha Haddr Hacc Hne Hes; cbn [decode_fields].
  - apply Forall2_nil_inv_r in Hes as ->. apply wp_ret. rewrite app_nil_r.
    split; [split; [done | reflexivity] |]. eauto.
  - inversion Hne as [|? ? Hfx Hne']; subst. unfold flat_entries in Hes. simpl in Hes.
    apply Forall2_app_inv_r in Hes as (es1 & es2 & Hes1 & Hes2 & ->).
    apply wp_bind. apply wp_intro. intros b0 r [= <- <-].
    assert (exists d, fieldsData b !! fx_Field fx = Some d /\ is_Some (factory !! fd_Container d)) as (d & Hd & Hreg).
    { destruct (fx_Entries fx) as [|e l]; [done |]. simpl in Hes1.
      apply Forall2_cons_inv_r in Hes1 as (q & ? & Hq & _ & _).
      destruct (cached_expr_Some _ _ _ _ Hq) as (d & x1 & Hdq & _ & _ & Hreg).
      destruct Hq as (Hqf & _). simpl in Hqf. rewrite <- Hqf in Hdq. eauto. }
    rewrite Hd. assert (Hfd : fd_Field d = fx_Field fx) by by apply (built_fields _ _ _ _ Hb).
    apply wp_bind. eapply wp_mono; [apply (CreateHolder_spec b txs wild _ d Hb Ha); by rewrite Hfd |].
    intros r b1 (Hp1 & Hf1 & Hk1 & Hr1).
    destruct r as [ref|e|e|]; [| done | by rewrite Hr1 in Hreg; destruct Hreg | done].
    destruct Hr1 as [-> Hh1].
    apply wp_bind. eapply wp_mono.
    { apply (decode_entries_spec (fx_Entries fx) b1 txs wild _ c d es0 acc es1);
        [apply Hp1 | by rewrite Hf1, Hfd | done | | | by rewrite Hf1, Hfd].
      - by rewrite (ext_caddr _ _ _ (proj2 Hp1)).
      - eapply Forall2_impl; [exact Hacc |]. intros. eapply prepared_extends; [done | apply Hp1]. }
    intros r b2 (Hp2 & Hf2 & Hk2 & acc2 & -> & Hacc2).
    assert (Hp12 : prepares b txs wild b2) by by eapply prepares_trans.
    eapply wp_mono.
    { apply (IH b2 (es0 ++ es1) acc2 es2); [apply Hp2 | | | done | done | by rewrite Hf2, Hf1].
      - destruct Ha as [c0 Hc0]. destruct (ext_holders _ _ _ (proj2 Hp12) _ _ Hc0) as (? & ? & _). eauto.
      - by rewrite (ext_caddr _ _ _ (proj2 Hp12)). }
    intros r b3 (Hp3 & Hf3 & Hk3 & acc3 & -> & Hacc3).
    split; [by eapply prepares_trans |]. split; [congruence |]. split; [congruence |].
    exists acc3. split; [done |]. by rewrite <- app_assoc in Hacc3.
Qed.

Lemma toConjIndexingData_spec b txs wild docID p cc :
  built factory b txs wild -> cached_conj factory (fieldsData b) docID p cc ->
  wp (toConjIndexingData factory docID cc) (fun r b' => prepares b txs wild b' /\
    fieldsData b' = fieldsData b /\ docLevelCache b' = docLevelCache b /\
    exists cd, r = Ok cd /\ cd_ready b' docID p cd) b.
Proof.
  intros Hb [(Hok & Hidx & Hsz & Hentry) Hne (es & Hes & Hall)]. unfold toConjIndexingData.
  assert (Hid : pack docID (cc_ConjIdx cc) (cc_ConjSize cc) = p.1) by (rewrite Hentry; simpl; by rewrite Hsz).
  assert (HS : conj_Size p.1 = cc_ConjSize cc) by (rewrite <- Hid; by apply pack_Size).
  apply wp_bind. apply wp_intro. intros b0 r [= <- <-]. rewrite NewConjID_pack by done.
  apply wp_bind. apply wp_intro. intros b1 r Hn. unfold new_container in Hn.
  destruct (newContainer (indexer b) (Z.to_nat (cc_ConjSize cc))) as [i' a] eqn:En. injection Hn as <- <-.
  destruct (built_new_container _ _ _ _ _ _ Hb En) as (Hb1 & He1 & Haddr & Hat).
  assert (Ha1 : a = caddr factory (indexer (set_indexer b i')) (Z.to_nat (conj_Size p.1)))
    by (rewrite Haddr, HS; by rewrite (ext_caddr _ _ _ He1)).
  apply wp_bind. eapply wp_mono; [by apply (decode_fields_spec (cc_FieldCacheIdx cc) _ txs wild a p.1 [] [] es) |].
  intros r b2 ([Hb2 He2] & Hf2 & Hk2 & acc & -> & Hacc). apply wp_ret.
  split; [split; [done | by transitivity (set_indexer b i')] |]. split; [done |]. split; [done |].
  eexists. split; [done |]. split; simpl; try done; [eauto |].
  rewrite (ext_caddr _ _ _ He2), <- Ha1. destruct Hat as [c0 Hc0].
  destruct (ext_holders _ _ _ He2 a c0 Hc0) as (? & ? & _). eauto.
Qed.

Lemma cached_conj_mono descs descs' docID p cc :
  descs ⊆ descs' -> cached_conj factory descs docID p cc -> cached_conj factory descs' docID p cc.
Proof.
  intros Hsub [Hid Hne (es & Hes & Hall)]. split; [done | done |]. exists es. split; [done |].
  eapply Forall2_impl; [exact Hall |]. intros q e Hq.
  destruct (cached_expr_Some _ _ _ _ Hq) as (d & x & Hd & _).
  destruct Hq as (? & ? & Hx). split; [done |]. split; [done |].
  by rewrite (expr_data_mono descs) by eauto.
Qed.

Lemma AddDocIndexingData_spec b log cached kept :
  binv factory b log ->
  Forall2 (cached_conj factory (fieldsData b) (dc_DocID cached)) kept (dc_ConjIdxCaches cached) ->
  wp (AddDocIndexingData factory cached) (fun r b' => r = Ok tt /\ logs b (log ++ kept) b') b.
Proof.
  unfold AddDocIndexingData. generalize (dc_ConjIdxCaches cached) as ccs. intros ccs. revert b log kept.
  induction ccs as [|cc ccs IH]; intros b log kept Hb Hall; cbn [forM].
  - apply Forall2_nil_inv_r in Hall as ->. rewrite app_nil_r. apply wp_ret. split; [done |]. by split.
  - apply Forall2_cons_inv_r in Hall as (p & kept' & Hp & Hall & ->).
    destruct Hb as (txs & wild & Hb & Hl).
    apply wp_bind, wp_bind. wp_call (toConjIndexingData_spec b txs wild _ p cc).
    intros r b1 (Hp1 & Hf1 & Hk1 & cd & -> & Hcd).
    eapply wp_mono.
    { apply (commitConj_spec b1 log (dc_DocID cached) p cd); [by eapply binv_prepares | done]. }
    intros r b2 [-> [Hi2 He2 Hf2 Hk2]].
    eapply wp_mono.
    { apply (IH b2 (log ++ [p]) kept'); [done |]. by rewrite Hf2, Hf1. }
    intros r b3 [-> [Hi3 He3 Hf3 Hk3]]. split; [done |]. rewrite <- app_assoc in Hi3.
    split; [done | | congruence | congruence].
    transitivity b1; [apply Hp1 |]. by transitivity b2.
Qed.

End Cache.

End Proofs.
