(* ===== verification/BuilderDocs.v ===== *)
(** * Adding documents, with and without a document cache

    [buildDocEntries] either prepares and commits a document or restores it from
    the cache; both extend the log by the same conjunctions, and a document that
    fails leaves the log as it was. *)

From stdpp Require Import base sorting gmap strings numbers list.
From S2P Require Import Prelude GoValues Ids Document Cursor FieldCursor Collector Scan Holder.
From S2P Require Import Index IndexSpec IndexProofs Builder BuilderSpec BuilderProofs.
Open Scope Z_scope.

Section Docs.
Context {H D I K : Type} `{EntriesHolder H D} `{MapRange} `{BEIndex I H} `{DocLevelCache K}.
Context (factory : gmap string H) `{!HolderSpec H D factory} `{!BEIndexSpec factory I}
  `{!DocLevelCacheSpec K} `{!CachedHolderSpec (factory:=factory) K H D}.
Hypothesis Hdefault : is_Some (factory !! HolderNameDefault).
(** The document that an id and a version stand for. *)
Variable docs_of : DocCacheKey -> Document.
Local Abbreviation Bld := (IndexerBuilder I K).
Implicit Types (b : Bld).

(** ** toCacheResult *)

Definition flat_map (m : gmap string FieldIndexes) : list (BEField * IdxCacheEntry) :=
  flat_entries (map_to_list m).*2.

Definition tx_map_ok (m : gmap string FieldIndexes) : Prop :=
  forall f fx, m !! f = Some fx -> fx_Field fx = f /\ fx_Entries fx <> [].

Lemma flat_map_insert m f fx :
  flat_map (<[f := fx]> m) ≡ₚ (pair (fx_Field fx) <$> fx_Entries fx) ++ flat_map (delete f m).
Proof.
  unfold flat_map, flat_entries. rewrite <- insert_delete_eq, map_to_list_insert by apply lookup_delete_eq.
  done.
Qed.

Lemma flat_map_lookup m f fx :
  m !! f = Some fx -> flat_map m ≡ₚ (pair (fx_Field fx) <$> fx_Entries fx) ++ flat_map (delete f m).
Proof. intros Hf. rewrite <- (insert_id m f fx Hf) at 1. apply flat_map_insert. Qed.

(** The cached form of a transaction. *)
Definition tx_cached (tx : FieldIndexingData D) (e : BEField * IdxCacheEntry) : Prop :=
  e.1 = fd_Field (fi_field tx) /\ ce_EID e.2 = fi_EID tx /\ Encode (fi_Data tx) = Ok (ce_DataBytes e.2).

Lemma cache_tx_spec m tx e :
  tx_map_ok m -> tx_cached tx e -> tx_map_ok (cache_tx m tx) /\ flat_map (cache_tx m tx) ≡ₚ flat_map m ++ [e].
Proof.
  intros Hm (He1 & He2 & He3). unfold cache_tx. rewrite He3. set (f := fd_Field (fi_field tx)) in *.
  set (fx := default _ (m !! f)).
  assert (Hfx : fx_Field fx = f) by (subst fx; destruct (m !! f) eqn:Ef; [by apply Hm | done]).
  rewrite insert_insert_eq. split.
  - intros g fx' [[<- <-] | [_ Hl]]%lookup_insert_Some; [| by apply Hm]. simpl.
    split; [done |]. by destruct (fx_Entries fx).
  - rewrite flat_map_insert. simpl. rewrite fmap_app. simpl.
    replace (fx_Field fx, {| ce_EID := fi_EID tx; ce_DataBytes := ce_DataBytes e.2 |}) with e
      by (destruct e as [ef [eid eb]]; simpl in *; congruence).
    assert (flat_map m ≡ₚ (pair (fx_Field fx) <$> fx_Entries fx) ++ flat_map (delete f m)) as ->.
    { subst fx. destruct (m !! f) as [fx|] eqn:Ef; simpl; [by apply flat_map_lookup |].
      by rewrite delete_id by done. }
    rewrite <- !app_assoc. apply Permutation_app_head. apply Permutation_app_comm.
Qed.

Lemma cache_txs_spec txs es m :
  tx_map_ok m -> Forall2 tx_cached txs es ->
  tx_map_ok (foldl cache_tx m txs) /\ flat_map (foldl cache_tx m txs) ≡ₚ flat_map m ++ es.
Proof.
  intros Hm Hall. revert m Hm. induction Hall as [|tx e txs es He Hall IH]; intros m Hm; simpl.
  - by rewrite app_nil_r.
  - destruct (cache_tx_spec m tx e Hm He) as [Hm' Hp]. destruct (IH _ Hm') as [Hm'' ->].
    split; [done |]. rewrite Hp. by rewrite <- app_assoc.
Qed.

Lemma filter_nonempty_all l acc :
  Forall (fun kv : string * FieldIndexes => fx_Entries kv.2 <> []) l ->
  foldl (fun l kv => if bool_decide (0 < length (fx_Entries kv.2))%nat then l ++ [kv.2] else l) acc l
  = acc ++ l.*2.
Proof.
  intros Hl. revert acc. induction Hl as [|kv l Hkv Hl IH]; intros acc; simpl; [by rewrite app_nil_r |].
  rewrite bool_decide_eq_true_2 by (destruct (fx_Entries kv.2); [done | simpl; lia]).
  by rewrite IH, <- app_assoc.
Qed.

(** A transaction that the cache can hold. *)
Definition tx_encodes (tx : FieldIndexingData D) : Prop := exists bytes, Encode (fi_Data tx) = Ok bytes.

Lemma txs_cached b c es txs :
  fields_inv (fieldsData b) -> Forall2 (prepared factory b c) es txs -> Forall tx_encodes txs ->
  exists cs, Forall2 tx_cached txs cs /\ Forall2 (cached_expr factory (fieldsData b) c) es cs.
Proof.
  intros Hinv Hall. induction Hall as [|q tx es txs [Hr [Hf Ha Href He Hd]] Hall IH]; [by exists [] |].
  intros [[bytes Hbytes] Hrest]%Forall_cons. destruct (IH Hrest) as (cs & Hcs & Hces).
  exists ((fd_Field (fi_field tx), {| ce_EID := fi_EID tx; ce_DataBytes := bytes |}) :: cs).
  split; constructor; try done. split; simpl; [| eauto]. by apply (fields_descs _ Hinv).
Qed.

Lemma toCacheResult_spec b docID p cd :
  fields_inv (fieldsData b) -> cd_ready factory b docID p cd -> Forall tx_encodes (cd_fieldData cd) ->
  cached_conj factory (fieldsData b) docID p (toCacheResult cd).
Proof.
  intros Hinv [Hid Hsz Hok Hidx Hentry (es & Hes & Hall) _] Henc.
  destruct (txs_cached _ _ _ _ Hinv Hall Henc) as (cs & Hcs & Hces).
  destruct (cache_txs_spec (cd_fieldData cd) cs ∅) as [Hm Hp];
    [intros f fx; by rewrite lookup_empty | done |].
  assert (Hne : Forall (fun kv : string * FieldIndexes => fx_Entries kv.2 <> [])
                  (map_range (foldl cache_tx ∅ (cd_fieldData cd)))).
  { rewrite Forall_forall. intros [f fx] Hin%elem_of_map_range. exact (proj2 (Hm _ _ Hin)). }
  split; simpl.
  - rewrite <- Hsz. done.
  - rewrite filter_nonempty_all by done. simpl. by apply Forall_fmap.
  - rewrite filter_nonempty_all by done. simpl.
    assert (flat_entries (map_range (foldl cache_tx ∅ (cd_fieldData cd))).*2 ≡ₚ cs) as Hperm.
    { unfold flat_entries. rewrite map_range_perm. exact Hp. }
    symmetry in Hperm. destruct (Permutation_Forall2 (P := flip (cached_expr factory (fieldsData b) p.1)) Hperm
      (l2 := es)) as (es' & Hes' & Hall'); [by apply Forall2_flip |].
    exists es'. split; [by rewrite <- Hes' | by apply Forall2_flip].
Qed.

(** The data prepared for a document that encodes. *)
Lemma kept_encodes b doc kept all skip :
  doc_encodes factory doc -> kept_of factory skip (fieldsData b) (doc_ID doc) (doc_log doc) kept ->
  Forall2 (cd_ready factory b (doc_ID doc)) kept all ->
  Forall (fun cd => Forall tx_encodes (cd_fieldData cd)) all.
Proof.
  intros Hdoc Hk Hall. rewrite Forall_lookup. intros i cd Hcd.
  destruct (Forall2_lookup_r _ _ _ _ _ Hall Hcd) as (p & Hp & Hready).
  assert (p ∈ doc_log doc) as Hin.
  { apply list_elem_of_lookup_2 in Hp. clear -Hk Hp. unfold doc_log in *.
    induction Hk as [|q l l' _ _ IH|q l l' _ _ _ IH]; [done | |]; rewrite elem_of_cons in *; naive_solver. }
  destruct (cr_exprs _ _ _ _ _ Hready) as (es & Hes & Htxs). rewrite Forall_lookup. intros j tx Htx.
  destruct (Forall2_lookup_r _ _ _ _ _ Htxs Htx) as ([f bv] & Hq & [_ [_ _ _ _ Hd]]).
  apply list_elem_of_lookup_2 in Hq. rewrite Hes in Hq. apply elem_of_conj_exprs in Hq as (exprs & Hf & Hbv).
  unfold expr_data in Hd. simpl in Hd. destruct (fieldsData b !! f) as [d|]; [| done].
  eapply Hdoc; [| done | done | done]. clear -Hin. unfold doc_log in Hin.
  revert Hin. generalize 0. induction (doc_Cons doc) as [|cj cjs IH]; intros idx Hin; simpl in Hin; [elem_nil |].
  apply elem_of_cons in Hin as [-> | Hin]; [by left | right; by eapply IH].
Qed.

(** ** The cache stays sound *)

Lemma entry_for_mono skip descs descs' doc e :
  descs ⊆ descs' -> entry_for factory skip descs doc e -> entry_for factory skip descs' doc e.
Proof.
  intros Hsub [Hid (kept & Hk & Hall)]. split; [done |]. exists kept.
  split; [by eapply kept_of_mono |]. eapply Forall2_impl; [exact Hall |].
  intros. by eapply cached_conj_mono.
Qed.

Lemma cache_sound_extends b b' :
  cache_sound factory docs_of b -> extends factory b b' -> cache_sound factory docs_of b'.
Proof.
  intros Hs He k key e Hk Hmay. destruct (ext_cache _ _ _ He _ _ _ Hk Hmay) as (k0 & Hk0 & Hmay0).
  unfold skips. rewrite (ext_behavior _ _ _ He). eapply entry_for_mono; [apply He |].
  by eapply (Hs k0).
Qed.

Lemma set_cache_built b k txs wild :
  built factory b txs wild -> built factory (set_cache b k) txs wild.
Proof. intros [? ?]. by split. Qed.

Lemma cache_lookup_spec b log doc :
  binv factory b log -> cache_sound factory docs_of b ->
  doc_cacheable factory K docs_of doc ->
  wp (cache_lookup doc) (fun r b' => binv factory b' log /\ extends factory b b' /\
    fieldsData b' = fieldsData b /\
    exists hit, r = Ok hit /\ forall e, hit = Some e ->
      inhabited K /\ entry_for factory (skips b) (fieldsData b) doc e) b.
Proof.
  intros Hb Hs Hdoc. unfold wp, cache_lookup.
  assert (Hnone : exists hit : option DocIdxCache, @Ok (option DocIdxCache) None = Ok hit /\
    forall e, hit = Some e -> inhabited K /\ entry_for factory (skips b) (fieldsData b) doc e) by by exists None.
  destruct (docLevelCache b) as [k|] eqn:Ek; [| done].
  case_bool_decide as Hv; [| done].
  destruct (cache_Get k _) as [k' found] eqn:Eg.
  destruct (cache_may_Get _ _ _ _ Eg) as [Hfound Hless].
  assert (Hb' : binv factory (set_cache b (Some k')) log).
  { destruct Hb as (txs & wild & Hb & Hl). exists txs, wild. split; [by apply set_cache_built | done]. }
  assert (He' : extends factory b (set_cache b (Some k'))).
  { split; simpl; eauto. intros k0 key e [= <-] Hmay. eauto. }
  destruct found as [e|]; [| done].
  case_bool_decide; [| done].
  split; [done |]. split; [done |]. split; [done |]. eexists. split; [done |]. intros ? [= <-].
  split; [by constructor |]. rewrite <- (proj1 (Hdoc (inhabits k) Hv)). eauto.
Qed.

Lemma cache_save_spec b log doc entry kept all :
  binv factory b log -> cache_sound factory docs_of b ->
  doc_cacheable factory K docs_of doc ->
  (forall e, entry = Some e -> dc_DocID e = doc_ID doc /\ doc_Version doc > 0 /\ dc_ConjIdxCaches e = []) ->
  kept_of factory (skips b) (fieldsData b) (doc_ID doc) (doc_log doc) kept ->
  Forall2 (cd_ready factory b (doc_ID doc)) kept all ->
  let b' := cache_save doc entry all b in
  binv factory b' log /\ cache_sound factory docs_of b' /\ fieldsData b' = fieldsData b /\
  indexer b' = indexer b /\ badConjBehavior b' = badConjBehavior b.
Proof.
  intros Hb Hs Hdoc Hentry Hkept Hall b'. unfold b', cache_save. clear b'.
  destruct entry as [e|]; [| done]. destruct (docLevelCache b) as [k|] eqn:Ek; [| done].
  case_bool_decide; [| done]. destruct (Hentry e eq_refl) as (Hid & Hv & Hnil).
  split_and!; try done.
  - destruct Hb as (txs & wild & Hb & Hl). exists txs, wild. split; [by apply set_cache_built | done].
  - intros k0 key e0 [= <-] [[-> ->] | Hmay]%cache_may_Set; [| by eapply (Hs k)].
    destruct (Hdoc (inhabits k) Hv) as [-> Henc]. rewrite Hnil. split; [done |]. exists kept. split; [done |]. simpl.
    destruct Hb as (txs & wild & Hb & Hl). apply Forall2_fmap_r.
    pose proof (kept_encodes b doc kept all _ Henc Hkept Hall) as Hencs.
    apply Forall2_same_length_lookup_2; [by eapply Forall2_length |]. intros i p cd Hp Hcd.
    apply toCacheResult_spec; [apply Hb | exact (Forall2_lookup_lr _ _ _ _ _ _ Hall Hp Hcd) | exact (Forall_lookup_1 _ _ _ _ Hencs Hcd)].
Qed.

(** ** buildDocEntries *)

Definition doc_post (b : Bld) (log : list LogEntry) (doc : Document) (r : res unit) (b' : Bld) : Prop :=
  cache_sound factory docs_of b' /\ fieldsData b ⊆ fieldsData b' /\
  badConjBehavior b' = badConjBehavior b /\
  match r with
  | Ok _ => exists kept, kept_of factory (skips b) (fieldsData b') (doc_ID doc) (doc_log doc) kept /\
              binv factory b' (log ++ kept)
  | OutOfFuel => False
  | _ => binv factory b' log /\ doc_fault factory (fieldsData b') doc
  end.

Lemma buildDocEntries_spec b log doc :
  binv factory b log -> cache_sound factory docs_of b ->
  doc_cacheable factory K docs_of doc ->
  wp (buildDocEntries factory doc) (doc_post b log doc) b.
Proof.
  intros Hb Hs Hdoc. unfold buildDocEntries.
  apply wp_bind. unfold PanicIf at 1. case_bool_decide as Hnil.
  { split_and!; try done. left. by apply nil_length_inv. }
  apply wp_bind. unfold PanicIf at 1. case_bool_decide as Hlen.
  { split_and!; try done. right; left. lia. }
  apply wp_bind. wp_call (cache_lookup_spec b log doc).
  intros r b1 (Hb1 & He1 & Hf1 & hit & -> & Hhit).
  pose proof (cache_sound_extends _ _ Hs He1) as Hs1.
  destruct hit as [cached|].
  - destruct (Hhit cached eq_refl) as [HK [Hid (kept & Hk & Hall)]]. pose proof (cached_codec HK).
    eapply wp_mono; [apply (AddDocIndexingData_spec factory Hdefault b1 log cached kept Hb1) |].
    { by rewrite Hf1, Hid. }
    intros r b2 [-> [Hb2 He2 Hf2 Hk2]]. split; [by eapply cache_sound_extends |].
    rewrite Hf2, Hf1. split; [done |]. split; [| eauto].
    by rewrite (ext_behavior _ _ _ He2), (ext_behavior _ _ _ He1).
  - apply wp_bind. apply wp_intro. intros b1' r [= <- <-].
    pose proof Hb1 as (txs & wild & Hbt & Hl).
    apply wp_bind. eapply wp_mono.
    { apply (prepare_conjs_spec factory Hdefault (doc_Cons doc) b1 txs wild (doc_ID doc) 0 [] []);
        [done | lia | lia | constructor]. }
    intros r b2 [Hp2 Hr]. pose proof (binv_prepares _ _ _ _ _ _ Hl Hp2) as Hb2.
    pose proof (cache_sound_extends _ _ Hs1 (proj2 Hp2)) as Hs2.
    assert (He12 : extends factory b b2) by (transitivity b1; [done | apply Hp2]).
    assert (Hskip : skips b1 = skips b) by (unfold skips; by rewrite (ext_behavior _ _ _ He1)).
    destruct r as [all|e|e|]; 
      [| by split_and!; try done; [apply He12 | apply He12 | right; right] .. | done].
    destruct Hr as (kept & Hk & Hall). simpl in Hall. rewrite Hskip in Hk.
    apply wp_bind. wp_call (commit_all_spec factory (doc_ID doc) all b2 log kept).
    intros r b3 [-> [Hb3 He3 Hf3 Hk3]].
    pose proof (cache_sound_extends _ _ Hs2 He3) as Hs3.
    assert (He : extends factory b b3) by (by transitivity b2).
    apply wp_intro. intros b4 r [= <- <-].
    destruct (cache_save_spec b3 (log ++ kept) doc (cache_entry doc b1) kept all Hb3 Hs3 Hdoc)
      as (Hb4 & Hs4 & Hf4 & _ & Hbe4).
    + unfold cache_entry. destruct (docLevelCache b1); [| done]. case_bool_decide; [| done].
      intros e [= <-]. done.
    + unfold skips. rewrite (ext_behavior _ _ _ He), Hf3. exact Hk.
    + eapply Forall2_impl; [exact Hall |]. intros. by eapply cd_ready_extends.
    + split; [done |]. rewrite Hf4, Hf3, Hbe4. split; [apply He12 |].
      split; [apply He |]. eauto.
Qed.

End Docs.
