(* ===== verification/BuilderFields.v ===== *)
(** * Which fields a builder has

    Adding documents configures the fields it meets for the first time, always
    with the default container: a field of another container was configured by
    the application. *)

From stdpp Require Import base sorting gmap strings numbers list.
From S2P Require Import Prelude GoValues Ids Document Cursor FieldCursor Collector Scan Holder.
From S2P Require Import Index Builder.
Open Scope Z_scope.

(** The fields of [descs'] are those of [descs] and fields of the default container. *)
Definition fields_from (descs descs' : gmap string FieldDesc) : Prop :=
  forall f d, descs' !! f = Some d -> descs !! f = Some d \/ fd_Container d = HolderNameDefault.

#[export] Instance fields_from_preorder : PreOrder fields_from.
Proof.
  split; [by left |]. intros d1 d2 d3 H12 H23 f d Hd.
  destruct (H23 f d Hd) as [H2 | ?]; [by apply H12 | by right].
Qed.

Create HintDb fields discriminated.

Section Fields.
Context {H D I K : Type} `{EntriesHolder H D} `{MapRange} `{BEIndex I H} `{DocLevelCache K}.
Context (factory : gmap string H).
Local Abbreviation Bld := (IndexerBuilder I K).

(** [m] adds only fields of the default container. *)
Definition default_fields {A} (m : M Bld A) : Prop :=
  forall b, fields_from (fieldsData b) (fieldsData (m b).1).

Lemma df_keep {A} (m : M Bld A) : (forall b, fieldsData (m b).1 = fieldsData b) -> default_fields m.
Proof. intros Hm b. by rewrite Hm. Qed.

Lemma df_ret {A} (a : A) : default_fields (mret a).
Proof. by apply df_keep. Qed.

Lemma df_bind {A B} (m : M Bld A) (k : A -> M Bld B) :
  default_fields m -> (forall a, default_fields (k a)) -> default_fields (m ≫= k).
Proof.
  intros Hm Hk b. unfold mbind, M_bind. specialize (Hm b).
  destruct (m b) as [b1 [a|e|e|]]; simpl in *; try done. by etransitivity; [| apply Hk].
Qed.

Lemma df_forM {A} (l : list A) (f : A -> M Bld unit) : (forall a, default_fields (f a)) -> default_fields (forM l f).
Proof. intros Hf. induction l as [|a l IH]; [apply df_ret |]. by apply df_bind. Qed.

Lemma df_PanicIfErr {A} (m : M Bld A) : default_fields m -> default_fields (PanicIfErr m).
Proof. intros Hm b. specialize (Hm b). unfold PanicIfErr. by destruct (m b) as [b1 []]. Qed.

Lemma df_with_err {A} (m : M Bld A) : default_fields m -> default_fields (with_err m).
Proof. intros Hm b. specialize (Hm b). unfold with_err. by destruct (m b) as [b1 []]. Qed.

Lemma df_lift {A} (r : res A) : default_fields (lift r).
Proof. by apply df_keep. Qed.

Lemma df_PanicIf c e : default_fields (PanicIf c e).
Proof. apply df_keep. by destruct c. Qed.

Lemma df_get : default_fields get.
Proof. by apply df_keep. Qed.

Lemma df_with_container {A} a (m : M (EntriesContainer H) A) : default_fields (with_container a m).
Proof.
  apply df_keep. intros b. unfold with_container. destruct (container_at _ a) as [c|]; [| done].
  by destruct (m c).
Qed.

Lemma df_new_container k : default_fields (new_container k).
Proof. apply df_keep. intros b. unfold new_container. by destruct (newContainer _ k). Qed.

#[local] Hint Resolve df_ret df_bind df_forM df_PanicIfErr df_with_err df_lift df_PanicIf df_get
  df_with_container df_new_container : fields.

Lemma configureField_default field ct :
  (if bool_decide (ct = "") then HolderNameDefault else ct) = HolderNameDefault ->
  default_fields (configureField field ct).
Proof.
  intros Hct b. unfold configureField. destruct (fieldsData b !! field); [done |]. simpl.
  intros f d [[<- <-] | [_ Hd]]%lookup_insert_Some; [by right | by left].
Qed.

Lemma df_createFieldData field : default_fields (createFieldData field).
Proof.
  intros b. unfold createFieldData. destruct (fieldsData b !! field); [done |].
  by apply df_PanicIfErr, configureField_default.
Qed.

#[local] Hint Resolve df_createFieldData : fields.

Lemma df_indexing_exprs a c es txs : default_fields (indexing_exprs factory a c es txs).
Proof.
  revert txs. induction es as [|[f bv] es IH]; intros txs; simpl; [auto with fields |].
  unfold indexing_expr. auto 8 with fields.
Qed.

Lemma df_prepare_conjs docID idx cjs all : default_fields (prepare_conjs factory docID idx cjs all).
Proof.
  revert idx all. induction cjs as [|cj cjs IH]; intros idx all; simpl; [auto with fields |].
  apply df_bind; [auto with fields | intros c]. apply df_bind.
  { apply df_with_err. apply df_bind; [auto with fields | intros a]. apply df_indexing_exprs. }
  intros [txs|e]; [apply IH |]. apply df_bind; [auto with fields | intros b].
  case_bool_decide; [apply IH |]. case_bool_decide; by apply df_keep.
Qed.

Lemma df_commit cd : default_fields (commitConjIndexingData cd).
Proof.
  apply df_bind; [case_bool_decide; by apply df_keep |]. intros _. unfold commit_tx. auto with fields.
Qed.

Lemma df_decode_fields a fxs txs : default_fields (decode_fields factory a fxs txs).
Proof.
  revert txs. induction fxs as [|fx fxs IH]; intros txs; simpl; [auto with fields |].
  apply df_bind; [auto with fields | intros b]. destruct (fieldsData b !! fx_Field fx) as [desc|]; [| by apply df_keep].
  apply df_bind; [auto with fields | intros h]. apply df_bind; [| auto].
  generalize (fx_Entries fx) as es. intros es. revert txs.
  induction es as [|e es IHe]; intros txs; simpl; auto with fields.
Qed.

Lemma df_restore cached : default_fields (AddDocIndexingData factory cached).
Proof.
  apply df_forM. intros cc. apply df_bind; [| apply df_commit]. unfold toConjIndexingData.
  repeat (apply df_bind; [auto using df_decode_fields with fields | intros ?]). auto with fields.
Qed.

Lemma AddDocument_default_fields docs : default_fields (AddDocument factory docs).
Proof.
  apply df_forM. intros doc. apply df_bind; [auto with fields | intros _]. unfold buildDocEntries.
  do 2 (apply df_bind; [auto with fields | intros _]).
  apply df_bind.
  { apply df_keep. intros b. unfold cache_lookup. destruct (docLevelCache b) as [k|]; [| done].
    case_bool_decide; [| done]. destruct (cache_Get _ _) as [k' [e|]]; [| done]. by case_bool_decide. }
  intros [cached|]; [apply df_restore |].
  apply df_bind; [auto with fields | intros b0]. apply df_bind; [apply df_prepare_conjs | intros all].
  apply df_bind; [apply df_forM, df_commit | intros _]. apply df_keep. intros b. simpl. unfold cache_save.
  destruct (cache_entry doc b0), (docLevelCache b); try done. by case_bool_decide.
Qed.

End Fields.
