(* ===== verification/Semantics.v ===== *)
(** * Retrieval computes the meaning of the documents

    What the transactions of the log say about a query is what the boolean
    expressions say: a conjunction is found exactly when it is satisfied. *)

From stdpp Require Import base sorting gmap strings numbers list.
From S2P Require Import Prelude GoValues Ids Document Cursor FieldCursor Collector Scan Holder.
From S2P Require Import Index IndexSpec IndexProofs Builder BuilderSpec BuilderProofs.
Open Scope Z_scope.

Section Semantics.
Context {H D : Type} `{EntriesHolder H D} `{MapRange}.
Context (factory : gmap string H) `{!HolderSpec H D factory}.
Variables (descs : gmap string FieldDesc) (ca : nat -> nat) (log : list LogEntry)
  (txs : list (FieldIndexingData D)) (wild : Entries).
Hypothesis Hfields : fields_inv descs.
Hypothesis Hlog : logged factory descs ca log txs wild.
Hypothesis Hnodup : NoDup log.*1.

Lemma entry_valid p : p ∈ log -> valid_conj p.1 /\ conj_Size p.1 = CalcConjSize p.2.
Proof.
  intros Hp. pose proof (lg_ok _ _ _ _ _ _ Hlog) as Hok. rewrite Forall_forall in Hok.
  destruct (Hok p Hp) as (d & i & Hf & Hi & Heq).
  split; [rewrite Heq; simpl; by apply pack_valid | by eapply entry_Size].
Qed.

Lemma log_functional p p' : p ∈ log -> p' ∈ log -> p.1 = p'.1 -> p = p'.
Proof.
  intros [i Hi]%list_elem_of_lookup [j Hj]%list_elem_of_lookup Heq.
  assert (i = j) as ->; [| congruence].
  eapply (NoDup_lookup log.*1); [done | rewrite list_lookup_fmap, Hi; done |].
  rewrite list_lookup_fmap, Hj. simpl. by rewrite Heq.
Qed.

(** The transactions are those of the expressions of the log. *)
Lemma tx_of_log tx : tx ∈ txs ->
  exists p e, p ∈ log /\ e ∈ conj_exprs p.2 /\ expr_tx factory descs ca p.1 e tx.
Proof.
  destruct Hlog as [(txss & -> & Hall) _ _]. intros (ts & Htx & Hts)%list_elem_of_join.
  apply list_elem_of_lookup in Hts as [i Hi].
  destruct (Forall2_lookup_r _ _ _ _ _ Hall Hi) as (p & Hp & es & Hes & Hets).
  apply list_elem_of_lookup in Htx as [j Hj].
  destruct (Forall2_lookup_r _ _ _ _ _ Hets Hj) as (e & He & Hetx).
  exists p, e. split; [by eapply list_elem_of_lookup_2 |]. split; [| done].
  rewrite <- Hes. by eapply list_elem_of_lookup_2.
Qed.

Lemma log_of_tx p e : p ∈ log -> e ∈ conj_exprs p.2 ->
  exists tx, tx ∈ txs /\ expr_tx factory descs ca p.1 e tx.
Proof.
  destruct Hlog as [(txss & -> & Hall) _ _]. intros [i Hi]%list_elem_of_lookup He.
  destruct (Forall2_lookup_l _ _ _ _ _ Hall Hi) as (ts & Hts & es & Hes & Hets).
  rewrite <- Hes in He. apply list_elem_of_lookup in He as [j Hj].
  destruct (Forall2_lookup_l _ _ _ _ _ Hets Hj) as (tx & Htx & Hetx).
  exists tx. split; [| done]. apply list_elem_of_join.
  exists ts. split; by eapply list_elem_of_lookup_2.
Qed.

Lemma NewEntryID_inj c b c' b' :
  valid_conj c -> valid_conj c' -> NewEntryID c b = NewEntryID c' b' -> c = c' /\ b = b'.
Proof.
  unfold valid_conj. intros Hc Hc' Heq.
  pose proof (GetConjID_NewEntryID c b ltac:(lia)) as H1'.
  pose proof (IsInclude_NewEntryID c b ltac:(lia)) as H2'.
  rewrite Heq in H1', H2'. rewrite GetConjID_NewEntryID in H1' by lia.
  rewrite IsInclude_NewEntryID in H2' by lia. by subst.
Qed.

(** A field finds entry [c], [b] exactly when an expression of that polarity is hit. *)
Lemma field_hit_log q p b f v :
  p ∈ log -> q !! f = Some v ->
  field_hit factory txs (NewEntryID p.1 b) (f, v) = true <->
  exists bv, (f, bv) ∈ conj_exprs p.2 /\ Incl bv = b /\ log_hit factory descs q f bv = true.
Proof.
  intros Hp Hq. destruct (entry_valid p Hp) as [Hv _]. rewrite field_hit_spec. simpl. split.
  - intros (tx & Htx & Hf & Heid & Hhit).
    destruct (tx_of_log tx Htx) as (p' & [g bv] & Hp' & Hin & [Ef _ _ Ee Ed]). simpl in *.
    destruct (entry_valid p' Hp') as [Hv' _]. rewrite Ee in Heid.
    apply NewEntryID_inj in Heid as [Hc Hb]; [| done | done].
    apply log_functional in Hc; [| done | done]. subst p'.
    assert (fd_Field (fi_field tx) = g) as Hg by by apply (fields_descs _ Hfields).
    assert (g = f) as -> by congruence. exists bv. split; [done |]. split; [done |].
    unfold log_hit, expr_data in *. simpl in *. rewrite Ef in Ed. by rewrite Ef, Hq, Ed.
  - intros (bv & Hin & Hb & Hhit). destruct (log_of_tx p (f, bv) Hp Hin) as (tx & Htx & [Ef _ _ Ee Ed]).
    simpl in *. exists tx. split; [done |]. split; [by apply (fields_descs _ Hfields) |].
    split; [by rewrite Ee, Hb |]. unfold log_hit, expr_data, tx_hit in *. simpl in *.
    rewrite Ef in Ed. by rewrite Ef, Hq, Ed in Hhit.
Qed.

Lemma log_hit_assigned q f bv : log_hit factory descs q f bv = true -> is_Some (q !! f).
Proof. unfold log_hit. destruct (descs !! f), (q !! f); eauto; done. Qed.

Lemma exc_hit_log q p : p ∈ log ->
  exc_hit factory q txs p.1 <->
  exists f exprs, Expressions p.2 !! f = Some exprs /\ exclude_hit (log_hit factory descs q) f exprs = true.
Proof.
  intros Hp. unfold exc_hit. setoid_rewrite exclude_hit_spec. split.
  - intros ([f v] & Hq%elem_of_map_to_list & Hhit).
    apply (field_hit_log q p false f v Hp Hq) in Hhit as (bv & Hin & Hb & Hh).
    apply elem_of_conj_exprs in Hin as (exprs & Hf & Hbv). eauto 8.
  - intros (f & exprs & Hf & bv & Hbv & Hb & Hh). destruct (log_hit_assigned _ _ _ Hh) as [v Hv].
    exists (f, v). split; [by apply elem_of_map_to_list |].
    apply (field_hit_log q p false f v Hp Hv). exists bv. split; [| done].
    apply elem_of_conj_exprs. eauto.
Qed.

(** The fields that include conjunction [p]. *)
Definition hit_fields (q : Assignments) (c : ConjID) : list BEField :=
  (filter (fun kv => field_hit factory txs (NewEntryID c true) kv = true) (map_to_list q)).*1.

Lemma NoDup_hit_fields q c : NoDup (hit_fields q c).
Proof.
  eapply sublist_NoDup; [apply (NoDup_fst_map_to_list q) |].
  apply fmap_sublist, sublist_filter.
Qed.

Lemma elem_of_hit_fields q p f : p ∈ log ->
  f ∈ hit_fields q p.1 <->
  exists exprs, Expressions p.2 !! f = Some exprs /\ include_hit (log_hit factory descs q) f exprs = true.
Proof.
  intros Hp. unfold hit_fields. setoid_rewrite include_hit_spec. split.
  - intros ([g v] & -> & [Hhit Hq%elem_of_map_to_list]%list_elem_of_filter)%list_elem_of_fmap. simpl.
    apply (field_hit_log q p true g v Hp Hq) in Hhit as (bv & Hin & Hb & Hh).
    apply elem_of_conj_exprs in Hin as (exprs & Hf & Hbv). eauto 8.
  - intros (exprs & Hf & bv & Hbv & Hb & Hh). destruct (log_hit_assigned _ _ _ Hh) as [v Hv].
    apply list_elem_of_fmap. exists (f, v). split; [done |].
    apply list_elem_of_filter. split; [| by apply elem_of_map_to_list].
    apply (field_hit_log q p true f v Hp Hv). exists bv. split; [| done].
    apply elem_of_conj_exprs. eauto.
Qed.

Lemma include_hit_has hit f exprs : include_hit hit f exprs = true -> has_include exprs = true.
Proof. rewrite include_hit_spec, has_include_spec. naive_solver. Qed.

(** As many fields as the size include a conjunction exactly when all its
    include fields are hit. *)
Lemma inc_count_log q p : p ∈ log ->
  conj_Size p.1 <= Z.of_nat (inc_count factory q txs p.1) <->
  forall f exprs, Expressions p.2 !! f = Some exprs -> has_include exprs = true ->
    include_hit (log_hit factory descs q) f exprs = true.
Proof.
  intros Hp. destruct (entry_valid p Hp) as [_ ->]. rewrite CalcConjSize_size.
  assert (inc_count factory q txs p.1 = length (hit_fields q p.1)) as ->
    by (unfold inc_count, hit_fields; by rewrite length_fmap).
  set (I := (map_to_list (include_fields p.2)).*1).
  assert (HI : forall f, f ∈ I <-> exists exprs, Expressions p.2 !! f = Some exprs /\ has_include exprs = true).
  { intros f. unfold I. rewrite list_elem_of_fmap. split.
    - intros ([g exprs] & -> & [Hl Hh]%elem_of_map_to_list%map_lookup_filter_Some). eauto.
    - intros (exprs & Hl & Hh). exists (f, exprs). split; [done |].
      apply elem_of_map_to_list, map_lookup_filter_Some. done. }
  assert (length I = size (include_fields p.2)) as <-
    by (unfold I; by rewrite length_fmap, length_map_to_list).
  assert (Hsub : hit_fields q p.1 ⊆+ I).
  { apply NoDup_submseteq; [apply NoDup_hit_fields |]. intros f (exprs & Hf & Hh)%elem_of_hit_fields; [| done].
    apply HI. eauto using include_hit_has. }
  split.
  - intros Hlen f exprs Hf Hh.
    assert (f ∈ hit_fields q p.1) as Hin.
    { rewrite (submseteq_length_Permutation _ _ Hsub) by lia. apply HI. eauto. }
    apply elem_of_hit_fields in Hin as (exprs' & Hf' & Hinc); [congruence | done].
  - intros Hall. apply inj_le, submseteq_length, NoDup_submseteq.
    + apply NoDup_fst_map_to_list.
    + intros f (exprs & Hf & Hh)%HI. apply elem_of_hit_fields; [done |]. eauto.
Qed.

(** The heart of the refinement: what the index looks for is what the boolean
    expressions mean. *)
Lemma log_matched q c : valid_conj c ->
  idx_matched factory q txs wild c <->
  exists cj, (c, cj) ∈ log /\ conj_sat (log_hit factory descs q) cj = true.
Proof.
  intros Hc.
  assert (Hsat : forall p, p ∈ log ->
    conj_sat (log_hit factory descs q) p.2 = true <->
    ~ exc_hit factory q txs p.1 /\ conj_Size p.1 <= Z.of_nat (inc_count factory q txs p.1)).
  { intros p Hp. rewrite conj_sat_spec, (exc_hit_log q p Hp), (inc_count_log q p Hp).
    setoid_rewrite field_sat_spec. split.
    - intros Hall. split; [| naive_solver]. intros (f & exprs & Hf & Hx).
      destruct (Hall f exprs Hf) as [Hx' _]. congruence.
    - intros [Hne Hinc] f exprs Hf. split; [| by apply Hinc].
      destruct (exclude_hit _ f exprs) eqn:Ex; [| done]. exfalso. eauto. }
  assert (Hin : idx_matched factory q txs wild c -> exists cj, (c, cj) ∈ log).
  { intros [_ Hm]. case_bool_decide as Hz.
    - rewrite (lg_wild _ _ _ _ _ _ Hlog) in Hm.
      apply list_elem_of_fmap in Hm as ([c' cj] & Heq & [_ Hin]%list_elem_of_filter).
      destruct (entry_valid _ Hin) as [Hv _].
      apply NewEntryID_inj in Heq as [-> _]; [eauto | done | done].
    - pose proof (conj_Size_bound c).
      destruct (hit_fields q c) as [|f l] eqn:El.
      { assert (inc_count factory q txs c = length (hit_fields q c)) as Hc0
          by (unfold inc_count, hit_fields; by rewrite length_fmap). rewrite El in Hc0. simpl in Hc0. lia. }
      assert (f ∈ hit_fields q c) as Hf by (rewrite El; by left).
      apply list_elem_of_fmap in Hf as (kv & _ & [Hhit _]%list_elem_of_filter).
      apply field_hit_spec in Hhit as (tx & Htx & _ & Heid & _).
      destruct (tx_of_log tx Htx) as ([c' cj] & e & Hp & _ & [_ _ _ Ee _]). simpl in *.
      destruct (entry_valid _ Hp) as [Hv _]. rewrite Ee in Heid.
      apply NewEntryID_inj in Heid as [-> _]; [eauto | done | done]. }
  split.
  - intros Hm. destruct (Hin Hm) as [cj Hcj]. exists cj. split; [done |].
    apply (Hsat (c, cj) Hcj). destruct Hm as [Hne Hm]. split; [done |]. simpl.
    case_bool_decide as Hz; [rewrite Hz; lia | done].
  - intros (cj & Hcj & Hs). apply (Hsat (c, cj) Hcj) in Hs as [Hne Hinc]. simpl in *.
    split; [done |]. case_bool_decide as Hz; [| done].
    rewrite (lg_wild _ _ _ _ _ _ Hlog). apply list_elem_of_fmap. exists (c, cj).
    split; [done |]. by apply list_elem_of_filter.
Qed.

Lemma log_content_ok : content_ok ca descs txs wild.
Proof.
  split.
  - apply Hfields.
  - intros tx Htx. destruct (tx_of_log tx Htx) as (p & e & _ & _ & [Ef _ _ _ _]).
    by rewrite (proj1 (fields_descs _ Hfields) _ _ Ef).
  - intros tx Htx. by destruct (tx_of_log tx Htx) as (p & e & _ & _ & [_ _ ? _ _]).
  - intros tx Htx. destruct (tx_of_log tx Htx) as (p & e & Hp & _ & [_ -> _ Ee _]).
    destruct (entry_valid p Hp) as [Hv _]. unfold tx_size. rewrite Ee, GetConjID_NewEntryID; [done |].
    unfold valid_conj in Hv. lia.
  - intros tx Htx. destruct (tx_of_log tx Htx) as (p & e & Hp & _ & [_ _ _ -> _]).
    apply valid_eid_New. by apply entry_valid.
  - intros w Hw. rewrite (lg_wild _ _ _ _ _ _ Hlog) in Hw.
    apply list_elem_of_fmap in Hw as (p & -> & [Hz Hp]%list_elem_of_filter).
    destruct (entry_valid p Hp) as [Hv _]. split; [by apply valid_eid_New |].
    unfold valid_conj in Hv. rewrite IsInclude_NewEntryID, GetConjID_NewEntryID by lia. done.
  - intros c Hc. destruct (decide (c ∈ log.*1)) as [Hin | Hout].
    + apply list_elem_of_fmap in Hin as (p & -> & Hp). destruct (entry_valid p Hp) as [_ ->].
      exists (dom (include_fields p.2)). rewrite size_dom, CalcConjSize_size. split; [lia |].
      intros tx Htx Heid. destruct (tx_of_log tx Htx) as (p' & [f bv] & Hp' & Hin & [Ef _ _ Ee _]).
      simpl in *. destruct (entry_valid p' Hp') as [Hv' _]. rewrite Ee in Heid.
      apply NewEntryID_inj in Heid as [Hcc Hb]; [| done | done].
      apply log_functional in Hcc; [| done | done]. subst p'.
      rewrite (proj1 (fields_descs _ Hfields) _ _ Ef).
      apply elem_of_conj_exprs in Hin as (exprs & Hf & Hbv).
      apply elem_of_dom. exists exprs. apply map_lookup_filter_Some. split; [done |].
      apply has_include_spec. eauto.
    + exists ∅. split; [rewrite size_empty; lia |]. intros tx Htx Heid. exfalso. apply Hout.
      destruct (tx_of_log tx Htx) as (p & e & Hp & _ & [_ _ _ Ee _]).
      destruct (entry_valid p Hp) as [Hv _]. rewrite Ee in Heid.
      apply NewEntryID_inj in Heid as [<- _]; [| done | done]. by apply list_elem_of_fmap_2.
Qed.

End Semantics.
