(* ===== verification/System.v ===== *)
(** * From documents to answers

    The life of a builder as a transition system: construction, field
    configuration, documents, reset.  Every reachable state satisfies the
    invariant, and retrieval on the index it builds answers a query with exactly
    the documents that are satisfied. *)

From stdpp Require Import base sorting gmap strings numbers list.
From S2P Require Import Prelude GoValues Ids Document Cursor FieldCursor Collector Scan Holder.
From S2P Require Import Index IndexSpec IndexProofs IndexInstances Builder BuilderSpec.
From S2P Require Import BuilderProofs BuilderDocs BuilderFields Semantics.
Open Scope Z_scope.

Section System.
Context {H D K : Type} `{EntriesHolder H D} `{MapRange} `{DocLevelCache K}.
Context (factory : gmap string H) `{!HolderSpec H D factory}
  `{!DocLevelCacheSpec K} `{!CachedHolderSpec (factory:=factory) K H D}.
Hypothesis Hdefault : is_Some (factory !! HolderNameDefault).
Variable docs_of : DocCacheKey -> Document.
#[local] Hint Extern 0 (BEIndex (AnyBEIndex _) _) => exact (Any_index factory) : typeclass_instances.
Local Abbreviation Bld := (IndexerBuilder (AnyBEIndex H) K).
Implicit Types (b : Bld) (log : list LogEntry).

Definition cache_empty (k : K) : Prop := forall key e, ~ cache_may k key e.

Definition opt_ok (o : BuilderOpt K) : Prop :=
  match o with WithDocLevelCache k => cache_empty k | _ => True end.

(** The conjunctions that documents [docs] contribute. *)
Inductive kept_docs (skip : Prop) (descs : gmap string FieldDesc)
    : list Document -> list LogEntry -> Prop :=
| kd_nil : kept_docs skip descs [] []
| kd_cons doc docs kept kepts :
    (length (doc_Cons doc) <= 255)%nat -> kept_of factory skip descs (doc_ID doc) (doc_log doc) kept -> kept_docs skip descs docs kepts ->
    kept_docs skip descs (doc :: docs) (kept ++ kepts).

(** ** Single operations *)

Lemma index_holds_fresh (i : AnyBEIndex H) descs :
  (forall a c, container_at i a = Some c -> c = newFieldEntriesContainer factory) ->
  ib_wildcardEntries (index_base i) = [] ->
  index_holds (caddr factory i) holder_rep i descs (@nil (FieldIndexingData D)) [].
Proof.
  intros Hc Hw. split.
  - intros a c ->%Hc. apply (container_rep_fresh factory Hdefault).
    intros tx Htx. elem_nil.
  - intros tx Htx. elem_nil.
  - by rewrite Hw.
  - done.
Qed.

Lemma initIndexer_spec b :
  fields_inv (fieldsData b) ->
  wp (initIndexer factory) (fun r b' => fieldsData b' = fieldsData b /\
    docLevelCache b' = docLevelCache b /\ badConjBehavior b' = badConjBehavior b /\
    match r with
    | Ok _ => binv factory b' []
    | Panic _ => b' = b
    | _ => False
    end) b.
Proof.
  intros Hf. unfold wp, initIndexer.
  assert (Hnil : forall ca, logged (D:=D) factory (fieldsData b) ca [] [] []).
  { intros ca. split; [exists []; split; [done | constructor] | done | constructor]. }
  case_bool_decide; [| case_bool_decide; [| done]]; split_and!; try done.
  - exists [], []. split; [split; [| done] | apply Hnil]. apply index_holds_fresh; done.
  - exists [], []. split; [split; [| done] | apply Hnil]. apply index_holds_fresh; [| done].
    intros a c. simpl. case_bool_decide; [| done]. by intros [= <-].
Qed.

Lemma fields_inv_empty : fields_inv ∅.
Proof.
  split; [| split].
  - intros f d. by rewrite lookup_empty.
  - intros f d. by rewrite lookup_empty.
  - intros f f' d d'. by rewrite lookup_empty.
Qed.

(** A new builder is empty, whatever its options are. *)
Lemma NewIndexerBuilder_binv (opts : list (BuilderOpt K)) b :
  NewIndexerBuilder factory opts = Ok b ->
  binv factory b [] /\ fieldsData b = ∅ /\
  exists b0, docLevelCache b = docLevelCache (foldl apply_BuilderOpt b0 opts) /\ docLevelCache (b0 : Bld) = None.
Proof.
  intros Hnew. unfold NewIndexerBuilder in Hnew. set (b0 := Build_IndexerBuilder _ _ _ _ _ _ _ _) in Hnew.
  assert (Hf0 : fieldsData (foldl apply_BuilderOpt b0 opts) = ∅).
  { assert (fieldsData b0 = ∅) as H0' by done. clear Hnew. clearbody b0. revert b0 H0'.
    induction opts as [|o opts IH]; intros b0 Hb0; simpl; [done |]. apply IH. by destruct o. }
  pose proof (initIndexer_spec (foldl apply_BuilderOpt b0 opts)) as Hi. rewrite Hf0 in Hi.
  specialize (Hi fields_inv_empty). unfold wp in Hi.
  destruct (initIndexer factory _) as [b1 [u|e|e|]]; try done.
  injection Hnew as <-. destruct Hi as (Hf & Hk & _ & Hb). split; [done |]. split; [done |]. by exists b0.
Qed.

Lemma NewIndexerBuilder_spec (opts : list (BuilderOpt K)) b :
  Forall opt_ok opts -> NewIndexerBuilder factory opts = Ok b ->
  binv factory b [] /\ cache_sound factory docs_of b /\ fieldsData b = ∅.
Proof.
  intros Hopts Hnew. destruct (NewIndexerBuilder_binv opts b Hnew) as (Hb & Hf & b0 & Hk & Hk0).
  split; [done |]. split; [| done].
  assert (forall k, docLevelCache b0 = Some k -> cache_empty k) as Hk0' by (by rewrite Hk0).
  assert (forall k, docLevelCache b = Some k -> cache_empty k) as Hempty.
  { rewrite Hk. clear Hk Hk0 Hnew. revert b0 Hk0'.
    induction Hopts as [|o opts Ho Hopts IH]; intros b0 Hb0; simpl; [done |].
    apply IH. destruct o; simpl; try done. by intros k [= <-]. }
  intros k key e Hk1 Hmay. by destruct (Hempty k Hk1 key e).
Qed.

Lemma ConfigField_spec b log field container :
  binv factory b log -> cache_sound factory docs_of b ->
  wp (ConfigField field container) (fun r b' => binv factory b' log /\ cache_sound factory docs_of b' /\
    fieldsData b ⊆ fieldsData b' /\ badConjBehavior b' = badConjBehavior b) b.
Proof.
  intros (txs & wild & Hb & Hl) Hs. unfold ConfigField. apply wp_bind, wp_PanicIfErr.
  wp_call (configureField_spec factory). intros r b' [Hp Hr].
  pose proof (binv_prepares _ _ _ _ _ _ Hl Hp) as Hb'.
  pose proof (cache_sound_extends _ docs_of _ _ Hs (proj2 Hp)) as Hs'.
  destruct r; simpl; split_and!; try done; apply Hp.
Qed.

(** Configuring a field empties the cache: what it held does not matter. *)
Lemma ConfigField_clears b log field container b' :
  binv factory b log -> ConfigField field container b = (b', Ok tt) ->
  binv factory b' log /\ cache_sound factory docs_of b' /\ fieldsData b ⊆ fieldsData b' /\
  badConjBehavior b' = badConjBehavior b.
Proof.
  intros (txs & wild & Hb & Hl) Hc. unfold ConfigField, PanicIfErr, mbind, M_bind, mret, M_ret in Hc.
  destruct (configureField field container b) as [b1 r] eqn:Ec.
  destruct (wp_elim (configureField_spec factory _ _ _ _ _ Hb) Ec) as [Hp _].
  pose proof (binv_prepares _ _ _ _ _ _ Hl Hp) as Hb'.
  destruct r as [d|e|e|]; try done. injection Hc as <-. split; [done |]. split; [| split; apply Hp].
  unfold configureField in Ec. destruct (fieldsData b !! field); [done |]. injection Ec as <- _.
  intros k key e Hk Hmay. simpl in Hk. destruct (docLevelCache b) as [k0|]; [| done].
  injection Hk as <-. by apply cache_may_Clear in Hmay.
Qed.

(** On an error or a panic the documents before the offending one stay. *)
Lemma AddDocument_spec docs b log :
  binv factory b log -> cache_sound factory docs_of b -> Forall (doc_cacheable factory K docs_of) docs ->
  wp (AddDocument factory docs) (fun r b' => cache_sound factory docs_of b' /\
    fieldsData b ⊆ fieldsData b' /\ badConjBehavior b' = badConjBehavior b /\
    exists n kept, kept_docs (skips b) (fieldsData b') (take n docs) kept /\
      binv factory b' (log ++ kept) /\
      match r with
      | Ok _ => n = length docs
      | OutOfFuel => False
      | _ => exists doc, docs !! n = Some doc /\ doc_fault factory (fieldsData b') doc
      end) b.
Proof.
  revert b log. induction docs as [|doc docs IH]; intros b log Hb Hs Hdocs.
  - apply wp_ret. split_and!; try done. exists 0%nat, []. split; [constructor |].
    by rewrite app_nil_r.
  - inversion Hdocs as [|? ? Hdoc Hdocs']; subst.
    assert (Hstay : forall b', binv factory b' log -> doc_fault factory (fieldsData b') doc ->
      exists n kept, kept_docs (skips b) (fieldsData b') (take n (doc :: docs)) kept /\
      binv factory b' (log ++ kept) /\
      exists doc', (doc :: docs) !! n = Some doc' /\ doc_fault factory (fieldsData b') doc').
    { intros b' Hb' Hf. exists 0%nat, []. split; [constructor |]. rewrite app_nil_r. split; [done |].
      by exists doc. }
    change (AddDocument factory (doc :: docs)) with
      ((_ ← lift (validDocument doc); buildDocEntries factory doc) ≫= fun _ => AddDocument (I:=AnyBEIndex H) (K:=K) factory docs).
    apply wp_bind, wp_bind. apply wp_intro. intros b0 r [= <- <-].
    destruct (validDocument doc) as [u|e|e|] eqn:Ev.
    3-4: unfold validDocument in Ev; repeat case_bool_decide; done.
    2: { split_and!; try done. apply Hstay; [done |]. unfold validDocument in Ev.
         case_bool_decide as Hnil; [left; by apply nil_length_inv |]. right; left.
         case_bool_decide; [lia | done]. }
    wp_call (buildDocEntries_spec factory Hdefault docs_of b log doc).
    intros r b1 (Hs1 & Hf1 & Hbe1 & Hr).
    destruct r as [u'|e|e|]; [| by destruct Hr; split_and!; eauto .. | done].
    destruct Hr as (kept & Hk & Hb1).
    wp_call (IH b1 (log ++ kept)).
    intros r b2 (Hs2 & Hf2 & Hbe2 & n & kepts & Hks & Hb2 & Hn).
    split; [done |]. split; [by transitivity (fieldsData b1) |]. split; [congruence |].
    exists (S n), (kept ++ kepts). simpl. split.
    { constructor; [| by eapply kept_of_mono |].
      { unfold validDocument in Ev. repeat case_bool_decide; try done. lia. }
      unfold skips in *. by rewrite Hbe1 in Hks. }
    split; [by rewrite app_assoc |]. destruct r; try done; lia.
Qed.

(** ** Which conjunctions are indexed *)

(** The conjunctions of [doc] that the builder accepts. *)
Definition accepted (descs : gmap string FieldDesc) (doc : Document) : list LogEntry :=
  filter (fun p => indexable factory descs p.2 = true) (doc_log doc).

(** The ids of the accepted conjunctions of [doc] are in range. *)
Definition accepted_ok (descs : gmap string FieldDesc) (doc : Document) : Prop :=
  (length (doc_Cons doc) <= 255)%nat /\ Forall (entry_of (doc_ID doc)) (accepted descs doc).

Lemma indexable_spec descs cj :
  indexable factory descs cj = true <->
  forall e, e ∈ conj_exprs cj -> exists x, expr_data factory descs e = Ok x.
Proof.
  unfold indexable. rewrite forallb_forall. setoid_rewrite <- list_elem_of_In.
  split; intros Hall e He; specialize (Hall e He).
  - destruct (expr_data factory descs e); [eauto | done ..].
  - by destruct Hall as [x ->].
Qed.

Lemma indexable_data descs cj f bv d bvs :
  indexable factory descs cj = true -> Expressions cj !! f = Some bvs -> bv ∈ bvs -> descs !! f = Some d ->
  is_Ok (build_data factory (fd_Container d) d bv).
Proof.
  intros Hi Hf Hbv Hd. rewrite indexable_spec in Hi. destruct (Hi (f, bv)) as [x Hx].
  - apply (elem_of_conj_exprs cj f bv). eauto.
  - exists x. unfold expr_data in Hx. simpl in Hx. by rewrite Hd in Hx.
Qed.

Lemma kept_of_indexable skip descs docID l kept :
  kept_of factory skip descs docID l kept ->
  (forall p, p ∈ kept -> indexable factory descs p.2 = true) ->
  kept = filter (fun p => indexable factory descs p.2 = true) l /\ Forall (entry_of docID) kept.
Proof.
  induction 1 as [|p l l' Hent Hk IH | p l l' Hs (e & He & _ & Hno) Hk IH]; intros Hin.
  - done.
  - destruct IH as [Heq Hall]; [intros p' Hp'; apply Hin; by right |].
    rewrite filter_cons_True by (apply Hin; by left). split; [by f_equal | by constructor].
  - rewrite filter_cons_False; [by apply IH |]. intros Hx. rewrite indexable_spec in Hx.
    destruct (Hx e He) as [x Hex]. by apply Hno in Hex.
Qed.

Lemma binv_indexable b log p :
  binv factory b log -> p ∈ log -> indexable factory (fieldsData b) p.2 = true.
Proof.
  intros (txs & wild & Hb & Hl) Hp. apply indexable_spec. intros e He.
  destruct (log_of_tx factory _ _ _ _ _ Hl p e Hp He) as (tx & _ & [_ _ _ _ Hd]). eauto.
Qed.

Lemma kept_docs_accepted skip descs docs kept :
  kept_docs skip descs docs kept ->
  (forall p, p ∈ kept -> indexable factory descs p.2 = true) ->
  kept = docs ≫= accepted descs /\ Forall (accepted_ok descs) docs.
Proof.
  induction 1 as [|doc docs kept kepts Hlen Hk Hks IH]; intros Hin; [done |].
  destruct (kept_of_indexable _ _ _ _ _ Hk) as [Heq Hall].
  { intros p Hp. apply Hin, elem_of_app. by left. }
  destruct IH as [Heqs Halls].
  { intros p Hp. apply Hin, elem_of_app. by right. }
  change ((doc :: docs) ≫= accepted descs) with (accepted descs doc ++ (docs ≫= accepted descs)).
  fold (accepted descs doc) in Heq. rewrite <- Heqs, <- Heq. split; [done |].
  constructor; [| done]. split; [done |]. by rewrite <- Heq.
Qed.

(** Without [SkipBadConj] every conjunction of a document is indexed. *)
Lemma kept_of_all descs docID l kept : kept_of factory False descs docID l kept -> kept = l.
Proof. by induction 1; simplify_eq. Qed.

Lemma AddDocument_accepted docs b log :
  binv factory b log -> cache_sound factory docs_of b -> Forall (doc_cacheable factory K docs_of) docs ->
  wp (AddDocument factory docs) (fun r b' => cache_sound factory docs_of b' /\
    exists n, binv factory b' (log ++ (take n docs ≫= accepted (fieldsData b'))) /\
      (badConjBehavior b <> SkipBadConj ->
         take n docs ≫= accepted (fieldsData b') = take n docs ≫= doc_log) /\
      Forall (accepted_ok (fieldsData b')) (take n docs) /\
      match r with
      | Ok _ => n = length docs
      | OutOfFuel => False
      | _ => exists doc, docs !! n = Some doc /\ doc_fault factory (fieldsData b') doc
      end) b.
Proof.
  intros Hb Hs Hdocs. wp_call AddDocument_spec.
  intros r b' (Hs' & _ & _ & n & kept & Hk & Hb' & Hn). split; [done |]. exists n.
  assert (kept = take n docs ≫= accepted (fieldsData b') /\
          Forall (accepted_ok (fieldsData b')) (take n docs)) as [Hacc Hoks].
  { eapply kept_docs_accepted; [done |]. intros p Hp. eapply binv_indexable; [done |].
    apply elem_of_app. by right. }
  rewrite <- Hacc. split; [done |]. split; [| done]. intros Hne. clear Hoks. clear -Hk Hne.
  induction Hk as [|doc ds kept kepts Hlen Hk Hks IH]; [done |]. simpl. f_equal; [| done].
  eapply kept_of_all. clear -Hk Hne. by induction Hk; constructor.
Qed.

(** ** Reachable states

    [AddDocument docs] adds one document after the other, so the steps of the
    system add a single one.  A builder may start on a cache that others have used
    ([reach_shared]), when it configures a field before it adds documents. *)
Inductive reachable : Bld -> list LogEntry -> Prop :=
| reach_new opts b : Forall opt_ok opts -> NewIndexerBuilder factory opts = Ok b -> reachable b []
| reach_config b log f ct b' r :
    reachable b log -> ConfigField f ct b = (b', r) -> reachable b' log
| reach_shared opts b f ct b' :
    NewIndexerBuilder factory opts = Ok b -> ConfigField f ct b = (b', Ok tt) -> reachable b' []
| reach_doc b log doc b' r :
    reachable b log -> doc_cacheable factory K docs_of doc -> AddDocument factory [doc] b = (b', r) ->
    reachable b' (log ++ match r with Ok _ => accepted (fieldsData b') doc | _ => [] end)
| reach_reset b log b' r :
    reachable b log -> Reset factory b = (b', Ok r) -> reachable b' [].

Lemma add_doc_inv b log doc b' r :
  binv factory b log -> cache_sound factory docs_of b -> doc_cacheable factory K docs_of doc ->
  AddDocument factory [doc] b = (b', r) ->
  binv factory b' (log ++ match r with Ok _ => accepted (fieldsData b') doc | _ => [] end) /\
  cache_sound factory docs_of b'.
Proof.
  intros Hb Hs Hd Ha.
  destruct (wp_elim (AddDocument_accepted [doc] b log Hb Hs (proj2 (Forall_singleton _ _) Hd)) Ha)
    as (Hs' & n & Hb' & _ & _ & Hn).
  split; [| done]. destruct r as [u|e|e|]; simpl in Hn; [subst n | | | done].
  1: simpl in Hb'; by rewrite app_nil_r in Hb'.
  all: destruct Hn as (d & Hd' & _); apply lookup_lt_Some in Hd'; simpl in Hd'.
  all: by assert (n = 0%nat) as -> by lia.
Qed.

Lemma Reset_inv b log b' r :
  binv factory b log -> cache_sound factory docs_of b -> Reset factory b = (b', Ok r) ->
  binv factory b' [] /\ cache_sound factory docs_of b'.
Proof.
  intros (txs & wild & Hbt & Hl) Hs Hc.
  destruct (wp_elim (initIndexer_spec b (built_fields _ _ _ _ Hbt)) Hc) as (Hf & Hk & Hbe & Hb').
  split; [done |]. intros k key e Hk' Hmay. unfold skips. rewrite Hf, Hbe.
  eapply Hs; [| done]. congruence.
Qed.

Lemma reachable_inv b log : reachable b log -> binv factory b log /\ cache_sound factory docs_of b.
Proof.
  induction 1 as [opts b Hopts Hnew | b log f ct b' r Hr [Hb Hs] Hc | opts b f ct b' Hnew Hc
                 | b log doc b' r Hr [Hb Hs] Hd Ha | b log b' r Hr [Hb Hs] Hc].
  - by destruct (NewIndexerBuilder_spec opts b Hopts Hnew) as (? & ? & _).
  - by destruct (wp_elim (ConfigField_spec b log f ct Hb Hs) Hc) as (? & ? & _).
  - destruct (NewIndexerBuilder_binv opts b Hnew) as [Hb _].
    by destruct (ConfigField_clears b [] f ct b' Hb Hc) as (? & ? & _).
  - by eapply add_doc_inv.
  - by eapply Reset_inv.
Qed.

(** ** The built index *)

(** Index [i] answers for the conjunctions of [log]. *)
Definition serves (i : AnyBEIndex H) (descs : gmap string FieldDesc) (log : list LogEntry) : Prop :=
  exists txs wild, index_ready factory (caddr factory i) i descs txs wild /\
    logged factory descs (caddr factory i) log txs wild /\ fields_inv descs.

Lemma BuildIndex_spec b log :
  binv factory b log ->
  wp BuildIndex (fun r b' => fieldsData b' = fieldsData b /\
    match r with
    | Ok i => indexer b' = i /\ serves i (fieldsData b) log
    | Panic _ => exists e, (compileIndexer (setFieldDesc (indexer b) (fieldsData b))).2 = Err e
    | _ => False
    end) b.
Proof.
  intros (txs & wild & [Hi Hf] & Hl). unfold wp, BuildIndex.
  assert (Hi' : index_holds (caddr factory (setFieldDesc (indexer b) (fieldsData b))) holder_rep
                  (setFieldDesc (indexer b) (fieldsData b)) (fieldsData b) txs wild).
  { rewrite (caddr_setFieldDesc factory). destruct Hi as [Hc Hr Hw Hwc]. split.
    - intros a c. rewrite (container_at_setFieldDesc factory). apply Hc.
    - intros tx Htx. rewrite (container_at_setFieldDesc factory). by apply Hr.
    - rewrite (base_setFieldDesc factory). done.
    - rewrite (container_at_setFieldDesc factory). done. }
  destruct (compileIndexer (setFieldDesc (indexer b) (fieldsData b))) as [i r] eqn:Ec.
  pose proof (compileIndexer_spec factory _ _ _ _ i r Hi') as Hspec.
  rewrite (base_setFieldDesc factory) in Hspec. specialize (Hspec eq_refl Ec).
  destruct r as [u|e|e|]; try done; (split; [done |]); [| by exists e].
  destruct Hspec as [Hready Hca]. split; [done |]. exists txs, wild. split; [done |]. split; [| done].
  by rewrite Hca, (caddr_setFieldDesc factory).
Qed.

(** *** Compiling does not fail when no holder's compilation does *)

Definition no_err {S A} (m : M S A) : Prop := forall s e, (m s).2 <> Err e.

Lemma no_err_bind {S A B} (m : M S A) (k : A -> M S B) :
  no_err m -> (forall a, no_err (k a)) -> no_err (m ≫= k).
Proof.
  intros Hm Hk s e. unfold mbind, M_bind. specialize (Hm s).
  destruct (m s) as [s' [a|e'|e'|]]; simpl in *; try done; [apply Hk | by intros [= ->]; eapply Hm].
Qed.

Lemma no_err_forM {S A} (l : list A) (f : A -> M S unit) : (forall a, no_err (f a)) -> no_err (forM l f).
Proof.
  intros Hf. induction l as [|a l IH]; [done |]. by apply no_err_bind.
Qed.

Lemma compileIndexer_no_err :
  (forall h e, (CompileEntries h).2 <> Err e) -> no_err (compileIndexer (I:=AnyBEIndex H)).
Proof.
  intros Hcompile.
  assert (Hr : forall r, no_err (compile_ref r)).
  { intros r c e. unfold compile_ref. destruct (holder_deref c r) as [h|]; [| done].
    specialize (Hcompile h e). by destruct (CompileEntries h). }
  assert (Hc : no_err compileEntries).
  { apply no_err_bind; [done | intros _]. apply no_err_bind; [done | intros c]. by apply no_err_forM. }
  assert (Hl : forall cs e, (kg_compile_loop cs).2 <> Err e).
  { induction cs as [|c cs IH]; intros e; simpl; [done |]. specialize (Hc c).
    destruct (compileEntries c) as [c' [u|e'|e'|]]; simpl in *; try done.
    specialize (IH e). by destruct (kg_compile_loop cs). }
  intros [i|i] e; simpl; unfold kg_compileIndexer, cp_compileIndexer.
  - specialize (Hl (kSizeContainers i)). destruct (kg_compile_loop _) as [cs [u|e'|e'|]]; by simpl in *.
  - specialize (Hc (cp_container i)). by destruct (compileEntries (cp_container i)) as [c out].
Qed.

Lemma BuildIndex_total b log :
  (forall h e, (CompileEntries h).2 <> Err e) -> binv factory b log ->
  exists b' i, BuildIndex b = (b', Ok i) /\ serves i (fieldsData b) log.
Proof.
  intros Hcompile Hb. pose proof (BuildIndex_spec b log Hb) as Hwp. unfold wp in Hwp.
  destruct (BuildIndex b) as [b' [i|e|e|]] eqn:Eb; destruct Hwp as [_ Hr]; try done.
  - exists b', i. by destruct Hr.
  - destruct Hr as [e' He']. by apply compileIndexer_no_err in He'.
Qed.

(** *** Documents that are accepted in full *)

Definition admissible (descs : gmap string FieldDesc) (doc : Document) : Prop :=
  doc_Cons doc <> [] /\ (length (doc_Cons doc) <= 255)%nat /\
  forall n cj, doc_Cons doc !! n = Some cj ->
    fields_ok (doc_ID doc) (Z.of_nat n) (CalcConjSize cj) /\ indexable factory descs cj = true.

(** *** The same, before the document is added *)

(** The description a field has, or gets when a document mentions it first. *)
Definition field_desc (descs : gmap string FieldDesc) (f : BEField) : FieldDesc :=
  default {| fd_ID := Z.of_nat (size descs); fd_Field := f; fd_Container := HolderNameDefault |} (descs !! f).

(** [doc] has between 1 and 255 conjunctions; the id of each is in range and each
    of its expressions is accepted by the holder of its field. *)
Definition acceptable (descs : gmap string FieldDesc) (doc : Document) : Prop :=
  doc_Cons doc <> [] /\ (length (doc_Cons doc) <= 255)%nat /\
  forall n cj, doc_Cons doc !! n = Some cj ->
    fields_ok (doc_ID doc) (Z.of_nat n) (CalcConjSize cj) /\
    forall f exprs bv, Expressions cj !! f = Some exprs -> bv ∈ exprs ->
      is_Ok (build_data factory (fd_Container (field_desc descs f)) (field_desc descs f) bv).

(** What a holder makes of an expression does not depend on when its field was
    configured. *)
Lemma expr_data_before descs descs' f bv :
  descs ⊆ descs' -> fields_from descs descs' -> descs_ok descs' -> is_Some (descs' !! f) ->
  expr_data factory descs' (f, bv)
  = build_data factory (fd_Container (field_desc descs f)) (field_desc descs f) bv.
Proof.
  intros Hsub Hfrom [Hname _] [d Hd]. unfold expr_data, field_desc. simpl. rewrite Hd.
  destruct (descs !! f) as [d'|] eqn:Hd'; simpl.
  - pose proof (lookup_weaken _ _ _ _ Hd' Hsub) as Heq. rewrite Hd in Heq. by injection Heq as ->.
  - destruct (Hfrom f d Hd) as [? | ->]; [congruence |]. apply build_data_field. simpl. by apply Hname.
Qed.

Lemma admissible_acceptable descs descs' doc :
  descs ⊆ descs' -> fields_from descs descs' -> descs_ok descs' ->
  admissible descs' doc -> acceptable descs doc.
Proof.
  intros Hsub Hfrom Hok (Hne & Hlen & Hall). split; [done |]. split; [done |]. intros n cj Hn.
  destruct (Hall n cj Hn) as [Hids Hix]. split; [done |]. intros f exprs bv Hf Hbv.
  rewrite indexable_spec in Hix. destruct (Hix (f, bv)) as [x Hx]; [apply elem_of_conj_exprs; eauto |].
  exists x. rewrite <- Hx. symmetry. apply expr_data_before; try done.
  unfold expr_data in Hx. simpl in Hx. by destruct (descs' !! f).
Qed.

Lemma acceptable_no_fault descs descs' doc :
  descs ⊆ descs' -> fields_from descs descs' -> descs_ok descs' ->
  acceptable descs doc -> ~ doc_fault factory descs' doc.
Proof.
  intros Hsub Hfrom Hok (Hne & Hlen & Hall) [Hnil | [Hlong | (n & cj & Hn & Hf)]]; [done | lia |].
  destruct (Hall n cj Hn) as [Hids Hix]. destruct Hf as [Hbad | ([f bv] & Hp & Hsome & Hno)]; [done |].
  apply elem_of_conj_exprs in Hp as (exprs & Hf & Hbv). destruct (Hix f exprs bv Hf Hbv) as [x Hx].
  apply (Hno x). rewrite <- Hx. by apply expr_data_before.
Qed.

Section Query.
Context {B : Type} `{Roaring64Spec B}.

(** The document ids of conjunctions are 64-bit integers. *)
Lemma entry_doc_i64 p : entry_ok p -> is_i64 (conj_DocID p.1).
Proof.
  intros (d & i & Hok & _ & ->). simpl. rewrite pack_DocID by done.
  unfold fields_ok, MaxDocID, is_i64, MinInt64, MaxInt64 in *. lia.
Qed.

Lemma Retrieve_spec (i : AnyBEIndex H) descs log q (pool pool' : list (DocIDCollector B)) r :
  serves i descs log -> NoDup log.*1 -> pool_ok pool -> Retrieve i q [] pool = (pool', r) ->
  pool_ok pool' /\
  match r with
  | Ok ids => StronglySorted (fun x y => u64 x < u64 y) ids /\
      forall id, id ∈ ids <-> exists c cj, (c, cj) ∈ log /\ conj_DocID c = id /\
                   conj_sat (log_hit factory descs q) cj = true
  | Err _ => ~ query_ok factory descs q
  | Panic _ => ~ (query_plain q /\ query_ok factory descs q)
  | OutOfFuel => False
  end.
Proof.
  intros (txs & wild & Hready & Hl & Hf) Hnd Hpool. unfold Retrieve.
  destruct (PickCollector pool) as [pool1 col] eqn:Ep.
  destruct (PickCollector_empty _ _ _ Hpool Ep) as [Hpool1 Hcol].
  destruct (RetrieveWithCollector i q [] col) as [col' r0] eqn:Er.
  pose proof (RetrieveWithCollector_spec factory _ _ _ _ _ _ _ _ _ Hready
    (log_content_ok factory _ _ _ _ _ Hf Hl Hnd) Er) as Hspec.
  pose proof (PutCollector_ok pool1 col' Hpool1) as Hput.
  destruct r0 as [u|e|e|]; intros [= <- <-]; (split; [done |]); [| done ..].
  destruct Hspec as (hits & -> & Hnd' & Hhits).
  assert (Hdocs : forall x, x ∈ bm_iter (docBits (foldl add_conj col hits)) <->
    exists c cj, (c, cj) ∈ log /\ x = u64 (conj_DocID c) /\ conj_sat (log_hit factory descs q) cj = true).
  { intros x. rewrite docBits_add_conj, Hcol. split.
    - intros [(c & [Hv Hm]%Hhits & ->) | Hx]; [| elem_nil].
      destruct (proj1 (log_matched factory _ _ _ _ _ Hf Hl Hnd q c Hv) Hm) as (cj & Hcj & Hsat).
      exists c, cj. split; [exact Hcj |]. split; [reflexivity | exact Hsat].
    - intros (c & cj & Hin & -> & Hs). left. exists c. split; [| done]. apply Hhits.
      assert (valid_conj c) as Hv by exact (proj1 (entry_valid factory _ _ _ _ _ Hl (c, cj) Hin)).
      split; [exact Hv |]. apply (proj2 (log_matched factory _ _ _ _ _ Hf Hl Hnd q c Hv)).
      exists cj. split; [exact Hin | exact Hs]. }
  pose proof (lg_ok _ _ _ _ _ _ Hl) as Hok. rewrite Forall_forall in Hok.
  split.
  - apply GetDocIDs_sorted. intros x (c & cj & Hin & -> & _)%Hdocs.
    exists (conj_DocID c). split; [| done]. by apply (entry_doc_i64 (c, cj)), Hok.
  - intros id. change (DocIDCollector_GetDocIDs ?c) with (GetDocIDs c).
    rewrite GetDocIDs_fmap, list_elem_of_fmap. split.
    + intros (x & -> & (c & cj & Hin & -> & Hs)%Hdocs). exists c, cj.
      rewrite i64_u64 by (by apply (entry_doc_i64 (c, cj)), Hok). done.
    + intros (c & cj & Hin & <- & Hs). exists (u64 (conj_DocID c)).
      rewrite i64_u64 by (by apply (entry_doc_i64 (c, cj)), Hok). split; [done |].
      apply Hdocs. exists c, cj. split; [exact Hin |]. split; [reflexivity | exact Hs].
Qed.

End Query.

(** ** Documents with distinct ids *)

Lemma elem_of_conj_log docID idx cs p :
  p ∈ conj_log docID idx cs <->
  exists n cj, cs !! n = Some cj /\ p = conj_entry docID (idx + Z.of_nat n) cj.
Proof.
  revert idx. induction cs as [|cj cs IH]; intros idx; simpl.
  - split; [intros Hp; elem_nil | by intros (n & cj & Hn & _)].
  - rewrite elem_of_cons, IH. split.
    + intros [-> | (n & cj' & Hn & ->)].
      * exists 0%nat, cj. split; [done |]. f_equal. lia.
      * exists (S n), cj'. split; [done |]. f_equal. lia.
    + intros ([|n] & cj' & Hn & ->); simpl in Hn.
      * left. injection Hn as <-. f_equal. lia.
      * right. exists n, cj'. split; [done |]. f_equal. lia.
Qed.

Lemma accepted_entry descs doc p :
  accepted_ok descs doc -> p ∈ accepted descs doc ->
  exists n cj, doc_Cons doc !! n = Some cj /\ p = conj_entry (doc_ID doc) (Z.of_nat n) cj /\
    fields_ok (doc_ID doc) (Z.of_nat n) (CalcConjSize cj) /\ indexable factory descs cj = true.
Proof.
  intros [Hlen Hall] Hp. rewrite Forall_forall in Hall. destruct (Hall p Hp) as (idx & Hok & _ & _).
  unfold accepted in Hp. apply list_elem_of_filter in Hp as [Hix (n & cj & Hn & ->)%elem_of_conj_log].
  exists n, cj. split; [done |]. split; [done |]. split; [| done]. simpl in Hok.
  apply lookup_lt_Some in Hn. unfold fields_ok in *. lia.
Qed.

Lemma NoDup_conj_log docID idx cs :
  0 <= idx -> idx + Z.of_nat (length cs) <= 256 ->
  forall l, sublist l (conj_log docID idx cs) -> Forall (entry_of docID) l -> NoDup l.*1.
Proof.
  revert idx. induction cs as [|cj cs IH]; intros idx Hidx Hlen l; simpl in *.
  - intros ->%sublist_nil_r _. constructor.
  - intros [Hs | (l' & -> & Hs)]%sublist_cons_r Hall; [eapply (IH (idx + 1)); [lia | lia | done | done] |].
    inversion Hall as [|? ? (i & Hok & _ & Heq) Hall']; subst. simpl in *.
    constructor; [| eapply (IH (idx + 1)); [lia | lia | done | done]].
    intros (p & Hp1 & Hp)%list_elem_of_fmap. rewrite Forall_forall in Hall'.
    destruct (Hall' p Hp) as (j & Hokj & _ & _).
    assert (p ∈ conj_log docID (idx + 1) cs) as (n & cj' & Hn & ->)%elem_of_conj_log
      by (by eapply elem_of_sublist).
    simpl in *. apply lookup_lt_Some in Hn.
    apply pack_inj in Hp1 as (_ & Hi & _); [lia | |]; unfold fields_ok in *; lia.
Qed.

Lemma NoDup_accepted descs docs :
  NoDup (doc_ID <$> docs) -> Forall (accepted_ok descs) docs -> NoDup (docs ≫= accepted descs).*1.
Proof.
  induction docs as [|doc docs IH]; intros Hnd Hok; [constructor |].
  apply NoDup_cons in Hnd as [Hnin Hnd]. inversion Hok as [|? ? Hd Hok']; subst.
  change ((doc :: docs) ≫= accepted descs) with (accepted descs doc ++ (docs ≫= accepted descs)).
  rewrite fmap_app. apply NoDup_app. split.
  { destruct Hd as [Hlen Hall]. eapply (NoDup_conj_log (doc_ID doc) 0 (doc_Cons doc)); [lia | lia | | done].
    apply sublist_filter. }
  split; [| by apply IH].
  intros c (p & -> & Hp)%list_elem_of_fmap (p' & Heq & Hp')%list_elem_of_fmap.
  apply list_elem_of_bind in Hp' as (doc' & Hp' & Hdoc').
  rewrite Forall_forall in Hok'.
  destruct (accepted_entry _ _ _ Hd Hp) as (n & cj & _ & -> & Hf & _).
  destruct (accepted_entry _ _ _ (Hok' _ Hdoc') Hp') as (n' & cj' & _ & -> & Hf' & _).
  simpl in Heq. apply pack_inj in Heq as (Hid & _); [| done | done].
  apply Hnin. rewrite Hid. by apply list_elem_of_fmap_2.
Qed.

(** The documents answered: those with an accepted, satisfied conjunction. *)
Lemma accepted_docs descs docs hit id :
  Forall (accepted_ok descs) docs ->
  (exists c cj, (c, cj) ∈ docs ≫= accepted descs /\ conj_DocID c = id /\ conj_sat hit cj = true) <->
  exists doc cj, doc ∈ docs /\ doc_ID doc = id /\ cj ∈ doc_Cons doc /\
    indexable factory descs cj = true /\ conj_sat hit cj = true.
Proof.
  intros Hok. rewrite Forall_forall in Hok. split.
  - intros (c & cj & (doc & Hin & Hdoc)%list_elem_of_bind & Hid & Hs).
    destruct (accepted_entry _ _ _ (Hok _ Hdoc) Hin) as (n & cj' & Hn & [= -> ->] & Hf & Hix).
    rewrite pack_DocID in Hid by done. exists doc, cj'. split_and!; try done.
    by eapply list_elem_of_lookup_2.
  - intros (doc & cj & Hdoc & <- & [n Hn]%list_elem_of_lookup & Hix & Hs).
    assert ((conj_entry (doc_ID doc) (Z.of_nat n) cj) ∈ accepted descs doc) as Hin.
    { apply list_elem_of_filter. split; [done |]. apply elem_of_conj_log. exists n, cj. done. }
    exists (conj_entry (doc_ID doc) (Z.of_nat n) cj).1, cj. split.
    { apply list_elem_of_bind. exists doc. done. }
    split; [| done].
    destruct (accepted_entry _ _ _ (Hok _ Hdoc) Hin) as (n' & cj' & _ & Heq & Hf & _).
    rewrite Heq. simpl. by rewrite pack_DocID.
Qed.

End System.
