(* ===== verification/DefaultIndex.v ===== *)
(** * Indexes with the default registry

    With the holders that package be_indexer registers itself, every field has the
    default holder and its default tokenizer: an expression is met when it shares a
    token with the query.  This file specialises the general theorems to documents
    of such expressions ([plain_doc]): they are always accepted, and the answers do
    not depend on the builder any more. *)

From Stdlib Require Import Ascii String.
From stdpp Require Import base sorting gmap strings numbers pretty list.
From S2P Require Import Prelude GoValues Utf8 Ids Document Cursor FieldCursor Collector Scan Holder.
From S2P Require Import Index IndexSpec IndexProofs IndexInstances Parsers DefaultHolder Builder.
From S2P Require Import BuilderSpec BuilderProofs BuilderDocs BuilderFields Semantics System.
Open Scope Z_scope.

(** The meaning of a document depends only on its own expressions. *)
Lemma doc_sat_ext (hit hit' : BEField -> BoolValues -> bool) doc :
  (forall cj f exprs bv, cj ∈ doc_Cons doc -> Expressions cj !! f = Some exprs -> bv ∈ exprs ->
     hit f bv = hit' f bv) ->
  doc_sat hit doc = doc_sat hit' doc.
Proof.
  intros Hhit. apply eq_true_iff_eq. unfold doc_sat. rewrite !existsb_exists. setoid_rewrite <- list_elem_of_In.
  assert (Heq : forall cj, cj ∈ doc_Cons doc -> conj_sat hit cj = true <-> conj_sat hit' cj = true); [| naive_solver].
  intros cj Hcj. rewrite !conj_sat_spec. setoid_rewrite field_sat_spec. setoid_rewrite include_hit_spec.
  setoid_rewrite <- not_true_iff_false. setoid_rewrite exclude_hit_spec.
  split; intros Hx f exprs Hl; destruct (Hx f exprs Hl) as [Hexc Hinc]; (split;
    [intros (e & He & Hi & Hh); apply Hexc; exists e; rewrite (Hhit cj f exprs e) in * by done; done
    |intros Hi; destruct (Hinc Hi) as (e & He & Hie & Hh); exists e; rewrite (Hhit cj f exprs e) in * by done; done]).
Qed.

Section Meaning.
Context `{GoFloat}.

(** The query gives [f] a value that shares a token with expression [bv]. *)
Definition token_hit (q : Assignments) (f : BEField) (bv : BoolValues) : bool :=
  match q !! f with
  | Some v =>
      match ValuesToStrings (Value bv), ValuesToStrings v with
      | Ok ts, Ok qs => existsb (fun s => bool_decide (s ∈ ts)) qs
      | _, _ => false
      end
  | None => false
  end.

Definition plain_expr (bv : BoolValues) : Prop := Operator bv = ValueOptEQ /\ is_Ok (ValuesToStrings (Value bv)).

Definition plain_conj `{MapRange} (cj : Conjunction) : Prop :=
  CalcConjSize cj < 256 /\
  forall f exprs bv, Expressions cj !! f = Some exprs -> bv ∈ exprs -> plain_expr bv.

Record plain_doc `{MapRange} (doc : Document) : Prop := {
  pd_id : - MaxDocID <= doc_ID doc <= MaxDocID;
  pd_cons : doc_Cons doc <> [];
  pd_len : (length (doc_Cons doc) <= 255)%nat;
  pd_conj : forall cj, cj ∈ doc_Cons doc -> plain_conj cj
}.

(** The values of a query that the default tokenizer reads. *)
Definition readable (q : Assignments) : Prop :=
  forall f v, q !! f = Some v -> is_array v = false /\ is_Ok (ValuesToStrings v).

(** [ids] are, in increasing order, the documents of [docs] that [q] satisfies. *)
Definition doc_answer (docs : list Document) (q : Assignments) (ids : list DocID) : Prop :=
  StronglySorted (fun x y => u64 x < u64 y) ids /\
  forall id, id ∈ ids <-> exists doc, doc ∈ docs /\ doc_ID doc = id /\ doc_sat (token_hit q) doc = true.

Lemma doc_answer_unique docs q ids ids' : doc_answer docs q ids -> doc_answer docs q ids' -> ids = ids'.
Proof. intros [Hs Hi] [Hs' Hi']. apply (u64_sorted_unique _ _ Hs Hs'). intros id. by rewrite Hi, Hi'. Qed.

End Meaning.

(** The documents that cache keys stand for, among those of [docs]. *)
Definition docs_in (docs : list Document) (key : DocCacheKey) : Document :=
  match filter (fun doc => doc_ID doc = ck_DocID key) docs with
  | doc :: _ => doc
  | [] => NewDocument 0
  end.

Lemma docs_in_known docs doc : NoDup (doc_ID <$> docs) -> doc ∈ docs ->
  docs_in docs (NewDocCacheKey (doc_ID doc) (doc_Version doc)) = doc.
Proof.
  intros Hnd Hin. unfold docs_in. simpl. destruct (filter _ docs) as [|doc' l] eqn:Ef.
  - exfalso. apply (not_elem_of_nil doc). rewrite <- Ef. by apply list_elem_of_filter.
  - assert (doc' ∈ filter (fun x => doc_ID x = doc_ID doc) docs) as [Hid Hin']%list_elem_of_filter
      by (rewrite Ef; by left).
    by apply (NoDup_fmap_eq doc_ID docs doc' doc Hnd Hin' Hin Hid).
Qed.

(** Numbers are written in ASCII. *)
Lemma parse_digits_ascii s acc n : parse_digits acc s = Some n -> Forall (fun b => 0 <= b < 128) (bytes_of s).
Proof.
  revert acc. induction s as [|a s IH]; intros acc Hp; [constructor |]. cbn [parse_digits] in Hp.
  destruct (digit_of a) as [d|] eqn:Ed; [| done]. simpl in Hp. constructor; [| by eapply IH].
  unfold digit_of in Ed. case_bool_decide; [lia | done].
Qed.

Lemma fmt_int_utf8 z : utf8_valid (fmt_int z) = true.
Proof.
  apply utf8_valid_ascii. unfold fmt_int. destruct z as [|p|p].
  - by repeat constructor.
  - apply (parse_digits_ascii _ 0 (Z.of_N (Npos p)) (parse_digits_pretty (Npos p))).
  - change (pretty (Z.neg p)) with (String "-"%char (pretty (Npos p))). constructor; [done |].
    apply (parse_digits_ascii _ 0 (Z.of_N (Npos p)) (parse_digits_pretty (Npos p))).
Qed.

(** A document whose tokens are well-formed UTF-8 can be encoded. *)
Lemma default_doc_encodes `{MapRange} `{GoFloat} `{ProtoStrListSpec} doc :
  (forall cj f exprs bv ts, cj ∈ doc_Cons doc -> Expressions cj !! f = Some exprs -> bv ∈ exprs ->
     ValuesToStrings (Value bv) = Ok ts -> Forall (fun s => utf8_valid s = true) ts) ->
  doc_encodes InitHolderDefaults doc.
Proof.
  intros Hts cj f exprs bv name d x Hcj Hf Hbv Hx. unfold build_data, InitHolderDefaults, RegisterEntriesHolder in Hx.
  destruct (<[_:=_]> _ !! name) as [h|] eqn:Eh; [| done]. rewrite insert_empty in Eh.
  apply lookup_singleton_Some in Eh as [_ <-].
  change (BuildFieldIndexingData _ d bv) with (default_BuildFieldIndexingData NewDefaultEntriesHolder d bv) in Hx.
  unfold default_BuildFieldIndexingData in Hx. case_bool_decide; [done |].
  change (TokenizeValue _ _) with (ValuesToStrings (Value bv)) in Hx.
  destruct (ValuesToStrings (Value bv)) as [ts|e|e|] eqn:Et; try done. injection Hx as <-.
  change (Encode {| std_Values := ts |}) with (proto_Marshal ts). apply Marshal_utf8. by eapply Hts.
Qed.

Section DefaultIndex.
Context `{MapRange} `{GoFloat} `{ProtoStrList}.
Local Abbreviation factory := InitHolderDefaults.
#[local] Hint Extern 0 (BEIndex (AnyBEIndex _) _) => exact (Any_index factory) : typeclass_instances.
#[local] Instance default_spec : HolderSpec DefaultEntriesHolder StrTokenData factory :=
  DefaultHolder_spec factory InitHolderDefaults_ok.
Context {K : Type} `{DocLevelCache K} `{!DocLevelCacheSpec K}
  `{!CachedHolderSpec (factory:=factory) K DefaultEntriesHolder StrTokenData}.
Variable docs_of : DocCacheKey -> Document.
Local Abbreviation Bld := (IndexerBuilder (AnyBEIndex DefaultEntriesHolder) K).
Implicit Types (b : Bld) (docs : list Document).

Lemma default_registered : is_Some (factory !! HolderNameDefault).
Proof. by eexists. Qed.

Lemma default_compiles (h : DefaultEntriesHolder) e : (CompileEntries h).2 <> Err e.
Proof. done. Qed.

Lemma build_plain d bv :
  fd_Container d = HolderNameDefault -> plain_expr bv ->
  exists ts, ValuesToStrings (Value bv) = Ok ts /\
    build_data factory (fd_Container d) d bv = Ok {| std_Values := ts |}.
Proof.
  intros -> [Hop [ts Hts]]. exists ts. split; [done |].
  change (build_data factory HolderNameDefault d bv)
    with ((default_BuildFieldIndexingData NewDefaultEntriesHolder d bv).2).
  unfold default_BuildFieldIndexingData. rewrite Hop, bool_decide_eq_false_2 by tauto.
  change (TokenizeValue _ _) with (ValuesToStrings (Value bv)). by rewrite Hts.
Qed.

Lemma log_hit_token descs q f d bv :
  descs !! f = Some d -> fd_Container d = HolderNameDefault -> plain_expr bv ->
  log_hit factory descs q f bv = token_hit q f bv.
Proof.
  intros Hd Hc Hp. unfold log_hit, token_hit. rewrite Hd. destruct (q !! f) as [v|]; [| done].
  destruct (build_plain d bv Hc Hp) as (ts & Hts & Hx). rewrite Hx, Hts, Hc. simpl.
  change (data_hits ?n ?d ?x ?v) with (default_hits factory n d x v). unfold default_hits.
  change (TokenizeAssign _ v) with (ValuesToStrings v). by destruct (ValuesToStrings v).
Qed.

(** ** The builder *)

(** The builder holds the documents [docs]. *)
Record dinv b docs : Prop := {
  di_reach : reachable factory docs_of b (docs ≫= doc_log);
  di_behavior : badConjBehavior b = ErrorBadConj;
  di_fields : fields_from ∅ (fieldsData b);
  di_plain : Forall plain_doc docs
}.

Lemma plain_fields_ok doc n cj : plain_doc doc -> doc_Cons doc !! n = Some cj ->
  fields_ok (doc_ID doc) (Z.of_nat n) (CalcConjSize cj) /\ Z.of_nat n < 255.
Proof.
  intros [Hid _ Hlen Hcj] Hn. destruct (Hcj cj) as [Hs _]; [by eapply list_elem_of_lookup_2 |].
  rewrite CalcConjSize_size in *. apply lookup_lt_Some in Hn. unfold fields_ok. lia.
Qed.

Lemma plain_no_fault descs doc : fields_from ∅ descs -> plain_doc doc -> ~ doc_fault factory descs doc.
Proof.
  intros Hfrom Hp [Hnil | [Hlong | (n & cj & Hn & [Hbad | ([f bv] & Hin & [d Hd] & Hno)])]].
  - by apply (pd_cons doc Hp).
  - pose proof (pd_len doc Hp). lia.
  - apply Hbad. by apply plain_fields_ok.
  - apply elem_of_conj_exprs in Hin as (exprs & Hf & Hbv). simpl in *.
    destruct (pd_conj doc Hp cj) as [_ Hcj]; [by eapply list_elem_of_lookup_2 |].
    destruct (Hfrom f d Hd) as [Hx | Hc]; [by rewrite lookup_empty in Hx |].
    destruct (build_plain d bv Hc (Hcj _ _ _ Hf Hbv)) as (ts & _ & Hx).
    unfold expr_data in Hno. simpl in Hno. rewrite Hd, Hx in Hno. by eapply Hno.
Qed.

Lemma add_plain b docs doc :
  dinv b docs -> plain_doc doc -> doc_cacheable factory K docs_of doc ->
  exists b', AddDocument factory [doc] b = (b', Ok tt) /\ dinv b' (docs ++ [doc]).
Proof.
  intros [Hr Hbe Hf Hall] Hp Hk.
  destruct (reachable_inv factory default_registered docs_of _ _ Hr) as [Hb Hs].
  assert (Forall (doc_cacheable factory K docs_of) [doc]) as Hdocs by (by constructor).
  pose proof (AddDocument_accepted factory default_registered docs_of _ _ _ Hb Hs Hdocs) as Hwp.
  pose proof (AddDocument_spec factory default_registered docs_of _ _ _ Hb Hs Hdocs) as Hwp'.
  pose proof (AddDocument_default_fields factory [doc] b) as Hf'.
  destruct (AddDocument factory [doc] b) as [b' r] eqn:Hadd.
  apply (wp_elim (s':=b') (r:=r)) in Hwp as (_ & n & _ & Hacc & _ & Hn); [| done].
  apply (wp_elim (s':=b') (r:=r)) in Hwp' as (_ & _ & Hbe' & _); [| done].
  assert (fields_from ∅ (fieldsData b')) as Hf1 by (etransitivity; [exact Hf | exact Hf']).
  assert (r = Ok tt) as ->.
  { destruct r as [[]|e|e|]; [done | | | done]; exfalso; destruct Hn as (doc' & Hdoc & Hfault);
      apply list_elem_of_lookup_2, list_elem_of_singleton in Hdoc as ->; by eapply plain_no_fault. }
  exists b'. split; [done |]. simpl in Hn. subst n.
  pose proof (reach_doc factory docs_of b _ doc b' (Ok tt) Hr Hk Hadd) as Hr'.
  change (take _ [doc]) with [doc] in Hacc. rewrite !bind_singleton in Hacc.
  split; [| congruence | done | by apply Forall_app; auto].
  rewrite bind_app, bind_singleton, <- Hacc; [done | by rewrite Hbe].
Qed.

Lemma add_plains docs' b docs :
  dinv b docs -> Forall (fun doc => plain_doc doc /\ doc_cacheable factory K docs_of doc) docs' ->
  exists b', AddDocument factory docs' b = (b', Ok tt) /\ dinv b' (docs ++ docs').
Proof.
  revert b docs. induction docs' as [|doc docs' IH]; intros b docs Hb Hall.
  { exists b. split; [done |]. by rewrite app_nil_r. }
  inversion Hall as [|? ? [Hp Hk] Hall']; subst.
  destruct (add_plain b docs doc Hb Hp Hk) as (b1 & Hadd & Hb1).
  destruct (IH b1 _ Hb1 Hall') as (b2 & Hrun & Hb2). exists b2. rewrite <- app_assoc in Hb2. split; [| done].
  unfold AddDocument in *. cbn [forM] in *. unfold mbind, M_bind, mret, M_ret in *.
  destruct (lift (validDocument doc) b) as [b0 r0]. destruct r0; try done.
  destruct (buildDocEntries factory doc b0) as [b0' r0']. destruct r0'; try done.
  by injection Hadd as ->.
Qed.

Lemma behavior_new (opts : list (BuilderOpt K)) b :
  NewIndexerBuilder factory opts = Ok b -> (forall v, WithBadConjBehavior v ∉ opts) ->
  badConjBehavior b = ErrorBadConj.
Proof.
  intros Hnew Hopts. unfold NewIndexerBuilder in Hnew. set (b0 := Build_IndexerBuilder _ _ _ _ _ _ _ _) in Hnew.
  assert (badConjBehavior (foldl apply_BuilderOpt b0 opts) = badConjBehavior b0) as Hbe.
  { clear -Hopts. clearbody b0. revert b0. induction opts as [|o opts IH]; intros b0; simpl; [done |].
    rewrite IH by (intros v Hv; apply (Hopts v); by right).
    destruct o; [| done ..]. by destruct (Hopts v); left. }
  unfold initIndexer in Hnew. by repeat case_bool_decide; simplify_eq.
Qed.

(** A new builder without a cache, and one on a cache in use that configures a field. *)
Lemma dinv_new (opts : list (BuilderOpt K)) b :
  NewIndexerBuilder factory opts = Ok b -> (forall v, WithBadConjBehavior v ∉ opts) ->
  Forall opt_ok opts -> dinv b [].
Proof.
  intros Hnew Hopts Hok. destruct (NewIndexerBuilder_binv factory default_registered opts b Hnew) as (_ & Hf & _).
  split; [by eapply reach_new | by eapply behavior_new | by rewrite Hf | constructor].
Qed.

Lemma dinv_shared (opts : list (BuilderOpt K)) b f b' :
  NewIndexerBuilder factory opts = Ok b -> (forall v, WithBadConjBehavior v ∉ opts) ->
  ConfigField f HolderNameDefault b = (b', Ok tt) -> dinv b' [].
Proof.
  intros Hnew Hopts Hc. destruct (NewIndexerBuilder_binv factory default_registered opts b Hnew) as (Hb & Hf & _).
  destruct (ConfigField_clears factory docs_of _ _ _ _ _ Hb Hc) as (_ & _ & _ & Hbe).
  split; [by eapply reach_shared | by rewrite Hbe; eapply behavior_new | | constructor].
  pose proof (df_bind _ _ (df_PanicIfErr _ (configureField_default f HolderNameDefault eq_refl)) (fun _ => df_ret tt) b) as Hd.
  rewrite Hf in Hd. unfold ConfigField in Hc. rewrite Hc in Hd. done.
Qed.

Lemma dinv_config b docs f b' :
  dinv b docs -> ConfigField f HolderNameDefault b = (b', Ok tt) -> dinv b' docs.
Proof.
  intros [Hr Hbe Hf Hall] Hc.
  destruct (reachable_inv factory default_registered docs_of _ _ Hr) as [Hb _].
  destruct (ConfigField_clears factory docs_of _ _ _ _ _ Hb Hc) as (_ & _ & _ & Hbe').
  split; [by eapply reach_config | congruence | | done].
  pose proof (df_bind _ _ (df_PanicIfErr _ (configureField_default f HolderNameDefault eq_refl)) (fun _ => df_ret tt) b) as Hd.
  unfold ConfigField in Hc. rewrite Hc in Hd. by etransitivity.
Qed.

(** ** The answers *)

Lemma dinv_accepted b docs doc :
  dinv b docs -> doc ∈ docs ->
  accepted factory (fieldsData b) doc = doc_log doc /\ accepted_ok factory (fieldsData b) doc.
Proof.
  intros [Hr _ _ Hall] Hdoc. rewrite Forall_forall in Hall. specialize (Hall doc Hdoc).
  destruct (reachable_inv factory default_registered docs_of _ _ Hr) as [Hb _].
  assert (Heq : accepted factory (fieldsData b) doc = doc_log doc).
  { apply list_filter_all. rewrite Forall_forall. intros p Hp.
    eapply binv_indexable; [exact Hb |]. apply list_elem_of_bind. eauto. }
  split; [done |]. split; [by apply pd_len |]. rewrite Heq, Forall_forall.
  intros p (n & cj & Hn & ->)%elem_of_conj_log. destruct (plain_fields_ok doc n cj Hall Hn) as [Hok Hlt].
  by exists (0 + Z.of_nat n).
Qed.

Lemma dinv_sat b docs doc q :
  dinv b docs -> doc ∈ docs -> doc_sat (log_hit factory (fieldsData b) q) doc = doc_sat (token_hit q) doc.
Proof.
  intros [Hr _ Hf Hall] Hdoc.
  rewrite Forall_forall in Hall. specialize (Hall doc Hdoc).
  apply doc_sat_ext. intros cj f exprs bv Hcj Hl Hbv. destruct (pd_conj doc Hall cj Hcj) as [_ Hp].
  destruct (reachable_inv factory default_registered docs_of _ _ Hr) as [Hb _].
  apply list_elem_of_lookup in Hcj as [n Hn].
  assert (indexable factory (fieldsData b) cj = true) as Hix.
  { apply (binv_indexable factory b _ (conj_entry (doc_ID doc) (0 + Z.of_nat n) cj) Hb).
    apply list_elem_of_bind. exists doc. split; [apply elem_of_conj_log; eauto | done]. }
  rewrite indexable_spec in Hix. destruct (Hix (f, bv)) as [x Hx]; [apply elem_of_conj_exprs; eauto |].
  unfold expr_data in Hx. simpl in Hx. destruct (fieldsData b !! f) as [d|] eqn:Ed; [| done].
  apply (log_hit_token _ _ _ d); [done | | by eapply Hp].
  destruct (Hf f d Ed) as [Hx' | ?]; [by rewrite lookup_empty in Hx' | done].
Qed.

Section Query.
Context {B : Type} `{Roaring64Spec B}.
Implicit Types (pool : list (DocIDCollector B)).

Definition answers docs (i : AnyBEIndex DefaultEntriesHolder) : Prop :=
  forall q pool, readable q -> pool_ok pool -> exists pool' ids,
    Retrieve i q [] pool = (pool', Ok ids) /\ pool_ok pool' /\ doc_answer docs q ids.

(** Documents with distinct ids: the index is built, and answers every readable
    query with the documents that share tokens with it. *)
Lemma dinv_index b docs :
  dinv b docs -> NoDup (doc_ID <$> docs) ->
  exists b' i, BuildIndex b = (b', Ok i) /\ answers docs i.
Proof.
  intros Hinv Hnd. pose proof (di_reach _ _ Hinv) as Hr. pose proof (di_fields _ _ Hinv) as Hf.
  destruct (reachable_inv factory default_registered docs_of _ _ Hr) as [Hb _].
  destruct (BuildIndex_total factory b _ default_compiles Hb) as (b' & i & Hbuild & Hserves).
  exists b', i. split; [done |]. intros q pool Hq Hpool.
  assert (Forall (accepted_ok factory (fieldsData b)) docs) as Hok
    by (rewrite Forall_forall; intros doc Hdoc; by eapply dinv_accepted).
  assert (docs ≫= accepted factory (fieldsData b) = docs ≫= doc_log) as Heq.
  { apply list_bind_ext_in. intros doc Hdoc. by apply (dinv_accepted b docs). }
  pose proof (NoDup_accepted factory _ _ Hnd Hok) as Hlog. rewrite Heq in Hlog.
  destruct (Retrieve i q [] pool) as [pool' r] eqn:Hret.
  destruct (Retrieve_spec factory _ _ _ _ _ _ _ Hserves Hlog Hpool Hret) as [Hpool' Hres].
  assert (query_plain q /\ query_ok factory (fieldsData b) q) as [Hplain Hread].
  { split; [intros f v Hv; by apply (Hq f v) |]. intros f v d Hv Hd.
    destruct (Hf f d Hd) as [Hx | ->]; [by rewrite lookup_empty in Hx |].
    change (assign_ok ?n ?d ?v) with (default_assign_ok factory n d v). unfold default_assign_ok.
    change (TokenizeAssign _ v) with (ValuesToStrings v). by destruct (Hq f v Hv) as [_ [ts ->]]. }
  destruct r as [ids|e|e|]; [| by destruct Hres .. | done].
  exists pool', ids. split; [done |]. split; [done |]. destruct Hres as [Hsort Hids]. split; [done |].
  intros id. rewrite Hids, <- Heq, (accepted_docs factory _ _ _ _ Hok). split.
  - intros (doc & cj & Hdoc & Hid & Hcj & _ & Hsat). exists doc. split; [done |]. split; [done |].
    rewrite <- (dinv_sat b docs doc q Hinv Hdoc). apply existsb_exists. exists cj. by rewrite <- list_elem_of_In.
  - intros (doc & Hdoc & Hid & Hsat). rewrite <- (dinv_sat b docs doc q Hinv Hdoc) in Hsat.
    apply existsb_exists in Hsat as (cj & Hcj%list_elem_of_In & Hsat).
    exists doc, cj. split_and!; try done. apply list_elem_of_lookup in Hcj as [n Hn].
    apply (binv_indexable factory b _ (conj_entry (doc_ID doc) (0 + Z.of_nat n) cj) Hb).
    apply list_elem_of_bind. exists doc. split; [apply elem_of_conj_log; eauto | done].
Qed.

End Query.
End DefaultIndex.
