(* ===== verification/Roaring.v ===== *)
(** * The roaring-bitmap index (package roaringidx)

    An inverted index in which each field has a container that maps a value id
    to the bitmap of the conjunctions that include (or exclude) it, with a
    wildcard bitmap for the conjunctions that do not constrain the field
    positively.  A query intersects the fields' bitmaps.  The containers and
    value parsers are used through interfaces. *)

From stdpp Require Import base sorting gmap strings numbers list.
From S2P Require Import Prelude GoValues Ids Document Collector Parsers.
Open Scope Z_scope.

(** ** conjunction_types.go *)

Definition MaxConjunctions : Z := 0xFF.
Definition MaxDocumentID : Z := 0x7FFFFFFFFFFFFF.

Definition ValidRoaringIdxDocID (id : Z) : bool :=
  bool_decide (id <= MaxDocumentID) && bool_decide (id >= - MaxDocumentID).

Definition NewConjunctionID (idx doc : Z) : res Z :=
  if negb (ValidIdxOrSize idx) || negb (ValidRoaringIdxDocID doc) then Err "id overflow"
  else Ok (Z.lor (u64 (i64 (Z.shiftl doc 8))) (u64 idx)).

Definition ConjunctionID_DocID (id : Z) : Z := Z.shiftr (i64 id) 8.
Definition ConjunctionID_Idx (id : Z) : Z := Z.land id MaxConjunctions.

(** ** ivt_indexer.go *)

(** The interface [parser.ValueIDGenerator], for generators whose ids depend on
    the value only (the hash-based common parser, numbers, string hashes). *)
Record ValueIDGenerator := {
  ParseAssign : Values -> res (list Z);
  ParseValue : Values -> res (list Z)
}.

(** [parser.NewCommonParser()]: the common parser over the default hash
    allocator, whose state never changes. *)
Definition common_generator `{GoFloat} : ValueIDGenerator := {|
  ParseAssign v := common_ParseAssign true (NewHashAllocator None) v;
  ParseValue v := (common_ParseValue true v (NewHashAllocator None)).2
|}.

(** [parser.NewNumberParser()] and [parser.NewStrHashParser()]. *)
Definition number_generator `{GoFloat} (p : NumberParser) : ValueIDGenerator :=
  {| ParseAssign := number_ParseAssign p; ParseValue := number_ParseValue p |}.

Definition strhash_generator : ValueIDGenerator :=
  {| ParseAssign := strhash_ParseAssign; ParseValue := strhash_ParseValue |}.

Record FieldSetting := { fs_Parser : option ValueIDGenerator; fs_Container : string }.

(** [FieldMeta]: the setting with its parser resolved, and the field name. *)
Record FieldMeta := { fm_Parser : ValueIDGenerator; fm_Container : string; fm_field : BEField }.

(** ** rr_posting_list.go *)

Section Pool.
Context {B : Type} `{Roaring64 B}.

(** [bitmapPool]: a pooled bitmap, or a new one. *)
Definition NewPostingList (pool : list B) : list B * B :=
  match pool with
  | [] => ([], bm_new)
  | b :: pool => (pool, b)
  end.

Definition ReleasePostingList (pool : list B) (l : B) : list B :=
  (if negb (bm_is_empty l) then bm_clear l else l) :: pool.

Definition bitmaps_clean (pool : list B) : Prop := Forall (fun b => bm_iter b = []) pool.

End Pool.

(** ** be_container.go *)

(** The interfaces [BEContainerBuilder] and [BEContainer], implemented by the
    same objects.  Methods that take bitmaps from the pool thread it. *)
Class BEContainer (B Cn : Type) := {
  EncodeWildcard : Cn -> Z -> Cn;
  EncodeExpr : Z -> BooleanExpr -> M (list B * Cn) unit;
  BuildBEContainer : Cn -> res Cn;
  container_Retrieve : Cn -> Values -> B -> res B
}.

Record DefaultBEContainer (B : Type) := {
  dc_meta : FieldMeta;
  dc_wc : B;
  dc_inc : gmap Z B;
  dc_exc : gmap Z B
}.
Arguments dc_meta {B} _.
Arguments dc_wc {B} _.
Arguments dc_inc {B} _.
Arguments dc_exc {B} _.

Section DefaultContainer.
Context {B : Type} `{Roaring64 B}.
Local Abbreviation Cont := (DefaultBEContainer B).

Definition NewDefaultBEContainer (meta : FieldMeta) (pool : list B) : list B * Cont :=
  let '(pool, wc) := NewPostingList pool in
  (pool, {| dc_meta := meta; dc_wc := wc; dc_inc := ∅; dc_exc := ∅ |}).

Definition AddWildcard (c : Cont) (id : Z) : Cont :=
  {| dc_meta := dc_meta c; dc_wc := bm_add (dc_wc c) id; dc_inc := dc_inc c; dc_exc := dc_exc c |}.

(** The common part of [AddInclude] and [AddExclude]: find or create the posting
    list of a value, and add to it. *)
Definition add_posting {K} `{Countable K} (m : gmap K B) (value : K) (id : Z) (pool : list B)
    : list B * gmap K B :=
  match m !! value with
  | Some pl => (pool, <[value := bm_add pl id]> m)
  | None => let '(pool, pl) := NewPostingList pool in (pool, <[value := bm_add pl id]> m)
  end.

Definition AddInclude (value id : Z) (s : list B * Cont) : list B * Cont :=
  let '(pool, inc) := add_posting (dc_inc s.2) value id s.1 in
  (pool, {| dc_meta := dc_meta s.2; dc_wc := dc_wc s.2; dc_inc := inc; dc_exc := dc_exc s.2 |}).

Definition AddExclude (value id : Z) (s : list B * Cont) : list B * Cont :=
  let '(pool, exc) := add_posting (dc_exc s.2) value id s.1 in
  (pool, {| dc_meta := dc_meta s.2; dc_wc := dc_wc s.2; dc_inc := dc_inc s.2; dc_exc := exc |}).

(** [if pl, ok := m[id]; ok { op(pl) }] for each id in turn. *)
Definition merge_ids {K} `{Countable K} (op : B -> B -> B) (m : gmap K B) (ids : list K) (inout : B) : B :=
  foldl (fun b id => match m !! id with Some pl => op b pl | None => b end) inout ids.

Definition default_Retrieve (c : Cont) (values : Values) (inout : B) : res B :=
  let inout := bm_or inout (dc_wc c) in
  isnil ← NilInterface values;
  if isnil : bool then Ok inout
  else
    ids ← ParseAssign (fm_Parser (dc_meta c)) values;
    let inout := merge_ids bm_or (dc_inc c) ids inout in
    let inout := merge_ids bm_andnot (dc_exc c) ids inout in
    Ok inout.

Definition default_EncodeExpr (id : Z) (expr : BooleanExpr) : M (list B * Cont) unit :=
  _ ← PanicIf (bool_decide (Operator (be_values expr) <> ValueOptEQ))
              "default container support EQ operator only";
  s ← get;
  valueIDs ← lift (ParseValue (fm_Parser (dc_meta (s : list B * Cont).2)) (Value (be_values expr)));
  modify (fun s => foldl (fun s value => if Incl (be_values expr) then AddInclude value id s
                                         else AddExclude value id s) s (valueIDs : list Z)).

#[export] Instance DefaultBEContainer_container : BEContainer B Cont := {
  EncodeWildcard := AddWildcard;
  EncodeExpr := default_EncodeExpr;
  BuildBEContainer c := Ok c;
  container_Retrieve := default_Retrieve
}.

End DefaultContainer.

(** ** ivt_indexer_builder.go *)

Record IvtBEIndexerBuilder (Cn : Type) := {
  ib_docMaxConjSize : Z;
  ib_panicOnError : bool;
  ib_containerBuilder : gmap string Cn;
  ib_defaultParser : ValueIDGenerator
}.
Arguments ib_docMaxConjSize {Cn} _.
Arguments ib_panicOnError {Cn} _.
Arguments ib_containerBuilder {Cn} _.
Arguments ib_defaultParser {Cn} _.

Record IvtBEIndexer (Cn : Type) := {
  ix_docMaxConjSize : Z;
  ix_data : gmap string Cn
}.
Arguments ix_docMaxConjSize {Cn} _.
Arguments ix_data {Cn} _.

Section IvtBuilder.
Context {B Cn : Type} `{Roaring64 B} `{BEContainer B Cn} `{MapRange}.
(** [containerFactory] (be_container_factory.go): container builders by name;
    a builder may take bitmaps from the pool. *)
Context (containerFactory : gmap string (FieldMeta -> list B -> list B * Cn)).
Local Abbreviation Bld := (IvtBEIndexerBuilder Cn).
Local Abbreviation St := (list B * Bld)%type.

Definition RegisterContainerBuilder (name : string) (builderFunc : FieldMeta -> list B -> list B * Cn)
    : gmap string (FieldMeta -> list B -> list B * Cn) * bool :=
  match containerFactory !! name with
  | Some _ => (containerFactory, false)
  | None => (<[name := builderFunc]> containerFactory, true)
  end.

Definition NewContainerBuilder (meta : FieldMeta) (pool : list B) : list B * option Cn :=
  match containerFactory !! fm_Container meta with
  | Some fn => let '(pool, c) := fn meta pool in (pool, Some c)
  | None => (pool, None)
  end.

Definition NewIvtIndexerBuilder (defaultParser : ValueIDGenerator) : Bld :=
  {| ib_docMaxConjSize := 1; ib_panicOnError := false; ib_containerBuilder := ∅;
     ib_defaultParser := defaultParser |}.

Definition WithErrPanic (b : Bld) (panic : bool) : Bld :=
  {| ib_docMaxConjSize := ib_docMaxConjSize b; ib_panicOnError := panic;
     ib_containerBuilder := ib_containerBuilder b; ib_defaultParser := ib_defaultParser b |}.

Definition set_containers (b : Bld) (m : gmap string Cn) : Bld :=
  {| ib_docMaxConjSize := ib_docMaxConjSize b; ib_panicOnError := ib_panicOnError b;
     ib_containerBuilder := m; ib_defaultParser := ib_defaultParser b |}.

(** [util.PanicIf(builder.panicOnError, ...); return err] *)
Definition build_error {A} (e : string) : M St A := fun s =>
  if ib_panicOnError s.2 then (s, Panic e) else (s, Err e).

Definition ConfigureField (field : BEField) (option : FieldSetting) : M St unit := fun s =>
  let '(pool, b) := s in
  let meta := {| fm_Parser := default (ib_defaultParser b) (fs_Parser option);
                 fm_Container := fs_Container option; fm_field := field |} in
  match NewContainerBuilder meta pool with
  | (pool, None) => build_error "field settings not supported" (pool, b)
  | (pool, Some c) => ((pool, set_containers b (<[field := c]> (ib_containerBuilder b))), Ok tt)
  end.

(** A method call on the container of [field]. *)
Definition with_field {A} (field : BEField) (m : M (list B * Cn) A) : M St A := fun s =>
  match ib_containerBuilder s.2 !! field with
  | None => (s, Panic "nil pointer dereference")
  | Some c => let '((pool, c'), r) := m (s.1, c) in
              ((pool, set_containers s.2 (<[field := c']> (ib_containerBuilder s.2))), r)
  end.

Definition encode_wildcard (field : BEField) (conjID : Z) : M St unit :=
  with_field field (modify (fun s => (s.1, EncodeWildcard s.2 conjID))).

(** [for _, expr := range exprs]: encode each expression, remembering whether
    all of them exclude. *)
Fixpoint encode_exprs (field : BEField) (conjID : Z) (exprs : list BoolValues) (addWildcard : bool)
    : M St bool :=
  match exprs with
  | [] => mret addWildcard
  | expr :: exprs =>
      out ← with_err (with_field field (EncodeExpr conjID (NewBoolExpr2 field expr)));
      match out with
      | inl _ => encode_exprs field conjID exprs (addWildcard && negb (Incl expr))
      | inr e => build_error e
      end
  end.

Definition encode_field (conjID : Z) (cj : Conjunction) (field : BEField) : M St unit :=
  match Expressions cj !! field with
  | Some (expr :: exprs) =>
      addWildcard ← encode_exprs field conjID (expr :: exprs) true;
      if addWildcard : bool then encode_wildcard field conjID else mret tt
  | _ => encode_wildcard field conjID
  end.

(** [for field := range conj.Expressions]: every field must be configured. *)
Definition check_fields (cj : Conjunction) : M St unit :=
  forM (map_range (Expressions cj)) (fun kv =>
    s ← get;
    match ib_containerBuilder (s : St).2 !! kv.1 with
    | Some _ => mret tt
    | None => build_error "document contains none-configured field"
    end).

Definition encode_conj (docID idx : Z) (cj : Conjunction) : M St unit :=
  out ← with_err (lift (NewConjunctionID idx docID));
  match out with
  | inr e => build_error e
  | inl conjID =>
      _ ← check_fields cj;
      s ← get;
      forM (map_range (ib_containerBuilder (s : St).2)) (fun kv => encode_field conjID cj kv.1)
  end.

Fixpoint encode_conjs (docID idx : Z) (cjs : list Conjunction) : M St unit :=
  match cjs with
  | [] => mret tt
  | cj :: cjs => _ ← encode_conj docID idx cj; encode_conjs docID (idx + 1) cjs
  end.

Definition ivt_AddDocument (doc : Document) : M St unit :=
  if bool_decide (length (doc_Cons doc) = 0%nat)
  then build_error "empty document(zero conjunctions) is not allowed"
  else
    _ ← encode_conjs (doc_ID doc) 0 (doc_Cons doc);
    modify (fun s => (s.1,
      {| ib_docMaxConjSize := MaxInt (Z.of_nat (length (doc_Cons doc))) (ib_docMaxConjSize s.2);
         ib_panicOnError := ib_panicOnError s.2; ib_containerBuilder := ib_containerBuilder s.2;
         ib_defaultParser := ib_defaultParser s.2 |})).

Definition ivt_AddDocuments (docs : list Document) : M St unit := forM docs ivt_AddDocument.

(** [for field, fieldBuilder := range builder.containerBuilder]. *)
Fixpoint build_containers (l : list (BEField * Cn)) (data : gmap string Cn) : res (gmap string Cn) :=
  match l with
  | [] => Ok data
  | (field, c) :: l => c ← BuildBEContainer c; build_containers l (<[field := c]> data)
  end.

(** The index gets the containers by value: in Go it shares them with the builder, so
    that documents added later also reach an index built before. *)
Definition BuildIndexer (b : Bld) : res (IvtBEIndexer Cn) :=
  data ← build_containers (map_range (ib_containerBuilder b)) ∅;
  Ok {| ix_docMaxConjSize := ib_docMaxConjSize b; ix_data := data |}.

End IvtBuilder.

(** ** ivt_scanner.go *)

Record IvtScanner (B Cn : Type) := {
  sc_inited : bool;
  sc_ended : bool;
  sc_indexer : IvtBEIndexer Cn;
  sc_conjIDResults : B
}.
Arguments sc_inited {B Cn} _.
Arguments sc_ended {B Cn} _.
Arguments sc_indexer {B Cn} _.
Arguments sc_conjIDResults {B Cn} _.

Section Scanner.
Context {B Cn : Type} `{Roaring64 B} `{BEContainer B Cn} `{MapRange}.
Local Abbreviation Sc := (IvtScanner B Cn).
Local Abbreviation St := (list B * Sc)%type.

Definition NewScanner (indexer : IvtBEIndexer Cn) (pool : list B) : list B * Sc :=
  let '(pool, pl) := NewPostingList pool in
  (pool, {| sc_inited := false; sc_ended := false; sc_indexer := indexer; sc_conjIDResults := pl |}).

(** The conjunction ids a hint stands for: one per possible index. *)
Fixpoint hint_ids (hintID : Z) (conjIdx : Z) (n : nat) : list Z :=
  match n with
  | O => []
  | S n => match NewConjunctionID conjIdx hintID with
           | Ok conjID => conjID :: hint_ids hintID (conjIdx + 1) n
           | _ => hint_ids hintID (conjIdx + 1) n
           end
  end.

Definition WithHint (hints : list Z) (sc : Sc) : res Sc :=
  if sc_inited sc then Panic "can't attach hint result in progress"
  else
    let hintConjIDs := hints ≫= fun hintID =>
      hint_ids hintID 0 (Z.to_nat (ix_docMaxConjSize (sc_indexer sc))) in
    Ok {| sc_inited := true; sc_ended := sc_ended sc; sc_indexer := sc_indexer sc;
          sc_conjIDResults := bm_add_many (sc_conjIDResults sc) hintConjIDs |}.

Definition scanner_Reset (sc : Sc) : Sc :=
  {| sc_inited := false; sc_ended := false; sc_indexer := sc_indexer sc;
     sc_conjIDResults := bm_clear (sc_conjIDResults sc) |}.

Definition Ended (sc : Sc) : bool := sc_inited sc && bm_is_empty (sc_conjIDResults sc).

(** The deferred function sets [ended] on every return. *)
Definition mergeFieldResult (sc : Sc) (pl : B) : Sc :=
  let '(inited, results) :=
    if Ended sc then (sc_inited sc, sc_conjIDResults sc)
    else if negb (sc_inited sc) then (true, bm_or (sc_conjIDResults sc) pl)
    else (sc_inited sc, bm_and (sc_conjIDResults sc) pl) in
  {| sc_inited := inited; sc_ended := bm_is_empty results; sc_indexer := sc_indexer sc;
     sc_conjIDResults := results |}.

(** The loop of [retrieve] over the fields, with the bitmap [tmpPl] reused. *)
Fixpoint retrieve_fields (assigns : Assignments) (l : list (BEField * Cn)) (tmpPl : B)
    : M Sc B := fun sc =>
  match l with
  | [] => (sc, Ok tmpPl)
  | (field, can) :: l =>
      if sc_ended sc then (sc, Ok tmpPl)
      else
        match container_Retrieve can (default VNil (assigns !! field)) tmpPl with
        | Ok pl => retrieve_fields assigns l (bm_clear pl) (mergeFieldResult sc pl)
        | Err e => (sc, Err e)
        | Panic e => (sc, Panic e)
        | OutOfFuel => (sc, OutOfFuel)
        end
  end.

Definition scanner_retrieve (assigns : Assignments) : M St unit := fun s =>
  let '(pool, sc) := s in
  let '(pool, tmpPl) := NewPostingList pool in
  match retrieve_fields assigns (map_range (ix_data (sc_indexer sc))) tmpPl sc with
  | (sc, Ok tmpPl) => ((ReleasePostingList pool tmpPl, sc), Ok tt)
  | (sc, Err e) => ((pool, sc), Err e)
  | (sc, Panic e) => ((pool, sc), Panic e)
  | (sc, OutOfFuel) => ((pool, sc), OutOfFuel)
  end.

(** [docs[conjID.DocID()] = struct{}{}] for each result. *)
Definition RetrieveDocs (assigns : Assignments) : M St (gset Z) :=
  _ ← scanner_retrieve assigns;
  s ← get;
  mret (foldl (fun docs id => {[ConjunctionID_DocID id]} ∪ docs) ∅
              (bm_iter (sc_conjIDResults (s : St).2))).

Definition collect_docs : M St (list Z) := fun s =>
  let '(pool, docBits) := NewPostingList s.1 in
  let docBits := foldl (fun docs id => bm_add docs (u64 (ConjunctionID_DocID id))) docBits
                       (bm_iter (sc_conjIDResults s.2)) in
  ((ReleasePostingList pool docBits, s.2), Ok (bm_iter docBits)).

Definition scanner_Retrieve (assigns : Assignments) : M St (list Z) :=
  _ ← scanner_retrieve assigns;
  collect_docs.

End Scanner.
