(* ===== verification/RoaringProofs.v ===== *)
(** * Correctness of the roaring-bitmap index

    What a container promises ([BEContainerSpec]) and the default container's
    proof of it; what the builder's containers hold after documents were added;
    what a scanner answers. *)

From stdpp Require Import base sorting gmap strings numbers list.
From S2P Require Import Prelude GoValues Ids Document Collector Parsers Roaring.
Open Scope Z_scope.

(** ** Conjunction ids *)

Definition rfields_ok (idx doc : Z) : Prop :=
  0 <= idx < 256 /\ - MaxDocumentID <= doc <= MaxDocumentID.

Definition rpack (idx doc : Z) : Z := 256 * (doc mod 2 ^ 56) + idx.

Lemma NewConjunctionID_cases idx doc :
  (rfields_ok idx doc /\ NewConjunctionID idx doc = Ok (rpack idx doc)) \/
  (~ rfields_ok idx doc /\ exists e, NewConjunctionID idx doc = Err e).
Proof.
  unfold NewConjunctionID, rfields_ok.
  destruct (ValidIdxOrSize idx) eqn:Ei.
  2: { right. split; [| by eexists]. rewrite <- ValidIdxOrSize_spec. intros [? ?]. congruence. }
  apply ValidIdxOrSize_spec in Ei. unfold ValidRoaringIdxDocID, MaxDocumentID.
  destruct (decide (- 0x7FFFFFFFFFFFFF <= doc <= 0x7FFFFFFFFFFFFF)) as [Hd | Hd].
  - rewrite !bool_decide_eq_true_2 by lia. left. split; [done |]. simpl. f_equal. unfold rpack.
    rewrite Z.shiftl_mul_pow2 by lia. change (2 ^ 8) with 256.
    rewrite i64_small by (unfold is_i64, MinInt64, MaxInt64; lia).
    assert (u64 (doc * 256) = Z.shiftl (doc mod 2 ^ 56) 8) as ->.
    { rewrite Z.shiftl_mul_pow2 by lia. unfold u64.
      change (2 ^ 64) with (2 ^ 56 * 2 ^ 8). change (2 ^ 8) with 256.
      rewrite Z.mul_mod_distr_r by lia. done. }
    rewrite u64_small by lia. rewrite lor_shiftl_add by lia. change (2 ^ 8) with 256. lia.
  - right. split; [intros [_ ?]; done |].
    destruct (decide (doc <= 0x7FFFFFFFFFFFFF)).
    + rewrite bool_decide_eq_true_2 by lia. rewrite bool_decide_eq_false_2 by lia. by eexists.
    + rewrite bool_decide_eq_false_2 by lia. by eexists.
Qed.

Lemma rpack_bound idx doc : rfields_ok idx doc -> 0 <= rpack idx doc < 2 ^ 64.
Proof.
  intros [Hi _]. unfold rpack. pose proof (Z.mod_pos_bound doc (2 ^ 56) ltac:(lia)). lia.
Qed.

Lemma rpack_DocID idx doc : rfields_ok idx doc -> ConjunctionID_DocID (rpack idx doc) = doc.
Proof.
  intros [Hi Hd]. unfold ConjunctionID_DocID, rpack, MaxDocumentID in *.
  assert (i64 (256 * (doc mod 2 ^ 56) + idx) = 256 * doc + idx) as ->.
  { unfold i64. assert (doc mod 2 ^ 56 = doc \/ doc mod 2 ^ 56 = doc + 2 ^ 56) as [-> | ->].
    { destruct (decide (0 <= doc)); [left; apply Z.mod_small; lia |]. right.
      rewrite <- (Z.mod_add doc 1) by lia. apply Z.mod_small. lia. }
    - rewrite Z.mod_small; lia.
    - replace (256 * (doc + 2 ^ 56) + idx + 2 ^ 63) with (256 * doc + idx + 2 ^ 63 + 1 * 2 ^ 64) by lia.
      rewrite Z.mod_add by lia. rewrite Z.mod_small; lia. }
  rewrite Z.shiftr_div_pow2 by lia. change (2 ^ 8) with 256.
  symmetry. apply (Z.div_unique _ _ _ idx); lia.
Qed.

Lemma rpack_Idx idx doc : rfields_ok idx doc -> ConjunctionID_Idx (rpack idx doc) = idx.
Proof.
  intros [Hi _]. unfold ConjunctionID_Idx, rpack, MaxConjunctions. change 0xFF with (2 ^ 8 - 1).
  rewrite land_ones_mod by lia. change (2 ^ 8) with 256.
  rewrite (Z.mul_comm 256), Z.add_comm, Z.mod_add by lia. apply Z.mod_small. lia.
Qed.

Lemma rpack_inj idx doc idx' doc' :
  rfields_ok idx doc -> rfields_ok idx' doc' -> rpack idx doc = rpack idx' doc' -> idx = idx' /\ doc = doc'.
Proof.
  intros H1 H2 Heq. split.
  - by rewrite <- (rpack_Idx idx doc), <- (rpack_Idx idx' doc'), Heq by done.
  - by rewrite <- (rpack_DocID idx doc), <- (rpack_DocID idx' doc'), Heq by done.
Qed.

(** ** What a container promises

    An event is a conjunction id with an expression on the container's field, or
    with none for a wildcard. *)
Abbreviation REvent := (Z * option BoolValues)%type (only parsing).

Class BEContainerSpec (B Cn : Type) `{Roaring64 B} `{BEContainer B Cn} := {
  c_rep : FieldMeta -> Cn -> list REvent -> Prop;
  c_built : FieldMeta -> Cn -> list REvent -> Prop;
  c_hits : FieldMeta -> BoolValues -> Values -> bool;
  c_assign_ok : FieldMeta -> Values -> bool;

  rep_wildcard : forall m c evs id, c_rep m c evs -> c_rep m (EncodeWildcard c id) (evs ++ [(id, None)]);

  rep_expr : forall m c evs id e pool s' r,
    c_rep m c evs -> bitmaps_clean pool -> EncodeExpr id e (pool, c) = (s', r) ->
    match r with
    | Ok _ => bitmaps_clean s'.1 /\ c_rep m s'.2 (evs ++ [(id, Some (be_values e))])
    | _ => True
    end;

  rep_build : forall m c evs, c_rep m c evs ->
    match BuildBEContainer c with
    | Ok c' => c_built m c' evs
    | _ => True
    end;

  built_retrieve : forall m c evs v b, c_built m c evs -> bm_iter b = [] ->
    match container_Retrieve c v b with
    | Ok b' => forall y, y ∈ bm_iter b' <->
        ((y, None) ∈ evs \/ exists bv, (y, Some bv) ∈ evs /\ Incl bv = true /\ c_hits m bv v = true) /\
        ~ (exists bv, (y, Some bv) ∈ evs /\ Incl bv = false /\ c_hits m bv v = true)
    | OutOfFuel => False
    | _ => c_assign_ok m v = false
    end
}.

(** ** The pool *)

Section PoolFacts.
Context {B : Type} `{Roaring64Spec B}.

Lemma NewPostingList_clean pool pool' (b : B) :
  bitmaps_clean pool -> NewPostingList pool = (pool', b) -> bitmaps_clean pool' /\ bm_iter b = [].
Proof.
  intros Hp. destruct Hp as [|b0 pool0 Hb Hp]; simpl; intros [= <- <-].
  - split; [constructor | apply bm_iter_new].
  - done.
Qed.

Lemma ReleasePostingList_clean pool (b : B) : bitmaps_clean pool -> bitmaps_clean (ReleasePostingList pool b).
Proof.
  intros Hp. constructor; [| done]. destruct (bm_is_empty b) eqn:Eb; simpl.
  - by apply bm_is_empty_spec.
  - apply bm_iter_clear.
Qed.

End PoolFacts.

(** ** The default container *)

Section DefaultContainerFacts.
Context {B : Type} `{Roaring64Spec B}.
Local Abbreviation Cont := (DefaultBEContainer B).

(** A parser that terminates on query values. *)
Definition generator_ok (g : ValueIDGenerator) : Prop := forall v, ParseAssign g v <> OutOfFuel.

Lemma common_generator_ok `{GoFloat} : generator_ok common_generator.
Proof.
  intros v. simpl. unfold common_ParseAssign, NilInterface. destruct (is_array v); [done |]. simpl.
  destruct (is_nil v); [done |]. destruct v; try done. destruct (map_res _ _) as [ids|e|e|] eqn:Em; try done.
  exfalso. revert Em. generalize (elems l) as vs. induction vs as [|v vs IH]; [done |]. cbn [map_res].
  assert (findInterfaceID true (NewHashAllocator None) v <> OutOfFuel) as Hv by by destruct v.
  destruct (findInterfaceID true (NewHashAllocator None) v) as [o|e|e|]; try done. simpl.
  by destruct (map_res _ vs).
Qed.

Definition value_ids (m : FieldMeta) (bv : BoolValues) : list Z :=
  match ParseValue (fm_Parser m) (Value bv) with Ok ids => ids | _ => [] end.

Definition assign_ids (m : FieldMeta) (v : Values) : list Z :=
  match NilInterface v with
  | Ok false =>
      match ParseAssign (fm_Parser m) v with Ok ids => ids | _ => [] end
  | _ => []
  end.

Definition ids_meet (m : FieldMeta) (bv : BoolValues) (v : Values) : bool :=
  existsb (fun id => bool_decide (id ∈ value_ids m bv)) (assign_ids m v).

Definition ids_readable (m : FieldMeta) (v : Values) : bool :=
  match NilInterface v with
  | Ok isnil => isnil || match ParseAssign (fm_Parser m) v with Ok _ => true | _ => false end
  | _ => false
  end.

(** [pls] lists, for each key of an expression, the ids of the events of polarity
    [incl] with that key. *)
Definition postings_rep {K} `{Countable K} (keys : BoolValues -> list K) (incl : bool) (pls : gmap K B)
    (evs : list REvent) : Prop :=
  forall v y, y ∈ from_option bm_iter [] (pls !! v) <->
    exists bv, (y, Some bv) ∈ evs /\ Incl bv = incl /\ v ∈ keys bv.

Lemma postings_rep_empty {K} `{Countable K} (keys : BoolValues -> list K) incl : postings_rep keys incl ∅ [].
Proof. intros v y. rewrite lookup_empty. simpl. split; [intros Hy | intros (? & Hy & _)]; elem_nil. Qed.

Record default_crep (m : FieldMeta) (c : Cont) (evs : list REvent) : Prop := {
  dr_meta : dc_meta c = m;
  dr_ok : generator_ok (fm_Parser m);
  dr_wc : forall y, y ∈ bm_iter (dc_wc c) <-> (y, None) ∈ evs;
  dr_inc : postings_rep (value_ids m) true (dc_inc c) evs;
  dr_exc : postings_rep (value_ids m) false (dc_exc c) evs
}.

Lemma NewDefaultBEContainer_rep m pool pool' c :
  generator_ok (fm_Parser m) -> bitmaps_clean pool -> NewDefaultBEContainer m pool = (pool', c) ->
  bitmaps_clean pool' /\ default_crep m c [].
Proof.
  intros Hg Hp. unfold NewDefaultBEContainer. destruct (NewPostingList pool) as [pool1 wc] eqn:Ep.
  destruct (NewPostingList_clean _ _ _ Hp Ep) as [Hp1 Hwc]. intros [= <- <-]. split; [done |].
  split; simpl; try done.
  - intros y. rewrite Hwc. split; intros Hy; elem_nil.
  - apply postings_rep_empty.
  - apply postings_rep_empty.
Qed.

Lemma add_posting_elem {K} `{Countable K} (pls : gmap K B) value id pool pool' (pls' : gmap K B) :
  bitmaps_clean pool -> add_posting pls value id pool = (pool', pls') ->
  bitmaps_clean pool' /\
  forall v y, y ∈ from_option bm_iter [] (pls' !! v) <->
    y ∈ from_option bm_iter [] (pls !! v) \/ (v = value /\ y = id).
Proof.
  intros Hp. unfold add_posting. destruct (pls !! value) as [pl|] eqn:Ev.
  - intros [= <- <-]. split; [done |]. intros v y. destruct (decide (value = v)) as [<- | Hne].
    + rewrite lookup_insert_eq, Ev. simpl. rewrite elem_of_bm_add. naive_solver.
    + rewrite lookup_insert_ne by done. naive_solver.
  - destruct (NewPostingList pool) as [pool1 pl] eqn:Ep.
    destruct (NewPostingList_clean _ _ _ Hp Ep) as [Hp1 Hpl]. intros [= <- <-]. split; [done |].
    intros v y. destruct (decide (value = v)) as [<- | Hne].
    + rewrite lookup_insert_eq, Ev. simpl. rewrite elem_of_bm_add, Hpl. naive_solver.
    + rewrite lookup_insert_ne by done. naive_solver.
Qed.

(** Encoding the value ids [ids] of one expression. *)
Lemma encode_ids_spec incl id ids (s : list B * Cont) :
  bitmaps_clean s.1 ->
  let s' := foldl (fun s value => if incl : bool then AddInclude value id s else AddExclude value id s) s ids in
  bitmaps_clean s'.1 /\ dc_meta s'.2 = dc_meta s.2 /\ dc_wc s'.2 = dc_wc s.2 /\
  (forall v y, y ∈ from_option bm_iter [] ((if incl then dc_inc s'.2 else dc_exc s'.2) !! v) <->
     y ∈ from_option bm_iter [] ((if incl then dc_inc s.2 else dc_exc s.2) !! v) \/ (v ∈ ids /\ y = id)) /\
  (if incl then dc_exc s'.2 = dc_exc s.2 else dc_inc s'.2 = dc_inc s.2).
Proof.
  revert s. induction ids as [|value ids IH]; intros s Hp; cbn [foldl].
  - split_and!; try done; [set_solver | by destruct incl].
  - set (s1 := if incl then AddInclude value id s else AddExclude value id s).
    assert (Hs1 : bitmaps_clean s1.1 /\ dc_meta s1.2 = dc_meta s.2 /\ dc_wc s1.2 = dc_wc s.2 /\
      (forall v y, y ∈ from_option bm_iter [] ((if incl then dc_inc s1.2 else dc_exc s1.2) !! v) <->
         y ∈ from_option bm_iter [] ((if incl then dc_inc s.2 else dc_exc s.2) !! v) \/ (v = value /\ y = id)) /\
      (if incl then dc_exc s1.2 = dc_exc s.2 else dc_inc s1.2 = dc_inc s.2)).
    { subst s1. destruct incl; unfold AddInclude, AddExclude.
      - destruct (add_posting (dc_inc s.2) value id s.1) as [pool' inc] eqn:Ea.
        by destruct (add_posting_elem _ _ _ _ _ _ Hp Ea).
      - destruct (add_posting (dc_exc s.2) value id s.1) as [pool' exc] eqn:Ea.
        by destruct (add_posting_elem _ _ _ _ _ _ Hp Ea). }
    clearbody s1. destruct Hs1 as (Hp1 & Hm1 & Hw1 & He1 & Ho1).
    destruct (IH s1 Hp1) as (Hp2 & Hm2 & Hw2 & He2 & Ho2).
    split; [done |]. split; [congruence |]. split; [congruence |]. split.
    + intros v y. rewrite He2, He1, elem_of_cons. naive_solver.
    + destruct incl; congruence.
Qed.

Lemma elem_of_merge_or {K} `{Countable K} (pls : gmap K B) ids (b : B) y :
  y ∈ bm_iter (merge_ids bm_or pls ids b) <->
  y ∈ bm_iter b \/ exists v, v ∈ ids /\ y ∈ from_option bm_iter [] (pls !! v).
Proof.
  unfold merge_ids. revert b. induction ids as [|v ids IH]; intros b; simpl; [set_solver |].
  rewrite IH. destruct (pls !! v) as [pl|] eqn:Ev.
  - rewrite elem_of_bm_or. split.
    + intros [[Hy | Hy] | (v' & Hv' & Hy)]; [by left | |].
      * right. exists v. rewrite Ev. split; [by left | done].
      * right. exists v'. split; [by right | done].
    + intros [Hy | (v' & [-> | Hv']%elem_of_cons & Hy)]; [auto | | eauto].
      rewrite Ev in Hy. auto.
  - split.
    + intros [Hy | (v' & Hv' & Hy)]; [by left | right; exists v'; split; [by right | done]].
    + intros [Hy | (v' & [-> | Hv']%elem_of_cons & Hy)]; [auto | | eauto].
      rewrite Ev in Hy. elem_nil.
Qed.

Lemma elem_of_merge_andnot {K} `{Countable K} (pls : gmap K B) ids (b : B) y :
  y ∈ bm_iter (merge_ids bm_andnot pls ids b) <->
  y ∈ bm_iter b /\ ~ exists v, v ∈ ids /\ y ∈ from_option bm_iter [] (pls !! v).
Proof.
  unfold merge_ids. revert b. induction ids as [|v ids IH]; intros b; simpl.
  - split; [intros Hy; split; [done |]; intros (v & Hv & _); elem_nil | tauto].
  - rewrite IH. destruct (pls !! v) as [pl|] eqn:Ev.
    + rewrite elem_of_bm_andnot. split.
      * intros [[Hy Hn] Hno]. split; [done |]. intros (v' & [-> | Hv']%elem_of_cons & Hy'); [| eauto].
        by rewrite Ev in Hy'.
      * intros [Hy Hno]. split; [split; [done |] |].
        -- intros Hn. apply Hno. exists v. rewrite Ev. split; [by left | done].
        -- intros (v' & Hv' & Hy'). apply Hno. exists v'. split; [by right | done].
    + split.
      * intros [Hy Hno]. split; [done |]. intros (v' & [-> | Hv']%elem_of_cons & Hy'); [| eauto].
        rewrite Ev in Hy'. elem_nil.
      * intros [Hy Hno]. split; [done |]. intros (v' & Hv' & Hy'). apply Hno.
        exists v'. split; [by right | done].
Qed.

Lemma ids_meet_spec m bv v :
  ids_meet m bv v = true <-> exists id, id ∈ assign_ids m v /\ id ∈ value_ids m bv.
Proof.
  unfold ids_meet. rewrite existsb_exists. setoid_rewrite <- list_elem_of_In.
  by setoid_rewrite bool_decide_eq_true.
Qed.

Lemma postings_rep_snoc {K} `{Countable K} (keys : BoolValues -> list K) incl pls pls' evs id bv ids :
  postings_rep keys incl pls evs -> ids = keys bv -> Incl bv = incl ->
  (forall v y, y ∈ from_option bm_iter [] (pls' !! v) <->
     y ∈ from_option bm_iter [] (pls !! v) \/ (v ∈ ids /\ y = id)) ->
  postings_rep keys incl pls' (evs ++ [(id, Some bv)]).
Proof.
  intros Hrep -> Hi Hpls v y. rewrite Hpls, (Hrep v y). setoid_rewrite elem_of_app.
  setoid_rewrite list_elem_of_singleton. split.
  - intros [(bv' & ? & ?) | [Hv ->]]; [exists bv' | exists bv]; naive_solver.
  - intros (bv' & [Hin | [= -> ->]] & Hi' & Hv); [left; eauto | right; done].
Qed.

Lemma postings_rep_other {K} `{Countable K} (keys : BoolValues -> list K) incl pls evs id o :
  postings_rep keys incl pls evs -> (forall bv, o = Some bv -> Incl bv <> incl) ->
  postings_rep keys incl pls (evs ++ [(id, o)]).
Proof.
  intros Hrep Ho v y. rewrite (Hrep v y). setoid_rewrite elem_of_app.
  setoid_rewrite list_elem_of_singleton. split.
  - intros (bv & ? & ?). exists bv. naive_solver.
  - intros (bv & [Hin | Heq] & Hi & Hv); [eauto |]. injection Heq as -> <-. by destruct (Ho bv eq_refl).
Qed.

Lemma default_rep_expr m (c : Cont) evs id e pool s' r :
  default_crep m c evs -> bitmaps_clean pool -> default_EncodeExpr id e (pool, c) = (s', r) ->
  match r with
  | Ok _ => bitmaps_clean s'.1 /\ default_crep m s'.2 (evs ++ [(id, Some (be_values e))])
  | _ => True
  end.
Proof.
  intros [Hm Hg Hwc Hinc Hexc] Hp. unfold default_EncodeExpr, PanicIf.
  unfold mbind, M_bind, get, lift, modify. case_bool_decide; [by intros [= <- <-] |]. simpl.
  destruct (ParseValue (fm_Parser (dc_meta c)) (Value (be_values e))) as [ids|err|err|] eqn:Ep;
    [| by intros [= <- <-] ..].
  intros [= <- <-].
  assert (Hids : ids = value_ids m (be_values e)) by (unfold value_ids; by rewrite <- Hm, Ep).
  pose proof (encode_ids_spec (Incl (be_values e)) id ids (pool, c) Hp) as Hs. simpl in Hs.
  set (s' := foldl _ (pool, c) ids) in *. destruct Hs as (Hp' & Hm' & Hw' & He' & Ho').
  split; [done |]. split; [congruence | done | | |].
  - intros y. rewrite Hw', Hwc, elem_of_app, list_elem_of_singleton. naive_solver.
  - destruct (Incl (be_values e)) eqn:Ei.
    + by eapply postings_rep_snoc.
    + rewrite Ho'. apply postings_rep_other; [done |]. intros bv [= <-]. congruence.
  - destruct (Incl (be_values e)) eqn:Ei.
    + rewrite Ho'. apply postings_rep_other; [done |]. intros bv [= <-]. congruence.
    + by eapply postings_rep_snoc.
Qed.

Lemma default_built_retrieve m (c : Cont) evs v (b : B) :
  default_crep m c evs -> bm_iter b = [] ->
  match default_Retrieve c v b with
  | Ok b' => forall y, y ∈ bm_iter b' <->
      ((y, None) ∈ evs \/ exists bv, (y, Some bv) ∈ evs /\ Incl bv = true /\ ids_meet m bv v = true) /\
      ~ (exists bv, (y, Some bv) ∈ evs /\ Incl bv = false /\ ids_meet m bv v = true)
  | OutOfFuel => False
  | _ => ids_readable m v = false
  end.
Proof.
  intros [Hm Hg Hwc Hinc Hexc] Hb. unfold default_Retrieve, ids_readable.
  assert (Hor : forall y, y ∈ bm_iter (bm_or b (dc_wc c)) <-> (y, None) ∈ evs).
  { intros y. rewrite elem_of_bm_or, Hb, Hwc. split; [| by right].
    intros [Hy | Hy]; [elem_nil | done]. }
  destruct (NilInterface v) as [[]|e|e|] eqn:Env; simpl;
    [| | done | done | by unfold NilInterface in Env; destruct (is_array v)].
  - intros y. rewrite Hor. setoid_rewrite ids_meet_spec. unfold assign_ids. rewrite Env.
    split; [| intros [[Hy | (bv & _ & _ & id & Hid & _)] _]; [done | elem_nil]].
    intros Hy. split; [by left |]. intros (bv & _ & _ & id & Hid & _). elem_nil.
  - rewrite Hm. specialize (Hg v).
    destruct (ParseAssign (fm_Parser m) v) as [ids|err|err|] eqn:Hids; simpl; [| done ..].
    assert (Hass : assign_ids m v = ids) by (unfold assign_ids; by rewrite Env, Hids).
    assert (Hside : forall incl pls y, postings_rep (value_ids m) incl pls evs ->
      (exists id, id ∈ ids /\ y ∈ from_option bm_iter [] (pls !! id)) <->
      exists bv, (y, Some bv) ∈ evs /\ Incl bv = incl /\ ids_meet m bv v = true).
    { intros incl pls y Hrep. setoid_rewrite (Hrep _ y). setoid_rewrite ids_meet_spec. rewrite Hass.
      split; [intros (id & Hid & bv & ? & ? & ?); eauto 8 | intros (bv & ? & ? & id & ? & ?); eauto 8]. }
    intros y. rewrite elem_of_merge_andnot, elem_of_merge_or, Hor.
    by rewrite (Hside true _ y Hinc), (Hside false _ y Hexc).
Qed.

#[export] Instance DefaultBEContainer_spec : BEContainerSpec B Cont.
Proof.
  refine {| c_rep := default_crep; c_built := default_crep; c_hits := ids_meet; c_assign_ok := ids_readable |}.
  - intros m c evs id [Hm Hg Hwc Hinc Hexc]. split; simpl; try done.
    + intros y. rewrite elem_of_bm_add, Hwc, elem_of_app, list_elem_of_singleton. naive_solver.
    + by apply postings_rep_other.
    + by apply postings_rep_other.
  - intros m c evs id e pool s' r. apply default_rep_expr.
  - done.
  - intros m c evs v b. apply default_built_retrieve.
Defined.

End DefaultContainerFacts.
