(* ===== verification/RoaringBuilder.v ===== *)
(** * The roaring index builder and scanner compute the meaning of the documents

    The containers of the builder hold, per field, the conjunctions added so far
    ([rrep]); a scanner intersects what the fields accept, which is the set of the
    satisfied conjunctions. *)

From stdpp Require Import base sorting gmap strings numbers list.
From S2P Require Import Prelude GoValues Ids Document Collector Parsers Roaring RoaringProofs.
Open Scope Z_scope.

(** A conjunction with its id. *)
Abbreviation RLog := (Z * Conjunction)%type (only parsing).

Section Spec.
Context {B Cn : Type} `{Roaring64Spec B} `{!BEContainer B Cn} `{!BEContainerSpec B Cn} `{MapRange}.
Context (containerFactory : gmap string (FieldMeta -> list B -> list B * Cn)).
Local Abbreviation Bld := (IvtBEIndexerBuilder Cn).
Local Abbreviation St := (list B * Bld)%type.
Implicit Types (s : St) (metas : gmap string FieldMeta).

(** ** Definitions *)

Definition exprs_of (f : BEField) (cj : Conjunction) : list BoolValues := default [] (Expressions cj !! f).

Definition event_of (f : BEField) (cj : Conjunction) (o : option BoolValues) : Prop :=
  match o with
  | None => has_include (exprs_of f cj) = false
  | Some bv => bv ∈ exprs_of f cj
  end.

Definition field_events (f : BEField) (log : list RLog) (evs : list REvent) : Prop :=
  forall id o, (id, o) ∈ evs <-> exists cj, (id, cj) ∈ log /\ event_of f cj o.

(** The container of every field [f] holds the conjunctions [L f]. *)
Definition rrep s metas (L : BEField -> list RLog) : Prop :=
  bitmaps_clean s.1 /\
  forall f, match ib_containerBuilder s.2 !! f, metas !! f with
            | Some c, Some m => exists evs, c_rep m c evs /\ field_events f (L f) evs
            | None, None => True
            | _, _ => False
            end.

(** What stays when documents are added. *)
Definition same_setup s s' : Prop :=
  ib_panicOnError s'.2 = ib_panicOnError s.2 /\ ib_docMaxConjSize s'.2 = ib_docMaxConjSize s.2 /\
  ib_defaultParser s'.2 = ib_defaultParser s.2.

Fixpoint rconj_log (docID idx : Z) (cjs : list Conjunction) : list RLog :=
  match cjs with
  | [] => []
  | cj :: cjs => (rpack idx docID, cj) :: rconj_log docID (idx + 1) cjs
  end.

Definition rdoc_log (doc : Document) : list RLog := rconj_log (doc_ID doc) 0 (doc_Cons doc).

(** A logged conjunction: its id is in range, its fields are configured. *)
Definition rentry_ok metas (p : RLog) : Prop :=
  (exists idx doc, rfields_ok idx doc /\ p.1 = rpack idx doc) /\
  forall f, is_Some (Expressions p.2 !! f) -> is_Some (metas !! f).

(** ** Encoding one conjunction *)

Lemma encode_exprs_spec f id exprs aw s c m evs :
  ib_containerBuilder s.2 !! f = Some c -> c_rep m c evs -> bitmaps_clean s.1 ->
  wp (encode_exprs f id exprs aw) (fun r s' =>
    match r with
    | Ok aw' => aw' = aw && negb (has_include exprs) /\ bitmaps_clean s'.1 /\ same_setup s s' /\
        exists c', ib_containerBuilder s'.2 = <[f := c']> (ib_containerBuilder s.2) /\
          c_rep m c' (evs ++ ((fun bv => (id, Some bv)) <$> exprs))
    | _ => True
    end) s.
Proof.
  revert aw s c evs. induction exprs as [|e exprs IH]; intros aw s c evs Hc Hrep Hclean; cbn [encode_exprs].
  - apply wp_ret. rewrite andb_true_r. split; [done |]. split; [done |]. split; [done |].
    exists c. rewrite insert_id by done. split; [done |]. by rewrite app_nil_r.
  - apply wp_bind, wp_with_err. apply wp_intro. intros s1 r Hrun. unfold with_field in Hrun. rewrite Hc in Hrun.
    destruct (EncodeExpr id (NewBoolExpr2 f e) (s.1, c)) as [[pool1 c1] r1] eqn:Ee.
    injection Hrun as <- <-. pose proof (rep_expr m c evs id _ _ _ _ Hrep Hclean Ee) as Hspec.
    destruct r1 as [u|err|err|]; try done.
    2: { unfold wp, build_error. simpl. by destruct (ib_panicOnError s.2). }
    simpl in Hspec. destruct Hspec as [Hclean1 Hrep1].
    eapply wp_mono.
    { apply (IH (aw && negb (Incl e)) (pool1, set_containers s.2 (<[f := c1]> (ib_containerBuilder s.2))) c1
        (evs ++ [(id, Some e)])); simpl; [by rewrite lookup_insert_eq | done | done]. }
    intros r s2 Hr. destruct r as [aw'|err|err|]; try done.
    destruct Hr as (-> & Hclean2 & Hsame & c2 & Hc2 & Hrep2). simpl in *.
    split; [by rewrite negb_orb, andb_assoc |]. split; [done |]. split; [done |].
    exists c2. rewrite Hc2, insert_insert_eq. split; [done |]. by rewrite <- app_assoc in Hrep2.
Qed.

Lemma field_events_snoc f log evs id cj evs' :
  field_events f log evs ->
  (forall o, (id, o) ∈ evs' <-> event_of f cj o) -> (forall id' o, (id', o) ∈ evs' -> id' = id) ->
  field_events f (log ++ [(id, cj)]) (evs ++ evs').
Proof.
  intros Hev Hnew Hid id' o. rewrite elem_of_app, (Hev id' o). setoid_rewrite elem_of_app.
  setoid_rewrite list_elem_of_singleton. split.
  - intros [(cj' & ? & ?) | Hin]; [exists cj'; naive_solver |].
    pose proof (Hid _ _ Hin) as ->. exists cj. split; [by right |]. by apply Hnew.
  - intros (cj' & [Hin | [= -> ->]] & He); [left; eauto | right; by apply Hnew].
Qed.

Lemma encode_field_spec f id cj s c m evs log :
  ib_containerBuilder s.2 !! f = Some c -> c_rep m c evs -> field_events f log evs -> bitmaps_clean s.1 ->
  wp (encode_field id cj f) (fun r s' =>
    match r with
    | Ok _ => bitmaps_clean s'.1 /\ same_setup s s' /\
        exists c' evs', ib_containerBuilder s'.2 = <[f := c']> (ib_containerBuilder s.2) /\
          c_rep m c' evs' /\ field_events f (log ++ [(id, cj)]) evs'
    | _ => True
    end) s.
Proof.
  intros Hc Hrep Hev Hclean. unfold encode_field.
  assert (Hwild : forall s1 c1 evs1, ib_containerBuilder s1.2 !! f = Some c1 -> c_rep m c1 evs1 ->
    bitmaps_clean s1.1 ->
    wp (encode_wildcard f id) (fun r s' => r = Ok tt /\ bitmaps_clean s'.1 /\ same_setup s1 s' /\
      exists c', ib_containerBuilder s'.2 = <[f := c']> (ib_containerBuilder s1.2) /\
        c_rep m c' (evs1 ++ [(id, None)])) s1).
  { intros s1 c1 evs1 Hc1 Hrep1 Hcl1. unfold wp, encode_wildcard, with_field. rewrite Hc1. simpl.
    split; [done |]. split; [done |]. split; [done |]. eexists. split; [done |]. by apply rep_wildcard. }
  destruct (Expressions cj !! f) as [[|e exprs]|] eqn:Ef.
  2: { assert (Hex : exprs_of f cj = e :: exprs) by (unfold exprs_of; by rewrite Ef).
    apply wp_bind. eapply wp_mono; [by eapply (encode_exprs_spec f id (e :: exprs) true s c m evs) |].
    intros r s1 Hr. destruct r as [aw|err|err|]; try done.
    destruct Hr as (-> & Hcl1 & Hsame1 & c1 & Hc1 & Hrep1). rewrite andb_true_l.
    destruct (has_include (e :: exprs)) eqn:Ei; cbn [negb].
    - apply wp_ret. split; [done |]. split; [done |]. eexists c1, _. split; [done |]. split; [exact Hrep1 |].
      apply field_events_snoc; [done | |].
      + intros o. rewrite list_elem_of_fmap. unfold event_of. rewrite Hex. destruct o as [bv|].
        * split; [intros (bv' & [= ->] & ?); done | eauto].
        * rewrite Ei. split; [by intros (? & ? & _) | done].
      + intros id' o (bv & [= -> _] & _)%list_elem_of_fmap. done.
    - eapply wp_mono; [eapply (Hwild s1 c1); [by rewrite Hc1, lookup_insert_eq | exact Hrep1 | done] |].
      intros r s2 (-> & Hcl2 & Hsame2 & c2 & Hc2 & Hrep2). split; [done |].
      split; [unfold same_setup in *; intuition congruence |]. eexists c2, _. rewrite Hc2, Hc1, insert_insert_eq.
      split; [done |]. split; [exact Hrep2 |]. rewrite <- app_assoc. apply field_events_snoc; [done | |].
      + intros o. rewrite elem_of_app, list_elem_of_fmap, list_elem_of_singleton.
        unfold event_of. rewrite Hex. destruct o as [bv|].
        * split; [intros [(bv' & [= ->] & ?) | ?]; done | eauto].
        * rewrite Ei. split; [done | by right].
      + intros id' o [(bv & [= -> _] & _)%list_elem_of_fmap | Heq%list_elem_of_singleton]%elem_of_app;
          [done | by injection Heq]. }
  all: eapply wp_mono; [by apply (Hwild s c evs) |];
    intros r s1 (-> & Hcl1 & Hsame1 & c1 & Hc1 & Hrep1); split; [done |]; split; [done |];
    eexists c1, _; split; [done |]; split; [exact Hrep1 |]; apply field_events_snoc; [done | |];
    [ intros o; rewrite list_elem_of_singleton; unfold event_of, exprs_of; rewrite Ef; simpl;
      destruct o as [bv|]; [split; [done | intros Hx; elem_nil] | done]
    | by intros id' o [= -> _]%list_elem_of_singleton ].
Qed.

Definition add_at (done : list BEField) (L : BEField -> list RLog) (p : RLog) (f : BEField) : list RLog :=
  if bool_decide (f ∈ done) then L f ++ [p] else L f.

Lemma encode_fields_spec fs done0 id cj s metas L :
  rrep s metas (add_at done0 L (id, cj)) -> NoDup (fs ++ done0) ->
  (forall f, f ∈ fs -> is_Some (metas !! f)) ->
  wp (forM fs (encode_field id cj)) (fun r s' =>
    match r with
    | Ok _ => rrep s' metas (add_at (fs ++ done0) L (id, cj)) /\ same_setup s s'
    | _ => True
    end) s.
Proof.
  revert done0 s. induction fs as [|f fs IH]; intros done0 s Hrep Hnd Hin; cbn [forM].
  - apply wp_ret. done.
  - apply wp_bind. pose proof Hrep as [Hclean Hall]. pose proof (Hall f) as Hf.
    destruct (Hin f) as [m Hm]; [by left |]. rewrite Hm in Hf.
    destruct (ib_containerBuilder s.2 !! f) as [c|] eqn:Ec; [| done]. destruct Hf as (evs & Hc & Hev).
    simpl in Hnd. apply NoDup_cons in Hnd as [Hnotin Hnd].
    assert (Hfd : f ∉ done0) by (intros Hx; apply Hnotin, elem_of_app; by right).
    unfold add_at in Hev at 1. rewrite bool_decide_eq_false_2 in Hev by done.
    wp_call (encode_field_spec f id cj s c m evs (L f)).
    intros r s1 Hr. destruct r as [u|err|err|]; try done.
    destruct Hr as (Hcl1 & Hsame1 & c' & evs' & Hc1 & Hrep1 & Hev1).
    assert (Hrep' : rrep s1 metas (add_at (f :: done0) L (id, cj))).
    { split; [done |]. intros g. rewrite Hc1. destruct (decide (f = g)) as [<- | Hne].
      - rewrite lookup_insert_eq, Hm. exists evs'. split; [done |]. unfold add_at.
        by rewrite bool_decide_eq_true_2 by by left.
      - rewrite lookup_insert_ne by done. specialize (Hall g).
        assert (add_at (f :: done0) L (id, cj) g = add_at done0 L (id, cj) g) as ->; [| done].
        unfold add_at. assert (g ∈ f :: done0 <-> g ∈ done0) as Hiff by (rewrite elem_of_cons; naive_solver).
        by rewrite (bool_decide_ext _ _ Hiff). }
    eapply wp_mono.
    { apply (IH (f :: done0) s1); [done | | intros g Hg; apply Hin; by right].
      rewrite <- Permutation_middle. constructor; done. }
    intros r s2 Hr. destruct r as [u'|err|err|]; try done. destruct Hr as [[Hcl2 Hrep2] Hsame2]. split.
    + split; [done |]. intros g. specialize (Hrep2 g).
      assert (add_at (fs ++ f :: done0) L (id, cj) g = add_at ((f :: fs) ++ done0) L (id, cj) g) as Heq.
      { unfold add_at. assert (g ∈ fs ++ f :: done0 <-> g ∈ (f :: fs) ++ done0) as Hiff
          by (simpl; rewrite !elem_of_app, !elem_of_cons, !elem_of_app; tauto).
        by rewrite (bool_decide_ext _ _ Hiff). }
      by rewrite Heq in Hrep2.
    + unfold same_setup in *. intuition congruence.
Qed.

Lemma check_fields_spec cj s :
  wp (check_fields cj) (fun r s' =>
    match r with
    | Ok _ => s' = s /\ forall f, is_Some (Expressions cj !! f) -> is_Some (ib_containerBuilder s.2 !! f)
    | _ => True
    end) s.
Proof.
  unfold check_fields.
  assert (Hgen : forall l, wp (forM l (fun kv : BEField * list BoolValues =>
      s ← get; match ib_containerBuilder (s : St).2 !! kv.1 with
               | Some _ => mret tt
               | None => build_error "document contains none-configured field"
               end))
    (fun r s' => match r with
      | Ok _ => s' = s /\ forall kv, kv ∈ l -> is_Some (ib_containerBuilder s.2 !! kv.1)
      | _ => True end) s).
  { induction l as [|kv l IH]; cbn [forM].
    - apply wp_ret. split; [done |]. intros kv Hx. elem_nil.
    - apply wp_bind, wp_bind. apply wp_intro. intros s1 r [= <- <-].
      destruct (ib_containerBuilder s.2 !! kv.1) as [c|] eqn:Ec.
      2: { unfold wp, build_error. by destruct (ib_panicOnError s.2). }
      apply wp_ret. eapply wp_mono; [exact IH |]. intros r s2 Hr. destruct r; try done.
      destruct Hr as [-> Hl]. split; [done |].
      intros kv' [-> | Hkv']%elem_of_cons; [by rewrite Ec | by apply Hl]. }
  eapply wp_mono; [apply Hgen |]. intros r s' Hr. destruct r; try done. destruct Hr as [-> Hl].
  split; [done |]. intros f [exprs Hf]. apply (Hl (f, exprs)). by apply elem_of_map_range.
Qed.

Lemma forM_map_range {S A} (m : gmap string A) (body : string -> M S unit) :
  forM (map_range m) (fun kv => body kv.1) = forM (map_range m).*1 body.
Proof. induction (map_range m) as [|kv l IH]; [done |]. simpl. by rewrite IH. Qed.

Lemma encode_conj_spec docID idx cj s metas log :
  rrep s metas (fun _ => log) ->
  wp (encode_conj docID idx cj) (fun r s' =>
    match r with
    | Ok _ => rrep s' metas (fun _ => log ++ [(rpack idx docID, cj)]) /\ same_setup s s' /\
        rfields_ok idx docID /\ rentry_ok metas (rpack idx docID, cj)
    | _ => True
    end) s.
Proof.
  intros Hrep. unfold encode_conj. apply wp_bind, wp_with_err. apply wp_intro. intros s0 r [= <- <-].
  destruct (NewConjunctionID_cases idx docID) as [[Hok ->] | [_ [e ->]]].
  2: { unfold wp, build_error. by destruct (ib_panicOnError s.2). }
  apply wp_bind. eapply wp_mono; [apply check_fields_spec |]. intros r s1 Hr.
  destruct r as [u|err|err|]; try done. destruct Hr as [-> Hconf].
  apply wp_bind. apply wp_intro. intros s1 r [= <- <-].
  rewrite (forM_map_range (ib_containerBuilder s.2) (encode_field (rpack idx docID) cj)).
  assert (Hdom : forall f, is_Some (ib_containerBuilder s.2 !! f) <-> is_Some (metas !! f)).
  { intros f. destruct Hrep as [_ Hall]. specialize (Hall f).
    destruct (ib_containerBuilder s.2 !! f), (metas !! f); try done; split; intros [? ?]; done || eauto. }
  assert (Hkeys : forall f, f ∈ (map_range (ib_containerBuilder s.2)).*1 <-> is_Some (metas !! f)).
  { intros f. rewrite <- Hdom, list_elem_of_fmap. split.
    - intros ([g c] & -> & Hg%elem_of_map_range). eauto.
    - intros [c Hc]. exists (f, c). split; [done |]. by apply elem_of_map_range. }
  eapply wp_mono.
  { apply (encode_fields_spec _ [] (rpack idx docID) cj s metas (fun _ => log)).
    - destruct Hrep as [Hcl Hall]. split; [done |]. intros f. unfold add_at.
      rewrite bool_decide_eq_false_2 by (intros Hx; by apply not_elem_of_nil in Hx). apply Hall.
    - rewrite app_nil_r. apply NoDup_map_range_fst.
    - intros f Hf. by apply Hkeys. }
  intros r s2 Hr. destruct r as [u'|err|err|]; try done. destruct Hr as [[Hcl Hall] Hsame].
  split; [| split; [done |]; split; [done |]].
  - split; [done |]. intros f. specialize (Hall f). unfold add_at in Hall. rewrite app_nil_r in Hall.
    destruct (ib_containerBuilder s2.2 !! f), (metas !! f) eqn:Em; try done.
    rewrite bool_decide_eq_true_2 in Hall by (apply Hkeys; eauto). done.
  - split; [eauto |]. intros f Hf. by apply Hdom, Hconf.
Qed.

Lemma encode_conjs_spec cjs docID idx s metas log :
  rrep s metas (fun _ => log) ->
  wp (encode_conjs docID idx cjs) (fun r s' =>
    match r with
    | Ok _ => rrep s' metas (fun _ => log ++ rconj_log docID idx cjs) /\ same_setup s s' /\
        Forall (rentry_ok metas) (rconj_log docID idx cjs) /\
        forall n cj, cjs !! n = Some cj -> rfields_ok (idx + Z.of_nat n) docID
    | _ => True
    end) s.
Proof.
  revert idx s log. induction cjs as [|cj cjs IH]; intros idx s log Hrep; cbn [encode_conjs rconj_log].
  - apply wp_ret. rewrite app_nil_r. done.
  - apply wp_bind. wp_call encode_conj_spec. intros r s1 Hr.
    destruct r as [u|err|err|]; try done. destruct Hr as (Hrep1 & Hsame1 & Hok & Hent).
    wp_call IH. intros r s2 Hr. destruct r as [u'|err|err|]; try done.
    destruct Hr as (Hrep2 & Hsame2 & Hents & Hoks). rewrite <- app_assoc in Hrep2.
    split; [done |]. split; [unfold same_setup in *; intuition congruence |].
    split; [by constructor |]. intros [|n] cj' Hn; simpl in Hn.
    + by rewrite Z.add_0_r.
    + replace (idx + Z.of_nat (S n)) with (idx + 1 + Z.of_nat n) by lia. by eapply Hoks.
Qed.

(** *** Where encoding stops *)

(** A conjunction that is refused before anything of it is encoded: its id is out of
    range, or it names a field that is not configured. *)
Definition conj_refused s docID idx (cj : Conjunction) : Prop :=
  ~ rfields_ok idx docID \/ exists f, is_Some (Expressions cj !! f) /\ ib_containerBuilder s.2 !! f = None.

Definition failed {A} (r : res A) : Prop := exists e, r = Err e \/ r = Panic e.

Lemma build_error_fails {A} e s : (@build_error B Cn A e s).1 = s /\ failed (@build_error B Cn A e s).2.
Proof. unfold build_error, failed. destruct (ib_panicOnError s.2); simpl; eauto. Qed.

Lemma check_fields_fails cj s f :
  is_Some (Expressions cj !! f) -> ib_containerBuilder s.2 !! f = None ->
  (check_fields cj s).1 = s /\ failed (check_fields cj s).2.
Proof.
  intros [exprs Hf%elem_of_map_range] Hnone. unfold check_fields.
  set (body := fun kv : BEField * list BoolValues => _).
  induction (map_range (Expressions cj)) as [|kv l IH]; [elem_nil |].
  assert (forM (kv :: l) body s = match body kv s with
    | (s', Ok _) => forM l body s'
    | (s', Err e) => (s', Err e)
    | (s', Panic e) => (s', Panic e)
    | (s', OutOfFuel) => (s', OutOfFuel)
    end) as -> by (cbn [forM]; unfold mbind at 1, M_bind at 1; by destruct (body kv s) as [? []]).
  assert (body kv s = match ib_containerBuilder s.2 !! kv.1 with
    | Some _ => (s, Ok tt)
    | None => build_error "document contains none-configured field" s
    end) as -> by (unfold body, mbind, M_bind, get; by destruct (_ !! kv.1)).
  destruct (ib_containerBuilder s.2 !! kv.1) as [c|] eqn:Ec.
  - apply IH. apply elem_of_cons in Hf as [<- | Hf]; [simpl in Ec; congruence | done].
  - destruct (build_error_fails (A:=unit) "document contains none-configured field" s) as [Hs Hr].
    destruct (build_error _ s) as [s' r]. simpl in *. subst s'. destruct Hr as [e [-> | ->]]; simpl; unfold failed; eauto.
Qed.

Lemma encode_conj_refused docID idx cj s :
  conj_refused s docID idx cj -> (encode_conj docID idx cj s).1 = s /\ failed (encode_conj docID idx cj s).2.
Proof.
  intros Href. unfold encode_conj, mbind at 1, M_bind at 1, with_err, lift.
  destruct (NewConjunctionID_cases idx docID) as [[Hok ->] | [_ [e ->]]]; [| apply build_error_fails].
  destruct Href as [Hbad | (f & Hf & Hnone)]; [done |]. unfold mbind, M_bind.
  destruct (check_fields_fails cj s f Hf Hnone) as [Hs Hr].
  destruct (check_fields cj s) as [s' r]. simpl in *. subst s'. destruct Hr as [e [-> | ->]]; simpl; unfold failed; eauto.
Qed.

(** The conjunctions before the one that is refused stay encoded. *)
Lemma encode_conjs_refused docID cj post s' pre idx s :
  encode_conjs docID idx pre s = (s', Ok tt) -> conj_refused s' docID (idx + Z.of_nat (length pre)) cj ->
  (encode_conjs docID idx (pre ++ cj :: post) s).1 = s' /\ failed (encode_conjs docID idx (pre ++ cj :: post) s).2.
Proof.
  revert idx s. induction pre as [|cj' pre IH]; intros idx s; cbn [encode_conjs app length].
  - intros [= ->]. rewrite Z.add_0_r. intros Href. unfold mbind, M_bind.
    destruct (encode_conj_refused _ _ _ _ Href) as [Hs Hr].
    destruct (encode_conj docID idx cj s') as [s1 r]. simpl in *. subst s1.
    destruct Hr as [e [-> | ->]]; simpl; unfold failed; eauto.
  - unfold mbind, M_bind. destruct (encode_conj docID idx cj' s) as [s1 [[]|e|e|]]; try done. intros Hpre Href.
    apply IH; [done |]. by replace (idx + 1 + Z.of_nat (length pre)) with (idx + Z.of_nat (S (length pre))) by lia.
Qed.

(** ** Documents *)

Definition doc_in_range (doc : Document) : Prop :=
  forall n cj, doc_Cons doc !! n = Some cj -> rfields_ok (Z.of_nat n) (doc_ID doc).

Lemma ivt_AddDocument_spec doc s metas log :
  rrep s metas (fun _ => log) ->
  wp (ivt_AddDocument doc) (fun r s' =>
    match r with
    | Ok _ => rrep s' metas (fun _ => log ++ rdoc_log doc) /\ Forall (rentry_ok metas) (rdoc_log doc) /\
        doc_in_range doc /\
        ib_docMaxConjSize s'.2 = Z.max (Z.of_nat (length (doc_Cons doc))) (ib_docMaxConjSize s.2)
    | _ => True
    end) s.
Proof.
  intros Hrep. unfold ivt_AddDocument. case_bool_decide.
  { unfold wp, build_error. by destruct (ib_panicOnError s.2). }
  apply wp_bind. wp_call encode_conjs_spec. intros r s1 Hr.
  destruct r as [u|err|err|]; try done. destruct Hr as (Hrep1 & (_ & Hmax & _) & Hents & Hoks).
  apply wp_intro. intros s2 r [= <- <-]. simpl. split; [done |]. split; [done |].
  split; [exact Hoks |]. by rewrite MaxInt_max, Hmax.
Qed.

Lemma ivt_AddDocuments_spec docs s metas log :
  rrep s metas (fun _ => log) ->
  wp (ivt_AddDocuments docs) (fun r s' =>
    match r with
    | Ok _ => rrep s' metas (fun _ => log ++ (docs ≫= rdoc_log)) /\
        Forall (rentry_ok metas) (docs ≫= rdoc_log) /\ Forall doc_in_range docs /\
        ib_docMaxConjSize s.2 <= ib_docMaxConjSize s'.2 /\
        Forall (fun doc => Z.of_nat (length (doc_Cons doc)) <= ib_docMaxConjSize s'.2) docs
    | _ => True
    end) s.
Proof.
  unfold ivt_AddDocuments. revert s log. induction docs as [|doc docs IH]; intros s log Hrep; cbn [forM].
  - apply wp_ret. rewrite app_nil_r. split_and!; try done; lia || constructor.
  - apply wp_bind. wp_call ivt_AddDocument_spec. intros r s1 Hr.
    destruct r as [u|err|err|]; try done. destruct Hr as (Hrep1 & Hents1 & Hr1 & Hmax1).
    wp_call IH. intros r s2 Hr. destruct r as [u'|err|err|]; try done.
    destruct Hr as (Hrep2 & Hents2 & Hr2 & Hmax2 & Hall2). rewrite <- app_assoc in Hrep2.
    change ((doc :: docs) ≫= rdoc_log) with (rdoc_log doc ++ (docs ≫= rdoc_log)).
    split; [done |]. split; [by apply Forall_app |]. split; [by constructor |]. split; [lia |].
    constructor; [lia | done].
Qed.

(** ** Building *)

Definition index_log (ix : IvtBEIndexer Cn) metas (log : list RLog) : Prop :=
  forall f, match ix_data ix !! f, metas !! f with
            | Some c, Some m => exists evs, c_built m c evs /\ field_events f log evs
            | None, None => True
            | _, _ => False
            end.

Lemma build_containers_spec l data data' :
  NoDup l.*1 -> build_containers l data = Ok data' ->
  (forall f c, (f, c) ∈ l -> exists c', BuildBEContainer c = Ok c' /\ data' !! f = Some c') /\
  (forall f, f ∉ l.*1 -> data' !! f = data !! f).
Proof.
  revert data. induction l as [|[f c] l IH]; intros data Hnd; simpl.
  - intros [= <-]. split; [intros f c Hx; elem_nil | done].
  - apply NoDup_cons in Hnd as [Hnotin Hnd].
    destruct (BuildBEContainer c) as [c'|e|e|] eqn:Ec; try done. simpl. intros Hb.
    destruct (IH _ Hnd Hb) as [Hin Hout]. split.
    + intros g d [[= -> ->] | Hg]%elem_of_cons; [| by apply Hin].
      exists c'. split; [done |]. rewrite Hout by done. by rewrite lookup_insert_eq.
    + intros g [Hne Hg]%not_elem_of_cons. rewrite Hout by done. by rewrite lookup_insert_ne.
Qed.

Lemma BuildIndexer_spec s metas log ix :
  rrep s metas (fun _ => log) -> BuildIndexer s.2 = Ok ix ->
  index_log ix metas log /\ ix_docMaxConjSize ix = ib_docMaxConjSize s.2.
Proof.
  intros [_ Hall] Hb. unfold BuildIndexer in Hb.
  destruct (build_containers (map_range (ib_containerBuilder s.2)) ∅) as [data|e|e|] eqn:Eb; try done.
  injection Hb as <-. split; [| done]. intros f. simpl.
  destruct (build_containers_spec _ _ _ (NoDup_map_range_fst _) Eb) as [Hin Hout].
  specialize (Hall f). destruct (ib_containerBuilder s.2 !! f) as [c|] eqn:Ec.
  - destruct (Hin f c) as (c' & Hc' & Hd); [by apply elem_of_map_range |]. rewrite Hd.
    destruct (metas !! f) as [m|]; [| done]. destruct Hall as (evs & Hrep & Hev).
    pose proof (rep_build m c evs Hrep) as Hbuilt. rewrite Hc' in Hbuilt. eauto.
  - rewrite Hout, lookup_empty; [done |]. intros ([g c] & -> & Hg%elem_of_map_range)%list_elem_of_fmap.
    simpl in Ec. congruence.
Qed.

(** ** Scanning *)

(** Expression [bv] on field [f] is met by the query. *)
Definition rhit metas (q : Assignments) (f : BEField) (bv : BoolValues) : bool :=
  match metas !! f with
  | Some m => c_hits m bv (default VNil (q !! f))
  | None => false
  end.

(** The conjunctions whose constraints on field [f] the query satisfies. *)
Definition field_result metas (log : list RLog) (q : Assignments) (f : BEField) (y : Z) : Prop :=
  exists cj, (y, cj) ∈ log /\ field_sat (rhit metas q) f (exprs_of f cj) = true.

Definition rquery_ok metas (q : Assignments) : Prop :=
  forall f m, metas !! f = Some m -> c_assign_ok m (default VNil (q !! f)) = true.

Lemma retrieve_field_spec metas log q f m c evs (b : B) :
  NoDup log.*1 -> metas !! f = Some m -> c_built m c evs -> field_events f log evs -> bm_iter b = [] ->
  match container_Retrieve c (default VNil (q !! f)) b with
  | Ok b' => forall y, y ∈ bm_iter b' <-> field_result metas log q f y
  | OutOfFuel => False
  | _ => c_assign_ok m (default VNil (q !! f)) = false
  end.
Proof.
  intros Hnd Hm Hc Hev Hb. pose proof (built_retrieve m c evs (default VNil (q !! f)) b Hc Hb) as Hret.
  destruct (container_Retrieve c _ b) as [b'|e|e|]; try done. intros y. rewrite Hret.
  assert (Hhit : forall bv, c_hits m bv (default VNil (q !! f)) = rhit metas q f bv)
    by (intros bv; unfold rhit; by rewrite Hm).
  assert (Hfun : forall cj cj', (y, cj) ∈ log -> (y, cj') ∈ log -> cj = cj').
  { intros cj cj' [i Hi]%list_elem_of_lookup [j Hj]%list_elem_of_lookup.
    assert (i = j) as ->; [| congruence].
    eapply (NoDup_lookup log.*1); [done | by rewrite list_lookup_fmap, Hi | by rewrite list_lookup_fmap, Hj]. }
  unfold field_result. setoid_rewrite field_sat_spec. setoid_rewrite Hhit.
  setoid_rewrite (Hev y). unfold event_of. split.
  - intros [Hinc Hexc].
    assert (exists cj, (y, cj) ∈ log /\ (has_include (exprs_of f cj) = false \/
              include_hit (rhit metas q) f (exprs_of f cj) = true)) as (cj & Hcj & Hor).
    { destruct Hinc as [(cj & ? & ?) | (bv & (cj & ? & ?) & ? & ?)]; [eauto |].
      exists cj. split; [done |]. right. apply include_hit_spec. eauto. }
    exists cj. split; [done |]. split.
    + destruct (exclude_hit _ f (exprs_of f cj)) eqn:Ex; [| done]. exfalso. apply Hexc.
      apply exclude_hit_spec in Ex as (bv & ? & ? & ?). eauto 8.
    + intros Hh. destruct Hor; congruence.
  - intros (cj & Hcj & Hex & Hinc). split.
    + destruct (has_include (exprs_of f cj)) eqn:Eh; [| left; eauto]. right.
      specialize (Hinc eq_refl). apply include_hit_spec in Hinc as (bv & ? & ? & ?). eauto 8.
    + intros (bv & (cj' & Hcj' & Hbv) & Hi & Hh). rewrite <- (Hfun _ _ Hcj Hcj') in Hbv.
      assert (exclude_hit (rhit metas q) f (exprs_of f cj) = true) by (apply exclude_hit_spec; eauto). congruence.
Qed.

Local Abbreviation Sc := (IvtScanner B Cn).

(** Flags and results of a scanner fit together. *)
Definition sc_wf (sc : Sc) : Prop :=
  (sc_inited sc = false -> bm_iter (sc_conjIDResults sc) = [] /\ sc_ended sc = false) /\
  (sc_ended sc = true -> bm_iter (sc_conjIDResults sc) = []).

Lemma mergeFieldResult_spec (sc : Sc) pl :
  sc_wf sc -> let sc' := mergeFieldResult sc pl in
  sc_wf sc' /\ sc_inited sc' = true /\ sc_indexer sc' = sc_indexer sc /\
  forall y, y ∈ bm_iter (sc_conjIDResults sc') <->
    (sc_inited sc = true -> y ∈ bm_iter (sc_conjIDResults sc)) /\ y ∈ bm_iter pl.
Proof.
  intros [Hfresh Hended]. unfold mergeFieldResult, Ended.
  destruct (sc_inited sc) eqn:Ei; simpl.
  - destruct (bm_is_empty (sc_conjIDResults sc)) eqn:Ee; simpl.
    + split; [split; simpl; [done | by intros _; apply bm_is_empty_spec] |]. split; [done |]. split; [done |].
      apply bm_is_empty_spec in Ee. intros y. rewrite Ee.
      split; [intros Hy; elem_nil | by intros [Hy _]; apply Hy].
    + split; [split; simpl; [done | by intros Hx; apply bm_is_empty_spec in Hx] |].
      split; [done |]. split; [done |].
      intros y. rewrite elem_of_bm_and. naive_solver.
  - destruct (Hfresh eq_refl) as [Hnil _].
    split; [split; simpl; [done | by intros Hx; apply bm_is_empty_spec in Hx] |].
    split; [done |]. split; [done |].
    intros y. rewrite elem_of_bm_or, Hnil. split.
    + intros [Hy | Hy]; [elem_nil | done].
    + intros [_ Hy]. by right.
Qed.

Lemma retrieve_fields_spec metas log q l (tmp : B) (sc : Sc) :
  NoDup log.*1 -> bm_iter tmp = [] -> sc_wf sc ->
  (forall f c, (f, c) ∈ l -> exists m evs, metas !! f = Some m /\ c_built m c evs /\ field_events f log evs) ->
  wp (retrieve_fields q l tmp) (fun r sc' =>
    match r with
    | Ok tmp' => sc_wf sc' /\ sc_indexer sc' = sc_indexer sc /\
        forall y, y ∈ bm_iter (sc_conjIDResults sc') <->
          (if sc_inited sc then y ∈ bm_iter (sc_conjIDResults sc) else l <> []) /\
          forall f c, (f, c) ∈ l -> field_result metas log q f y
    | OutOfFuel => False
    | _ => ~ rquery_ok metas q
    end) sc.
Proof.
  intros Hnd. revert tmp sc. induction l as [|[f c] l IH]; intros tmp sc Htmp Hwf Hl; unfold wp; simpl.
  - split; [done |]. split; [done |]. intros y. destruct (sc_inited sc) eqn:Ei.
    + split; [intros Hy; split; [done |]; intros f c Hx; elem_nil | tauto].
    + destruct (proj1 Hwf Ei) as [-> _]. split; [intros Hy; elem_nil | tauto].
  - destruct (sc_ended sc) eqn:Een.
    + split; [done |]. split; [done |]. pose proof (proj2 Hwf Een) as Hnil.
      assert (sc_inited sc = true) as -> by (destruct (sc_inited sc) eqn:Ei; [done |]; destruct (proj1 Hwf Ei); congruence).
      intros y. rewrite Hnil. split; [intros Hy | intros [Hy _]]; elem_nil.
    + destruct (Hl f c) as (m & evs & Hm & Hc & Hev); [by left |].
      pose proof (retrieve_field_spec metas log q f m c evs tmp Hnd Hm Hc Hev Htmp) as Hret.
      destruct (container_Retrieve c (default VNil (q !! f)) tmp) as [pl|e|e|]; try done.
      2-3: intros Hq; specialize (Hq f m Hm); congruence.
      destruct (mergeFieldResult_spec sc pl Hwf) as (Hwf1 & Hi1 & Hix1 & Hres1).
      set (sc1 := mergeFieldResult sc pl) in *.
      specialize (IH (bm_clear pl) sc1 (bm_iter_clear pl) Hwf1 (fun g d Hg => Hl g d ltac:(by right))).
      unfold wp in IH. destruct (retrieve_fields q l (bm_clear pl) sc1) as [sc2 r].
      destruct r as [tmp'|e|e|]; try done. destruct IH as (Hwf2 & Hix2 & Hres2).
      split; [done |]. split; [congruence |]. intros y. rewrite Hres2, Hi1, Hres1, Hret. split.
      * intros [[Hbase Hf] Hrest]. split; [destruct (sc_inited sc); [by apply Hbase | done] |].
        intros g d [[= -> ->] | Hg]%elem_of_cons; [done | by eapply Hrest].
      * intros [Hbase Hrest]. split; [split; [| by apply (Hrest f c); left] | intros g d Hg; apply (Hrest g d); by right].
        intros Hi. by rewrite Hi in Hbase.
Qed.

(** A conjunction is in the result of every field exactly when it is satisfied. *)
Lemma all_fields_sat metas log q y :
  NoDup log.*1 -> Forall (rentry_ok metas) log -> metas <> ∅ ->
  (forall f, is_Some (metas !! f) -> field_result metas log q f y) <->
  exists cj, (y, cj) ∈ log /\ conj_sat (rhit metas q) cj = true.
Proof.
  intros Hnd Hok Hne. rewrite Forall_forall in Hok. split.
  - intros Hall. apply map_choose in Hne as (f0 & m0 & Hf0).
    destruct (Hall f0 ltac:(eauto)) as (cj & Hcj & _). exists cj. split; [done |].
    apply conj_sat_spec. intros f exprs Hf.
    destruct (Hok _ Hcj) as [_ Hconf]. specialize (Hconf f ltac:(eauto)).
    destruct (Hall f Hconf) as (cj' & Hcj' & Hs).
    assert (cj' = cj) as ->.
    { apply list_elem_of_lookup in Hcj as [i Hi]. apply list_elem_of_lookup in Hcj' as [j Hj].
      assert (i = j) as ->; [| congruence].
      eapply (NoDup_lookup log.*1); [done | by rewrite list_lookup_fmap, Hi | by rewrite list_lookup_fmap, Hj]. }
    unfold exprs_of in Hs. by rewrite Hf in Hs.
  - intros (cj & Hcj & Hs) f _. exists cj. split; [done |]. unfold exprs_of.
    destruct (Expressions cj !! f) as [exprs|] eqn:Ef; [| done].
    simpl. rewrite conj_sat_spec in Hs. by apply Hs.
Qed.

Lemma scanner_retrieve_spec metas log q pool (sc : Sc) :
  NoDup log.*1 -> Forall (rentry_ok metas) log -> metas <> ∅ -> index_log (sc_indexer sc) metas log ->
  bitmaps_clean pool -> sc_wf sc ->
  wp (scanner_retrieve q) (fun r st' =>
    match r with
    | Ok _ => bitmaps_clean st'.1 /\
        forall y, y ∈ bm_iter (sc_conjIDResults st'.2) <->
          (sc_inited sc = true -> y ∈ bm_iter (sc_conjIDResults sc)) /\
          exists cj, (y, cj) ∈ log /\ conj_sat (rhit metas q) cj = true
    | OutOfFuel => False
    | _ => ~ rquery_ok metas q
    end) (pool, sc).
Proof.
  intros Hnd Hok Hne Hix Hclean Hwf. unfold wp, scanner_retrieve.
  destruct (NewPostingList pool) as [pool1 tmp] eqn:Ep.
  destruct (NewPostingList_clean _ _ _ Hclean Ep) as [Hclean1 Htmp].
  assert (Hl : forall f c, (f, c) ∈ map_range (ix_data (sc_indexer sc)) ->
    exists m evs, metas !! f = Some m /\ c_built m c evs /\ field_events f log evs).
  { intros f c Hf%elem_of_map_range. specialize (Hix f). rewrite Hf in Hix.
    destruct (metas !! f) as [m|]; [| done]. destruct Hix as (evs & ? & ?). eauto. }
  pose proof (retrieve_fields_spec metas log q _ tmp sc Hnd Htmp Hwf Hl) as Hrun. unfold wp in Hrun.
  destruct (retrieve_fields q _ tmp sc) as [sc' r]. destruct r as [tmp'|e|e|]; try done.
  destruct Hrun as (_ & _ & Hres). simpl. split; [by apply ReleasePostingList_clean |]. intros y.
  rewrite Hres, <- (all_fields_sat metas log q y Hnd Hok Hne).
  assert (Hdom : forall f, is_Some (metas !! f) <-> exists c, (f, c) ∈ map_range (ix_data (sc_indexer sc))).
  { intros f. setoid_rewrite elem_of_map_range. specialize (Hix f).
    destruct (ix_data (sc_indexer sc) !! f), (metas !! f); try done; split; intros [? ?]; done || eauto. }
  assert (Hnel : map_range (ix_data (sc_indexer sc)) <> []).
  { apply map_choose in Hne as (f0 & m0 & Hf0). destruct (proj1 (Hdom f0) ltac:(eauto)) as [c Hc].
    intros Heq. rewrite Heq in Hc. elem_nil. }
  split.
  - intros [Hbase Hall]. split; [intros Hi; by rewrite Hi in Hbase |].
    intros f [c Hc]%Hdom. by eapply Hall.
  - intros [Hbase Hall]. split; [destruct (sc_inited sc); auto |].
    intros f c Hc. apply Hall, Hdom. eauto.
Qed.

End Spec.
