(* ===== verification/RoaringAc.v ===== *)
(** * The Aho-Corasick container of the roaring index (roaringidx/be_container_ac.go)

    Keywords of include and of exclude expressions are kept apart, each with the
    bitmap of its conjunctions and one matching machine per side.  The container
    keeps the promise of [BEContainerSpec] on texts without U+FFFD; a malformed
    keyword that is found makes [Retrieve] dereference a missing bitmap.  Containers
    of two kinds can be mixed in one index. *)

From stdpp Require Import base sorting gmap strings numbers list.
From S2P Require Import Prelude GoValues Utf8 Ids Document Collector Parsers AhoHolder Roaring RoaringProofs.
Open Scope Z_scope.

(** ** Definitions *)

Definition DefaultACContainerQueryJoinSep : string := " ".

Record ACBEContainer (B Mc : Type) := {
  ac_querySep : string;
  ac_meta : FieldMeta;
  ac_wc : B;
  ac_inc : option Mc;
  ac_exc : option Mc;
  incValues : gmap string B;
  excValues : gmap string B
}.
Arguments ac_querySep {B Mc} _.
Arguments ac_meta {B Mc} _.
Arguments ac_wc {B Mc} _.
Arguments ac_inc {B Mc} _.
Arguments ac_exc {B Mc} _.
Arguments incValues {B Mc} _.
Arguments excValues {B Mc} _.

Section ACContainer.
Context {B Mc : Type} `{Roaring64 B} `{MapRange} `{AhoMachine Mc}.
Local Abbreviation Cont := (ACBEContainer B Mc).

Definition NewACBEContainer (meta : FieldMeta) (sep : string) (pool : list B) : list B * Cont :=
  let '(pool, wc) := NewPostingList pool in
  (pool, {| ac_querySep := sep; ac_meta := meta; ac_wc := wc; ac_inc := None; ac_exc := None;
            incValues := ∅; excValues := ∅ |}).

Definition ac_AddWildcard (c : Cont) (id : Z) : Cont :=
  {| ac_querySep := ac_querySep c; ac_meta := ac_meta c; ac_wc := bm_add (ac_wc c) id; ac_inc := ac_inc c;
     ac_exc := ac_exc c; incValues := incValues c; excValues := excValues c |}.

Definition AddIncludeID (key : string) (id : Z) (s : list B * Cont) : list B * Cont :=
  let '(pool, inc) := add_posting (incValues s.2) key id s.1 in
  (pool, {| ac_querySep := ac_querySep s.2; ac_meta := ac_meta s.2; ac_wc := ac_wc s.2; ac_inc := ac_inc s.2;
            ac_exc := ac_exc s.2; incValues := inc; excValues := excValues s.2 |}).

Definition AddExcludeID (key : string) (id : Z) (s : list B * Cont) : list B * Cont :=
  let '(pool, exc) := add_posting (excValues s.2) key id s.1 in
  (pool, {| ac_querySep := ac_querySep s.2; ac_meta := ac_meta s.2; ac_wc := ac_wc s.2; ac_inc := ac_inc s.2;
            ac_exc := ac_exc s.2; incValues := incValues s.2; excValues := exc |}).

(** The loop over the terms: a word that is not in the map gives an empty
    [PostingList], whose nil bitmap the operation dereferences. *)
Fixpoint merge_terms (op : B -> B -> B) (m : gmap string B) (terms : list (list Z)) (inout : B) : res B :=
  match terms with
  | [] => Ok inout
  | word :: terms =>
      match m !! string_of_runes word with
      | Some pl => merge_terms op m terms (op inout pl)
      | None => Panic "nil pointer dereference"
      end
  end.

Definition ac_Retrieve (c : Cont) (values : Values) (inout : B) : res B :=
  let inout := bm_or inout (ac_wc c) in
  isnil ← NilInterface values;
  if isnil : bool then Ok inout
  else
    data ← BuildAcMatchContent values (ac_querySep c);
    inout ← match ac_inc c with
            | Some inc => merge_terms bm_or (incValues c) (aho_MultiPatternSearch inc data) inout
            | None => Ok inout
            end;
    match ac_exc c with
    | Some exc => merge_terms bm_andnot (excValues c) (aho_MultiPatternSearch exc data) inout
    | None => Ok inout
    end.

(** The container's own copy of [BuildAcMatchContent], which nothing calls. *)
Fixpoint pattern_loop (sep : string) (idx : nat) (vs : list Values) (data : list Z) : res (list Z) :=
  match vs with
  | [] => Ok data
  | VStr str :: vs =>
      if bool_decide (idx = 0)%nat then pattern_loop sep (S idx) vs (data ++ runes_of str)
      else pattern_loop sep (S idx) vs ((data ++ runes_of sep) ++ runes_of str)
  | _ => Err "not string type"
  end.

Definition buildPatternQueryContent (c : Cont) (v : Values) : res (list Z) :=
  match v with
  | VStr tv => Ok (runes_of tv)
  | VStrs tv => Ok (runes_of (Join (ac_querySep c) (elems tv)))
  | VIfaces tv => pattern_loop (ac_querySep c) 0 (elems tv) []
  | _ => Err "not string type"
  end.

Definition ac_EncodeExpr (id : Z) (expr : BooleanExpr) : M (list B * Cont) unit :=
  isnil ← lift (NilInterface (Value (be_values expr)));
  if isnil : bool then mret tt
  else
    _ ← PanicIf (bool_decide (Operator (be_values expr) <> ValueOptEQ)) "ac_match support EQ operator only";
    keys ← lift (match ParseAcMatchDict (Value (be_values expr)) with
                 | Err _ => Err "ac container need string type values"
                 | r => r
                 end);
    modify (fun s => foldl (fun s v => if Incl (be_values expr) then AddIncludeID v id s
                                       else AddExcludeID v id s) s (keys : list string)).

(** [for kw := range m { keys = append(keys, []rune(kw)) }], then [Build]. *)
Definition build_machine (m : gmap string B) (old : option Mc) : res (option Mc) :=
  if bool_decide (0 < size m)%nat
  then machine ← aho_Build ((fun kv => runes_of kv.1) <$> map_range m); Ok (Some machine)
  else Ok old.

Definition ac_BuildBEContainer (c : Cont) : res Cont :=
  inc ← build_machine (incValues c) (ac_inc c);
  exc ← build_machine (excValues c) (ac_exc c);
  Ok {| ac_querySep := ac_querySep c; ac_meta := ac_meta c; ac_wc := ac_wc c; ac_inc := inc; ac_exc := exc;
        incValues := incValues c; excValues := excValues c |}.

#[export] Instance ACBEContainer_container : BEContainer B Cont := {
  EncodeWildcard := ac_AddWildcard;
  EncodeExpr := ac_EncodeExpr;
  BuildBEContainer := ac_BuildBEContainer;
  container_Retrieve := ac_Retrieve
}.

End ACContainer.

(** ** The container keeps its promise *)

Section ACContainerFacts.
Context {B Mc : Type} `{Roaring64Spec B} `{MapRange} `{AhoMachineSpec Mc}.
Local Abbreviation Cont := (ACBEContainer B Mc).

(** The keywords of an expression; none for a nil value. *)
Definition ac_keys (bv : BoolValues) : list string :=
  match NilInterface (Value bv) with
  | Ok false => match ParseAcMatchDict (Value bv) with Ok keys => keys | _ => [] end
  | _ => []
  end.

(** The text of a query; none for a nil value. *)
Definition ac_text (v : Values) : option (list Z) :=
  match NilInterface v with
  | Ok false =>
      match BuildAcMatchContent v DefaultACContainerQueryJoinSep with Ok data => Some data | _ => None end
  | _ => None
  end.

Definition ac_chits (m : FieldMeta) (bv : BoolValues) (v : Values) : bool :=
  match ac_text v with
  | Some data => existsb (keyword_hit data) (ac_keys bv)
  | None => false
  end.

(** A query that is nil, or a text without U+FFFD. *)
Definition ac_readable (m : FieldMeta) (v : Values) : bool :=
  match NilInterface v with
  | Ok true => true
  | _ => match ac_text v with Some data => bool_decide (RuneError ∉ data) | None => false end
  end.

Record ac_content (m : FieldMeta) (c : Cont) (evs : list REvent) : Prop := {
  acr_sep : ac_querySep c = DefaultACContainerQueryJoinSep;
  acr_wc : forall y, y ∈ bm_iter (ac_wc c) <-> (y, None) ∈ evs;
  acr_inc : postings_rep ac_keys true (incValues c) evs;
  acr_exc : postings_rep ac_keys false (excValues c) evs
}.

Definition ac_crep (m : FieldMeta) (c : Cont) (evs : list REvent) : Prop :=
  ac_content m c evs /\ ac_inc c = None /\ ac_exc c = None.

(** The machine of one side: none without keywords, else built from them. *)
Definition machine_of (pls : gmap string B) (mc : option Mc) : Prop :=
  match mc with
  | None => pls = ∅
  | Some machine => exists keys, aho_Build keys = Ok machine /\
      forall w, w ∈ keys <-> exists key, is_Some (pls !! key) /\ w = runes_of key
  end.

Definition ac_cbuilt (m : FieldMeta) (c : Cont) (evs : list REvent) : Prop :=
  ac_content m c evs /\ machine_of (incValues c) (ac_inc c) /\ machine_of (excValues c) (ac_exc c).

Lemma NewACBEContainer_rep m pool pool' (c : Cont) :
  bitmaps_clean pool -> NewACBEContainer m DefaultACContainerQueryJoinSep pool = (pool', c) ->
  bitmaps_clean pool' /\ ac_crep m c [].
Proof.
  intros Hp. unfold NewACBEContainer. destruct (NewPostingList pool) as [pool1 wc] eqn:Ep.
  destruct (NewPostingList_clean _ _ _ Hp Ep) as [Hp1 Hwc]. intros [= <- <-]. split; [done |]. split; [| done].
  split; simpl; [done | | apply postings_rep_empty | apply postings_rep_empty].
  intros y. rewrite Hwc. split; intros Hy; elem_nil.
Qed.

(** The two ways to read the text of a query agree. *)
Lemma buildPatternQueryContent_same (c : Cont) v : buildPatternQueryContent c v = BuildAcMatchContent v (ac_querySep c).
Proof.
  destruct v as [| | | | | | | | | | |l| | | |]; try done. simpl. generalize 0%nat, (@nil Z).
  induction (elems l) as [|vi vs IH]; intros idx data; [done |]. cbn [pattern_loop content_loop].
  destruct vi; try done. destruct idx as [|idx]; [apply IH |].
  rewrite bool_decide_eq_false_2, bool_decide_eq_true_2 by lia. apply IH.
Qed.

(** Encoding the keywords of one expression. *)
Lemma encode_keys_spec incl id keys : forall s : list B * Cont,
  bitmaps_clean s.1 ->
  let s' := foldl (fun s v => if incl : bool then AddIncludeID v id s else AddExcludeID v id s) s keys in
  bitmaps_clean s'.1 /\ ac_querySep s'.2 = ac_querySep s.2 /\ ac_wc s'.2 = ac_wc s.2 /\
  ac_inc s'.2 = ac_inc s.2 /\ ac_exc s'.2 = ac_exc s.2 /\
  (forall v y, y ∈ from_option bm_iter [] ((if incl then incValues s'.2 else excValues s'.2) !! v) <->
     y ∈ from_option bm_iter [] ((if incl then incValues s.2 else excValues s.2) !! v) \/ (v ∈ keys /\ y = id)) /\
  (if incl then excValues s'.2 = excValues s.2 else incValues s'.2 = incValues s.2).
Proof.
  induction keys as [|key keys IH]; intros s Hp; cbn [foldl].
  { split_and!; try done; [set_solver | by destruct incl]. }
  set (s1 := if incl then AddIncludeID key id s else AddExcludeID key id s).
  assert (Hs1 : bitmaps_clean s1.1 /\ ac_querySep s1.2 = ac_querySep s.2 /\ ac_wc s1.2 = ac_wc s.2 /\
    ac_inc s1.2 = ac_inc s.2 /\ ac_exc s1.2 = ac_exc s.2 /\
    (forall v y, y ∈ from_option bm_iter [] ((if incl then incValues s1.2 else excValues s1.2) !! v) <->
       y ∈ from_option bm_iter [] ((if incl then incValues s.2 else excValues s.2) !! v) \/ (v = key /\ y = id)) /\
    (if incl then excValues s1.2 = excValues s.2 else incValues s1.2 = incValues s.2)).
  { subst s1. destruct incl; unfold AddIncludeID, AddExcludeID.
    - destruct (add_posting (incValues s.2) key id s.1) as [pool' inc] eqn:Ea.
      by destruct (add_posting_elem _ _ _ _ _ _ Hp Ea).
    - destruct (add_posting (excValues s.2) key id s.1) as [pool' exc] eqn:Ea.
      by destruct (add_posting_elem _ _ _ _ _ _ Hp Ea). }
  clearbody s1. destruct Hs1 as (Hp1 & Hs1 & Hw1 & Hi1 & Hx1 & He1 & Ho1).
  destruct (IH s1 Hp1) as (Hp2 & Hs2 & Hw2 & Hi2 & Hx2 & He2 & Ho2).
  do 5 (split; [done || congruence |]). split; [| destruct incl; congruence].
  intros v y. rewrite He2, He1, elem_of_cons. naive_solver.
Qed.

Lemma ac_rep_expr m (c : Cont) evs id e pool s' r :
  ac_crep m c evs -> bitmaps_clean pool -> ac_EncodeExpr id e (pool, c) = (s', r) ->
  match r with
  | Ok _ => bitmaps_clean s'.1 /\ ac_crep m s'.2 (evs ++ [(id, Some (be_values e))])
  | _ => True
  end.
Proof.
  intros [[Hsep Hwc Hinc Hexc] [Hi Hx]] Hp. unfold ac_EncodeExpr, PanicIf.
  unfold mbind, M_bind, lift, modify, mret, M_ret.
  assert (Hwc' : forall y, y ∈ bm_iter (ac_wc c) <-> (y, None) ∈ evs ++ [(id, Some (be_values e))])
    by (intros y; rewrite Hwc, elem_of_app, list_elem_of_singleton; naive_solver).
  destruct (NilInterface (Value (be_values e))) as [isnil|err|err|] eqn:En; [| by intros [= <- <-] ..].
  destruct isnil.
  - intros [= <- <-]. split; [done |]. split; [| done]. split; [done | done | |].
    + destruct (Incl (be_values e)) eqn:Ei; [| apply postings_rep_other; [done | by intros bv [= <-]; rewrite Ei]].
      eapply (postings_rep_snoc ac_keys true _ _ _ _ _ []); [done | unfold ac_keys; by rewrite En | done | set_solver].
    + destruct (Incl (be_values e)) eqn:Ei; [apply postings_rep_other; [done | by intros bv [= <-]; rewrite Ei] |].
      eapply (postings_rep_snoc ac_keys false _ _ _ _ _ []); [done | unfold ac_keys; by rewrite En | done | set_solver].
  - case_bool_decide; [by intros [= <- <-] |]. simpl.
    destruct (ParseAcMatchDict (Value (be_values e))) as [keys|err|err|] eqn:Ep; [| by intros [= <- <-] ..].
    intros [= <- <-].
    assert (Hkeys : keys = ac_keys (be_values e)) by (unfold ac_keys; by rewrite En, Ep).
    pose proof (encode_keys_spec (Incl (be_values e)) id keys (pool, c) Hp) as Hs. simpl in Hs.
    set (s' := foldl _ (pool, c) keys) in *. destruct Hs as (Hp' & Hs' & Hw' & Hi' & Hx' & He' & Ho').
    split; [done |]. split; [| by rewrite Hi', Hx']. split; [congruence | by rewrite Hw' | |].
    + destruct (Incl (be_values e)) eqn:Ei; [by eapply postings_rep_snoc |].
      rewrite Ho'. apply postings_rep_other; [done | by intros bv [= <-]; rewrite Ei].
    + destruct (Incl (be_values e)) eqn:Ei; [| by eapply postings_rep_snoc].
      rewrite Ho'. apply postings_rep_other; [done | by intros bv [= <-]; rewrite Ei].
Qed.

Lemma build_machine_spec (pls : gmap string B) mc :
  build_machine pls None = Ok mc -> machine_of pls mc.
Proof.
  unfold build_machine. case_bool_decide as Hsz.
  - destruct (aho_Build _) as [machine|e|e|] eqn:Hb; try done. intros [= <-]. eexists. split; [exact Hb |].
    intros w. rewrite list_elem_of_fmap. split.
    + intros ([key l] & -> & Hin%elem_of_map_range). exists key. split; [by eexists | done].
    + intros (key & [l Hl] & ->). exists (key, l). by rewrite elem_of_map_range.
  - intros [= <-]. simpl. apply map_size_empty_inv. lia.
Qed.

(** ** Retrieve *)

Lemma occursb_elem w data r : occursb w data = true -> r ∈ w -> r ∈ data.
Proof.
  induction data as [|x data IH]; cbn [occursb]; rewrite orb_true_iff, bool_decide_eq_true.
  - intros [Hw | [=]] Hr. rewrite <- Hw, take_nil in Hr. elem_nil.
  - intros [Hw | Hocc] Hr; [| right; by apply IH]. rewrite <- Hw in Hr.
    apply elem_of_take in Hr as (i & Hi & _). by eapply list_elem_of_lookup_2.
Qed.

Lemma merge_terms_cases op (pls : gmap string B) terms : forall b,
  merge_terms op pls terms b = Ok (merge_ids op pls (string_of_runes <$> terms) b) \/
  exists w, w ∈ terms /\ pls !! string_of_runes w = None /\ exists e, merge_terms op pls terms b = Panic e.
Proof.
  induction terms as [|w terms IH]; intros b; [by left |]. cbn [merge_terms].
  destruct (pls !! string_of_runes w) as [pl|] eqn:Hw.
  - destruct (IH (op b pl)) as [-> | (w' & Hin & Hno & e & ->)].
    + left. unfold merge_ids. cbn. by rewrite Hw.
    + right. exists w'. split; [by right |]. eauto.
  - right. exists w. split; [by left |]. eauto.
Qed.

(** The bitmaps that one side of a search reaches. *)
Lemma search_side incl (pls : gmap string B) machine evs data y :
  machine_of pls (Some machine) -> postings_rep ac_keys incl pls evs ->
  (exists key, key ∈ string_of_runes <$> aho_MultiPatternSearch machine data /\
     y ∈ from_option bm_iter [] (pls !! key)) <->
  exists bv, (y, Some bv) ∈ evs /\ Incl bv = incl /\ existsb (keyword_hit data) (ac_keys bv) = true.
Proof.
  intros (keys & Hb & Hkeys) Hrep. setoid_rewrite existsb_exists. setoid_rewrite <- list_elem_of_In.
  unfold keyword_hit, utf8_valid. split.
  - intros (key & (w & -> & Hw)%list_elem_of_fmap & Hy). apply (aho_search_spec keys) in Hw as [Hw Hocc]; [| done].
    apply Hkeys in Hw as (key0 & _ & ->). apply Hrep in Hy as (bv & Hin & Hi & Hk). exists bv. split; [done |]. split; [done |].
    eexists. split; [exact Hk |]. rewrite !runes_of_string_of_runes, bool_decide_eq_true_2 by done. done.
  - intros (bv & Hin & Hi & key & Hk & [Hv%bool_decide_eq_true Hocc]%andb_true_iff).
    assert (Hy : y ∈ from_option bm_iter [] (pls !! key)) by (apply Hrep; eauto). exists key. split; [| done].
    apply list_elem_of_fmap. exists (runes_of key). split; [done |]. apply (aho_search_spec keys); [done |].
    split; [| done]. apply Hkeys. exists key. split; [| done]. destruct (pls !! key); [by eexists | simpl in Hy; elem_nil].
Qed.

(** Without keywords no expression is met on that side. *)
Lemma no_side incl evs data y :
  postings_rep ac_keys incl (∅ : gmap string B) evs ->
  ~ exists bv, (y, Some bv) ∈ evs /\ Incl bv = incl /\ existsb (keyword_hit data) (ac_keys bv) = true.
Proof.
  intros Hrep (bv & Hin & Hi & (key & Hk%list_elem_of_In & _)%existsb_exists).
  assert (Hy : y ∈ from_option bm_iter [] ((∅ : gmap string B) !! key)) by (apply Hrep; eauto).
  rewrite lookup_empty in Hy. simpl in Hy. elem_nil.
Qed.

(** A word that is found but has no bitmap contains U+FFFD, and so does the text. *)
Lemma missing_word (pls : gmap string B) machine data w :
  machine_of pls (Some machine) -> w ∈ aho_MultiPatternSearch machine data ->
  pls !! string_of_runes w = None -> RuneError ∈ data.
Proof.
  intros (keys & Hb & Hkeys) Hw Hno. apply (aho_search_spec keys) in Hw as [Hw Hocc]; [| done].
  apply Hkeys in Hw as (key & Hsome & ->). destruct (decide (RuneError ∈ data)) as [? | Hclean]; [done |]. exfalso.
  assert (utf8_valid key = true) as Hv.
  { apply utf8_valid_clean. intros Hin. apply Hclean. revert Hocc.
    rewrite bool_decide_eq_false_2 by (intros Hx; rewrite Hx in Hin; elem_nil). intros Hocc. by eapply occursb_elem. }
  unfold utf8_valid in Hv. apply bool_decide_eq_true in Hv. rewrite Hv in Hno. destruct Hsome. congruence.
Qed.

(** One side of [Retrieve] merges the bitmaps of the keywords found, or panics on a
    text with U+FFFD. *)
Lemma retrieve_side op incl (pls : gmap string B) mc evs data (b : B) :
  machine_of pls mc -> postings_rep ac_keys incl pls evs ->
  match match mc with
        | Some machine => merge_terms op pls (aho_MultiPatternSearch machine data) b
        | None => Ok b
        end with
  | Ok b' => exists keys, b' = merge_ids op pls keys b /\
      forall y, (exists key, key ∈ keys /\ y ∈ from_option bm_iter [] (pls !! key)) <->
        exists bv, (y, Some bv) ∈ evs /\ Incl bv = incl /\ existsb (keyword_hit data) (ac_keys bv) = true
  | Panic _ => RuneError ∈ data
  | _ => False
  end.
Proof.
  intros Hm Hrep. destruct mc as [machine|].
  - destruct (merge_terms_cases op pls (aho_MultiPatternSearch machine data) b) as [-> | (w & Hw & Hno & e & ->)].
    + eexists. split; [done |]. intros y. by apply search_side.
    + by eapply missing_word.
  - simpl in Hm. subst pls. exists []. split; [done |]. intros y. split.
    + intros (key & Hx & _). elem_nil.
    + intros Hbv. by destruct (no_side incl evs data y Hrep).
Qed.

Lemma ac_built_retrieve m (c : Cont) evs v (b : B) :
  ac_cbuilt m c evs -> bm_iter b = [] ->
  match ac_Retrieve c v b with
  | Ok b' => forall y, y ∈ bm_iter b' <->
      ((y, None) ∈ evs \/ exists bv, (y, Some bv) ∈ evs /\ Incl bv = true /\ ac_chits m bv v = true) /\
      ~ (exists bv, (y, Some bv) ∈ evs /\ Incl bv = false /\ ac_chits m bv v = true)
  | OutOfFuel => False
  | _ => ac_readable m v = false
  end.
Proof.
  intros ([Hsep Hwc Hinc Hexc] & Hmi & Hme) Hb. unfold ac_Retrieve, ac_readable, ac_chits, ac_text. rewrite Hsep.
  assert (Hor : forall y, y ∈ bm_iter (bm_or b (ac_wc c)) <-> (y, None) ∈ evs).
  { intros y. rewrite elem_of_bm_or, Hb, Hwc. split; [intros [Hy | Hy]; [elem_nil | done] | by right]. }
  destruct (NilInterface v) as [[]|e|e|] eqn:Env; simpl;
    [| | done | done | by unfold NilInterface in Env; destruct (is_array v)].
  { intros y. rewrite Hor. split; [| by intros [[Hy | (bv & _ & _ & [=])] _]].
    intros Hy. split; [by left |]. by intros (bv & _ & _ & [=]). }
  pose proof (BuildAcMatchContent_outcome v DefaultACContainerQueryJoinSep) as Hout.
  destruct (BuildAcMatchContent v _) as [data|e|e|]; [| done | done | by destruct Hout as [[? [=]] | [? [=]]]].
  unfold mbind, res_bind. cbn beta iota.
  pose proof (retrieve_side bm_or true _ _ evs data (bm_or b (ac_wc c)) Hmi Hinc) as Hleft.
  destruct (match ac_inc c with Some _ => _ | None => _ end) as [b1|e|e|];
    [| done | by rewrite bool_decide_eq_false_2 by auto | done].
  destruct Hleft as (ks1 & -> & Hleft).
  pose proof (retrieve_side bm_andnot false _ _ evs data (merge_ids bm_or (incValues c) ks1 (bm_or b (ac_wc c))) Hme Hexc) as Hright.
  destruct (match ac_exc c with Some _ => _ | None => _ end) as [b2|e|e|];
    [| done | by rewrite bool_decide_eq_false_2 by auto | done].
  destruct Hright as (ks2 & -> & Hright). intros y.
  by rewrite elem_of_merge_andnot, elem_of_merge_or, Hor, Hleft, Hright.
Qed.

#[export] Instance ACBEContainer_spec : BEContainerSpec B Cont.
Proof.
  refine {| c_rep := ac_crep; c_built := ac_cbuilt; c_hits := ac_chits; c_assign_ok := ac_readable |}.
  - intros m c evs id [[Hsep Hwc Hinc Hexc] Hnone]. split; [| done]. split; simpl; try done.
    + intros y. rewrite elem_of_bm_add, Hwc, elem_of_app, list_elem_of_singleton. naive_solver.
    + by apply postings_rep_other.
    + by apply postings_rep_other.
  - intros m c evs id e pool s' r. apply ac_rep_expr.
  - intros m c evs [[Hsep Hwc Hinc Hexc] [Hi Hx]]. simpl. unfold ac_BuildBEContainer. rewrite Hi, Hx.
    destruct (build_machine (incValues c) None) as [inc|e|e|] eqn:Hbi; try done. unfold mbind, res_bind. cbn beta iota.
    destruct (build_machine (excValues c) None) as [exc|e|e|] eqn:Hbx; try done. simpl.
    split; [done |]. split; by apply build_machine_spec.
  - intros m c evs v b. apply ac_built_retrieve.
Defined.

End ACContainerFacts.

(** ** Containers of two kinds in one index *)

Section ContainerSum.
Context {B C1 C2 : Type} `{Roaring64 B} `{BEContainer B C1} `{BEContainer B C2}.

Definition sum_EncodeExpr (id : Z) (e : BooleanExpr) : M (list B * (C1 + C2)) unit := fun s =>
  match s.2 with
  | inl c => let '(s', r) := EncodeExpr id e (s.1, c) in ((s'.1, inl s'.2), r)
  | inr c => let '(s', r) := EncodeExpr id e (s.1, c) in ((s'.1, inr s'.2), r)
  end.

#[export] Instance Sum_container : BEContainer B (C1 + C2) := {
  EncodeWildcard c id := match c with inl c => inl (EncodeWildcard c id) | inr c => inr (EncodeWildcard c id) end;
  EncodeExpr := sum_EncodeExpr;
  BuildBEContainer c :=
    match c with inl c => inl <$> BuildBEContainer c | inr c => inr <$> BuildBEContainer c end;
  container_Retrieve c v b :=
    match c with inl c => container_Retrieve c v b | inr c => container_Retrieve c v b end
}.

(** The kind of a container follows from the field's setting. *)
Context (kind : FieldMeta -> bool) `{!BEContainerSpec B C1} `{!BEContainerSpec B C2}.

Definition Sum_container_spec : BEContainerSpec B (C1 + C2).
Proof.
  refine {| c_rep := fun m c evs => match c with
                                    | inl c => kind m = true /\ c_rep m c evs
                                    | inr c => kind m = false /\ c_rep m c evs
                                    end;
            c_built := fun m c evs => match c with
                                      | inl c => kind m = true /\ c_built m c evs
                                      | inr c => kind m = false /\ c_built m c evs
                                      end;
            c_hits := fun m bv v => if kind m then c_hits (Cn:=C1) m bv v else c_hits (Cn:=C2) m bv v;
            c_assign_ok := fun m v => if kind m then c_assign_ok (Cn:=C1) m v else c_assign_ok (Cn:=C2) m v |}.
  - intros m [c|c] evs id [Hk Hr]; (split; [done | by apply rep_wildcard]).
  - intros m [c|c] evs id e pool s' r [Hk Hr] Hp; simpl; unfold sum_EncodeExpr; simpl;
      destruct (EncodeExpr id e (pool, c)) as [s1 r1] eqn:He; intros [= <- <-];
      pose proof (rep_expr m c evs id e pool s1 r1 Hr Hp He) as Hs; destruct r1; try done;
      simpl; destruct Hs as [? ?]; done.
  - intros m [c|c] evs [Hk Hr]; simpl; pose proof (rep_build m c evs Hr) as Hb; by destruct (BuildBEContainer c).
  - intros m [c|c] evs v b [Hk Hr] Hb; simpl; rewrite Hk; by apply built_retrieve.
Defined.

End ContainerSum.

(** ** The registry of the package *)

Section Factory.
Context {B Mc : Type} `{Roaring64Spec B} `{MapRange} `{AhoMachineSpec Mc}.
Local Abbreviation AnyContainer := (DefaultBEContainer B + ACBEContainer B Mc)%type.

Definition ContainerNameDefault : string := "default".
Definition ContainerNameAcMatch : string := "ac_matcher".

(** [containerFactory] after the package's [init]. *)
Definition containerFactory_init : gmap string (FieldMeta -> list B -> list B * AnyContainer) :=
  <[ContainerNameAcMatch := fun meta pool =>
      let '(pool, c) := NewACBEContainer meta DefaultACContainerQueryJoinSep pool in (pool, inr c)]>
    {[ContainerNameDefault := fun meta pool =>
        let '(pool, c) := NewDefaultBEContainer meta pool in (pool, inl c)]}.

Definition is_default_container (m : FieldMeta) : bool := bool_decide (fm_Container m = ContainerNameDefault).

#[export] Instance AnyContainer_spec : BEContainerSpec B AnyContainer := Sum_container_spec is_default_container.

(** The builders of the registry make empty containers. *)
Lemma containerFactory_init_new fn meta pool pool' c :
  containerFactory_init !! fm_Container meta = Some fn -> generator_ok (fm_Parser meta) -> bitmaps_clean pool ->
  fn meta pool = (pool', c) -> bitmaps_clean pool' /\ c_rep meta c [].
Proof.
  intros Hl Hg Hp. unfold containerFactory_init in Hl. simpl. unfold is_default_container.
  apply lookup_insert_Some in Hl as [[Hn <-] | [Hn Hl]].
  - destruct (NewACBEContainer _ _ pool) as [pool1 c1] eqn:Hc. intros [= <- <-].
    destruct (NewACBEContainer_rep _ _ _ _ Hp Hc) as [Hp1 Hrep]. split; [done |]. split; [| done]. by rewrite <- Hn.
  - apply lookup_singleton_Some in Hl as [Hn' <-].
    destruct (NewDefaultBEContainer _ pool) as [pool1 c1] eqn:Hc. intros [= <- <-].
    destruct (NewDefaultBEContainer_rep _ _ _ _ Hg Hp Hc) as [Hp1 Hrep]. split; [done |].
    split; [by apply bool_decide_eq_true | done].
Qed.

End Factory.
