(* ===== verification/Demo.v ===== *)
(** * Concrete instances and a sample system

    Instances of the parameters of the development (floating-point conversions,
    the protobuf encoding of a list of strings, the JSON encoding of range data,
    the matching machine, geohashes), and a small index on which the theorems are
    exercised. *)

From Stdlib Require Import SpecFloat Strings.Byte Strings.Ascii.
From stdpp Require Import base sorting gmap strings numbers list.
From S2P Require Import Prelude GoValues Utf8 Ids Document Cursor FieldCursor Collector Scan Holder.
From S2P Require Import Index IndexSpec IndexProofs IndexInstances Parsers DefaultHolder Builder.
From S2P Require Import RangeIdx RangeHolder AhoHolder GeoHash BuilderSpec BuilderProofs BuilderDocs Semantics System.
Open Scope Z_scope.

(** ** A floating-point instance: truncation, and a rendering by integer part *)

Definition sf_trunc (f : spec_float) : Z :=
  match f with
  | S754_finite s m e =>
      let z := if bool_decide (0 <= e) then Z.pos m * 2 ^ e else Z.quot (Z.pos m) (2 ^ (- e)) in
      if s then - z else z
  | _ => 0
  end.

(** A value that does not fit gives the least int64, as on amd64. *)
Definition sf_to_int64 (f : spec_float) : Z :=
  if bool_decide (is_i64 (sf_trunc f)) then sf_trunc f else MinInt64.

Lemma sf_to_int64_range f : is_i64 (sf_to_int64 f).
Proof. unfold sf_to_int64. case_bool_decide; [done |]. unfold is_i64, MinInt64, MaxInt64. lia. Qed.

#[export] Instance demo_float : GoFloat := {
  fmt_float _ f := fmt_int (sf_trunc f);
  ParseFloat s := float64_of_int <$> ParseInt s;
  float_to_int64 := sf_to_int64;
  float_to_uint64 f := u64 (sf_trunc f);
  float_to_int64_range := sf_to_int64_range
}.

(** ** An encoding of string lists: each character is preceded by 1, the end of
    a string is marked by 0 *)

Fixpoint enc_string (s : string) : list byte :=
  match s with
  | EmptyString => [x00]
  | String c s => x01 :: byte_of_ascii c :: enc_string s
  end.

Fixpoint dec_strings (cur : string -> string) (bs : list byte) : res (list string) :=
  match bs with
  | [] => Ok []
  | x00 :: bs => ss ← dec_strings (fun s => s) bs; Ok (cur EmptyString :: ss)
  | x01 :: b :: bs => dec_strings (fun s => cur (String (ascii_of_byte b) s)) bs
  | _ => Err "proto: cannot parse"
  end.

#[export] Instance demo_proto : ProtoStrList := {
  proto_Marshal vs :=
    if forallb utf8_valid vs then Ok (vs ≫= enc_string) else Err "proto: field contains invalid UTF-8";
  proto_Unmarshal bs := dec_strings (fun s => s) bs
}.

Lemma dec_enc_string s cur bs :
  dec_strings cur (enc_string s ++ bs) =
  match dec_strings (fun s => s) bs with Ok ss => Ok (cur s :: ss) | e => e end.
Proof.
  revert cur. induction s as [|c s IH]; intros cur; simpl.
  - by destruct (dec_strings _ bs).
  - rewrite ascii_of_byte_of_ascii, IH. done.
Qed.

#[export] Instance demo_proto_spec : ProtoStrListSpec.
Proof.
  split; simpl.
  - intros vs bytes Hm. destruct (forallb _ vs); [| done]. injection Hm as <-.
    induction vs as [|v vs IH]; [done |]. change ((v :: vs) ≫= enc_string) with (enc_string v ++ (vs ≫= enc_string)).
    by rewrite dec_enc_string, IH.
  - intros [|v vs]; [done |]. destruct (forallb _ _); [| done].
    change ((v :: vs) ≫= enc_string) with (enc_string v ++ (vs ≫= enc_string)). by destruct v.
  - intros vs. rewrite Forall_forall. setoid_rewrite list_elem_of_In. rewrite <- forallb_forall.
    destruct (forallb _ vs); [split; [done | by eexists] | split; [by intros [? ?] | done]].
Qed.

(** ** An encoding of range data: the bits of the library's numbering of it *)

Fixpoint pos_bytes (p : positive) : list byte :=
  match p with
  | xH => []
  | xO p => x00 :: pos_bytes p
  | xI p => x01 :: pos_bytes p
  end.

Fixpoint bytes_pos (bs : list byte) : positive :=
  match bs with
  | [] => 1%positive
  | x00 :: bs => xO (bytes_pos bs)
  | _ :: bs => xI (bytes_pos bs)
  end.

Lemma bytes_pos_bytes p : bytes_pos (pos_bytes p) = p.
Proof. induction p as [p IH|p IH|]; simpl; congruence. Qed.

#[export] Instance demo_json : JsonRangeTx := {
  json_Marshal op rg vs := Ok (pos_bytes (encode (op, rg, vs)));
  json_Unmarshal bs :=
    match decode (bytes_pos bs) with
    | Some t => Ok t
    | None => Err "json: cannot unmarshal"
    end
}.

#[export] Instance demo_json_spec : JsonRangeTxSpec.
Proof. split. simpl. intros op rg vs bytes [= <-]. by rewrite bytes_pos_bytes, countable.decode_encode. Qed.

(** ** A matching machine: the list of its keywords, searched one after the other *)

#[export] Instance demo_aho : AhoMachine (list (list Z)) := {
  aho_zero := [];
  aho_Build keys := Ok keys;
  aho_MultiPatternSearch m content := filter (fun w => occursb w content = true) m
}.

#[export] Instance demo_aho_spec : AhoMachineSpec (list (list Z)).
Proof.
  refine {| aho_match_empty := fun content => occursb [] content |}.
  - intros keys m content w [= <-]. simpl. rewrite list_elem_of_filter. case_bool_decide; subst; tauto.
  - intros keys. left. by eexists.
Defined.

(** ** Geohashes: any coordinate is in the one cell of the sample *)

#[export] Instance demo_geo : GeoHashLib := {
  CreateGeohash _ _ _ n := [String.substring 0 (Z.to_nat n) "wx4g0ec1mnbv"];
  CompressGeoHash codes _ _ := codes;
  geohash_Encode _ _ := "wx4g0ec1mnbv";
  ConvertStringToInt s := Z.of_nat (String.length s)
}.

#[export] Instance demo_geo_spec : GeoHashLibSpec.
Proof. split. reflexivity. Qed.

(** ** A sample registry, documents and queries *)

Abbreviation DemoCache := (list (DocCacheKey * DocIdxCache)) (only parsing).
Abbreviation DemoBuilder := (IndexerBuilder (AnyBEIndex DefaultEntriesHolder) DemoCache) (only parsing).

Definition demo_factory : gmap string DefaultEntriesHolder := InitHolderDefaults.

#[export] Instance demo_spec : HolderSpec DefaultEntriesHolder StrTokenData demo_factory :=
  DefaultHolder_spec demo_factory InitHolderDefaults_ok.

#[export] Instance demo_cache_spec : HolderCacheSpec (factory:=demo_factory) DefaultEntriesHolder StrTokenData :=
  default_cache_spec demo_factory InitHolderDefaults_ok.

Lemma demo_default : is_Some (demo_factory !! HolderNameDefault).
Proof. by eexists. Defined.

(** Document 7: (age in 18, 19 and city in sh) or (age not in 30);
    document -3: city in bj, with a version. *)
Definition demo_doc1 : Document :=
  AddConjunction (NewDocument 7)
    [In (In NewConjunction "age" (VInts KInt (Some [18; 19]))) "city" (VStr "sh");
     NotIn NewConjunction "age" (VInt KInt 30)].

Definition demo_doc2 : Document :=
  {| doc_ID := -3; doc_Version := 2; doc_Cons := [In NewConjunction "city" (VStrs (Some ["bj"]))] |}.

(** A document that the default holder refuses: no tokenizer reads a boolean. *)
Definition demo_bad : Document :=
  AddConjunction (NewDocument 9) [In NewConjunction "age" (VOther false)].

Definition demo_docs_of (key : DocCacheKey) : Document := demo_doc2.

Definition demo_opts : list (BuilderOpt DemoCache) := [WithDocLevelCache []].

(** The builder after the options, a field and the two documents. *)
Definition demo_new (opts : list (BuilderOpt DemoCache)) : DemoBuilder :=
  match NewIndexerBuilder demo_factory opts with
  | Ok b => b
  | _ => {| indexerType := 0; badConjBehavior := 0; docLevelCache := None;
            indexer := IKGroups NewKGroupsBEIndex; fieldsData := ∅; schemaHash := 0 |}
  end.

#[local] Hint Extern 0 (BEIndex (AnyBEIndex _) _) => exact (Any_index demo_factory) : typeclass_instances.

Definition demo_config (opts : list (BuilderOpt DemoCache)) : DemoBuilder :=
  (ConfigField "city" "" (ConfigField "age" "" (demo_new opts)).1).1.

Definition demo_docs : list Document := [demo_doc1; demo_doc2].

Definition demo_added (opts : list (BuilderOpt DemoCache)) : DemoBuilder :=
  (AddDocument demo_factory demo_docs (demo_config opts)).1.

Definition demo_index (opts : list (BuilderOpt DemoCache)) : AnyBEIndex DefaultEntriesHolder :=
  match (BuildIndex (demo_added opts)).2 with
  | Ok i => i
  | _ => IKGroups NewKGroupsBEIndex
  end.

Definition demo_query : Assignments := {[ "age" := VInt KInt64 18; "city" := VStr "sh" ]}.

Definition demo_answer (opts : list (BuilderOpt DemoCache)) (q : Assignments) : res (list DocID) :=
  (Retrieve (B:=zset) (demo_index opts) q [] []).2.

(** The entry ids of the first conjunctions. *)
Lemma demo_valid c b : 0 <= c < 100 -> valid_eid (16 * c + (if b : bool then 1 else 0)).
Proof.
  intros Hc. rewrite <- NewEntryID_arith by lia. apply valid_eid_New. unfold valid_conj. lia.
Qed.
