(* ===== verification/Properties.v ===== *)
(** * Properties of the system

    The theorems about the builder and the indexes it builds, stated for every
    holder, document cache, bitmap and map iteration order that keep their
    promises, each with an instance on the sample system. *)

From stdpp Require Import base sorting gmap strings numbers list.
From S2P Require Import Prelude GoValues Ids Document Cursor FieldCursor Collector Scan Holder.
From S2P Require Import Index IndexSpec IndexProofs IndexInstances Parsers DefaultHolder Builder.
From S2P Require Import BuilderSpec BuilderProofs BuilderDocs BuilderFields Semantics System DefaultIndex Demo.
Open Scope Z_scope.

Section Properties.
Context {H D K B : Type} `{EntriesHolder H D} `{MapRange} `{DocLevelCache K} `{Roaring64Spec B}.
Context (factory : gmap string H) `{!HolderSpec H D factory}
  `{!DocLevelCacheSpec K} `{!CachedHolderSpec (factory:=factory) K H D}.
Hypothesis Hdefault : is_Some (factory !! HolderNameDefault).
Variable docs_of : DocCacheKey -> Document.
#[local] Hint Extern 0 (BEIndex (AnyBEIndex _) _) => exact (Any_index factory) : typeclass_instances.
Local Abbreviation Bld := (IndexerBuilder (AnyBEIndex H) K).
Implicit Types (b : Bld) (log : list LogEntry) (pool : list (DocIDCollector B)).

(** What a builder serves after documents were added to an empty one. *)
Lemma added_serves docs b b1 b2 i :
  reachable factory docs_of b [] -> Forall (doc_cacheable factory K docs_of) docs ->
  AddDocument factory docs b = (b1, Ok tt) -> BuildIndex b1 = (b2, Ok i) ->
  serves factory i (fieldsData b1) (docs ≫= accepted factory (fieldsData b1)) /\
  Forall (accepted_ok factory (fieldsData b1)) docs /\
  (badConjBehavior b <> SkipBadConj -> docs ≫= accepted factory (fieldsData b1) = docs ≫= doc_log).
Proof.
  intros Hr Hdocs Hadd Hbuild.
  destruct (reachable_inv factory Hdefault docs_of b [] Hr) as [Hb Hs].
  destruct (wp_elim (AddDocument_accepted factory Hdefault docs_of docs b [] Hb Hs Hdocs) Hadd)
    as (_ & n & Hb1 & Hskip & Hok & Hn). subst n. rewrite firstn_all in *. simpl in Hb1.
  destruct (wp_elim (BuildIndex_spec factory b1 _ Hb1) Hbuild) as (_ & _ & Hserves). done.
Qed.

(** Every conjunction of a document that is accepted in full is indexable. *)
Lemma all_indexable descs docs :
  docs ≫= accepted factory descs = docs ≫= doc_log ->
  forall doc cj, doc ∈ docs -> cj ∈ doc_Cons doc -> indexable factory descs cj = true.
Proof.
  intros Heq doc cj Hdoc [n Hn]%list_elem_of_lookup.
  assert (conj_entry (doc_ID doc) (0 + Z.of_nat n) cj ∈ docs ≫= doc_log) as Hin.
  { apply list_elem_of_bind. exists doc. split; [| done]. apply elem_of_conj_log. eauto. }
  rewrite <- Heq in Hin. apply list_elem_of_bind in Hin as (doc' & Hin & _).
  by apply list_elem_of_filter in Hin as [Hin _].
Qed.

(** A document all of whose conjunctions were accepted is admissible. *)
Lemma accepted_admissible descs doc :
  doc_Cons doc <> [] -> accepted_ok factory descs doc ->
  [doc] ≫= accepted factory descs = [doc] ≫= doc_log -> admissible factory descs doc.
Proof.
  intros Hne [Hlen Hents] Hall. split; [done |]. split; [done |]. intros i cj Hi.
  assert (cj ∈ doc_Cons doc) as Hcj by (by eapply list_elem_of_lookup_2).
  pose proof (all_indexable descs [doc] Hall doc cj ltac:(by left) Hcj) as Hix. split; [| done].
  assert (conj_entry (doc_ID doc) (Z.of_nat i) cj ∈ accepted factory descs doc) as Hin.
  { apply list_elem_of_filter. split; [done |]. apply elem_of_conj_log. by exists i, cj. }
  rewrite Forall_forall in Hents. destruct (Hents _ Hin) as (j & Hj & _). simpl in Hj.
  apply lookup_lt_Some in Hi. unfold fields_ok in *. lia.
Qed.

(** A document that consists of one include expression is in the answer exactly
    when the query meets the expression. *)
Lemma single_expr_answer docs b b1 b2 i q pool pool' ids f d doc cj bv :
  reachable factory docs_of b [] -> badConjBehavior b <> SkipBadConj ->
  Forall (doc_cacheable factory K docs_of) docs -> NoDup (doc_ID <$> docs) ->
  AddDocument factory docs b = (b1, Ok tt) -> BuildIndex b1 = (b2, Ok i) ->
  pool_ok pool -> Retrieve i q [] pool = (pool', Ok ids) ->
  fieldsData b1 !! f = Some d ->
  doc ∈ docs -> doc_Cons doc = [cj] -> Expressions cj = {[ f := [bv] ]} -> Incl bv = true ->
  is_Ok (build_data factory (fd_Container d) d bv) /\
  (doc_ID doc ∈ ids <-> log_hit factory (fieldsData b1) q f bv = true).
Proof.
  intros Hr Hbe Hdocs Hnd Hadd Hbuild Hpool Hret Hd Hdoc Hcons Hex Hinc.
  destruct (added_serves _ _ _ _ _ Hr Hdocs Hadd Hbuild) as (Hserves & Hok & Hall).
  pose proof (NoDup_accepted factory _ _ Hnd Hok) as Hnodup.
  destruct (Retrieve_spec factory _ _ _ _ _ _ _ Hserves Hnodup Hpool Hret) as [_ [_ Hids]].
  assert (Hidx : indexable factory (fieldsData b1) cj = true)
    by (apply (all_indexable _ _ (Hall Hbe) doc cj Hdoc); rewrite Hcons; by left).
  split.
  { apply (indexable_data factory _ cj f bv d [bv] Hidx); [| by left | done]. rewrite Hex. apply lookup_singleton_eq. }
  rewrite Hids, (accepted_docs factory _ _ _ _ Hok).
  assert (Hsat : conj_sat (log_hit factory (fieldsData b1) q) cj = log_hit factory (fieldsData b1) q f bv).
  { unfold conj_sat, field_sat, exclude_hit, include_hit, has_include. rewrite Hex, map_to_list_singleton. simpl.
    rewrite Hinc. simpl. by rewrite !orb_false_r, andb_true_r. }
  rewrite <- Hsat. split.
  - intros (doc' & cj' & Hdoc' & Hid & Hcj' & _ & Hs).
    assert (doc' = doc) as -> by (eapply NoDup_fmap_eq; [exact Hnd | done ..]).
    rewrite Hcons in Hcj'. apply list_elem_of_singleton in Hcj' as ->. done.
  - intros Hs. exists doc, cj. split_and!; try done. rewrite Hcons. by left.
Qed.

(** C1.  Retrieval is exact: on the index built from documents with distinct
    ids, whichever index type is used, a query answers with the ids of exactly
    the documents that have a satisfied conjunction, increasing as uint64
    values (hence without duplicates); it returns an error only for a query value
    that the holder of its field cannot read, panics only for such a value or for
    a Go array among the values, and leaves only clean collectors in the pool. *)
Theorem retrieval_exact docs b b1 b2 i q pool pool' r :
  reachable factory docs_of b [] -> badConjBehavior b <> SkipBadConj ->
  Forall (doc_cacheable factory K docs_of) docs -> NoDup (doc_ID <$> docs) ->
  AddDocument factory docs b = (b1, Ok tt) -> BuildIndex b1 = (b2, Ok i) ->
  pool_ok pool -> Retrieve i q [] pool = (pool', r) ->
  pool_ok pool' /\
  match r with
  | Ok ids => StronglySorted (fun x y => u64 x < u64 y) ids /\
      forall id, id ∈ ids <->
        exists doc, doc ∈ docs /\ doc_ID doc = id /\ doc_sat (log_hit factory (fieldsData b1) q) doc = true
  | Err _ => ~ query_ok factory (fieldsData b1) q
  | Panic _ => ~ (query_plain q /\ query_ok factory (fieldsData b1) q)
  | OutOfFuel => False
  end.
Proof.
  intros Hr Hbe Hdocs Hnd Hadd Hbuild Hpool Hret.
  destruct (added_serves _ _ _ _ _ Hr Hdocs Hadd Hbuild) as (Hserves & Hok & Hall).
  pose proof (NoDup_accepted factory _ _ Hnd Hok) as Hnodup.
  destruct (Retrieve_spec factory _ _ _ _ _ _ _ Hserves Hnodup Hpool Hret) as [Hpool' Hres].
  split; [done |]. destruct r as [ids|e|e|]; try done. destruct Hres as [Hsorted Hids]. split; [done |].
  intros id. rewrite Hids, (accepted_docs factory _ _ _ _ Hok). unfold doc_sat.
  setoid_rewrite existsb_exists. setoid_rewrite <- list_elem_of_In. split.
  - intros (doc & cj & ? & ? & ? & _ & ?). exists doc. split; [done |]. split; [done |]. by exists cj.
  - intros (doc & Hd & Hid & cj & Hcj & Hs). exists doc, cj. split_and!; try done.
    by eapply (all_indexable _ _ (Hall Hbe)).
Qed.

(** C29.  With [SkipBadConj] the answer is the set of the documents with a
    satisfied conjunction among those whose expressions their holders accept. *)
Theorem retrieval_skip docs b b1 b2 i q pool pool' ids :
  reachable factory docs_of b [] -> Forall (doc_cacheable factory K docs_of) docs -> NoDup (doc_ID <$> docs) ->
  AddDocument factory docs b = (b1, Ok tt) -> BuildIndex b1 = (b2, Ok i) ->
  pool_ok pool -> Retrieve i q [] pool = (pool', Ok ids) ->
  forall id, id ∈ ids <->
    exists doc cj, doc ∈ docs /\ doc_ID doc = id /\ cj ∈ doc_Cons doc /\
      indexable factory (fieldsData b1) cj = true /\
      conj_sat (log_hit factory (fieldsData b1) q) cj = true.
Proof.
  intros Hr Hdocs Hnd Hadd Hbuild Hpool Hret id.
  destruct (added_serves _ _ _ _ _ Hr Hdocs Hadd Hbuild) as (Hserves & Hok & _).
  pose proof (NoDup_accepted factory _ _ Hnd Hok) as Hnodup.
  destruct (Retrieve_spec factory _ _ _ _ _ _ _ Hserves Hnodup Hpool Hret) as [_ [_ Hids]].
  by rewrite Hids, (accepted_docs factory _ _ _ _ Hok).
Qed.

(** C4.  The builder's invariant: in every state reachable by construction,
    field configuration, adding documents (with or without success) and reset,
    the index holds exactly the transactions of the accepted conjunctions, and
    every cached entry describes the document it stands for.  The documents are
    arbitrary when there is no cache; with one, a document that has a version must
    be the only one with its id and version, whatever its holders prepare for it
    must be encodable ([doc_cacheable], a condition of [reachable]), and the holders
    must decode what they encode ([CachedHolderSpec]). *)
Theorem builder_invariant b log :
  reachable factory docs_of b log -> binv factory b log /\ cache_sound factory docs_of b.
Proof. apply (reachable_inv factory Hdefault). Qed.


(** C9.  The two index types are observationally equal: indexes of either type
    built from the same log and fields give the same answer to every query. *)
Theorem index_types_agree b b' log b1 b1' i i' q pool pool' pool1 pool1' ids ids' :
  reachable factory docs_of b log -> reachable factory docs_of b' log ->
  fieldsData b = fieldsData b' -> NoDup log.*1 ->
  BuildIndex b = (b1, Ok i) -> BuildIndex b' = (b1', Ok i') -> pool_ok pool -> pool_ok pool' ->
  Retrieve i q [] pool = (pool1, Ok ids) -> Retrieve i' q [] pool' = (pool1', Ok ids') -> ids = ids'.
Proof.
  intros Hr Hr' Hf Hnd Hb Hb' Hp Hp' Hret Hret'.
  destruct (reachable_inv factory Hdefault docs_of _ _ Hr) as [Hi _].
  destruct (reachable_inv factory Hdefault docs_of _ _ Hr') as [Hi' _].
  destruct (wp_elim (BuildIndex_spec factory b log Hi) Hb) as (_ & _ & Hs).
  destruct (wp_elim (BuildIndex_spec factory b' log Hi') Hb') as (_ & _ & Hs').
  rewrite <- Hf in Hs'.
  destruct (Retrieve_spec factory _ _ _ _ _ _ _ Hs Hnd Hp Hret) as [_ [Hsort Hids]].
  destruct (Retrieve_spec factory _ _ _ _ _ _ _ Hs' Hnd Hp' Hret') as [_ [Hsort' Hids']].
  apply (u64_sorted_unique ids ids' Hsort Hsort'). intros id. by rewrite Hids, Hids'.
Qed.

(** C12.  A query whose values are readable by the holders of their fields, and
    are not Go arrays, is answered: retrieval terminates without error or panic. *)
Theorem retrieval_total b log b1 i q pool :
  reachable factory docs_of b log -> NoDup log.*1 -> BuildIndex b = (b1, Ok i) ->
  pool_ok pool -> query_plain q -> query_ok factory (fieldsData b) q ->
  exists pool' ids, Retrieve i q [] pool = (pool', Ok ids).
Proof.
  intros Hr Hnd Hb Hp Hplain Hq.
  destruct (reachable_inv factory Hdefault docs_of _ _ Hr) as [Hi _].
  destruct (wp_elim (BuildIndex_spec factory b log Hi) Hb) as (_ & _ & Hs).
  destruct (Retrieve i q [] pool) as [pool' r] eqn:Hret.
  destruct (Retrieve_spec factory _ _ _ _ _ _ _ Hs Hnd Hp Hret) as [_ Hres].
  destruct r as [ids|e|e|]; [eauto | done | by destruct Hres | done].
Qed.

(** What the fields are after documents were added. *)
Lemma added_fields docs b log b' r :
  reachable factory docs_of b log -> Forall (doc_cacheable factory K docs_of) docs ->
  AddDocument factory docs b = (b', r) ->
  fieldsData b ⊆ fieldsData b' /\ fields_from (fieldsData b) (fieldsData b') /\ descs_ok (fieldsData b').
Proof.
  intros Hr Hdocs Hadd. destruct (reachable_inv factory Hdefault docs_of _ _ Hr) as [Hb Hs].
  destruct (wp_elim (AddDocument_spec factory Hdefault docs_of docs b log Hb Hs Hdocs) Hadd)
    as (_ & Hsub & _ & n & kept & _ & (txs & wild & Hb' & _) & _).
  split; [done |]. split; [| apply (built_fields _ _ _ _ Hb')].
  pose proof (AddDocument_default_fields factory docs b) as Hdf. by rewrite Hadd in Hdf.
Qed.

(** C6.  Which documents are accepted: without [SkipBadConj], adding a document
    succeeds exactly when it has between 1 and 255 conjunctions, each with an id in
    range (|document id| <= 2^43 - 1, at most 255 include fields) and with expressions
    that the holders of their fields accept, a field not configured yet counting as
    one with the default container; otherwise it ends in an error or a panic.  The
    condition is on the state before the document is added. *)
Theorem add_document_iff b log doc b' r :
  reachable factory docs_of b log -> doc_cacheable factory K docs_of doc -> badConjBehavior b <> SkipBadConj ->
  AddDocument factory [doc] b = (b', r) ->
  r <> OutOfFuel /\ (r = Ok tt <-> acceptable factory (fieldsData b) doc).
Proof.
  intros Hr Hd Hbe Hadd. pose proof (proj2 (Forall_singleton _ _) Hd) as Hds.
  destruct (reachable_inv factory Hdefault docs_of _ _ Hr) as [Hb Hs].
  destruct (added_fields _ _ _ _ _ Hr Hds Hadd) as (Hsub & Hfrom & Hdescs).
  destruct (wp_elim (AddDocument_accepted factory Hdefault docs_of [doc] b log Hb Hs Hds) Hadd)
    as (_ & n & Hb' & Hall & Hok & Hn).
  destruct r as [[]|e|e|]; [| | | done]; (split; [done |]).
  2-3: split; [done |]; intros Hadm; destruct Hn as (doc' & Hdoc' & Hf); exfalso;
    apply list_elem_of_lookup_2, list_elem_of_singleton in Hdoc' as ->;
    by apply (acceptable_no_fault factory _ _ _ Hsub Hfrom Hdescs Hadm).
  split; [| done]. intros _. simpl in Hn. subst n. simpl in Hok, Hall.
  apply (admissible_acceptable factory _ _ _ Hsub Hfrom Hdescs).
  apply accepted_admissible; [| by inversion Hok | by apply Hall].
  intros Hnil. unfold AddDocument, forM, validDocument, mbind, M_bind, lift in Hadd.
  by rewrite Hnil in Hadd.
Qed.

(** C2.  Acceptable documents are served: when no holder's compilation fails,
    adding documents that have between 1 and 255 conjunctions, ids in range and
    expressions that the holders of their fields accept (judged before they are
    added, a new field being one of the default container) succeeds without
    [SkipBadConj], building the index afterwards succeeds too, and the index answers
    for exactly their conjunctions. *)
Theorem admissible_served docs b b1 r :
  (forall h e, (CompileEntries h).2 <> Err e) ->
  reachable factory docs_of b [] -> badConjBehavior b <> SkipBadConj -> Forall (doc_cacheable factory K docs_of) docs ->
  Forall (acceptable factory (fieldsData b)) docs -> AddDocument factory docs b = (b1, r) ->
  r = Ok tt /\ exists b2 i, BuildIndex b1 = (b2, Ok i) /\ serves factory i (fieldsData b1) (docs ≫= doc_log).
Proof.
  intros Hcompile Hr Hbe Hdocs Hadm Hadd.
  destruct (reachable_inv factory Hdefault docs_of _ _ Hr) as [Hb Hs].
  destruct (added_fields _ _ _ _ _ Hr Hdocs Hadd) as (Hsub & Hfrom & Hdescs).
  destruct (wp_elim (AddDocument_accepted factory Hdefault docs_of docs b [] Hb Hs Hdocs) Hadd)
    as (_ & n & Hb' & Hall & _ & Hn).
  assert (r = Ok tt) as ->.
  { destruct r as [[]|e|e|]; [done | | | done]; exfalso; destruct Hn as (doc & Hdoc & Hf);
      rewrite Forall_lookup in Hadm;
      by apply (acceptable_no_fault factory _ _ _ Hsub Hfrom Hdescs (Hadm _ _ Hdoc)). }
  split; [done |]. subst n. rewrite firstn_all in *. rewrite (Hall Hbe) in Hb'.
  by apply (BuildIndex_total factory b1 _ Hcompile).
Qed.


(** C14.  Caching round-trips: what is stored for a prepared conjunction is
    restored with the same id and size, and the same transactions in some order,
    provided that all of its data can be encoded (an expression whose data cannot is
    left out of the cache) and that the holders decode what they encode
    ([HolderCacheSpec]; the default and the keyword holder do, the range holder does
    not). *)
Theorem cache_roundtrip `{!HolderCacheSpec (factory:=factory) H D} b txs wild docID p cd b' r :
  built factory b txs wild -> cd_ready factory b docID p cd -> Forall tx_encodes (cd_fieldData cd) ->
  toConjIndexingData factory docID (toCacheResult cd) b = (b', r) ->
  exists cd', r = Ok cd' /\ cd_conjID cd' = cd_conjID cd /\ cd_incSize cd' = cd_incSize cd /\
    cd_fieldData cd' ≡ₚ cd_fieldData cd.
Proof.
  intros Hb Hcd Henc Hrun.
  pose proof (toCacheResult_spec factory b docID p cd (built_fields _ _ _ _ Hb) Hcd Henc) as Hcc.
  destruct (wp_elim (toConjIndexingData_spec factory Hdefault b txs wild docID p _ Hb Hcc) Hrun)
    as (Hp & Hf & _ & cd' & -> & Hcd'). exists cd'. split; [done |].
  split; [by rewrite (cr_id _ _ _ _ _ Hcd), (cr_id _ _ _ _ _ Hcd') |].
  split; [by rewrite (cr_size _ _ _ _ _ Hcd), (cr_size _ _ _ _ _ Hcd') |].
  destruct (cr_exprs _ _ _ _ _ Hcd) as (es & Hes & Hall).
  destruct (cr_exprs _ _ _ _ _ Hcd') as (es' & Hes' & Hall').
  apply (prepared_unique factory b b' p.1 es es'); [by rewrite Hes, Hes' | done | done | apply Hp].
Qed.

(** [Reset] empties the index and keeps the configured fields. *)
Lemma reset_empties b log b' :
  reachable factory docs_of b log -> Reset factory b = (b', Ok tt) ->
  reachable factory docs_of b' [] /\ binv factory b' [] /\ fieldsData b' = fieldsData b.
Proof.
  intros Hr Hreset. pose proof (reach_reset factory docs_of b log b' tt Hr Hreset) as Hr'.
  split; [done |]. split; [by apply (reachable_inv factory Hdefault docs_of) |].
  destruct (reachable_inv factory Hdefault docs_of _ _ Hr) as [(txs & wild & Hb & _) _].
  by destruct (wp_elim (initIndexer_spec factory Hdefault b (built_fields _ _ _ _ Hb)) Hreset) as [? _].
Qed.

(** A field is configured once: a second configuration panics and changes
    nothing; the first one gives the field a fresh id and the default container
    when none is named. *)
Lemma config_field_once b log f ct b' r :
  reachable factory docs_of b log -> ConfigField f ct b = (b', r) ->
  (is_Some (fieldsData b !! f) -> b' = b /\ exists e, r = Panic e) /\
  (fieldsData b !! f = None -> r = Ok tt /\ exists d, fieldsData b' = <[f := d]> (fieldsData b) /\
     fd_Container d = (if bool_decide (ct = "") then HolderNameDefault else ct) /\
     forall f' d', fieldsData b !! f' = Some d' -> fd_ID d' <> fd_ID d).
Proof.
  intros Hr Hc. destruct (reachable_inv factory Hdefault docs_of _ _ Hr) as [(txs & wild & Hb & _) _].
  unfold ConfigField, mbind, M_bind, PanicIfErr, mret, M_ret, configureField in Hc.
  destruct (fieldsData b !! f) as [d|] eqn:Ef; injection Hc as <- <-.
  - split; [intros _; split; [done | by eexists] | done].
  - split; [by intros [? ?] |]. intros _. split; [done |]. eexists. split; [reflexivity |]. simpl.
    split; [done |]. intros f' d' Hd'. pose proof (fields_ids _ (built_fields _ _ _ _ Hb) _ _ Hd'). lia.
Qed.

End Properties.

(** ** The sample system *)

#[local] Hint Extern 0 (BEIndex (AnyBEIndex _) _) => exact (Any_index demo_factory) : typeclass_instances.

Lemma demo_opts_ok opts : (forall k, WithDocLevelCache k ∈ opts -> k = []) ->
  Forall (opt_ok (K:=DemoCache)) opts.
Proof.
  intros Hk. rewrite Forall_forall. intros [v|k|t] Hin; simpl; try done.
  rewrite (Hk k Hin). intros key e He. by apply not_elem_of_nil in He.
Qed.

Lemma demo_reachable opts : (forall k, WithDocLevelCache k ∈ opts -> k = []) ->
  NewIndexerBuilder demo_factory opts = Ok (demo_new opts) ->
  reachable demo_factory demo_docs_of (demo_config opts) [].
Proof.
  intros Hk Hnew. unfold demo_config.
  eapply (reach_config _ _ _ _ "city" ""); [| apply surjective_pairing].
  eapply (reach_config _ _ _ _ "age" ""); [| apply surjective_pairing].
  by eapply reach_new; [apply demo_opts_ok |].
Qed.

Lemma demo_cache_opts k : WithDocLevelCache k ∈ demo_opts -> k = ([] : DemoCache).
Proof. by intros [= ->]%list_elem_of_singleton. Qed.

Lemma demo_doc2_encodes : doc_encodes demo_factory demo_doc2.
Proof.
  apply default_doc_encodes. intros cj f exprs bv ts ->%list_elem_of_singleton Hf Hbv Hts. simpl in Hf.
  apply lookup_insert_Some in Hf as [[_ <-] | [_ Hf]]; [| by rewrite lookup_empty in Hf].
  apply list_elem_of_singleton in Hbv as ->. injection Hts as <-. by repeat constructor.
Qed.

Lemma demo_known doc : doc ∈ demo_docs -> doc_cacheable demo_factory DemoCache demo_docs_of doc.
Proof.
  intros [-> | [-> | []%not_elem_of_nil]%elem_of_cons]%elem_of_cons; [done |].
  intros _ _. split; [done | apply demo_doc2_encodes].
Qed.

Lemma demo_known_all : Forall (doc_cacheable demo_factory DemoCache demo_docs_of) demo_docs.
Proof. rewrite Forall_forall. apply demo_known. Qed.

Lemma demo_nodup : NoDup (doc_ID <$> demo_docs).
Proof. by apply (bool_decide_eq_true_1 _), eq_refl. Qed.

Lemma retrieval_exact_witness :
  demo_answer demo_opts demo_query = Ok [7] /\
  exists doc, doc ∈ demo_docs /\ doc_ID doc = 7 /\
    doc_sat (log_hit demo_factory (fieldsData (demo_added demo_opts)) demo_query) doc = true.
Proof.
  assert (demo_answer demo_opts demo_query = Ok [7]) as Hans by (vm_compute; reflexivity).
  split; [exact Hans |].
  destruct (retrieval_exact (B:=zset) demo_factory demo_default demo_docs_of demo_docs
    (demo_config demo_opts) (demo_added demo_opts) (BuildIndex (demo_added demo_opts)).1
    (demo_index demo_opts) demo_query []
    (Retrieve (B:=zset) (demo_index demo_opts) demo_query [] []).1 (Ok [7])) as [_ [_ Hids]].
  - apply demo_reachable; [apply demo_cache_opts | vm_compute; reflexivity].
  - vm_compute. discriminate.
  - apply demo_known_all.
  - apply demo_nodup.
  - vm_compute. reflexivity.
  - vm_compute. reflexivity.
  - constructor.
  - rewrite <- Hans. apply surjective_pairing.
  - apply Hids. by left.
Defined.

(** A document with a refused and an accepted conjunction. *)
Definition demo_mixed : Document :=
  AddConjunction (NewDocument 5)
    [In NewConjunction "age" (VOther false); In NewConjunction "city" (VStr "sh")].

Definition demo_skip : DemoBuilder :=
  (AddDocument demo_factory [demo_mixed] (demo_config [WithBadConjBehavior 1])).1.

Lemma retrieval_skip_witness :
  exists doc cj, doc ∈ [demo_mixed] /\ doc_ID doc = 5 /\ cj ∈ doc_Cons doc /\
    indexable demo_factory (fieldsData demo_skip) cj = true /\
    conj_sat (log_hit demo_factory (fieldsData demo_skip) demo_query) cj = true.
Proof.
  refine (proj1 (retrieval_skip (B:=zset) demo_factory demo_default demo_docs_of [demo_mixed]
    (demo_config [WithBadConjBehavior 1]) demo_skip (BuildIndex demo_skip).1 (indexer (BuildIndex demo_skip).1)
    demo_query [] (Retrieve (B:=zset) (indexer (BuildIndex demo_skip).1) demo_query [] []).1 [5]
    _ _ _ _ _ _ _ 5) _).
  - apply demo_reachable; [by intros k Hk%list_elem_of_singleton | vm_compute; reflexivity].
  - constructor; [done | constructor].
  - apply NoDup_singleton.
  - vm_compute. reflexivity.
  - vm_compute. reflexivity.
  - constructor.
  - vm_compute. reflexivity.
  - by left.
Defined.

(** The state after the first document, and its log. *)
Definition demo_one (opts : list (BuilderOpt DemoCache)) : DemoBuilder :=
  (AddDocument demo_factory [demo_doc1] (demo_config opts)).1.

Definition demo_log : list LogEntry := doc_log demo_doc1.

Lemma demo_one_reachable opts : (forall k, WithDocLevelCache k ∈ opts -> k = []) ->
  NewIndexerBuilder demo_factory opts = Ok (demo_new opts) ->
  (AddDocument demo_factory [demo_doc1] (demo_config opts)).2 = Ok tt ->
  accepted demo_factory (fieldsData (demo_one opts)) demo_doc1 = demo_log ->
  reachable demo_factory demo_docs_of (demo_one opts) demo_log.
Proof.
  intros Hk Hnew Hok Hacc. rewrite <- Hacc.
  apply (reach_doc demo_factory demo_docs_of (demo_config opts) [] demo_doc1 (demo_one opts) (Ok tt)).
  - by apply demo_reachable.
  - by apply demo_known; left.
  - rewrite <- Hok. apply surjective_pairing.
Qed.

Lemma demo_one_default : reachable demo_factory demo_docs_of (demo_one demo_opts) demo_log.
Proof. apply demo_one_reachable; [apply demo_cache_opts | vm_compute; reflexivity ..]. Qed.

Lemma demo_one_compact :
  reachable demo_factory demo_docs_of (demo_one [WithIndexerType IndexerTypeCompact]) demo_log.
Proof.
  apply demo_one_reachable; [by intros k Hk%list_elem_of_singleton | vm_compute; reflexivity ..].
Qed.

(** The state after both documents: the second is in the cache. *)
Definition demo_two : DemoBuilder := (AddDocument demo_factory [demo_doc2] (demo_one demo_opts)).1.

Lemma builder_invariant_witness :
  (length <$> docLevelCache demo_two) = Some 1%nat /\
  binv demo_factory demo_two (demo_docs ≫= doc_log) /\
  cache_sound demo_factory demo_docs_of demo_two.
Proof.
  split; [vm_compute; reflexivity |].
  apply (builder_invariant demo_factory demo_default).
  assert (accepted demo_factory (fieldsData demo_two) demo_doc2 = doc_log demo_doc2) as Hacc
    by (vm_compute; reflexivity).
  replace (demo_docs ≫= doc_log) with (demo_log ++ doc_log demo_doc2) by (vm_compute; reflexivity).
  rewrite <- Hacc.
  apply (reach_doc demo_factory demo_docs_of (demo_one demo_opts) demo_log demo_doc2 demo_two (Ok tt)).
  - apply demo_one_default.
  - apply demo_known. right. by left.
  - vm_compute. reflexivity.
Defined.

Lemma demo_log_nodup : NoDup demo_log.*1.
Proof. by apply (bool_decide_eq_true_1 _), eq_refl. Qed.


Lemma index_types_agree_witness :
  (Retrieve (B:=zset) (indexer (BuildIndex (demo_one demo_opts)).1) demo_query [] []).2 = Ok [7] /\
  forall ids, (Retrieve (B:=zset) (indexer (BuildIndex (demo_one [WithIndexerType IndexerTypeCompact])).1)
     demo_query [] []).2 = Ok ids -> [7] = ids.
Proof.
  assert ((Retrieve (B:=zset) (indexer (BuildIndex (demo_one demo_opts)).1) demo_query [] []).2 = Ok [7])
    as Hans by (vm_compute; reflexivity).
  split; [exact Hans |]. intros ids Hids.
  eapply (index_types_agree (B:=zset) demo_factory demo_default demo_docs_of
    (demo_one demo_opts) (demo_one [WithIndexerType IndexerTypeCompact]) demo_log
    (BuildIndex (demo_one demo_opts)).1 (BuildIndex (demo_one [WithIndexerType IndexerTypeCompact])).1
    (indexer (BuildIndex (demo_one demo_opts)).1)
    (indexer (BuildIndex (demo_one [WithIndexerType IndexerTypeCompact])).1) demo_query [] []).
  - apply demo_one_default.
  - apply demo_one_compact.
  - vm_compute. reflexivity.
  - apply demo_log_nodup.
  - vm_compute. reflexivity.
  - vm_compute. reflexivity.
  - constructor.
  - constructor.
  - rewrite <- Hans. apply surjective_pairing.
  - rewrite <- Hids. apply surjective_pairing.
Defined.

Lemma demo_query_ok descs : query_ok demo_factory descs demo_query.
Proof.
  intros f v d Hq _. unfold demo_query in Hq.
  assert (v = VInt KInt64 18 \/ v = VStr "sh") as Hv.
  { apply lookup_insert_Some in Hq as [[_ <-] | [_ Hq]]; [by left |].
    apply lookup_singleton_Some in Hq as [_ <-]. by right. }
  change (default_assign_ok demo_factory (fd_Container d) d v = true).
  unfold default_assign_ok, registered_tokenizer.
  destruct (demo_factory !! fd_Container d) as [h|] eqn:Eh; [| by destruct Hv as [-> | ->]].
  unfold demo_factory, InitHolderDefaults, RegisterEntriesHolder in Eh.
  apply lookup_insert_Some in Eh as [[_ <-] | [_ Eh]]; [| by rewrite lookup_empty in Eh].
  by destruct Hv as [-> | ->].
Qed.

Lemma retrieval_total_witness :
  exists pool' ids, Retrieve (B:=zset) (indexer (BuildIndex (demo_one demo_opts)).1) demo_query [] []
                    = (pool', Ok ids).
Proof.
  apply (retrieval_total (B:=zset) demo_factory demo_default demo_docs_of (demo_one demo_opts)
    demo_log (BuildIndex (demo_one demo_opts)).1).
  - apply demo_one_default.
  - apply demo_log_nodup.
  - vm_compute. reflexivity.
  - constructor.
  - apply (bool_decide_unpack (query_plain demo_query)). vm_compute. reflexivity.
  - apply demo_query_ok.
Defined.





Lemma demo_compile (h : DefaultEntriesHolder) e : (CompileEntries h).2 <> Err e.
Proof. done. Qed.

(** [acceptable] as a program. *)
Definition acceptableb {H D} `{EntriesHolder H D} (factory : gmap string H) descs (doc : Document) : bool :=
  bool_decide (doc_Cons doc <> []) && bool_decide (length (doc_Cons doc) <= 255)%nat &&
  forallb (fun p : nat * Conjunction =>
    bool_decide (fields_ok (doc_ID doc) (Z.of_nat p.1) (CalcConjSize p.2)) &&
    forallb (fun kv : BEField * list BoolValues => forallb (fun bv =>
      match build_data factory (fd_Container (field_desc descs kv.1)) (field_desc descs kv.1) bv with
      | Ok _ => true
      | _ => false
      end) kv.2) (map_to_list (Expressions p.2)))
    (imap pair (doc_Cons doc)).

Lemma acceptableb_ok {H D} `{EntriesHolder H D} (factory : gmap string H) descs doc :
  acceptableb factory descs doc = true -> acceptable factory descs doc.
Proof.
  unfold acceptableb. rewrite !andb_true_iff, !bool_decide_eq_true, forallb_forall.
  intros [[Hne Hlen] Hall]. split; [done |]. split; [done |]. intros n cj Hn.
  specialize (Hall (n, cj)). rewrite andb_true_iff, bool_decide_eq_true, forallb_forall in Hall.
  destruct Hall as [Hids Hex]; [apply list_elem_of_In, elem_of_lookup_imap; eauto |]. split; [done |].
  intros f exprs bv Hf Hbv. specialize (Hex (f, exprs)). rewrite forallb_forall in Hex.
  specialize (Hex (proj1 (list_elem_of_In _ _) (proj2 (elem_of_map_to_list _ _ _) Hf)) bv
    (proj1 (list_elem_of_In _ _) Hbv)). simpl in Hex.
  destruct (build_data _ _ _ bv) as [x|e|e|]; [by exists x | done ..].
Qed.

(** A document with a field that is not configured yet: the first document is
    added to a builder without fields. *)
Lemma demo_new_reachable : reachable demo_factory demo_docs_of (demo_new demo_opts) [].
Proof. eapply reach_new; [apply demo_opts_ok, demo_cache_opts | vm_compute; reflexivity]. Qed.

Lemma add_document_iff_witness :
  (AddDocument demo_factory [demo_doc1] (demo_new demo_opts)).2 = Ok tt /\
  (AddDocument demo_factory [demo_bad] (demo_new demo_opts)).2 <> Ok tt /\
  acceptable demo_factory (fieldsData (demo_new demo_opts)) demo_doc1 /\
  ~ acceptable demo_factory (fieldsData (demo_new demo_opts)) demo_bad.
Proof.
  assert (Hok : (AddDocument demo_factory [demo_doc1] (demo_new demo_opts)).2 = Ok tt) by (vm_compute; reflexivity).
  assert (Hbad : (AddDocument demo_factory [demo_bad] (demo_new demo_opts)).2 <> Ok tt) by (vm_compute; discriminate).
  assert (Hbe : badConjBehavior (demo_new demo_opts) <> SkipBadConj) by (vm_compute; discriminate).
  split; [exact Hok |]. split; [exact Hbad |]. split.
  - apply (proj2 (add_document_iff demo_factory demo_default demo_docs_of (demo_new demo_opts) [] demo_doc1
      _ _ demo_new_reachable (demo_known demo_doc1 ltac:(by left)) Hbe (surjective_pairing _))). exact Hok.
  - intros Hacc. apply Hbad. revert Hacc.
    apply (proj2 (add_document_iff demo_factory demo_default demo_docs_of (demo_new demo_opts) [] demo_bad
      _ _ demo_new_reachable ltac:(done) Hbe (surjective_pairing _))).
Defined.

Lemma admissible_served_witness :
  exists b2 i, BuildIndex (demo_added demo_opts) = (b2, Ok i) /\
    serves demo_factory i (fieldsData (demo_added demo_opts)) (demo_docs ≫= doc_log).
Proof.
  refine (proj2 (admissible_served demo_factory demo_default demo_docs_of demo_docs
    (demo_config demo_opts) (demo_added demo_opts) (Ok tt) demo_compile _ _ demo_known_all _ _)).
  - apply demo_reachable; [apply demo_cache_opts | vm_compute; reflexivity].
  - vm_compute. discriminate.
  - rewrite Forall_forall. intros doc Hdoc. apply acceptableb_ok.
    apply elem_of_cons in Hdoc as [-> | Hdoc]; [vm_compute; reflexivity |].
    apply list_elem_of_singleton in Hdoc as ->. vm_compute; reflexivity.
  - unfold demo_added. vm_compute. reflexivity.
Defined.


(** The first conjunction of the first document, prepared. *)
Definition demo_prepared : DemoBuilder * res (list (ConjIndexingData StrTokenData)) :=
  prepare_conjs demo_factory 7 0 (doc_Cons demo_doc1) [] (demo_config demo_opts).

Definition demo_cd : ConjIndexingData StrTokenData :=
  match demo_prepared.2 with
  | Ok (cd :: _) => cd
  | _ => {| cd_idx := 0; cd_incSize := 0; cd_conjID := 0; cd_fieldData := [] |}
  end.

Lemma demo_cd_ready :
  exists txs wild p, built demo_factory demo_prepared.1 txs wild /\ cd_ready demo_factory demo_prepared.1 7 p demo_cd.
Proof.
  assert (reachable demo_factory demo_docs_of (demo_config demo_opts) []) as Hr
    by (apply demo_reachable; [apply demo_cache_opts | vm_compute; reflexivity]).
  destruct (reachable_inv demo_factory demo_default demo_docs_of _ _ Hr)
    as [(txs & wild & Hb & _) _].
  pose proof (prepare_conjs_spec demo_factory demo_default (doc_Cons demo_doc1) (demo_config demo_opts)
    txs wild 7 0 [] [] Hb ltac:(done) ltac:(done) (Forall2_nil_2 _ _ _)) as Hwp.
  unfold wp in Hwp. fold demo_prepared in Hwp. destruct demo_prepared as [b' r] eqn:Ep.
  assert (exists cds, r = Ok (demo_cd :: cds)) as [cds ->].
  { change r with ((b', r).2). rewrite <- Ep. eexists. vm_compute. reflexivity. }
  destruct Hwp as [[Hb' _] (kept & _ & Hall)]. simpl in Hall.
  apply Forall2_cons_inv_r in Hall as (p & ? & Hp & _ & _). exists txs, wild, p. split; [exact Hb' | exact Hp].
Qed.

Lemma demo_cd_encodes : Forall tx_encodes (cd_fieldData demo_cd).
Proof.
  assert (forallb (fun tx => match Encode (fi_Data tx) with Ok _ => true | _ => false end)
            (cd_fieldData demo_cd) = true) as Hall by (vm_compute; reflexivity).
  revert Hall. generalize (cd_fieldData demo_cd). induction l as [|tx l IH]; [by constructor |].
  cbn [forallb]. intros [Htx Hl]%andb_true_iff. constructor; [| by apply IH].
  unfold tx_encodes. destruct (Encode (fi_Data tx)) as [bytes|e|e|]; [by exists bytes | done ..].
Qed.

Lemma cache_roundtrip_witness :
  exists cd', (toConjIndexingData demo_factory 7 (toCacheResult demo_cd) demo_prepared.1).2 = Ok cd' /\
    cd_conjID cd' = cd_conjID demo_cd /\ cd_incSize cd' = cd_incSize demo_cd /\
    cd_fieldData cd' ≡ₚ cd_fieldData demo_cd.
Proof.
  destruct demo_cd_ready as (txs & wild & p & Hb & Hcd).
  eapply (cache_roundtrip demo_factory demo_default demo_prepared.1 txs wild 7 p demo_cd
    (toConjIndexingData demo_factory 7 (toCacheResult demo_cd) demo_prepared.1).1).
  - exact Hb.
  - exact Hcd.
  - apply demo_cd_encodes.
  - apply surjective_pairing.
Defined.

(** What cannot be encoded is lost in the cache: a city that is not UTF-8 is excluded
    by the index of the first construction, and no longer by the one whose document was
    restored. *)
Definition bad_city : string := String (Ascii.ascii_of_nat 255) EmptyString.

Definition bad_city_doc : Document :=
  {| doc_ID := 4; doc_Version := 1;
     doc_Cons := [NotIn (In NewConjunction "age" (VInt KInt 18)) "city" (VStr bad_city)] |}.

Definition bad_city_answer (b : DemoBuilder) : res (list DocID) :=
  (Retrieve (B:=zset) (indexer (BuildIndex b).1)
     {[ "age" := VInt KInt 18; "city" := VStr bad_city ]} [] []).2.

Example cache_loses_unencodable :
  let b := (AddDocument demo_factory [bad_city_doc] (demo_config demo_opts)).1 in
  let b' := (AddDocument demo_factory [bad_city_doc] (Reset demo_factory b).1).1 in
  (bad_city_answer b, bad_city_answer b') = (Ok [], Ok [4]).
Proof. vm_compute. reflexivity. Qed.

Lemma reset_empties_witness :
  binv demo_factory (Reset demo_factory (demo_one demo_opts)).1 [].
Proof.
  eapply (reset_empties demo_factory demo_default demo_docs_of (demo_one demo_opts) demo_log).
  - apply demo_one_default.
  - vm_compute. reflexivity.
Defined.

Lemma config_field_once_witness :
  (ConfigField "age" "" (demo_one demo_opts)).1 = demo_one demo_opts.
Proof.
  eapply (config_field_once demo_factory demo_default demo_docs_of (demo_one demo_opts) demo_log
    "age" "" (ConfigField "age" "" (demo_one demo_opts)).1 (ConfigField "age" "" (demo_one demo_opts)).2).
  - apply demo_one_default.
  - apply surjective_pairing.
  - vm_compute. eexists. reflexivity.
Defined.
