(* ===== verification/ComponentProperties.v ===== *)
(** * Properties of the components

    Ids, documents, cursors, scanners, the default holder and the parsers: the
    behaviour each of them promises, with concrete instances. *)

From Stdlib Require Import SpecFloat.
From stdpp Require Import base sorting gmap strings numbers list.
From S2P Require Import Prelude GoValues Ids Document Cursor FieldCursor Collector Scan Holder.
From S2P Require Import Index Parsers DefaultHolder Builder BuilderSpec Demo.
Open Scope Z_scope.

(** ** Ids *)

(** C31.  Packing a document id, a conjunction index and a size into a
    conjunction id loses nothing when they are in range, and the entry ids made
    from it give it back with the polarity. *)
Theorem conj_id_roundtrip d i s :
  fields_ok d i s ->
  exists c, NewConjID d i s = Ok c /\ 0 <= c < 2 ^ 60 /\
    conj_DocID c = d /\ conj_Index c = i /\ conj_Size c = s /\
    forall b, GetConjID (NewEntryID c b) = c /\ IsInclude (NewEntryID c b) = b /\
              IsExclude (NewEntryID c b) = negb b.
Proof.
  intros Hok. exists (pack d i s). pose proof (pack_bound d i s Hok) as Hb.
  split; [by apply NewConjID_pack |]. split; [done |].
  split; [by apply pack_DocID |]. split; [by apply pack_Index |]. split; [by apply pack_Size |].
  intros b. rewrite IsExclude_IsInclude, GetConjID_NewEntryID, IsInclude_NewEntryID by done. done.
Qed.

Lemma conj_id_roundtrip_witness :
  exists c, NewConjID (-5) 3 2 = Ok c /\ 0 <= c < 2 ^ 60 /\
    conj_DocID c = -5 /\ conj_Index c = 3 /\ conj_Size c = 2 /\
    forall b, GetConjID (NewEntryID c b) = c /\ IsInclude (NewEntryID c b) = b /\
              IsExclude (NewEntryID c b) = negb b.
Proof. apply (conj_id_roundtrip (-5) 3 2). unfold fields_ok, MaxDocID. lia. Defined.

(** C32.  The layout of conjunction ids and its bounds: when the document id is
    within +-(2^43 - 1) and the index and the size are bytes, [NewConjID] gives the
    number whose fields are, from bit 52 the size, from bit 44 the index, at bit 43 the
    sign and below it the absolute value of the document id, less than 2^60; on
    anything else it panics. *)
Theorem conj_id_bounds d i s :
  match NewConjID d i s with
  | Ok c => - MaxDocID <= d <= MaxDocID /\ 0 <= i < 256 /\ 0 <= s < 256 /\
      c = s * 2 ^ 52 + i * 2 ^ 44 + (if bool_decide (d < 0) then 2 ^ 43 else 0) + Z.abs d /\ 0 <= c < 2 ^ 60
  | Panic _ => ~ (- MaxDocID <= d <= MaxDocID /\ 0 <= i < 256 /\ 0 <= s < 256)
  | _ => False
  end.
Proof.
  destruct (NewConjID_cases d i s) as [[Hok ->] | [Hbad [e ->]]]; [| done].
  pose proof (pack_bound d i s Hok). destruct Hok as (Hd & Hi & Hs). split_and!; try lia.
  unfold pack, sign_bit. case_bool_decide; lia.
Qed.

Lemma conj_id_bounds_witness :
  NewConjID (-5) 3 2 = Ok (2 * 2 ^ 52 + 3 * 2 ^ 44 + 2 ^ 43 + 5) /\ (exists e, NewConjID (2 ^ 43) 0 0 = Panic e).
Proof.
  pose proof (conj_id_bounds (-5) 3 2) as Hin. pose proof (conj_id_bounds (2 ^ 43) 0 0) as Hout.
  split; [by destruct (NewConjID (-5) 3 2) as [c|e|e|] eqn:Ec; vm_compute in Ec |].
  destruct (NewConjID (2 ^ 43) 0 0) as [c|e|e|]; [| done | by exists e | done].
  unfold MaxDocID in Hout. lia.
Defined.

(** Entry ids are ordered by conjunction, and within a conjunction the
    exclude entry comes first; all of them lie below the end marker. *)
Lemma entry_id_order c b c' b' :
  valid_conj c -> valid_conj c' ->
  (NewEntryID c b < NewEntryID c' b' <-> c < c' \/ (c = c' /\ b = false /\ b' = true)) /\
  NewEntryID c b < NULLENTRY.
Proof.
  unfold valid_conj, NULLENTRY. intros Hc Hc'. rewrite !NewEntryID_arith by lia.
  split; [| destruct b; lia]. destruct b, b'; split; intros Hx; lia || (left; lia) || (right; split; [lia | done]) || idtac.
  all: destruct Hx as [? | (? & ? & ?)]; try done; lia.
Qed.

Lemma entry_id_order_witness : NewEntryID 5 false < NewEntryID 5 true.
Proof.
  refine (proj2 (proj1 (entry_id_order 5 false 5 true _ _)) _); [unfold valid_conj; lia .. |].
  right. auto.
Defined.

(** ** Documents *)

(** The size of a conjunction is the number of its fields with an include
    expression, whatever order its map is iterated in; it is never negative and
    at most the number of its fields. *)
Lemma conj_size_order_free (R1 R2 : MapRange) (cj : Conjunction) :
  CalcConjSize (H:=R1) cj = CalcConjSize (H:=R2) cj /\
  CalcConjSize (H:=R1) cj
  = Z.of_nat (size (filter (fun kv => existsb Incl kv.2 = true) (Expressions cj))) /\
  0 <= CalcConjSize (H:=R1) cj <= ExpressionCount cj.
Proof.
  rewrite !CalcConjSize_size. split; [done |]. split; [done |]. split; [lia |].
  unfold ExpressionCount. apply inj_le, map_size_filter.
Qed.

(** [Sub] on document id lists keeps, in order, the ids that are not in
    the other list; [Contain] is membership. *)
Lemma docid_list_sub s other id :
  (id ∈ Sub s other <-> id ∈ s /\ id ∉ other) /\ sublist (Sub s other) s /\
  (Contain s id = true <-> id ∈ s).
Proof.
  unfold Sub. rewrite Sub_loop_filter. simpl. split; [| split].
  - rewrite list_elem_of_filter. naive_solver.
  - apply sublist_filter.
  - apply Contain_spec.
Qed.

(** ** Cursors *)

(** C30.  The galloping search of [SkipTo] stops where the linear scan does: at
    the first entry from the cursor on that is not below the target. *)
Theorem skip_to_linear ec id :
  cursor_wf ec -> id <= NULLENTRY -> SkipTo ec id = linearSkipTo ec id.
Proof.
  intros Hwf Hid. destruct (SkipTo_target ec id Hwf Hid) as (k & -> & Hk).
  destruct (linearSkipTo_target ec id Hwf) as (k' & -> & Hk').
  by rewrite (skip_target_unique _ _ _ _ _ Hk Hk').
Qed.

Definition demo_entries : Entries := [16; 17; 33; 48; 49; 65; 80; 97; 113; 128].
Definition demo_cursor : EntriesCursor := NewEntriesCursor (NewQKey "age" (VStr "18")) demo_entries.

Lemma demo_cursor_wf : cursor_wf demo_cursor.
Proof.
  apply NewEntriesCursor_wf.
  - unfold demo_entries. repeat constructor; lia.
  - unfold demo_entries, NULLENTRY. repeat constructor; lia.
Qed.

Lemma skip_to_linear_witness : SkipTo demo_cursor 66 = linearSkipTo demo_cursor 66.
Proof. apply skip_to_linear; [apply demo_cursor_wf | vm_compute; discriminate]. Defined.

(** Sorting field cursors permutes them into increasing order of their
    current entry. *)
Lemma field_cursors_sort s :
  FieldCursors_Sort s ≡ₚ s /\
  StronglySorted (fun a b => fc_GetCurEntryID a <= fc_GetCurEntryID b) (FieldCursors_Sort s).
Proof. apply FieldCursors_Sort_spec. Qed.

(** ** Scanners *)

Section Scanners.
Context {C : Type} `{ResultCollector C}.

(** C7.  The k-groups scan of one container terminates and reports, each once
    and in increasing order, exactly the conjunctions that at least [need]
    cursors include and none excludes, provided no conjunction is included by
    more cursors than [need]. *)
Theorem retrieveK_exact need fcs (c : C) :
  (forall c0, valid_conj c0 -> ~ excluded (fc_entries <$> fcs) c0 ->
     (count_inc (fc_entries <$> fcs) c0 <= need)%nat) ->
  Forall (fc_at 0) fcs -> (1 <= need)%nat ->
  exists hits, retrieveK fcs need c = Ok (foldl add_conj c hits) /\
    StronglySorted Z.lt hits /\ Forall valid_conj hits /\
    forall c0, valid_conj c0 -> (c0 ∈ hits <-> matched (fc_entries <$> fcs) need c0).
Proof.
  intros Hsize Hat Hn. destruct (retrieveK_spec need fcs c Hsize Hat Hn) as (hits & Hrun & Hs & Hall & Hrep).
  exists hits. split; [done |]. split; [done |]. split.
  - eapply Forall_impl; [exact Hall |]. by intros c0 [? _].
  - intros c0 Hc0. apply Hrep; [done |]. unfold valid_conj in Hc0. lia.
Qed.

(** C8.  The scan of the compact index does the same for conjunctions of all
    sizes at once, each compared with its own size. *)
Theorem compact_scan_exact fcs (c : C) :
  (forall c0, valid_conj c0 -> ~ excluded (fc_entries <$> fcs) c0 ->
     (count_inc (fc_entries <$> fcs) c0 <= compact_need c0)%nat) ->
  Forall (fc_at 0) fcs -> Forall (fun fc => fc_GetCurEntryID fc <> NULLENTRY) fcs ->
  exists hits, compact_scan fcs c = Ok (foldl add_conj c hits) /\
    StronglySorted Z.lt hits /\ Forall valid_conj hits /\
    forall c0, valid_conj c0 -> (c0 ∈ hits <-> matched (fc_entries <$> fcs) (compact_need c0) c0).
Proof.
  intros Hsize Hat Hl. destruct (compact_scan_spec fcs c Hsize Hat Hl) as (hits & Hrun & Hs & Hall & Hrep).
  exists hits. split; [done |]. split; [done |]. split.
  - eapply Forall_impl; [exact Hall |]. by intros c0 [? _].
  - intros c0 Hc0. apply Hrep; [done |]. unfold valid_conj in Hc0. lia.
Qed.

End Scanners.

(** Two fields: one includes conjunctions 1 and 3, the other includes 1 and
    excludes 3. *)
Definition demo_fc (l : Entries) : FieldCursor :=
  match NewFieldCursor [NewEntriesCursor (NewQKey "f" (VStr "v")) l] with
  | Ok fc => fc
  | _ => {| fc_current := PCopy (NewEntriesCursor (NewQKey "f" (VStr "v")) []); fc_group := [] |}
  end.

Definition demo_fcs : list FieldCursor := [demo_fc [17; 49]; demo_fc [17; 48]].

Lemma demo_fc_at l : StronglySorted Z.le l -> Forall valid_eid l ->
  fc_group (demo_fc l) = [NewEntriesCursor (NewQKey "f" (VStr "v")) l] /\ fc_at 0 (demo_fc l).
Proof.
  intros Hs Hv. unfold demo_fc.
  destruct (NewFieldCursor_at [NewEntriesCursor (NewQKey "f" (VStr "v")) l]) as (fc & -> & Hg & Hat);
    [done | constructor; [by apply NewEntriesCursor_at | constructor] | done].
Qed.

Lemma demo_fcs_at : Forall (fc_at 0) demo_fcs.
Proof.
  apply Forall_cons_2; [| apply Forall_cons_2; [| apply Forall_nil_2]]; apply demo_fc_at.
  - repeat constructor; lia.
  - constructor; [exact (demo_valid 1 true ltac:(lia)) | constructor; [exact (demo_valid 3 true ltac:(lia)) | constructor]].
  - repeat constructor; lia.
  - constructor; [exact (demo_valid 1 true ltac:(lia)) | constructor; [exact (demo_valid 3 false ltac:(lia)) | constructor]].
Qed.

Lemma retrieveK_exact_witness :
  exists hits, retrieveK demo_fcs 2 (@NewDocIDCollector zset _) = Ok (foldl add_conj NewDocIDCollector hits) /\
    StronglySorted Z.lt hits /\ Forall valid_conj hits /\
    forall c0, valid_conj c0 -> (c0 ∈ hits <-> matched (fc_entries <$> demo_fcs) 2 c0).
Proof.
  apply (retrieveK_exact 2 demo_fcs (@NewDocIDCollector zset _)).
  - intros c0 _ _. etransitivity; [apply count_inc_le |]. vm_compute. lia.
  - apply demo_fcs_at.
  - lia.
Defined.

Lemma compact_scan_exact_witness :
  exists hits, compact_scan [demo_fc [17; 49]] (@NewDocIDCollector zset _)
      = Ok (foldl add_conj NewDocIDCollector hits) /\
    StronglySorted Z.lt hits /\ Forall valid_conj hits /\
    forall c0, valid_conj c0 ->
      (c0 ∈ hits <-> matched (fc_entries <$> [demo_fc [17; 49]]) (compact_need c0) c0).
Proof.
  apply (compact_scan_exact [demo_fc [17; 49]] (@NewDocIDCollector zset _)).
  - intros c0 _ _. etransitivity; [apply count_inc_le |]. unfold compact_need. rewrite MaxInt_max. simpl. lia.
  - constructor; [| constructor]. pose proof demo_fcs_at as Hall. by inversion Hall.
  - constructor; [| constructor]. vm_compute. discriminate.
Defined.

(** ** The default holder *)

Section Holder.
Context `{MapRange} `{GoFloat} `{ProtoStrList}.

(** The transactions [txs] committed one after the other. *)
Definition commit_all (h : DefaultEntriesHolder) (txs : Txs StrTokenData) : DefaultEntriesHolder :=
  foldl (fun h tx => (default_CommitFieldIndexingData h tx.1.1 tx.1.2 (Some tx.2)).1) h txs.

Lemma commit_all_rep factory name h txs0 txs :
  default_rep factory name h txs0 -> default_rep factory name (commit_all h txs) (txs0 ++ txs).
Proof.
  revert h txs0. induction txs as [|[[d e] x] txs IH]; intros h txs0 Hrep; simpl.
  - by rewrite app_nil_r.
  - destruct (default_commit_spec factory name h txs0 d e x Hrep) as (h' & Hc & Hrep'). simpl in Hc.
    injection Hc as <-. apply IH in Hrep'. by rewrite <- app_assoc in Hrep'.
Qed.

(** C16.  The default holder implements its contract: after any transactions are
    committed to a fresh holder and it is compiled, a query on a field returns
    fresh cursors over sorted posting lists that hold exactly the entries of the
    transactions on that field that share a token with the query value; it fails
    or panics only when the tokenizer does so on the value. *)
Theorem default_holder_refines factory name h0 txs d v :
  factory_ok factory -> factory !! name = Some h0 ->
  Forall (fun tx => valid_eid tx.1.2) txs -> scope_ok name txs d ->
  match default_GetEntries (default_CompileEntries (commit_all h0 txs)).1 d v with
  | Ok cs => cursors_ok cs /\
      forall e, e ∈ (cs ≫= ec_entries) <->
        exists x values, (d, e, x) ∈ txs /\ TokenizeAssign (GetTokenizer h0 (fd_Field d)) v = Ok values /\
          exists value, value ∈ values /\ value ∈ std_Values x
  | Err e => TokenizeAssign (GetTokenizer h0 (fd_Field d)) v = Err e
  | Panic e => TokenizeAssign (GetTokenizer h0 (fd_Field d)) v = Panic e
  | OutOfFuel => False
  end.
Proof.
  intros Hok Hh0 Hvalid Hscope.
  assert (Hrep : default_rep factory name h0 []) by by apply (@holder_new _ _ _ _ (DefaultHolder_spec factory Hok)).
  apply (commit_all_rep factory name h0 [] txs) in Hrep. simpl in Hrep.
  pose proof (default_get_spec factory Hok name _ txs d v (default_compile_spec factory name _ _ Hrep) Hvalid Hscope) as Hget.
  assert (Htok : registered_tokenizer factory name d = GetTokenizer h0 (fd_Field d))
    by (unfold registered_tokenizer; by rewrite Hh0).
  simpl. unfold default_GetEntries in *.
  assert (GetTokenizer (makeEntriesSorted (commit_all h0 txs)) (fd_Field d) = GetTokenizer h0 (fd_Field d)) as Hg.
  { rewrite <- Htok. exact (rep_tokenizer factory name _ txs d (proj1 (default_compile_spec factory name _ _ Hrep))). }
  rewrite Hg in *. unfold default_assign_ok, default_hits in Hget. rewrite Htok in Hget.
  destruct (TokenizeAssign (GetTokenizer h0 (fd_Field d)) v) as [values|e|e|]; simpl in *; try done.
  destruct Hget as [Hc He]. split; [done |]. intros e. rewrite He.
  setoid_rewrite existsb_exists. setoid_rewrite <- list_elem_of_In. setoid_rewrite bool_decide_eq_true.
  split; [intros (x & Hin & value & ? & ?); exists x, values; eauto | naive_solver].
Qed.

End Holder.

Definition demo_desc : FieldDesc := {| fd_Container := HolderNameDefault; fd_ID := 0; fd_Field := "age" |}.

Definition demo_txs : Txs StrTokenData :=
  [(demo_desc, 17, {| std_Values := ["18"; "19"; "18"] |}); (demo_desc, 33, {| std_Values := ["20"] |})].

Lemma default_holder_refines_witness :
  match default_GetEntries (default_CompileEntries (commit_all NewDefaultEntriesHolder demo_txs)).1
          demo_desc (VInt KInt 18) with
  | Ok cs => cursors_ok cs /\
      forall e, e ∈ (cs ≫= ec_entries) <->
        exists x values, (demo_desc, e, x) ∈ demo_txs /\
          TokenizeAssign (GetTokenizer NewDefaultEntriesHolder "age") (VInt KInt 18) = Ok values /\
          exists value, value ∈ values /\ value ∈ std_Values x
  | Err e => TokenizeAssign (GetTokenizer NewDefaultEntriesHolder "age") (VInt KInt 18) = Err e
  | Panic e => TokenizeAssign (GetTokenizer NewDefaultEntriesHolder "age") (VInt KInt 18) = Panic e
  | OutOfFuel => False
  end.
Proof.
  apply (default_holder_refines demo_factory HolderNameDefault NewDefaultEntriesHolder demo_txs demo_desc).
  - apply InitHolderDefaults_ok.
  - reflexivity.
  - constructor; [exact (demo_valid 1 true ltac:(lia)) | constructor; [exact (demo_valid 2 true ltac:(lia)) | constructor]].
  - intros d' e x [[= -> -> ->] | [[= -> -> ->] | []%not_elem_of_nil]%elem_of_cons]%elem_of_cons; done.
Defined.

(** ** Values and parsers *)

Section Values.
Context `{MapRange} `{GoFloat} `{ProtoStrList}.

(** With the default tokenizer, an integer in a query, of any integer type
    or written in decimal, meets an expression over integers exactly when it is
    one of its values. *)
Lemma default_integer_match k zs z :
  forall bv x d q, Value bv = VInts k (Some zs) -> Operator bv = ValueOptEQ ->
  (default_BuildFieldIndexingData NewDefaultEntriesHolder d bv).2 = Ok x ->
  (q = VStr (fmt_int z) \/ (exists k', q = VInt k' z) \/ (exists k', q = VUint k' z)) ->
  (exists values, ValuesToStrings q = Ok values /\ exists value, value ∈ values /\ value ∈ std_Values x)
  <-> z ∈ zs.
Proof.
  intros bv x d q Hv Hop Hb Hq. unfold default_BuildFieldIndexingData in Hb. simpl in Hb.
  rewrite bool_decide_eq_false_2 in Hb by tauto. unfold GetTokenizer in Hb. simpl in Hb.
  rewrite lookup_empty in Hb. simpl in Hb. rewrite Hv in Hb. injection Hb as <-. simpl.
  assert (Hs : ValuesToStrings q = Ok [fmt_int z]) by (destruct Hq as [-> | [[? ->] | [? ->]]]; done).
  rewrite Hs. split.
  - intros (values & [= <-] & value & ->%list_elem_of_singleton & (z' & Heq & Hin)%list_elem_of_fmap).
    apply fmt_int_inj in Heq. by subst.
  - intros Hin. exists [fmt_int z]. split; [done |]. exists (fmt_int z). split; [by left |].
    by apply list_elem_of_fmap_2.
Qed.

(** Printing an int64 and parsing it back gives the same number, and the
    number parser reads the decimal text of a number like the number itself. *)
Lemma parse_int_roundtrip z :
  is_i64 z -> ParseInt (fmt_int z) = Some z /\
  forall p k, number_TokenizeValue p (VStr (fmt_int z)) = number_TokenizeAssign p (VInt k z).
Proof.
  intros Hz. pose proof (ParseInt_fmt_int z Hz) as Hp. split; [done |].
  intros p k. unfold number_TokenizeValue, number_TokenizeAssign, number_ParseValue. simpl.
  by rewrite Hp, i64_small.
Qed.

(** [IDAllocatorImpl] hands out dense ids: a string keeps its id, distinct
    strings have distinct ids, and every id is below the count. *)
Lemma id_allocator_injective ss alloc ids :
  alloc_ids NewIDAllocatorImpl ss = (alloc, ids) ->
  Forall2 (fun s id => FindStringID alloc s = Some id) ss ids /\
  (forall s s' id, FindStringID alloc s = Some id -> FindStringID alloc s' = Some id -> s = s') /\
  (forall s id, FindStringID alloc s = Some id -> 0 <= id < TotalIDCount alloc).
Proof.
  intros Ha. destruct (alloc_ids_spec ss _ _ _ alloc_inv_new Ha) as ([Hr Hi] & Hall & _). done.
Qed.

(** The common parser agrees with itself: after an expression over integers
    was indexed, a query integer finds one of the expression's ids exactly when
    it is one of its values. *)
Lemma common_parser_agrees b alloc k zs alloc' ids k' z ids' :
  alloc_inv alloc ->
  common_ParseValue b (VInts k (Some zs)) alloc = (alloc', Ok ids) ->
  common_ParseAssign b alloc' (VInt k' z) = Ok ids' ->
  (exists id, id ∈ ids' /\ id ∈ ids) <-> z ∈ zs.
Proof.
  intros Hinv Hval Hass. unfold common_ParseValue in Hval. simpl in Hval. unfold alloc_all in Hval.
  destruct (alloc_ids alloc (fmt_int <$> zs)) as [a1 ids1] eqn:Ea. injection Hval as <- <-.
  destruct (alloc_ids_spec _ _ _ _ Hinv Ea) as ([_ Hinj] & Hall & _).
  unfold common_ParseAssign, find_single in Hass. simpl in Hass, Hall. injection Hass as <-.
  split.
  - intros (id & Hid & [i Hi]%list_elem_of_lookup).
    destruct (Forall2_lookup_r _ _ _ _ _ Hall Hi) as (s & Hs & Hfs).
    rewrite list_lookup_fmap in Hs. destruct (zs !! i) as [z'|] eqn:Ez; [| done]. injection Hs as <-.
    destruct (strBox a1 !! fmt_int z) as [id0|] eqn:Ef; [| elem_nil].
    apply list_elem_of_singleton in Hid as ->.
    pose proof (Hinj _ _ _ Ef Hfs) as Heq. apply fmt_int_inj in Heq. subst z'.
    by eapply list_elem_of_lookup_2.
  - intros [i Hi]%list_elem_of_lookup.
    destruct (Forall2_lookup_l _ _ _ i (fmt_int z) Hall) as (id & Hid & Hfs).
    { by rewrite list_lookup_fmap, Hi. }
    exists id. rewrite Hfs. split; [by left | by eapply list_elem_of_lookup_2].
Qed.

(** A nil among the elements of a query list makes the common parser panic
    (it prints the element's type), while the default tokenizer reports an
    error. *)
Lemma common_parser_nil_panics {A} `{IDAllocator A} b (alloc : A) l :
  VNil ∈ l -> (exists e, common_ParseAssign b alloc (VIfaces (Some l)) = Panic e) /\
  exists e, ValuesToStrings (VIfaces (Some l)) = Err e.
Proof.
  intros Hin. assert (Hgen : forall l, VNil ∈ l ->
    exists e, map_res (findInterfaceID b alloc) l = Panic e).
  { clear l Hin. induction l as [|v l IH]; [by intros ?%not_elem_of_nil |].
    intros [<- | Hin]%elem_of_cons; [by eexists |]. destruct (IH Hin) as [e He]. simpl. rewrite He.
    destruct v; by eexists. }
  assert (Hgen' : forall l, VNil ∈ l -> exists e, map_res ValueToString l = Err e).
  { clear l Hin. induction l as [|v l IH]; [by intros ?%not_elem_of_nil |].
    intros [<- | Hin]%elem_of_cons; [by eexists |]. destruct (IH Hin) as [e He]. simpl. rewrite He.
    destruct v; by eexists. }
  destruct (Hgen l Hin) as [e He], (Hgen' l Hin) as [e' He']. split; [exists e | exists e'].
  - unfold common_ParseAssign. simpl. by rewrite He.
  - simpl. done.
Qed.

End Values.

Lemma common_parser_nil_panics_witness :
  exists e, common_ParseAssign true NewIDAllocatorImpl (VIfaces (Some [VInt KInt 1; VNil])) = Panic e.
Proof. apply common_parser_nil_panics. right. by left. Defined.

Lemma default_integer_match_witness :
  (exists values, ValuesToStrings (VStr (fmt_int 18)) = Ok values /\
     exists value, value ∈ values /\ value ∈ ["18"; "19"]) <-> 18 ∈ [18; 19].
Proof.
  apply (default_integer_match KInt [18; 19] 18
    (NewBoolValue ValueOptEQ (VInts KInt (Some [18; 19])) true) {| std_Values := ["18"; "19"] |}
    demo_desc (VStr (fmt_int 18))).
  - reflexivity.
  - reflexivity.
  - vm_compute. reflexivity.
  - by left.
Defined.

Lemma parse_int_roundtrip_witness : ParseInt (fmt_int (-42)) = Some (-42).
Proof. apply (parse_int_roundtrip (-42)). unfold is_i64, MinInt64, MaxInt64. lia. Defined.

Definition demo_alloc : IDAllocatorImpl * list Z := alloc_ids NewIDAllocatorImpl ["a"; "b"; "a"].

Lemma id_allocator_injective_witness :
  demo_alloc.2 = [0; 1; 0] /\
  Forall2 (fun s id => FindStringID demo_alloc.1 s = Some id) ["a"; "b"; "a"] demo_alloc.2.
Proof.
  split; [vm_compute; reflexivity |].
  apply (id_allocator_injective ["a"; "b"; "a"] demo_alloc.1 demo_alloc.2). apply surjective_pairing.
Defined.

Lemma common_parser_agrees_witness :
  (exists id, id ∈ [1] /\ id ∈ [0; 1]) <-> 19 ∈ [18; 19].
Proof.
  apply (common_parser_agrees true NewIDAllocatorImpl KInt [18; 19]
    (common_ParseValue true (VInts KInt (Some [18; 19])) NewIDAllocatorImpl).1 [0; 1] KInt64 19 [1]).
  - apply alloc_inv_new.
  - vm_compute. reflexivity.
  - vm_compute. reflexivity.
Defined.

(** ** Queries with arrays *)

(** Retrieval on a k-groups index panics for every query that assigns a Go
    array to some field, whatever the index holds and whichever field it is,
    without reporting anything: [Assignments.Size] asks [reflect] whether the
    array is nil. *)
Lemma kgroups_array_panics {H D C : Type} `{EntriesHolder H D} `{MapRange} `{ResultCollector C}
    (bi : KGroupsBEIndex H) q (c : C) :
  ~ query_plain q -> exists e, kg_RetrieveWithCollector bi q [] c = (c, Panic e).
Proof.
  intros Hno. destruct (Assignments_Size_cases q) as [[Hp _] | [_ [e He]]]; [done |].
  exists e. unfold kg_RetrieveWithCollector, mbind, M_bind, lift. simpl. by rewrite He.
Qed.

Definition demo_point : Values := VArrFloat64_2 (S754_finite false 31 0) (S754_finite false 121 0).

Lemma kgroups_array_panics_witness :
  exists e, kg_RetrieveWithCollector (H:=DefaultEntriesHolder) NewKGroupsBEIndex
    {[ "geo" := demo_point ]} [] (NewDocIDCollector (B:=zset)) = (NewDocIDCollector, Panic e).
Proof.
  apply kgroups_array_panics. intros Hp. specialize (Hp "geo" demo_point eq_refl). discriminate.
Defined.

(** ** The builder *)

(** A document without conjunctions, or with more than 255, is rejected
    with an error before anything is touched. *)
Lemma document_size_error {H D I K : Type} `{EntriesHolder H D} `{MapRange} `{BEIndex I H}
    `{DocLevelCache K} (factory : gmap string H) (b : IndexerBuilder I K) doc :
  length (doc_Cons doc) = 0%nat \/ (255 < length (doc_Cons doc))%nat ->
  exists e, AddDocument factory [doc] b = (b, Err e).
Proof.
  intros Hlen. unfold AddDocument. simpl. unfold mbind, M_bind, lift, validDocument.
  case_bool_decide; [by eexists |]. rewrite bool_decide_eq_true_2 by lia. by eexists.
Qed.

#[local] Hint Extern 0 (BEIndex (AnyBEIndex _) _) => exact (Any_index demo_factory) : typeclass_instances.

Lemma document_size_error_witness :
  exists e, AddDocument demo_factory [NewDocument 4] (demo_new demo_opts) = (demo_new demo_opts, Err e).
Proof.
  apply (document_size_error (I:=AnyBEIndex DefaultEntriesHolder) (K:=DemoCache) demo_factory (demo_new demo_opts) (NewDocument 4)).
  by left.
Defined.

(** The schema hash is not a function of the schema: with two configured
    fields, two iteration orders of the same map give different hashes. *)
Lemma schema_hash_order_dependent :
  exists b : IndexerBuilder unit unit,
    schemaHash (updateSchemaHash (H1:=map_range_id) b) <> schemaHash (updateSchemaHash (H1:=map_range_rev) b).
Proof.
  exists {| indexerType := 0; badConjBehavior := 0; docLevelCache := None; indexer := tt;
            fieldsData := {[ "age" := {| fd_Container := "default"; fd_ID := 0; fd_Field := "age" |};
                             "city" := {| fd_Container := "default"; fd_ID := 1; fd_Field := "city" |} ]};
            schemaHash := 0 |}.
  vm_compute. discriminate.
Qed.
