(* ===== verification/RoaringProperties.v ===== *)
(** * Properties of the roaring-bitmap index

    Ids, exactness of retrieval with and without hints, for every container that
    keeps its promise, a sample index, and two limits of the builder. *)

From stdpp Require Import base sorting gmap strings numbers list.
From S2P Require Import Prelude GoValues Ids Document Collector Parsers AhoHolder Roaring RoaringProofs.
From S2P Require Import RoaringBuilder RoaringAc Demo.
Open Scope Z_scope.

(** A conjunction id of the roaring index gives back the document id and
    the index it was made from, which may be negative for the former; it is an
    error exactly when one of them is out of range. *)
Lemma roaring_conj_id idx doc :
  (rfields_ok idx doc -> exists id, NewConjunctionID idx doc = Ok id /\ 0 <= id < 2 ^ 64 /\
     ConjunctionID_DocID id = doc /\ ConjunctionID_Idx id = idx) /\
  (~ rfields_ok idx doc -> exists e, NewConjunctionID idx doc = Err e).
Proof.
  destruct (NewConjunctionID_cases idx doc) as [[Hok ->] | [Hbad [e ->]]]; split; try done.
  - intros _. exists (rpack idx doc). split; [done |]. split; [by apply rpack_bound |].
    split; [by apply rpack_DocID | by apply rpack_Idx].
  - eauto.
Qed.

Lemma roaring_conj_id_witness :
  exists id, NewConjunctionID 3 (-9) = Ok id /\ 0 <= id < 2 ^ 64 /\
     ConjunctionID_DocID id = -9 /\ ConjunctionID_Idx id = 3.
Proof. apply (roaring_conj_id 3 (-9)). unfold rfields_ok, MaxDocumentID. lia. Defined.

Section Properties.
Context {B Cn : Type} `{Roaring64Spec B} `{!BEContainer B Cn} `{!BEContainerSpec B Cn} `{MapRange}.
Context (containerFactory : gmap string (FieldMeta -> list B -> list B * Cn)).
(** The container builders make empty containers, for the metas they support. *)
Variable meta_ok : FieldMeta -> Prop.
Hypothesis factory_new : forall fn meta pool pool' c,
  containerFactory !! fm_Container meta = Some fn -> meta_ok meta -> bitmaps_clean pool ->
  fn meta pool = (pool', c) -> bitmaps_clean pool' /\ c_rep meta c [].

(** Configure fields one after the other. *)
Definition configure_all (fields : list (BEField * FieldSetting))
    : M (list B * IvtBEIndexerBuilder Cn) unit :=
  forM fields (fun p => ConfigureField containerFactory p.1 p.2).

Definition meta_of (dflt : ValueIDGenerator) (p : BEField * FieldSetting) : FieldMeta :=
  {| fm_Parser := default dflt (fs_Parser p.2); fm_Container := fs_Container p.2; fm_field := p.1 |}.

Definition metas_of (dflt : ValueIDGenerator) (fields : list (BEField * FieldSetting))
    : gmap string FieldMeta :=
  foldl (fun m p => <[p.1 := meta_of dflt p]> m) ∅ fields.

Lemma field_events_nil f : field_events f [] [].
Proof.
  intros id o. split; [intros Hx | intros (cj & Hx & _)]; elem_nil.
Qed.

Lemma configure_spec fields s metas :
  rrep s metas (fun _ => []) -> Forall (fun p => meta_ok (meta_of (ib_defaultParser s.2) p)) fields ->
  wp (configure_all fields) (fun r s' =>
    match r with
    | Ok _ => rrep s' (foldl (fun m p => <[p.1 := meta_of (ib_defaultParser s.2) p]> m) metas fields) (fun _ => [])
    | _ => True
    end) s.
Proof.
  unfold configure_all. revert s metas.
  induction fields as [|[f opt] fields IH]; intros s metas Hrep Hok; cbn [forM]; [by apply wp_ret |].
  inversion Hok as [|? ? Hm Hok']; subst. simpl in Hm.
  apply wp_bind. apply wp_intro. intros s1 r Hrun. destruct s as [pool b]. simpl in *.
  unfold ConfigureField, NewContainerBuilder in Hrun. simpl in Hrun.
  destruct (containerFactory !! fs_Container opt) as [fn|] eqn:Ef.
  2: { unfold build_error in Hrun. simpl in Hrun. destruct (ib_panicOnError b); by injection Hrun as <- <-. }
  destruct (fn _ pool) as [pool' c] eqn:Ec. injection Hrun as <- <-. destruct Hrep as [Hclean Hall].
  destruct (factory_new fn (meta_of (ib_defaultParser b) (f, opt)) pool pool' c Ef Hm Hclean Ec) as [Hclean' Hc].
  apply (IH (pool', set_containers b (<[f := c]> (ib_containerBuilder b)))); [| done].
  split; [done |]. intros g. simpl. destruct (decide (f = g)) as [<- | Hne].
  - rewrite !lookup_insert_eq. exists []. split; [done | apply field_events_nil].
  - rewrite !lookup_insert_ne by done. apply Hall.
Qed.

Lemma fresh_rrep pool dflt : bitmaps_clean pool -> rrep (pool, NewIvtIndexerBuilder dflt) ∅ (fun _ => []).
Proof. intros Hp. split; [done |]. intros f. simpl. by rewrite !lookup_empty. Qed.

(** *** Documents with distinct ids *)

Lemma elem_of_rconj_log docID idx cjs p :
  p ∈ rconj_log docID idx cjs <->
  exists n cj, cjs !! n = Some cj /\ p = (rpack (idx + Z.of_nat n) docID, cj).
Proof.
  revert idx. induction cjs as [|cj cjs IH]; intros idx; simpl.
  - split; [intros Hp; elem_nil | by intros (n & cj & Hn & _)].
  - rewrite elem_of_cons, IH. split.
    + intros [-> | (n & cj' & Hn & ->)].
      * exists 0%nat, cj. split; [done |]. by rewrite Z.add_0_r.
      * exists (S n), cj'. split; [done |]. do 2 f_equal. lia.
    + intros ([|n] & cj' & Hn & ->); simpl in Hn.
      * left. injection Hn as <-. by rewrite Z.add_0_r.
      * right. exists n, cj'. split; [done |]. do 2 f_equal. lia.
Qed.

Lemma NoDup_rconj_log docID cjs idx :
  (forall n cj, cjs !! n = Some cj -> rfields_ok (idx + Z.of_nat n) docID) ->
  NoDup (rconj_log docID idx cjs).*1.
Proof.
  revert idx. induction cjs as [|cj cjs IH]; intros idx Hok; simpl; [constructor |].
  pose proof (Hok 0%nat cj eq_refl) as H0'. rewrite Z.add_0_r in H0'.
  assert (Hrest : forall n cj', cjs !! n = Some cj' -> rfields_ok (idx + 1 + Z.of_nat n) docID).
  { intros n cj' Hn. replace (idx + 1 + Z.of_nat n) with (idx + Z.of_nat (S n)) by lia. by eapply Hok. }
  constructor; [| by apply IH].
  intros (p & Hp1 & (n & cj' & Hn & ->)%elem_of_rconj_log)%list_elem_of_fmap. simpl in Hp1.
  apply rpack_inj in Hp1 as [Hi _]; [lia | done | by eapply Hrest].
Qed.

Lemma rdoc_entry doc p : doc_in_range doc -> p ∈ rdoc_log doc ->
  exists n cj, doc_Cons doc !! n = Some cj /\ p = (rpack (Z.of_nat n) (doc_ID doc), cj) /\
    rfields_ok (Z.of_nat n) (doc_ID doc).
Proof. intros Hr (n & cj & Hn & ->)%elem_of_rconj_log. exists n, cj. split_and!; try done. by eapply Hr. Qed.

Lemma NoDup_rdocs docs :
  NoDup (doc_ID <$> docs) -> Forall doc_in_range docs -> NoDup (docs ≫= rdoc_log).*1.
Proof.
  induction docs as [|doc docs IH]; intros Hnd Hr; [constructor |].
  apply NoDup_cons in Hnd as [Hnotin Hnd]. inversion Hr as [|? ? Hd Hr']; subst.
  change ((doc :: docs) ≫= rdoc_log) with (rdoc_log doc ++ (docs ≫= rdoc_log)).
  rewrite fmap_app. apply NoDup_app. split; [by apply NoDup_rconj_log |]. split; [| by apply IH].
  intros y (p & -> & Hp)%list_elem_of_fmap (p' & Heq & Hp')%list_elem_of_fmap.
  apply list_elem_of_bind in Hp' as (doc' & Hp' & Hdoc'). rewrite Forall_forall in Hr'.
  destruct (rdoc_entry _ _ Hd Hp) as (n & cj & _ & -> & Hok).
  destruct (rdoc_entry _ _ (Hr' _ Hdoc') Hp') as (n' & cj' & _ & -> & Hok'). simpl in Heq.
  apply rpack_inj in Heq as [_ Hid]; [| done | done].
  apply Hnotin. rewrite Hid. by apply list_elem_of_fmap_2.
Qed.

(** The documents behind the conjunctions found. *)
Lemma found_docs docs hit (P : Z -> Prop) x :
  Forall doc_in_range docs ->
  (exists y, (P (ConjunctionID_DocID y) /\ exists cj, (y, cj) ∈ (docs ≫= rdoc_log) /\ conj_sat hit cj = true) /\
     x = u64 (ConjunctionID_DocID y)) <->
  exists doc, doc ∈ docs /\ P (doc_ID doc) /\ x = u64 (doc_ID doc) /\ doc_sat hit doc = true.
Proof.
  intros Hr. rewrite Forall_forall in Hr. unfold doc_sat. setoid_rewrite existsb_exists.
  setoid_rewrite <- list_elem_of_In. split.
  - intros (y & [HP (cj & (doc & Hin & Hdoc)%list_elem_of_bind & Hs)] & ->).
    destruct (rdoc_entry _ _ (Hr _ Hdoc) Hin) as (n & cj' & Hn & [= -> ->] & Hok).
    rewrite rpack_DocID in * by done. exists doc. split_and!; try done.
    exists cj'. split; [by eapply list_elem_of_lookup_2 | done].
  - intros (doc & Hdoc & HP & -> & cj & [n Hn]%list_elem_of_lookup & Hs).
    assert (Hok : rfields_ok (Z.of_nat n) (doc_ID doc)) by by eapply Hr.
    exists (rpack (Z.of_nat n) (doc_ID doc)). rewrite rpack_DocID by done. split; [| done]. split; [done |].
    exists cj. split; [| done]. apply list_elem_of_bind. exists doc. split; [| done].
    apply elem_of_rconj_log. eauto.
Qed.

Lemma collect_docs_spec pool (sc : IvtScanner B Cn) :
  bitmaps_clean pool ->
  wp collect_docs (fun r s' => bitmaps_clean s'.1 /\ exists ids, r = Ok ids /\ StronglySorted Z.lt ids /\
    forall x, x ∈ ids <-> exists y, y ∈ bm_iter (sc_conjIDResults sc) /\ x = u64 (ConjunctionID_DocID y))
  (pool, sc).
Proof.
  intros Hclean. unfold wp, collect_docs. simpl. destruct (NewPostingList pool) as [pool1 bits] eqn:Ep.
  destruct (NewPostingList_clean _ _ _ Hclean Ep) as [Hclean1 Hbits]. simpl.
  split; [by apply ReleasePostingList_clean |]. eexists. split; [done |]. split; [apply bm_iter_sorted |].
  intros x. assert (Hgen : forall l b, x ∈ bm_iter (foldl (fun docs id => bm_add docs (u64 (ConjunctionID_DocID id))) b l)
    <-> x ∈ bm_iter b \/ exists y, y ∈ l /\ x = u64 (ConjunctionID_DocID y)).
  { induction l as [|y l IH]; intros b; simpl.
    - split; [by left | intros [Hx | (y & Hy & _)]; [done | elem_nil]].
    - rewrite IH, elem_of_bm_add. setoid_rewrite elem_of_cons. naive_solver. }
  rewrite Hgen, Hbits. split; [intros [Hx | Hx]; [elem_nil | done] | by right].
Qed.

(** A scanner on an index built from documents. *)
Lemma roaring_ready fields docs dflt pool0 s1 s2 ix :
  bitmaps_clean pool0 -> Forall (fun p => meta_ok (meta_of dflt p)) fields ->
  configure_all fields (pool0, NewIvtIndexerBuilder dflt) = (s1, Ok tt) ->
  ivt_AddDocuments docs s1 = (s2, Ok tt) -> BuildIndexer s2.2 = Ok ix ->
  index_log ix (metas_of dflt fields) (docs ≫= rdoc_log) /\
  Forall (rentry_ok (metas_of dflt fields)) (docs ≫= rdoc_log) /\ Forall doc_in_range docs /\
  Forall (fun doc => Z.of_nat (length (doc_Cons doc)) <= ix_docMaxConjSize ix) docs.
Proof.
  intros Hclean Hmetas Hconf Hadd Hbuild.
  pose proof (wp_elim (configure_spec fields _ ∅ (fresh_rrep pool0 dflt Hclean) Hmetas) Hconf) as Hrep1.
  simpl in Hrep1.
  destruct (wp_elim (ivt_AddDocuments_spec docs s1 _ [] Hrep1) Hadd)
    as (Hrep2 & Hents & Hrange & _ & Hmax). simpl in Hrep2.
  destruct (BuildIndexer_spec s2 _ _ ix Hrep2 Hbuild) as [Hlog Hsz]. rewrite Hsz. done.
Qed.

Lemma metas_of_ne dflt fields : fields <> [] -> metas_of dflt fields <> ∅.
Proof.
  intros Hne. destruct fields as [|p fields _] using rev_ind; [done |].
  unfold metas_of. rewrite foldl_app. simpl. apply insert_non_empty.
Qed.

(** What a fresh scanner answers on an index that holds documents. *)
Lemma indexed_answer metas docs ix q pool pool1 sc s' r :
  index_log ix metas (docs ≫= rdoc_log) -> Forall (rentry_ok metas) (docs ≫= rdoc_log) ->
  Forall doc_in_range docs -> NoDup (doc_ID <$> docs) -> metas <> ∅ ->
  bitmaps_clean pool -> NewScanner ix pool = (pool1, sc) -> scanner_Retrieve q (pool1, sc) = (s', r) ->
  match r with
  | Ok ids => StronglySorted Z.lt ids /\
      forall x, x ∈ ids <-> exists doc, doc ∈ docs /\ x = u64 (doc_ID doc) /\ doc_sat (rhit metas q) doc = true
  | OutOfFuel => False
  | _ => ~ rquery_ok metas q
  end.
Proof.
  intros Hlog Hents Hrange Hnd Hne Hclean Hsc Hret.
  unfold NewScanner in Hsc. destruct (NewPostingList pool) as [pl0 b0] eqn:Ep. injection Hsc as <- <-.
  destruct (NewPostingList_clean _ _ _ Hclean Ep) as [Hclean1 Hb0].
  pose proof (scanner_retrieve_spec metas (docs ≫= rdoc_log) q pl0
    {| sc_inited := false; sc_ended := false; sc_indexer := ix; sc_conjIDResults := b0 |}
    (NoDup_rdocs docs Hnd Hrange) Hents Hne Hlog Hclean1 ltac:(split; done)) as Hwp.
  unfold wp in Hwp. unfold scanner_Retrieve, mbind, M_bind in Hret.
  destruct (scanner_retrieve q _) as [[pool2 sc2] r2].
  destruct r2 as [u|e|e|]; [| by injection Hret as <- <- .. | done].
  destruct Hwp as [Hclean2 Hres]. simpl in Hclean2, Hres.
  destruct (wp_elim (collect_docs_spec pool2 sc2 Hclean2) Hret) as (_ & ids & -> & Hs & Hids).
  split; [done |]. intros x. rewrite Hids. setoid_rewrite Hres.
  pose proof (found_docs docs (rhit metas q) (fun _ => True) x Hrange) as Hf. simpl in Hf.
  split.
  - intros (y & [_ Hy] & ->). destruct (proj1 Hf) as (doc & ? & _ & ? & ?); [exists y; done |]. eauto.
  - intros (doc & ? & -> & ?). destruct (proj2 Hf) as (y & [_ Hy] & Heq); [exists doc; done |].
    exists y. split; [split; [done | exact Hy] | done].
Qed.

Lemma roaring_answer fields docs dflt pool0 s1 s2 ix q pool pool1 sc s' r :
  bitmaps_clean pool0 -> fields <> [] -> Forall (fun p => meta_ok (meta_of dflt p)) fields ->
  configure_all fields (pool0, NewIvtIndexerBuilder dflt) = (s1, Ok tt) ->
  NoDup (doc_ID <$> docs) -> ivt_AddDocuments docs s1 = (s2, Ok tt) -> BuildIndexer s2.2 = Ok ix ->
  bitmaps_clean pool -> NewScanner ix pool = (pool1, sc) -> scanner_Retrieve q (pool1, sc) = (s', r) ->
  match r with
  | Ok ids => StronglySorted Z.lt ids /\
      forall x, x ∈ ids <-> exists doc, doc ∈ docs /\ x = u64 (doc_ID doc) /\
                  doc_sat (rhit (metas_of dflt fields) q) doc = true
  | OutOfFuel => False
  | _ => ~ rquery_ok (metas_of dflt fields) q
  end.
Proof.
  intros Hclean0 Hne Hmetas Hconf Hnd Hadd Hbuild.
  destruct (roaring_ready _ _ _ _ _ _ _ Hclean0 Hmetas Hconf Hadd Hbuild) as (Hlog & Hents & Hrange & _).
  apply (indexed_answer _ _ _ _ _ _ _ _ _ Hlog Hents Hrange Hnd). by apply metas_of_ne.
Qed.

(** C19.  Retrieval of the roaring index is exact: with at least one field
    configured before the documents, and documents with distinct ids that were
    all added without error, a fresh scanner answers, in increasing order of
    their uint64 form, the ids of exactly the documents with a satisfied
    conjunction; it fails or panics only for a query value that the container of its
    field cannot take ([rquery_ok]): a Go array, a value that the field's parser
    refuses, or, on a keyword field, one that is no text or a text with U+FFFD in it
    (malformed UTF-8 reads as such), on which a malformed keyword makes it panic. *)
Theorem roaring_retrieval_exact fields docs dflt pool0 s1 s2 ix q pool pool1 sc s' r :
  bitmaps_clean pool0 -> fields <> [] -> Forall (fun p => meta_ok (meta_of dflt p)) fields ->
  configure_all fields (pool0, NewIvtIndexerBuilder dflt) = (s1, Ok tt) ->
  NoDup (doc_ID <$> docs) -> ivt_AddDocuments docs s1 = (s2, Ok tt) -> BuildIndexer s2.2 = Ok ix ->
  bitmaps_clean pool -> NewScanner ix pool = (pool1, sc) -> scanner_Retrieve q (pool1, sc) = (s', r) ->
  match r with
  | Ok ids => StronglySorted Z.lt ids /\
      forall x, x ∈ ids <-> exists doc, doc ∈ docs /\ x = u64 (doc_ID doc) /\
                  doc_sat (rhit (metas_of dflt fields) q) doc = true
  | OutOfFuel => False
  | _ => ~ rquery_ok (metas_of dflt fields) q
  end.
Proof. apply roaring_answer. Qed.

Lemma elem_of_hint_ids h idx n y :
  y ∈ hint_ids h idx n <-> exists i, idx <= i < idx + Z.of_nat n /\ rfields_ok i h /\ y = rpack i h.
Proof.
  revert idx. induction n as [|n IH]; intros idx; cbn [hint_ids].
  - split; [intros Hy; elem_nil | intros (i & Hi & _); lia].
  - destruct (NewConjunctionID_cases idx h) as [[Hok ->] | [Hbad [e ->]]].
    + rewrite elem_of_cons, IH. split.
      * intros [-> | (i & ? & ? & ?)]; [exists idx | exists i]; (split; [lia | done]).
      * intros (i & Hi & Hoki & ->). destruct (decide (i = idx)) as [-> | Hne]; [by left |].
        right. exists i. split; [lia | done].
    + rewrite IH. split.
      * intros (i & ? & ? & ?). exists i. split; [lia | done].
      * intros (i & Hi & Hoki & ->). destruct (decide (i = idx)) as [-> | Hne]; [done |].
        exists i. split; [lia | done].
Qed.

(** C20.  Hints restrict the answer: a fresh scanner given hints answers exactly
    the satisfied documents among them. *)
Theorem roaring_hints fields docs dflt pool0 s1 s2 ix q hints pool pool1 sc sc' s' ids :
  bitmaps_clean pool0 -> fields <> [] -> Forall (fun p => meta_ok (meta_of dflt p)) fields ->
  configure_all fields (pool0, NewIvtIndexerBuilder dflt) = (s1, Ok tt) ->
  NoDup (doc_ID <$> docs) -> ivt_AddDocuments docs s1 = (s2, Ok tt) -> BuildIndexer s2.2 = Ok ix ->
  bitmaps_clean pool -> NewScanner ix pool = (pool1, sc) -> WithHint hints sc = Ok sc' ->
  scanner_Retrieve q (pool1, sc') = (s', Ok ids) ->
  forall x, x ∈ ids <-> exists doc, doc ∈ docs /\ doc_ID doc ∈ hints /\ x = u64 (doc_ID doc) /\
              doc_sat (rhit (metas_of dflt fields) q) doc = true.
Proof.
  intros Hclean0 Hne Hmetas Hconf Hnd Hadd Hbuild Hclean Hsc Hhint Hret.
  destruct (roaring_ready _ _ _ _ _ _ _ Hclean0 Hmetas Hconf Hadd Hbuild) as (Hlog & Hents & Hrange & Hmax).
  unfold NewScanner in Hsc. destruct (NewPostingList pool) as [pl0 b0] eqn:Ep. injection Hsc as <- <-.
  destruct (NewPostingList_clean _ _ _ Hclean Ep) as [Hclean1 Hb0].
  unfold WithHint in Hhint. simpl in Hhint. injection Hhint as <-. set (hids := hints ≫= _) in Hret.
  pose proof (scanner_retrieve_spec (metas_of dflt fields) (docs ≫= rdoc_log) q pl0
    {| sc_inited := true; sc_ended := false; sc_indexer := ix; sc_conjIDResults := bm_add_many b0 hids |}
    (NoDup_rdocs docs Hnd Hrange) Hents (metas_of_ne dflt fields Hne) Hlog Hclean1 ltac:(split; done)) as Hwp.
  unfold wp in Hwp. unfold scanner_Retrieve, mbind, M_bind in Hret.
  destruct (scanner_retrieve q _) as [[pool2 sc2] r2]. destruct r2 as [u|e|e|]; try done.
  destruct Hwp as [Hclean2 Hres]. simpl in Hclean2, Hres.
  destruct (wp_elim (collect_docs_spec pool2 sc2 Hclean2) Hret) as (_ & ids' & [= <-] & Hs & Hids).
  intros x. rewrite Hids. setoid_rewrite Hres. setoid_rewrite elem_of_bm_add_many. rewrite Hb0.
  rewrite <- (found_docs docs (rhit (metas_of dflt fields) q) (fun d => d ∈ hints) x Hrange).
  rewrite Forall_forall in Hrange, Hmax. split; intros (y & [Hy (cj & Hin & Hs')] & ->); exists y;
    (split; [| done]); (split; [| by exists cj]).
  - destruct (Hy eq_refl) as [(h & (i & _ & Hok & ->)%elem_of_hint_ids & Hh)%list_elem_of_bind | Hx];
      [by rewrite rpack_DocID | elem_nil].
  - intros _. left. apply list_elem_of_bind in Hin as (doc & Hin & Hdoc).
    destruct (rdoc_entry _ _ (Hrange _ Hdoc) Hin) as (n & cj' & Hn & [= -> ->] & Hok).
    rewrite rpack_DocID in Hy by done. apply list_elem_of_bind. exists (doc_ID doc). split; [| done].
    apply elem_of_hint_ids. exists (Z.of_nat n). split; [| done].
    specialize (Hmax _ Hdoc). apply lookup_lt_Some in Hn. lia.
Qed.

(** The document with its first conjunctions only. *)
Definition doc_with (doc : Document) (cjs : list Conjunction) : Document :=
  {| doc_ID := doc_ID doc; doc_Version := doc_Version doc; doc_Cons := cjs |}.

(** C33.  Adding a document to the roaring builder is not atomic: when a conjunction
    is refused because its id is out of range or it names a field that is not
    configured, and the document with the conjunctions before it would be accepted,
    adding the document fails, and the index built afterwards answers as if the
    document had been added with those conjunctions. *)
Theorem roaring_add_not_atomic fields docs dflt pool0 s1 s2 doc pre cj post s2' :
  bitmaps_clean pool0 -> fields <> [] -> Forall (fun p => meta_ok (meta_of dflt p)) fields ->
  configure_all fields (pool0, NewIvtIndexerBuilder dflt) = (s1, Ok tt) ->
  NoDup (doc_ID <$> docs ++ [doc]) -> ivt_AddDocuments docs s1 = (s2, Ok tt) ->
  doc_Cons doc = pre ++ cj :: post -> ivt_AddDocument (doc_with doc pre) s2 = (s2', Ok tt) ->
  (~ rfields_ok (Z.of_nat (length pre)) (doc_ID doc) \/
   exists f, is_Some (Expressions cj !! f) /\ metas_of dflt fields !! f = None) ->
  failed (ivt_AddDocument doc s2).2 /\
  forall ix q pool pool1 sc s' ids,
    BuildIndexer (ivt_AddDocument doc s2).1.2 = Ok ix ->
    bitmaps_clean pool -> NewScanner ix pool = (pool1, sc) -> scanner_Retrieve q (pool1, sc) = (s', Ok ids) ->
    forall x, x ∈ ids <-> exists doc', doc' ∈ docs ++ [doc_with doc pre] /\ x = u64 (doc_ID doc') /\
      doc_sat (rhit (metas_of dflt fields) q) doc' = true.
Proof.
  intros Hclean0 Hne Hmetas Hconf Hnd Hadd Hcons Hpre Href.
  pose proof (wp_elim (configure_spec fields _ ∅ (fresh_rrep pool0 dflt Hclean0) Hmetas) Hconf) as Hrep1.
  simpl in Hrep1. fold (metas_of dflt fields) in Hrep1.
  destruct (wp_elim (ivt_AddDocuments_spec docs s1 _ [] Hrep1) Hadd) as (Hrep2 & Hents & Hrange & _).
  simpl in Hrep2. unfold ivt_AddDocument in Hpre. simpl in Hpre. case_bool_decide as Hlen.
  { unfold build_error in Hpre. by destruct (ib_panicOnError s2.2). }
  unfold mbind, M_bind in Hpre. destruct (encode_conjs (doc_ID doc) 0 pre s2) as [s3 [[]|e|e|]] eqn:Eenc; try done.
  destruct (wp_elim (encode_conjs_spec pre (doc_ID doc) 0 s2 _ _ Hrep2) Eenc) as (Hrep3 & _ & Hents3 & Hids).
  destruct (encode_conjs_refused (doc_ID doc) cj post s3 pre 0 s2 Eenc) as [Hs Hr].
  { destruct Href as [Hbad | (f & Hf & Hnone)]; [by left | right]. exists f. split; [done |].
    destruct Hrep3 as [_ Hall]. specialize (Hall f). rewrite Hnone in Hall.
    by destruct (ib_containerBuilder s3.2 !! f). }
  assert (ivt_AddDocument doc s2 = (s3, (ivt_AddDocument doc s2).2) /\ failed (ivt_AddDocument doc s2).2) as [Hs3 Hf].
  { unfold ivt_AddDocument. rewrite Hcons. rewrite bool_decide_eq_false_2 by (rewrite length_app; simpl; lia).
    unfold mbind, M_bind. destruct (encode_conjs (doc_ID doc) 0 (pre ++ cj :: post) s2) as [s4 r4].
    simpl in Hs, Hr. subst s4. destruct Hr as [e [-> | ->]]; simpl; unfold failed; eauto. }
  split; [done |]. rewrite Hs3. simpl. intros ix q pool pool1 sc s' ids Hbuild Hclean Hsc Hret.
  destruct (BuildIndexer_spec s3 _ _ ix Hrep3 Hbuild) as [Hlog _].
  assert ((docs ++ [doc_with doc pre]) ≫= rdoc_log = (docs ≫= rdoc_log) ++ rconj_log (doc_ID doc) 0 pre) as Heq
    by (rewrite bind_app, bind_singleton; done).
  refine (proj2 (indexed_answer (metas_of dflt fields) (docs ++ [doc_with doc pre]) ix q pool pool1 sc s' (Ok ids)
    _ _ _ _ (metas_of_ne dflt fields Hne) Hclean Hsc Hret)).
  - by rewrite Heq.
  - rewrite Heq. by apply Forall_app.
  - apply Forall_app. split; [done |]. apply Forall_singleton. exact Hids.
  - rewrite fmap_app in *. exact Hnd.
Qed.

End Properties.

(** ** The sample roaring index *)

Lemma pair_snd {S A} (p : S * A) a : p.2 = a -> p = (p.1, a).
Proof. by destruct p; intros <-. Qed.

Definition is_ok {A} (r : res A) : bool := match r with Ok _ => true | _ => false end.

(** The generator that [NewIndexerBuilder] installs: the common parser over a
    hash allocator. *)
Definition demo_generator : ValueIDGenerator := common_generator.

(** The containers of the package, with the sample matching machine. *)
Abbreviation DemoContainer := (DefaultBEContainer zset + ACBEContainer zset (list (list Z)))%type (only parsing).

Definition demo_containers : gmap string (FieldMeta -> list zset -> list zset * DemoContainer) :=
  containerFactory_init.

Definition demo_meta_ok (m : FieldMeta) : Prop := generator_ok (fm_Parser m).

Definition demo_fields : list (BEField * FieldSetting) :=
  [("age", {| fs_Parser := None; fs_Container := ContainerNameDefault |});
   ("city", {| fs_Parser := None; fs_Container := ContainerNameDefault |});
   ("title", {| fs_Parser := None; fs_Container := ContainerNameAcMatch |})].

Lemma demo_fields_ok : Forall (fun p => demo_meta_ok (meta_of demo_generator p)) demo_fields.
Proof. repeat constructor; apply common_generator_ok. Qed.

(** Document 20: the title has sale or gift, and not spam. *)
Definition demo_title : Document :=
  AddConjunction (NewDocument 20)
    [NotIn (In NewConjunction "title" (VStrs (Some ["sale"; "gift"]))) "title" (VStr "spam")].

Definition demo_rdocs : list Document := demo_docs ++ [demo_title].

Definition demo_ivt1 : list zset * IvtBEIndexerBuilder DemoContainer :=
  (configure_all demo_containers demo_fields ([], NewIvtIndexerBuilder demo_generator)).1.

Definition demo_ivt2 : list zset * IvtBEIndexerBuilder DemoContainer :=
  (ivt_AddDocuments demo_rdocs demo_ivt1).1.

Definition demo_ivt : IvtBEIndexer DemoContainer :=
  match BuildIndexer demo_ivt2.2 with
  | Ok ix => ix
  | _ => {| ix_docMaxConjSize := 0; ix_data := ∅ |}
  end.

Definition demo_scan (hints : option (list Z)) (q : Assignments) : res (list Z) :=
  let '(pool, sc) := NewScanner demo_ivt [] in
  match hints with
  | None => (scanner_Retrieve q (pool, sc)).2
  | Some hs => match WithHint hs sc with
               | Ok sc => (scanner_Retrieve q (pool, sc)).2
               | _ => Panic "hint"
               end
  end.

Lemma demo_ivt1_run :
  configure_all demo_containers demo_fields ([], NewIvtIndexerBuilder demo_generator) = (demo_ivt1, Ok tt).
Proof. unfold demo_ivt1. apply (pair_snd (configure_all _ _ _)). by vm_compute. Qed.

Lemma demo_ivt2_run : ivt_AddDocuments demo_rdocs demo_ivt1 = (demo_ivt2, Ok tt).
Proof. unfold demo_ivt2. apply (pair_snd (ivt_AddDocuments demo_rdocs demo_ivt1)). by vm_compute. Qed.

Lemma demo_ivt_run : BuildIndexer demo_ivt2.2 = Ok demo_ivt.
Proof.
  unfold demo_ivt. assert (Hok : is_ok (BuildIndexer demo_ivt2.2) = true) by by vm_compute.
  by destruct (BuildIndexer demo_ivt2.2).
Qed.

Lemma demo_rdocs_ids : NoDup (doc_ID <$> demo_rdocs).
Proof. apply (bool_decide_unpack (NoDup (doc_ID <$> demo_rdocs))). by vm_compute. Qed.

(** Documents 7, -3 and 20 among the hits of city = bj and a title with sale: 7 by
    its second conjunction. *)
Definition demo_bj : Assignments := <[ "title" := VStr "big sale" ]> {[ "city" := VStr "bj" ]}.

Lemma roaring_retrieval_exact_witness :
  demo_scan None demo_bj = Ok [7; 20; u64 (-3)] /\
  forall x, x ∈ [7; 20; u64 (-3)] <-> exists doc, doc ∈ demo_rdocs /\ x = u64 (doc_ID doc) /\
    doc_sat (rhit (Cn:=DemoContainer) (metas_of demo_generator demo_fields) demo_bj) doc = true.
Proof.
  split; [by vm_compute |].
  destruct (NewScanner demo_ivt []) as [pool1 sc] eqn:Es.
  destruct (scanner_Retrieve demo_bj (pool1, sc)) as [s' r] eqn:Er.
  assert (r = Ok [7; 20; u64 (-3)]) as ->.
  { change r with (s', r).2. rewrite <- Er. clear Er.
    assert (pool1 = (NewScanner demo_ivt []).1) as -> by (by rewrite Es).
    assert (sc = (NewScanner demo_ivt []).2) as -> by (by rewrite Es). by vm_compute. }
  refine (proj2 (roaring_retrieval_exact demo_containers demo_meta_ok containerFactory_init_new demo_fields demo_rdocs
    demo_generator [] demo_ivt1 demo_ivt2 demo_ivt demo_bj [] pool1 sc s' (Ok [7; 20; u64 (-3)]) _ _ demo_fields_ok _ _ _ _ _ Es Er)).
  - apply Forall_nil_2.
  - discriminate.
  - exact demo_ivt1_run.
  - exact demo_rdocs_ids.
  - exact demo_ivt2_run.
  - exact demo_ivt_run.
  - apply Forall_nil_2.
Defined.

Lemma roaring_hints_witness :
  demo_scan (Some [-3]) demo_bj = Ok [u64 (-3)] /\
  forall x, x ∈ [u64 (-3)] <-> exists doc, doc ∈ demo_rdocs /\ doc_ID doc ∈ [-3] /\ x = u64 (doc_ID doc) /\
    doc_sat (rhit (Cn:=DemoContainer) (metas_of demo_generator demo_fields) demo_bj) doc = true.
Proof.
  split; [by vm_compute |].
  destruct (NewScanner demo_ivt []) as [pool1 sc] eqn:Es.
  destruct (WithHint [-3] sc) as [sc' | | |] eqn:Eh; [| by injection Es as <- <- ..].
  destruct (scanner_Retrieve demo_bj (pool1, sc')) as [s' r] eqn:Er.
  assert (r = Ok [u64 (-3)]) as ->.
  { change r with (s', r).2. rewrite <- Er. injection Es as <- <-. injection Eh as <-. by vm_compute. }
  refine (roaring_hints demo_containers demo_meta_ok containerFactory_init_new demo_fields demo_rdocs
    demo_generator [] demo_ivt1 demo_ivt2 demo_ivt demo_bj [-3] [] pool1 sc sc' s' [u64 (-3)] _ _ demo_fields_ok _ _ _ _ _ Es Eh Er).
  - apply Forall_nil_2.
  - discriminate.
  - exact demo_ivt1_run.
  - exact demo_rdocs_ids.
  - exact demo_ivt2_run.
  - exact demo_ivt_run.
  - apply Forall_nil_2.
Defined.

(** ** Where the roaring builder departs from the all-or-nothing contract *)

(** A document whose second conjunction names a field that is not configured, and
    one whose second conjunction has a value no parser reads. *)
Definition demo_half : Document :=
  AddConjunction (NewDocument 9)
    [In NewConjunction "city" (VStr "gz"); In NewConjunction "tag" (VStr "x")].

Definition demo_half_value : Document :=
  AddConjunction (NewDocument 9)
    [In NewConjunction "city" (VStr "gz"); In NewConjunction "age" (VOther false)].

Definition scan_of {B Cn} `{Roaring64 B} `{!BEContainer B Cn} `{MapRange}
    (s : list B * IvtBEIndexerBuilder Cn) (q : Assignments) : res (list Z) :=
  ix ← BuildIndexer s.2; (scanner_Retrieve q (NewScanner ix s.1)).2.

Definition demo_gz : Assignments := {[ "city" := VStr "gz" ]}.

Lemma roaring_add_not_atomic_witness :
  scan_of demo_ivt2 demo_gz = Ok [7] /\ scan_of (ivt_AddDocument demo_half demo_ivt2).1 demo_gz = Ok [7; 9] /\
  failed (ivt_AddDocument demo_half demo_ivt2).2.
Proof.
  split; [by vm_compute |]. split; [by vm_compute |].
  assert ((ivt_AddDocument (doc_with demo_half [In NewConjunction "city" (VStr "gz")]) demo_ivt2).2 = Ok tt) as Hpre
    by by vm_compute.
  refine (proj1 (roaring_add_not_atomic demo_containers demo_meta_ok containerFactory_init_new demo_fields demo_rdocs
    demo_generator [] demo_ivt1 demo_ivt2 demo_half [In NewConjunction "city" (VStr "gz")]
    (In NewConjunction "tag" (VStr "x")) [] _ _ _ demo_fields_ok demo_ivt1_run _ demo_ivt2_run _ (pair_snd _ _ Hpre) _)).
  - apply Forall_nil_2.
  - discriminate.
  - apply (bool_decide_unpack (NoDup (doc_ID <$> demo_rdocs ++ [demo_half]))). by vm_compute.
  - reflexivity.
  - right. exists "tag". split; [by eexists |]. by vm_compute.
Defined.

(** So it is when a value is refused. *)
Example roaring_refused_value_stays :
  (ivt_AddDocument demo_half_value demo_ivt2).2 = Err "value type not support" /\
  scan_of (ivt_AddDocument demo_half_value demo_ivt2).1 demo_gz = Ok [7; 9].
Proof. split; by vm_compute. Qed.

(** Fields of the roaring builder have to be configured before the first
    document: a field configured later has an empty container without the
    wildcard entries of the documents before, none of which is found any more,
    by queries that name the field and by queries that do not. *)
Lemma roaring_late_field_hides :
  (ConfigureField demo_containers "tag" {| fs_Parser := None; fs_Container := ContainerNameDefault |} demo_ivt2).2 = Ok tt /\
  scan_of demo_ivt2 demo_bj = Ok [7; 20; u64 (-3)] /\
  forall q, q = demo_bj \/ q = <[ "tag" := VStr "x" ]> demo_bj ->
    scan_of (ConfigureField demo_containers "tag" {| fs_Parser := None; fs_Container := ContainerNameDefault |} demo_ivt2).1 q
      = Ok [].
Proof. split_and!; [by vm_compute .. |]. intros q [-> | ->]; by vm_compute. Qed.

Lemma roaring_late_field_hides_witness :
  scan_of (ConfigureField demo_containers "tag" {| fs_Parser := None; fs_Container := ContainerNameDefault |} demo_ivt2).1 demo_bj
    = Ok [].
Proof. apply roaring_late_field_hides. by left. Defined.
