(* ===== verification/RangeProperties.v ===== *)
(** * Properties of the range index, the range holder and the range parser

    The range index is a partition whose pieces carry the entries of the ranges
    over them; the range holder implements the holder contract, so that together
    with the default holder it serves the system; the boundaries of int64 and the
    document cache are where its behaviour departs from the expressions. *)

From Stdlib Require Import SpecFloat Strings.Byte.
From stdpp Require Import base sorting gmap strings numbers list.
From S2P Require Import Prelude GoValues Ids Document Cursor FieldCursor Collector Scan Holder.
From S2P Require Import Index IndexSpec IndexProofs IndexInstances Parsers DefaultHolder.
From S2P Require Import RangeParser RangeIdx RangeHolder HolderSum Builder.
From S2P Require Import BuilderSpec BuilderProofs BuilderDocs Semantics System Demo Properties.
Open Scope Z_scope.

(** ** The range index *)

(** C21.  After any ranges were indexed, the compiled range index finds the piece
    of every value within its bounds, by binary search, and the piece holds, in
    increasing order, the entries of exactly those ranges starting at or above the
    minimum that contain the value: a range that starts below the minimum is dropped
    as a whole, also where it overlaps the span of the index. *)
Theorem range_index_exact mn mx rix rgs :
  NewRangeIdx mn mx = Ok rix -> Forall (fun p => rg_left p.1 < rg_right p.1) rgs ->
  exists rix', index_ranges rix rgs = Ok rix' /\
    forall v, match rix_Retrieve (rix_Compile rix') v with
              | Some (_, re) => mn <= v < mx /\ StronglySorted Z.le (re_entries re) /\
                                re_entries re ≡ₚ containing (filter (fun p => mn <= rg_left p.1) rgs) v
              | None => ~ mn <= v < mx
              end.
Proof.
  intros Hnew Hall. destruct (NewRangeIdx_inv _ _ _ Hnew) as (Hinv & Hmn & Hmx & Hnone).
  destruct (index_ranges_spec rgs rix Hinv Hall) as (rix' & Hi & Hinv' & Hmn' & Hmx' & Hent).
  exists rix'. split; [done |]. intros v.
  destruct (rix_Compile_spec rix' Hinv') as (Hp & Hmn2 & Hmx2 & Hperm & Hsort).
  pose proof (rix_Retrieve_spec _ v Hp) as Hret.
  replace (valueMin (rix_Compile rix')) with mn in * by congruence.
  replace (valueMax (rix_Compile rix')) with mx in * by congruence.
  destruct (rix_Retrieve (rix_Compile rix') v) as [[i re]|] eqn:Er; [| apply Hret].
  destruct Hret as [Hl Hat]. assert (mn <= v < mx) as Hv.
  { unfold rix_Retrieve in Er. destruct (_ || _) eqn:Hb; [done |].
    apply orb_false_iff in Hb as [H1%bool_decide_eq_false H2%bool_decide_eq_false]. simpl in *. lia. }
  split; [done |]. split; [by eapply (Forall_lookup_1 _ _ i re Hsort) |].
  rewrite <- placed_at_containing with (mx := mx) by lia.
  rewrite <- Hat, Hperm, Hent, Hnone, Hmn, Hmx. done.
Qed.

Definition demo_ranges : list (Range * EntryID) :=
  [({| rg_left := 10; rg_right := 50 |}, 33); ({| rg_left := 20; rg_right := 200 |}, 17);
   ({| rg_left := -5; rg_right := 30 |}, 49)].

Definition demo_rix : RangeIdx :=
  match NewRangeIdx 0 100 with
  | Ok rix => rix
  | _ => {| rix_compiled := false; rix_maxLen := 0; rix_avgLen := 0; valueMin := 0; valueMax := 0;
            items := []; rgEntries := [] |}
  end.

Lemma range_index_exact_witness :
  exists rix', index_ranges demo_rix demo_ranges = Ok rix' /\
    (forall v, match rix_Retrieve (rix_Compile rix') v with
               | Some (_, re) => 0 <= v < 100 /\ StronglySorted Z.le (re_entries re) /\
                                 re_entries re ≡ₚ containing (filter (fun p => 0 <= rg_left p.1) demo_ranges) v
               | None => ~ 0 <= v < 100
               end) /\
    snd <$> rix_Retrieve (rix_Compile rix') 25 =
      Some {| re_Range := {| rg_left := 20; rg_right := 50 |}; re_entries := [17; 33] |}.
Proof.
  destruct (range_index_exact 0 100 demo_rix demo_ranges) as (rix' & Hi & Hall).
  - reflexivity.
  - repeat constructor.
  - exists rix'. split; [done |]. split; [done |]. revert Hi. vm_compute. by intros [= <-].
Defined.

(** Compiling a range index again empties it: the pieces were moved out by the
    first time. *)
Lemma rix_Compile_twice rix v : rix_Retrieve (rix_Compile (rix_Compile rix)) v = None.
Proof. unfold rix_Retrieve. simpl. by destruct (_ || _). Qed.

(** ** The range holder *)

Section Holder.
Context `{MapRange} `{GoFloat} `{JsonRangeTx}.

Definition range_commit_all (h : RangeHolder) (txs : Txs RangeTxData) : RangeHolder :=
  foldl (fun h tx => (range_CommitFieldIndexingData h tx.1.1 tx.1.2 (Some tx.2)).1) h txs.

Lemma range_commit_all_holds mn mx txs : mn < mx -> MinInt64 <= mn -> Forall (fun tx => range_data_ok tx.2) txs ->
  forall h txs0, range_holds mn mx h (items (rh_rangeIdx h)) txs0 ->
  rh_option (range_commit_all h txs) = rh_option h /\
  range_holds mn mx (range_commit_all h txs) (items (rh_rangeIdx (range_commit_all h txs))) (txs0 ++ txs).
Proof.
  intros Hmm Hmin. induction 1 as [|[[d e] x] txs Hx _ IH]; intros h txs0 Hh.
  - by rewrite app_nil_r.
  - destruct (range_commit_spec mn mx h txs0 d e x Hh Hmm Hmin Hx) as (h' & Hc & Ho & Hh').
    assert (range_commit_all h ((d, e, x) :: txs) = range_commit_all h' txs) as ->
      by (unfold range_commit_all at 1; cbn [foldl fst snd]; by rewrite Hc).
    destruct (IH h' _ Hh') as [Ho' Hall]. rewrite <- app_assoc in Hall. split; [by rewrite Ho', Ho | done].
Qed.

(** C22.  The range holder implements its contract: after data prepared for a field
    is committed to a fresh holder and compiled, a query returns fresh cursors
    over sorted posting lists that hold exactly the entries whose listed values or
    whose range contain one of the integers of the query, except that a range that
    starts below [RangeMin] is never found (it is dropped) and no range is found for an
    integer from [RangeMax] on; it fails exactly when the query is not readable as
    integers. *)
Theorem range_holder_refines fns h0 d txs v :
  NewNumberExtendRangeHolder fns = Ok h0 -> MinInt64 <= RangeMin (rh_option h0) ->
  Forall (fun tx => tx.1.1 = d /\ valid_eid tx.1.2 /\ range_data_ok tx.2) txs ->
  match range_GetEntries (range_CompileEntries (range_commit_all h0 txs)).1 d v with
  | Ok cs => cursors_ok cs /\
      forall e, e ∈ (cs ≫= ec_entries) <->
        exists x ids id, (d, e, x) ∈ txs /\ ParseIntegers v (EnableFloat2Int (rh_option h0)) = Ok ids /\
          id ∈ ids /\ range_contains x id /\ ~ range_dropped (RangeMin (rh_option h0)) x /\
          (rtx_Operator x = ValueOptEQ \/ id < RangeMax (rh_option h0))
  | Err e => ParseIntegers v (EnableFloat2Int (rh_option h0)) = Err e
  | Panic e => ParseIntegers v (EnableFloat2Int (rh_option h0)) = Panic e
  | OutOfFuel => False
  end.
Proof.
  intros Hnew Hmin Htxs. destruct (NewNumberExtendRangeHolder_ok _ _ Hnew Hmin) as [[Hmin' Hmm] Hh0].
  destruct (NewNumberExtendRangeHolder_bounds _ _ Hnew) as [Hbmin Hbmax]. rewrite Hbmin, Hbmax in *.
  rewrite !Forall_and in Htxs. destruct Htxs as (Hd & Hvalid & Hok). rewrite Forall_forall in Hd.
  destruct (range_commit_all_holds _ _ txs Hmm Hmin' Hok h0 [] Hh0) as [Hopt Hholds].
  destruct (range_compile_spec _ _ _ _ Hholds Hmm) as (Hc & Hl & Hr).
  pose proof (range_get_exact _ _ _ _ d v Hc Hl Hr Hvalid) as Hget.
  change (rh_option (range_CompileEntries (range_commit_all h0 txs)).1)
    with (rh_option (range_commit_all h0 txs)) in Hget. rewrite Hopt in Hget.
  destruct (ParseIntegers v _) as [ids|e|e|]; [| by rewrite Hget .. | done].
  destruct Hget as (cs & -> & Hcs & Hmem). split; [done |]. intros e. rewrite Hmem.
  setoid_rewrite existsb_exists. setoid_rewrite <- list_elem_of_In. setoid_rewrite range_covers_contains. split.
  - intros (d' & x & Hin & id & Hid & Hcov). pose proof (Hd _ Hin) as Hdd. simpl in Hdd. subst d'. eauto 10.
  - intros (x & ids' & id & Hin & [= <-] & Hid & Hcov). eauto 10.
Qed.

(** The data that a range holder is given to commit: prepared for an expression, or
    read back from the cached form of such data. *)
Inductive range_data (h : RangeHolder) : RangeTxData -> Prop :=
| rd_prepared d bv x : (range_BuildFieldIndexingData h d bv).2 = Ok x -> range_data h x
| rd_restored h0 d bv x bytes x' :
    (range_BuildFieldIndexingData h0 d bv).2 = Ok x -> range_Encode x = Ok bytes ->
    range_DecodeFieldIndexingData h bytes = Ok x' -> range_data h x'.

(** A range holder in use: made with options, given data, compiled, in any order. *)
Inductive range_reach (fns : list (RangeHolderOption -> RangeHolderOption)) : RangeHolder -> Prop :=
| rr_new h : NewNumberExtendRangeHolder fns = Ok h -> range_reach fns h
| rr_commit h d x eid h' r :
    range_reach fns h -> range_data h x ->
    range_CommitFieldIndexingData h d eid (Some x) = (h', r) -> range_reach fns h'
| rr_compile h h' r : range_reach fns h -> range_CompileEntries h = (h', r) -> range_reach fns h'.

(** The ranges partition the span until they are compiled; then there are none. *)
Definition range_items_ok (h : RangeHolder) : Prop :=
  if rix_compiled (rh_rangeIdx h) then items (rh_rangeIdx h) = []
  else range_partition (RangeMin (rh_option h)) (RangeMax (rh_option h)) (items (rh_rangeIdx h)).

Definition range_state_ok (h : RangeHolder) : Prop :=
  valueMin (rh_rangeIdx h) = RangeMin (rh_option h) /\ valueMax (rh_rangeIdx h) = RangeMax (rh_option h) /\
  RangeMin (rh_option h) < RangeMax (rh_option h) /\ range_items_ok h.

Lemma range_data_cases `{!JsonRangeTxSpec} h x :
  range_data h x -> rtx_Operator x = ValueOptEQ \/
    (rtx_Operator x = ValueOptBetween /\ exists rg, rtx_RgValue x = Some rg /\
       (range_ok rg \/ rg = {| rg_left := 0; rg_right := 0 |})).
Proof.
  intros [d bv x' Hb | h0 d bv x0 bytes x' Hb He Hd].
  - destruct (range_build_ok _ _ _ _ Hb) as [? | (? & rg & ? & ?)]; [by left |]. right. eauto.
  - unfold range_Encode in He. unfold range_DecodeFieldIndexingData in Hd.
    rewrite (json_Unmarshal_Marshal _ _ _ _ He) in Hd. injection Hd as <-. simpl.
    destruct (range_build_ok _ _ _ _ Hb) as [? | (? & rg & -> & ?)]; [by left |]. right.
    split; [done |]. eexists. split; [reflexivity |]. by right.
Qed.

(** Indexing into a range index that was compiled changes nothing. *)
Lemma IndexingRange_compiled rix l r eid : items rix = [] -> IndexingRange rix l r eid = Ok rix.
Proof. intros Hi. unfold IndexingRange. rewrite Hi. destruct rix. simpl in *. by subst. Qed.

Lemma IndexingRange_total rix rg eid :
  rix_inv rix -> MinInt64 <= valueMin rix -> range_ok rg \/ rg = {| rg_left := 0; rg_right := 0 |} ->
  exists rix', IndexingRange rix (rg_left rg) (rg_right rg) eid = Ok rix' /\ rix_inv rix' /\
    valueMin rix' = valueMin rix /\ valueMax rix' = valueMax rix /\ rix_compiled rix' = rix_compiled rix.
Proof.
  intros Hinv Hmin Hrg.
  assert (forall l r, l < r -> exists rix', IndexingRange rix l r eid = Ok rix' /\ rix_inv rix' /\
    valueMin rix' = valueMin rix /\ valueMax rix' = valueMax rix /\ rix_compiled rix' = rix_compiled rix) as Hlt.
  { intros l r Hlr. destruct (IndexingRange_spec rix l r eid Hinv Hlr) as (rix' & Hi & Hinv' & Hmn & Hmx & _).
    exists rix'. split_and!; try done. unfold IndexingRange in Hi.
    destruct (index_walk _ _ _ _); try done. by injection Hi as <-. }
  destruct Hrg as [[Hok | [Hl Hr]] | ->]; [by apply Hlt | |].
  - exists rix. rewrite IndexingRange_empty; [done | done | rewrite Hl, Hr; done | lia].
  - simpl. change (IndexingRange rix 0 0 eid) with (IndexingRange rix 0 1 eid). by apply Hlt.
Qed.

Lemma range_commit_safe `{!JsonRangeTxSpec} h d eid x :
  range_state_ok h -> MinInt64 <= RangeMin (rh_option h) -> range_data h x ->
  exists h', range_CommitFieldIndexingData h d eid (Some x) = (h', Ok tt) /\ rh_option h' = rh_option h /\
    range_state_ok h' /\ (rix_compiled (rh_rangeIdx h) = true -> rh_rangeIdx h' = rh_rangeIdx h).
Proof.
  intros (Hmn & Hmx & Hmm & Hi) Hmin Hx. unfold range_CommitFieldIndexingData.
  destruct (range_data_cases h x Hx) as [-> | (-> & rg & -> & Hrg)]; [by eexists |].
  change (bool_decide (ValueOptBetween = ValueOptEQ)) with false. cbn iota.
  change (_ || _ || bool_decide (ValueOptBetween = ValueOptBetween)) with true. cbn iota.
  unfold range_items_ok in Hi. destruct (rix_compiled (rh_rangeIdx h)) eqn:Hc.
  - rewrite IndexingRange_compiled by done. eexists. split; [done |]. split; [done |].
    split; [| done]. unfold range_state_ok, range_items_ok. simpl. by rewrite Hc.
  - destruct (IndexingRange_total (rh_rangeIdx h) rg eid) as (rix' & -> & [_ Hp] & Hmn' & Hmx' & Hc');
      [split; [lia | by rewrite Hmn, Hmx] | lia | done |].
    eexists. split; [done |]. split; [done |]. split; [| done]. unfold range_state_ok, range_items_ok. simpl.
    rewrite Hc', Hc, Hmn', Hmx', <- Hmn, <- Hmx. rewrite Hmn', Hmx' in Hp. split_and!; try done; lia.
Qed.

Lemma range_reach_ok `{!JsonRangeTxSpec} fns h :
  range_reach fns h -> MinInt64 <= RangeMin (rh_option h) -> range_state_ok h.
Proof.
  induction 1 as [h Hnew | h d x eid h' r _ IH Hx Hc | h h' r _ IH Hc]; intros Hmin.
  - destruct (NewNumberExtendRangeHolder_ok _ _ Hnew Hmin) as [Hmm [_ Hp _]].
    destruct (NewNumberExtendRangeHolder_bounds _ _ Hnew) as [Hmn Hmx]. rewrite Hmn, Hmx in *.
    split; [done |]. split; [done |]. split; [lia |]. unfold range_items_ok.
    assert (rix_compiled (rh_rangeIdx h) = false) as ->; [| done].
    unfold NewNumberExtendRangeHolder, NewRangeIdx in Hnew. case_bool_decide; [done |]. by injection Hnew as <-.
  - assert (Hopt : rh_option h' = rh_option h).
    { unfold range_CommitFieldIndexingData in Hc. repeat case_match; by injection Hc as <- <-. }
    rewrite Hopt in Hmin. destruct (range_commit_safe h d eid x (IH Hmin) Hmin Hx) as (h1 & Hc1 & _ & Hok & _).
    rewrite Hc in Hc1. by injection Hc1 as -> _.
  - injection Hc as <- <-. simpl in Hmin. destruct (IH Hmin) as (Hmn & Hmx & Hmm & _). by split_and!.
Qed.

(** C23.  The range holder does not go wrong: in every state that it reaches, by
    being given data (prepared, or restored from the cache) and by being compiled, in
    any order, its ranges partition the span from the minimum to the maximum, or there
    are none because it was compiled; preparing an expression ends in data, an error
    or a panic; and whatever data it is given it commits, without error and without
    the panics of the range index and of the operator switch, into such a state.
    After it was compiled, a commit leaves the range index as it is: the range is
    lost. *)
Theorem range_holder_safe `{!JsonRangeTxSpec} fns h d bv eid :
  range_reach fns h -> MinInt64 <= RangeMin (rh_option h) ->
  range_items_ok h /\ (range_BuildFieldIndexingData h d bv).2 <> OutOfFuel /\
  forall x, range_data h x ->
    exists h', range_CommitFieldIndexingData h d eid (Some x) = (h', Ok tt) /\
      rh_option h' = rh_option h /\ range_items_ok h' /\
      (rix_compiled (rh_rangeIdx h) = true -> rh_rangeIdx h' = rh_rangeIdx h).
Proof.
  intros Hr Hmin. pose proof (range_reach_ok fns h Hr Hmin) as Hok. split; [apply Hok |].
  split; [apply range_build_fuel |]. intros x Hx.
  destruct (range_commit_safe h d eid x Hok Hmin Hx) as (h' & Hc & Ho & (_ & _ & _ & Hi) & Hlost). eauto.
Qed.

(** C24.  The meaning of a range expression, with ends away from those of int64:
    the data prepared for [field > m], [field < m] or [field between l and r]
    covers, of the int64 integers, exactly those above [m], below [m], or from [l]
    up to but not including [r], other than the largest int64, which no range
    covers; this holds whether the range is kept or listed value by value.  (The
    comparisons are strict, as in static/design/boolean_operator.md; a comment of
    boolean_expr.go reads [> 5] as 5 and above.)  Preparing
    the data fails only by a panic, when the range is to be listed and the float
    conversion of its size is no capacity. *)
Theorem range_expr_meaning d bv P :
  range_expr (Operator bv) (Value bv) P ->
  match (range_BuildFieldIndexingData ext_range_holder d bv).2 with
  | Ok x => forall n, is_i64 n -> range_covers MinInt64 MaxInt64 x n = true <-> P n /\ n <> MaxInt64
  | Panic _ =>
      exists rg, ParseRange (Operator bv) (Value bv) (EnableFloat2Int NewRangeHolderOption) = Ok rg /\
        SFltb (range_Size rg) (float64_of_int 256) = true /\
        ~ 0 <= float_to_int64 (range_Size rg) <= maxInt64s
  | _ => False
  end.
Proof.
  intros He. destruct (range_BuildFieldIndexingData ext_range_holder d bv).2 as [x|e|e|] eqn:Hx.
  { intros n Hn. by apply (range_expr_covers _ _ _ _ _ _ He Hx). }
  all: destruct (range_build_expr ext_range_holder d bv P He) as (l & r & Hp & Hb & _); rewrite Hb in Hx;
    unfold range_tx in Hx; change (RangeCvtValuesSize _) with (float64_of_int 256) in Hx;
    destruct (SFltb _ _) eqn:Hs; try done; destruct (_ || _) eqn:Hc; try done.
  exists {| rg_left := l; rg_right := r |}. split; [exact Hp |]. split; [done |].
  apply orb_true_iff in Hc as [Hc%bool_decide_eq_true | Hc%bool_decide_eq_true]; lia.
Qed.

(** At the end of int64 the addition in [number+1] wraps around: [field > n]
    with [n] the largest int64 is prepared as a range that covers every other
    int64 value, and with [n] one less, preparing it panics in [make] wherever the
    conversion of the size, -2^64, is negative. *)
Lemma gt_max_wraps d k :
  (exists x, (range_BuildFieldIndexingData ext_range_holder d
                {| Incl := true; Value := VInt k MaxInt64; Operator := ValueOptGT |}).2 = Ok x /\
     forall id, range_covers MinInt64 MaxInt64 x id = true <-> MinInt64 <= id < MaxInt64) /\
  (float_to_int64 (S754_finite true 4503599627370496 12) < 0 ->
   (range_BuildFieldIndexingData ext_range_holder d
      {| Incl := true; Value := VInt k (MaxInt64 - 1); Operator := ValueOptGT |}).2
   = Panic "makeslice: cap out of range").
Proof.
  split.
  - exists {| rtx_Operator := ValueOptBetween; rtx_RgValue := Some {| rg_left := MinInt64; rg_right := MaxInt64 |};
              rtx_EqValues := [] |}. split; [vm_compute; reflexivity |].
    intros id. unfold range_covers. simpl. rewrite bool_decide_eq_true. lia.
  - intros Hneg. unfold range_BuildFieldIndexingData. simpl.
    change (ParseRange _ _ _) with (Ok {| rg_left := MaxInt64; rg_right := MinInt64 |}). simpl. unfold range_tx.
    change (range_Size _) with (S754_finite true 4503599627370496 12).
    change (SFltb _ _) with true. cbn iota. by rewrite bool_decide_eq_true_2.
Qed.

(** C34.  A range does not survive the document cache: the fields of [Range] are
    not exported, so the range that is decoded is [0, 0), and committing it
    indexes the entry under the value 0 only, whatever the range was. *)
Theorem range_cache_loses_range `{!JsonRangeTxSpec} mn mx h txs d eid x rg bytes :
  range_holds mn mx h (items (rh_rangeIdx h)) txs -> mn <= 0 < mx ->
  rtx_Operator x = ValueOptBetween -> rtx_RgValue x = Some rg -> range_Encode x = Ok bytes ->
  exists x' h', range_DecodeFieldIndexingData h bytes = Ok x' /\
    range_CommitFieldIndexingData h d eid (Some x') = (h', Ok tt) /\
    forall id, held h' (items (rh_rangeIdx h')) id =
               held h (items (rh_rangeIdx h)) id ++ (if bool_decide (id = 0) then [eid] else []).
Proof.
  intros [[<- <-] Hp Hent] Hb Hop Hrg Henc. unfold range_Encode in Henc. rewrite Hop, Hrg in Henc.
  rewrite bool_decide_eq_true_2 in Henc by by eexists.
  unfold range_DecodeFieldIndexingData. rewrite (json_Unmarshal_Marshal _ _ _ _ Henc). simpl.
  destruct (IndexingRange_spec (rh_rangeIdx h) 0 1 eid) as (rix & Hi & _ & _ & _ & Hv); [split; [lia | done] | lia |].
  eexists _, _. split; [done |]. unfold range_CommitFieldIndexingData. simpl.
  change (IndexingRange (rh_rangeIdx h) 0 0 eid) with (IndexingRange (rh_rangeIdx h) 0 1 eid). rewrite Hi.
  split; [done |]. intros id. unfold held. simpl. rewrite Hv, <- app_assoc. do 2 f_equal.
  repeat case_bool_decide; try done; lia.
Qed.

End Holder.

Definition range_desc : FieldDesc := {| fd_Container := HolderNameExtendRange; fd_ID := 0; fd_Field := "age" |}.

(** The data of: age in 18, 20; age between 10 and 1000. *)
Definition demo_range_txs : Txs RangeTxData :=
  [(range_desc, 17, {| rtx_Operator := ValueOptEQ; rtx_RgValue := None; rtx_EqValues := [18; 20; 18] |});
   (range_desc, 33, {| rtx_Operator := ValueOptBetween; rtx_RgValue := Some {| rg_left := 10; rg_right := 1000 |};
                       rtx_EqValues := [] |})].

Lemma range_holder_refines_witness :
  match range_GetEntries (range_CompileEntries (range_commit_all ext_range_holder demo_range_txs)).1
          range_desc (VInt KInt 20) with
  | Ok cs => cursors_ok cs /\
      forall e, e ∈ (cs ≫= ec_entries) <->
        exists x ids id, (range_desc, e, x) ∈ demo_range_txs /\ ParseIntegers (VInt KInt 20) true = Ok ids /\
          id ∈ ids /\ range_contains x id /\ ~ range_dropped MinInt64 x /\
          (rtx_Operator x = ValueOptEQ \/ id < MaxInt64)
  | _ => False
  end.
Proof.
  pose proof (range_holder_refines [WithRangeHolderOption NewRangeHolderOption] ext_range_holder range_desc
    demo_range_txs (VInt KInt 20) ext_range_builder_Ok) as Hw.
  destruct (range_GetEntries _ _ _) as [cs|e|e|] eqn:Hg; [| by vm_compute in Hg ..].
  apply Hw; [reflexivity |].
  constructor; [split; [done |]; split; [exact (demo_valid 1 true ltac:(lia)) | by left] |].
  constructor; [| constructor]. split; [done |]. split; [exact (demo_valid 2 true ltac:(lia)) |].
  right. split; [done |]. eexists. split; [done |]. left. reflexivity.
Defined.

(** age > 17, and a sample of a listed range. *)
Definition demo_gt : BoolValues := {| Incl := true; Value := VInt KInt 17; Operator := ValueOptGT |}.
Definition demo_between : BoolValues :=
  {| Incl := true; Value := VInts KInt64 (Some [3; 6]); Operator := ValueOptBetween |}.

(** The holder after age > 17 was committed, and after it was compiled. *)
Definition demo_gt_tx : RangeTxData :=
  {| rtx_Operator := ValueOptBetween; rtx_RgValue := Some {| rg_left := 18; rg_right := MaxInt64 |};
     rtx_EqValues := [] |}.

Definition demo_gt_held : RangeHolder :=
  (range_CommitFieldIndexingData ext_range_holder range_desc 17 (Some demo_gt_tx)).1.

Definition demo_gt_compiled : RangeHolder := (range_CompileEntries demo_gt_held).1.

Lemma demo_gt_prepared h : rh_option h = NewRangeHolderOption -> range_data h demo_gt_tx.
Proof.
  intros Hopt. apply (rd_prepared h range_desc demo_gt). unfold range_BuildFieldIndexingData, range_tx. rewrite Hopt.
  vm_compute. reflexivity.
Qed.

Lemma range_holder_safe_witness :
  (range_items_ok demo_gt_held /\ length (items (rh_rangeIdx demo_gt_held)) = 2%nat) /\
  (range_items_ok demo_gt_compiled /\
   exists h', range_CommitFieldIndexingData demo_gt_compiled range_desc 33 (Some demo_gt_tx) = (h', Ok tt) /\
     rh_rangeIdx h' = rh_rangeIdx demo_gt_compiled).
Proof.
  assert (range_reach [WithRangeHolderOption NewRangeHolderOption] demo_gt_held) as Hr.
  { eapply (rr_commit _ ext_range_holder range_desc demo_gt_tx 17 _ (Ok tt));
      [apply rr_new; exact ext_range_builder_Ok | apply demo_gt_prepared; reflexivity | vm_compute; reflexivity]. }
  split; [split; [| vm_compute; reflexivity] |].
  - apply (range_holder_safe [WithRangeHolderOption NewRangeHolderOption] demo_gt_held range_desc demo_gt 17);
      [exact Hr | vm_compute; discriminate].
  - destruct (range_holder_safe [WithRangeHolderOption NewRangeHolderOption] demo_gt_compiled range_desc demo_gt 33)
      as (Hi & _ & Hc);
      [eapply rr_compile; [exact Hr | apply surjective_pairing] | vm_compute; discriminate |].
    split; [exact Hi |]. destruct (Hc demo_gt_tx) as (h' & Hh' & _ & _ & Hlost);
      [apply demo_gt_prepared; reflexivity |]. exists h'. split; [exact Hh' |]. apply Hlost. reflexivity.
Defined.

Lemma range_expr_meaning_witness :
  (forall n, is_i64 n -> range_covers MinInt64 MaxInt64 demo_gt_tx n = true <-> n > 17 /\ n <> MaxInt64) /\
  (range_BuildFieldIndexingData ext_range_holder range_desc demo_gt).2 = Ok demo_gt_tx /\
  (range_BuildFieldIndexingData ext_range_holder range_desc demo_between).2 =
    Ok {| rtx_Operator := ValueOptEQ; rtx_RgValue := None; rtx_EqValues := [3; 4; 5] |}.
Proof.
  split; [| split; vm_compute; reflexivity].
  assert ((range_BuildFieldIndexingData ext_range_holder range_desc demo_gt).2 = Ok demo_gt_tx) as Hx
    by (vm_compute; reflexivity).
  pose proof (range_expr_meaning range_desc demo_gt (fun n => n > 17)) as Hw. rewrite Hx in Hw.
  apply Hw. apply (expr_gt KInt 17); [split; vm_compute; discriminate | reflexivity].
Defined.

Lemma gt_max_wraps_witness :
  (exists x, (range_BuildFieldIndexingData ext_range_holder range_desc
                {| Incl := true; Value := VInt KInt64 MaxInt64; Operator := ValueOptGT |}).2 = Ok x /\
     forall id, range_covers MinInt64 MaxInt64 x id = true <-> MinInt64 <= id < MaxInt64) /\
  (range_BuildFieldIndexingData ext_range_holder range_desc
     {| Incl := true; Value := VInt KInt64 (MaxInt64 - 1); Operator := ValueOptGT |}).2
  = Panic "makeslice: cap out of range".
Proof. destruct (gt_max_wraps range_desc KInt64) as [Hall Hpanic]. split; [exact Hall |]. apply Hpanic. reflexivity. Defined.

Lemma range_cache_loses_range_witness :
  exists x' h', range_DecodeFieldIndexingData ext_range_holder
      (pos_bytes (encode (ValueOptBetween, true, [] : list Z))) = Ok x' /\
    range_CommitFieldIndexingData ext_range_holder range_desc 33 (Some x') = (h', Ok tt) /\
    forall id, held h' (items (rh_rangeIdx h')) id = [] ++ (if bool_decide (id = 0) then [33] else []).
Proof.
  destruct (range_cache_loses_range MinInt64 MaxInt64 ext_range_holder [] range_desc 33
    {| rtx_Operator := ValueOptBetween; rtx_RgValue := Some {| rg_left := 10; rg_right := 1000 |}; rtx_EqValues := [] |}
    {| rg_left := 10; rg_right := 1000 |} (pos_bytes (encode (ValueOptBetween, true, [] : list Z))))
    as (x' & h' & Hd & Hc & Hv).
  - apply (NewNumberExtendRangeHolder_ok _ _ ext_range_builder_Ok). reflexivity.
  - split; [vm_compute; discriminate | reflexivity].
  - reflexivity.
  - reflexivity.
  - reflexivity.
  - exists x', h'. split; [done |]. split; [done |]. intros id. rewrite Hv. f_equal.
    unfold held, ext_range_holder, entries_at. simpl. by destruct (ContainValue _ id).
Defined.

(** ** The range parser *)

(** C36.  The range parser enumerates [start:end:step]: with a positive step and
    an end that the step cannot push out of int64, it returns the numbers from
    start to end, both included, as uint64 values; with step 0 (and a non-empty
    range) or an end that is the largest int64, its loop never ends. *)
Theorem range_parser_values `{GoFloat} s rd :
  NewRangeDesc s = Some rd ->
  (0 < rd_step rd -> rd_end rd + rd_step rd <= MaxInt64 ->
   forall fuel, (length (range_values (rd_start rd) (rd_end rd) (rd_step rd)) < fuel)%nat ->
   numrange_ParseValue fuel (VStr s) = Ok (u64 <$> range_values (rd_start rd) (rd_end rd) (rd_step rd))) /\
  ((rd_step rd = 0 /\ rd_start rd <= rd_end rd) \/ rd_end rd = MaxInt64 ->
   forall fuel, numrange_ParseValue fuel (VStr s) = OutOfFuel).
Proof.
  intros Hrd. destruct (NewRangeDesc_range _ _ Hrd) as [Hs He]. unfold numrange_ParseValue. cbn [range_descs].
  change (Some s ≫= NewRangeDesc) with (NewRangeDesc s). rewrite Hrd. split.
  - intros Hstep Hend fuel Hfuel. by rewrite range_loop_spec by (done || apply Hs).
  - intros [[-> Hle] | ->] fuel; [by rewrite range_loop_stuck | by rewrite range_loop_max].
Qed.

Lemma range_parser_values_witness :
  numrange_ParseValue 10 (VStr "1:10:4") = Ok [1; 5; 9] /\
  (forall fuel, numrange_ParseValue fuel (VStr "1:10:0") = OutOfFuel).
Proof.
  split.
  - destruct (range_parser_values "1:10:4" {| rd_start := 1; rd_end := 10; rd_step := 4 |}) as [Hv _]; [reflexivity |].
    rewrite Hv; [reflexivity | reflexivity | vm_compute; discriminate |]. vm_compute. lia.
  - destruct (range_parser_values "1:10:0" {| rd_start := 1; rd_end := 10; rd_step := 0 |}) as [_ Hd]; [reflexivity |].
    apply Hd. left. split; [reflexivity | vm_compute; discriminate].
Defined.

(** ** Default and range fields in one system *)

Section Mixed.
Context `{MapRange} `{GoFloat} `{ProtoStrList} `{JsonRangeTx} {B : Type} `{Roaring64Spec B}.

(** The registry after the package initialisers of both holders. *)
Definition mixed_factory : gmap string (DefaultEntriesHolder + RangeHolder) :=
  sum_factory InitHolderDefaults ext_range_factory.

Lemma mixed_disjoint name : InitHolderDefaults !! name = None \/ ext_range_factory !! name = None.
Proof.
  unfold InitHolderDefaults, ext_range_factory, RegisterEntriesHolder.
  destruct (decide (name = HolderNameDefault)) as [-> | Hne]; [by right |].
  left. by rewrite lookup_insert_ne, lookup_empty.
Qed.

#[local] Instance mixed_spec : HolderSpec (DefaultEntriesHolder + RangeHolder) (StrTokenData + RangeTxData) mixed_factory :=
  Sum_spec InitHolderDefaults ext_range_factory
    (HolderSpec0 := DefaultHolder_spec InitHolderDefaults InitHolderDefaults_ok)
    (HolderSpec1 := RangeHolder_spec ext_range_factory ext_range_factory_ok) mixed_disjoint.

#[local] Hint Extern 0 (BEIndex (AnyBEIndex _) _) => exact (Any_index mixed_factory) : typeclass_instances.

Lemma mixed_default : is_Some (mixed_factory !! HolderNameDefault).
Proof. by eexists. Qed.

(** What a query integer means for a range expression. *)
Lemma mixed_hit descs q f d bv P k n :
  descs !! f = Some d -> fd_Container d = HolderNameExtendRange -> q !! f = Some (VInt k n) -> is_i64 n ->
  range_expr (Operator bv) (Value bv) P ->
  is_Ok (build_data mixed_factory HolderNameExtendRange d bv) ->
  log_hit mixed_factory descs q f bv = true <-> P n /\ n <> MaxInt64.
Proof.
  intros Hd Hc Hq Hn He [x Hx]. unfold log_hit. rewrite Hd, Hq, Hc, Hx.
  unfold mixed_factory in Hx. rewrite (sum_build_data_r _ _ mixed_disjoint) in Hx by by eexists.
  change (build_data ext_range_factory HolderNameExtendRange d bv)
    with ((range_BuildFieldIndexingData ext_range_holder d bv).2) in Hx.
  destruct (range_BuildFieldIndexingData ext_range_holder d bv).2 as [y|e|e|] eqn:Hy; try done. injection Hx as <-.
  change (data_hits HolderNameExtendRange d (inr y) (VInt k n))
    with (existsb (range_covers MinInt64 MaxInt64 y) [i64 n]). simpl. rewrite orb_false_r, i64_small by done.
  by apply (range_expr_covers _ _ _ _ _ _ He Hy).
Qed.

Section Retrieval.
Variable docs_of : DocCacheKey -> Document.
Local Abbreviation Bld := (IndexerBuilder (AnyBEIndex (DefaultEntriesHolder + RangeHolder)) Empty_set).
Implicit Types (b : Bld) (pool : list (DocIDCollector B)).

(** C17.  From expression to answer: in an index over default and range fields
    (without a document cache, documents with distinct ids, none skipped), a document
    that consists of [f > m], [f < m] or [f between l and r] on a range field, with
    ends away from those of int64, is in the answer to a query with the integer [n]
    for [f] exactly when [n] is above [m], below [m], or from [l] up to but not
    including [r], whatever the other documents and fields are; the query with the
    largest int64 is the exception, it finds no such document. *)
Theorem range_field_retrieval docs b b1 b2 i q pool pool' ids f d doc cj bv P k n :
  reachable mixed_factory docs_of b [] -> badConjBehavior b <> SkipBadConj -> NoDup (doc_ID <$> docs) ->
  AddDocument mixed_factory docs b = (b1, Ok tt) -> BuildIndex b1 = (b2, Ok i) ->
  pool_ok pool -> Retrieve i q [] pool = (pool', Ok ids) ->
  fieldsData b1 !! f = Some d -> fd_Container d = HolderNameExtendRange ->
  doc ∈ docs -> doc_Cons doc = [cj] -> Expressions cj = {[ f := [bv] ]} -> Incl bv = true ->
  range_expr (Operator bv) (Value bv) P -> q !! f = Some (VInt k n) -> is_i64 n ->
  doc_ID doc ∈ ids <-> P n /\ n <> MaxInt64.
Proof.
  intros Hr Hbe Hnd Hadd Hbuild Hpool Hret Hd Hc Hdoc Hcons Hex Hinc He Hq Hn.
  destruct (single_expr_answer mixed_factory mixed_default docs_of _ _ _ _ _ _ _ _ _ _ _ _ _ _
    Hr Hbe (docs_cacheable_uncached mixed_factory docs_of docs) Hnd Hadd Hbuild Hpool Hret Hd Hdoc Hcons Hex Hinc)
    as [Hbuilt ->].
  rewrite Hc in Hbuilt. by apply (mixed_hit _ _ _ d _ _ k).
Qed.

End Retrieval.
End Mixed.

(** A sample: "age" is a range field, "city" a default one; document 1 asks for
    age > 17, document 2 for age < 10 or city in sh, document 3 for 12 <= age < 20. *)
Definition range_doc1 : Document := AddConjunction (NewDocument 1) [GreaterThan NewConjunction "age" 17].

Definition range_docs : list Document :=
  [range_doc1;
   AddConjunction (NewDocument 2) [LessThan NewConjunction "age" 10; In NewConjunction "city" (VStr "sh")];
   AddConjunction (NewDocument 3) [Between NewConjunction "age" 12 20]].

#[local] Hint Extern 0 (BEIndex (AnyBEIndex _) _) => exact (Any_index mixed_factory) : typeclass_instances.

Abbreviation MixedBuilder :=
  (IndexerBuilder (AnyBEIndex (DefaultEntriesHolder + RangeHolder)) Empty_set) (only parsing).

Definition mixed_new : MixedBuilder :=
  match NewIndexerBuilder (K:=Empty_set) mixed_factory [] with
  | Ok b => b
  | _ => {| indexerType := 0; badConjBehavior := 0; docLevelCache := None;
            indexer := IKGroups NewKGroupsBEIndex; fieldsData := ∅; schemaHash := 0 |}
  end.

Definition mixed_config : MixedBuilder :=
  (ConfigField "city" "" (ConfigField "age" HolderNameExtendRange mixed_new).1).1.

Definition mixed_added : MixedBuilder := (AddDocument mixed_factory range_docs mixed_config).1.

Definition mixed_index : AnyBEIndex (DefaultEntriesHolder + RangeHolder) :=
  match (BuildIndex mixed_added).2 with
  | Ok i => i
  | _ => IKGroups NewKGroupsBEIndex
  end.

Definition mixed_answer (q : Assignments) : res (list DocID) := (Retrieve (B:=zset) mixed_index q [] []).2.

Lemma range_field_retrieval_witness :
  mixed_answer {[ "age" := VInt KInt 18 ]} = Ok [1; 3] /\ (1 ∈ [1; 3] <-> 18 > 17 /\ 18 <> MaxInt64) /\
  mixed_answer {[ "age" := VInt KInt 9; "city" := VStr "bj" ]} = Ok [2].
Proof.
  assert (mixed_answer {[ "age" := VInt KInt 18 ]} = Ok [1; 3]) as Hans by (vm_compute; reflexivity).
  split; [exact Hans |]. split; [| vm_compute; reflexivity].
  apply (range_field_retrieval (B:=zset) (fun _ => range_doc1) range_docs
    mixed_config mixed_added (BuildIndex mixed_added).1 mixed_index {[ "age" := VInt KInt 18 ]} []
    (Retrieve (B:=zset) mixed_index {[ "age" := VInt KInt 18 ]} [] []).1 [1; 3] "age"
    {| fd_Container := HolderNameExtendRange; fd_ID := 0; fd_Field := "age" |} range_doc1
    (GreaterThan NewConjunction "age" 17) (NewGTBoolValue 17) (fun n => n > 17) KInt 18).
  - eapply (reach_config _ _ _ _ "city" ""); [| apply surjective_pairing].
    eapply (reach_config _ _ _ _ "age" HolderNameExtendRange); [| apply surjective_pairing].
    eapply reach_new; [by apply Forall_nil_2 |]. vm_compute. reflexivity.
  - vm_compute. discriminate.
  - by apply (bool_decide_eq_true_1 _), eq_refl.
  - vm_compute. reflexivity.
  - vm_compute. reflexivity.
  - constructor.
  - rewrite <- Hans. apply surjective_pairing.
  - vm_compute. reflexivity.
  - reflexivity.
  - by left.
  - reflexivity.
  - vm_compute. reflexivity.
  - reflexivity.
  - apply (expr_gt _ 17); [split; vm_compute; discriminate | reflexivity].
  - vm_compute. reflexivity.
  - split; vm_compute; discriminate.
Defined.
