(* ===== verification/OptimizedProperties.v ===== *)
(** * Properties of the optimized range holder

    The segment tree answers exactly; the holder built on it answers a query
    integer as if it were the next coordinate, so that an index over it gives
    wrong answers off the coordinates. *)

From Stdlib Require Import SpecFloat Strings.Byte.
From stdpp Require Import base sorting gmap strings numbers list.
From S2P Require Import Prelude GoValues Ids Document Cursor FieldCursor Collector Scan Holder.
From S2P Require Import Index IndexSpec IndexProofs IndexInstances Parsers DefaultHolder.
From S2P Require Import RangeParser RangeIdx RangeHolder OptimizedRange HolderSum Builder.
From S2P Require Import BuilderSpec BuilderProofs BuilderDocs Semantics System Demo RangeProperties.
Open Scope Z_scope.

(** ** The segment tree *)

Fixpoint insert_intervals (fuel : nat) (t : SegmentTreeNode) (cnt : Z) (ivs : list (Z * Z * EntryID))
    : res (SegmentTreeNode * Z) :=
  match ivs with
  | [] => Ok (t, cnt)
  | (l, r, eid) :: ivs => p ← tree_insert fuel t l r eid cnt; insert_intervals fuel p.1 p.2 ivs
  end.

Lemma insert_intervals_spec fuel n ivs : forall t cnt,
  n <= Z.of_nat fuel -> tree_wf 0 (n - 1) t -> t <> TNil ->
  Forall (fun iv => 0 <= iv.1.1 <= iv.1.2 /\ iv.1.2 < n) ivs ->
  exists t' cnt', insert_intervals fuel t cnt ivs = Ok (t', cnt') /\
    forall idx e, 0 <= idx < n -> e ∈ path_entries t' idx <->
      e ∈ path_entries t idx \/ exists l r, (l, r, e) ∈ ivs /\ l <= idx <= r.
Proof.
  induction ivs as [|[[l r] eid] ivs IH]; intros t cnt Hf Hwf Hne Hall.
  { exists t, cnt. split; [done |]. intros idx e _. split; [auto | intros [? | (? & ? & Hx & _)]; [done | elem_nil]]. }
  inversion Hall as [|? ? [Hlr Hr] Hall']; subst. simpl in Hlr, Hr. cbn [insert_intervals].
  destruct (tree_insert_spec fuel t 0 (n - 1) l r eid cnt) as (t1 & cnt1 & -> & Hne1 & Hwf1 & He1);
    [done | done | lia | lia | lia |]. unfold mbind, res_bind. cbn beta iota.
  destruct (IH t1 cnt1 Hf Hwf1 (Hne1 Hne) Hall') as (t2 & cnt2 & Hrest & He2). exists t2, cnt2. split; [done |].
  intros idx e Hidx. rewrite He2 by done. rewrite He1 by lia. setoid_rewrite elem_of_cons. naive_solver.
Qed.

(** C27.  The segment tree is exact: after any intervals within [0, n) were inserted
    (which terminates and never meets a nil node), the entries collected at a
    position are those of exactly the intervals that contain it. *)
Theorem segment_tree_exact n fuel ivs :
  0 < n <= Z.of_nat fuel -> Forall (fun iv => 0 <= iv.1.1 <= iv.1.2 /\ iv.1.2 < n) ivs ->
  exists t cnt, insert_intervals fuel (buildTree 0 (n - 1)) 1 ivs = Ok (t, cnt) /\
    forall idx e, 0 <= idx < n ->
      is_Some (collectEntries t idx ∅ !! e) <-> exists l r, (l, r, e) ∈ ivs /\ l <= idx <= r.
Proof.
  intros Hn Hall. destruct (buildTree_wf 0 (n - 1) ltac:(lia)) as [Hwf Hp].
  destruct (insert_intervals_spec fuel n ivs (buildTree 0 (n - 1)) 1 ltac:(lia) Hwf ltac:(done) Hall)
    as (t & cnt & Hi & He). exists t, cnt. split; [done |]. intros idx e Hidx.
  rewrite collectEntries_spec, lookup_empty, He, Hp by done.
  split; [intros [[? [=]] | [Hx | ?]]; [elem_nil | done] | auto].
Qed.

Lemma segment_tree_exact_witness :
  exists t cnt, insert_intervals 8 (buildTree 0 7) 1 [(1, 5, 17); (3, 3, 33); (0, 7, 49)] = Ok (t, cnt) /\
    (is_Some (collectEntries t 3 ∅ !! 17) <-> exists l r, (l, r, 17) ∈ [(1, 5, 17); (3, 3, 33); (0, 7, 49)] /\ l <= 3 <= r).
Proof.
  destruct (segment_tree_exact 8 8 [(1, 5, 17); (3, 3, 33); (0, 7, 49)]) as (t & cnt & Hi & He).
  - split; [reflexivity | vm_compute; discriminate].
  - repeat constructor; simpl; lia.
  - exists t, cnt. split; [exact Hi |]. apply He. lia.
Defined.

(** ** The holder *)

Section Holder.
Context `{MapRange} `{GoFloat} `{JsonRangeTx}.

(** C28.  What the optimized range holder answers: from every state reached by
    preparing and committing data, compiling succeeds, and a query returns sorted
    cursors over the entries whose listed values or range cover, for one of the
    integers of the query, not the integer itself but the least collected
    coordinate that is not below it. *)
Theorem optimized_next_coordinate h ps cs :
  opt_reach h ps cs ->
  exists h', opt_CompileEntries h = (h', Ok tt) /\
    forall d v,
      match ParseIntegers v (EnableFloat2Int (oh_option h)) with
      | Ok ids => exists cur, opt_GetEntries h' d v = Ok cur /\
          Forall (fun ec => StronglySorted Z.le (ec_entries ec) /\ ec_entries ec <> []) cur /\
          forall e, e ∈ (cur ≫= ec_entries) <->
            exists id c x, id ∈ ids /\ next_coordinate (cc_values (compressor h)) id c /\
              (e, x) ∈ cs /\ opt_covers x c = true
      | Err e => opt_GetEntries h' d v = Err e
      | Panic e => opt_GetEntries h' d v = Panic e
      | OutOfFuel => False
      end.
Proof.
  intros Hr%opt_reach_inv. destruct (opt_CompileEntries_spec h ps cs Hr) as (h' & Hc & Ho & Hcomp).
  exists h'. split; [done |]. intros d v. rewrite <- Ho. by apply opt_GetEntries_spec.
Qed.

(** Once the holder is compiled it takes no further range: collecting a coordinate
    panics. *)
Lemma optimized_frozen h d bv rg :
  cc_built (compressor h) = true -> Operator bv = ValueOptBetween ->
  ParseRange ValueOptBetween (Value bv) (EnableFloat2Int (oh_option h)) = Ok rg ->
  SFltb (range_Size rg) (RangeCvtValuesSize (oh_option h)) = false ->
  opt_BuildFieldIndexingData h d bv = (h, Panic "compressor already built").
Proof.
  intros Hb Hop Hrg Hs. unfold opt_BuildFieldIndexingData, AddValue. rewrite Hop. simpl. by rewrite Hrg, Hs, Hb.
Qed.
End Holder.

(** A holder that was given the range [100, 1000). *)
Definition opt_between : BoolValues :=
  {| Incl := true; Value := VInts KInt64 (Some [100; 1000]); Operator := ValueOptBetween |}.

Definition opt_prepared : OptimizedRangeHolder :=
  (opt_BuildFieldIndexingData (NewOptimizedRangeHolder []) range_desc opt_between).1.

Definition opt_data : OptimizedRangeTxData :=
  {| otx_Operator := ValueOptBetween; otx_Range := Some {| rg_left := 100; rg_right := 1000 |}; otx_EqValues := [] |}.

Definition opt_committed : OptimizedRangeHolder :=
  (opt_CommitFieldIndexingData opt_prepared range_desc 17 (Some opt_data)).1.

Lemma optimized_next_coordinate_witness :
  exists h', opt_CompileEntries opt_committed = (h', Ok tt) /\
    exists cur, opt_GetEntries h' range_desc (VInt KInt 50) = Ok cur /\
      forall e, e ∈ (cur ≫= ec_entries) <->
        exists id c x, id ∈ [50] /\ next_coordinate (cc_values (compressor opt_committed)) id c /\
          (e, x) ∈ [(17, opt_data)] /\ opt_covers x c = true.
Proof.
  destruct (optimized_next_coordinate opt_committed [opt_data] ([] ++ [(17, opt_data)])) as (h' & Hc & Hget).
  - eapply (opt_commit opt_prepared _ _ range_desc); [| by left | apply surjective_pairing].
    eapply (opt_build (NewOptimizedRangeHolder []) [] [] range_desc opt_between); [apply opt_new | vm_compute; reflexivity].
  - exists h'. split; [exact Hc |].
    destruct (Hget range_desc (VInt KInt 50)) as (cur & Hcur & _ & He). exists cur. split; [exact Hcur | exact He].
Defined.

(** ** An index over the optimized range holder *)

Definition optimized_factory : gmap string (DefaultEntriesHolder + OptimizedRangeHolder) :=
  sum_factory InitHolderDefaults (RegisterEntriesHolder ∅ "optimized_range" (NewOptimizedRangeHolder [])).

Section OneField.
Context {H D : Type} `{EntriesHolder H D} (factory : gmap string H).
#[local] Hint Extern 0 (BEIndex (AnyBEIndex _) _) => exact (Any_index factory) : typeclass_instances.

(** The answer of an index over one document, with "age" in [container]. *)
Definition one_field_answer (container : string) (doc : Document) (q : Assignments) : res (list DocID) :=
  match NewIndexerBuilder (K:=Empty_set) factory [] with
  | Ok b =>
      match AddDocument factory [doc] (ConfigField "age" container b).1 with
      | (b, Ok _) =>
          match (BuildIndex b).2 with
          | Ok i => (Retrieve (B:=zset) i q [] []).2
          | _ => Err "build"
          end
      | _ => Err "add"
      end
  | _ => Err "new"
  end.
End OneField.

Definition opt_doc : Document := AddConjunction (NewDocument 1) [Between NewConjunction "age" 100 1000].

(** The optimized range holder is no replacement for the range holder: for
    the document that asks for 100 <= age < 1000, an index over the optimized
    holder misses it for age 500 and answers it for age 50, where the index over
    the range holder answers it for 500 and not for 50. *)
Lemma optimized_range_wrong :
  one_field_answer mixed_factory HolderNameExtendRange opt_doc {[ "age" := VInt KInt 500 ]} = Ok [1] /\
  one_field_answer mixed_factory HolderNameExtendRange opt_doc {[ "age" := VInt KInt 50 ]} = Ok [] /\
  one_field_answer optimized_factory "optimized_range" opt_doc {[ "age" := VInt KInt 500 ]} = Ok [] /\
  one_field_answer optimized_factory "optimized_range" opt_doc {[ "age" := VInt KInt 50 ]} = Ok [1].
Proof. vm_compute. split_and!; reflexivity. Qed.
