(* ===== verification/AhoProperties.v ===== *)
(** * Properties of keyword matching and of geohashes

    The Aho-Corasick holder implements the holder contract, the container of the
    roaring index answers exactly by its keywords on clean text, and the two
    disagree about malformed keywords.  A coordinate meets a region expression by
    the cells that are prefixes of its geohash. *)

From Stdlib Require Import SpecFloat Strings.Byte String.
From stdpp Require Import base sorting gmap strings numbers list.
From S2P Require Import Prelude GoValues Utf8 Ids Document Cursor FieldCursor Collector Parsers Holder.
From S2P Require Import DefaultHolder AhoHolder GeoHash Roaring RoaringProofs RoaringAc Demo RoaringProperties.
Open Scope Z_scope.

(** ** The holder *)

Section Holder.
Context `{MapRange} `{ProtoStrList} {Mc : Type} `{AhoMachineSpec Mc}.
Local Abbreviation Hd := (ACEntriesHolder Mc).

Definition ac_commit_all (h : Hd) (txs : Txs AcHolderTxData) : Hd :=
  foldl (fun h tx => (ac_CommitFieldIndexingData h tx.1.1 tx.1.2 (Some tx.2)).1) h txs.

(** The registry with one builder. *)
Definition ac_factory (option : ACHolderOption) : gmap string Hd :=
  {[HolderNameACMatcher := NewACEntriesHolder option]}.

Lemma ac_factory_fresh option : ac_factory_ok (ac_factory option).
Proof. intros name h. unfold ac_factory. by intros [<- <-]%lookup_singleton_Some. Qed.

Lemma ac_commit_all_rep factory (Hok : ac_factory_ok factory) name txs : forall h txs0,
  ac_rep factory name h txs0 -> ac_rep factory name (ac_commit_all h txs) (txs0 ++ txs).
Proof.
  induction txs as [|[[d e] x] txs IH]; intros h txs0 Hrep; [by rewrite app_nil_r |].
  destruct (@holder_commit _ _ _ _ (AhoHolder_spec factory Hok) name h txs0 d e x Hrep I) as (h' & [= <-] & Hrep').
  apply IH in Hrep'. by rewrite <- app_assoc in Hrep'.
Qed.

(** C25.  The Aho-Corasick holder implements its contract: after the keywords of
    any expressions on a field are committed to a fresh holder and compiled, a
    query returns fresh cursors over sorted posting lists that hold exactly the
    entries with a well-formed keyword that occurs in the text of the query (a
    slice of strings is joined by the separator); an error is one of reading the
    query, and there is no panic. *)
Theorem aho_holder_refines option d txs v h :
  ac_CompileEntries (ac_commit_all (NewACEntriesHolder option) txs) = (h, Ok tt) ->
  Forall (fun tx => tx.1.1 = d /\ valid_eid tx.1.2) txs ->
  match ac_GetEntries h d v with
  | Ok cs => cursors_ok cs /\
      forall e, e ∈ (cs ≫= ec_entries) <->
        exists x content key, (d, e, x) ∈ txs /\ BuildAcMatchContent v (QuerySep option) = Ok content /\
          content <> [] /\ key ∈ atx_Keys x /\ keyword_hit content key = true
  | Err _ => is_Err (BuildAcMatchContent v (QuerySep option))
  | _ => False
  end.
Proof.
  intros Hc [Hd Hvalid]%Forall_and. rewrite Forall_forall in Hd. set (name := HolderNameACMatcher).
  pose proof (ac_factory_fresh option) as Hok.
  pose proof (@holder_new _ _ _ _ (AhoHolder_spec _ Hok) name _ eq_refl) as Hrep.
  apply (ac_commit_all_rep _ Hok name txs) in Hrep.
  pose proof (ac_compile_spec _ name _ _ _ _ Hrep Hc) as Hcomp. cbn [app] in Hcomp.
  assert (Hsc : scope_ok name txs d) by (intros d' e x Hin; by pose proof (Hd _ Hin)).
  pose proof (ac_get_spec _ Hok name h txs d v Hcomp Hvalid Hsc) as Hget.
  pose proof (BuildAcMatchContent_outcome v (QuerySep option)) as Hout. unfold ac_hits_with in Hget.
  change (ac_sep (ac_factory option) name) with (QuerySep option) in Hget.
  destruct (ac_GetEntries h d v) as [cs|e|e|] eqn:Hg; [| | exfalso | done].
  - destruct Hget as [Hcs Hmem]. split; [done |]. intros e. rewrite Hmem.
    destruct (BuildAcMatchContent v _) as [content|err|err|]; [| naive_solver ..].
    split.
    + intros (x & Hin & [Hlen%bool_decide_eq_true (key & Hk%list_elem_of_In & Hhit)%existsb_exists]%andb_true_iff).
      exists x, content, key. split_and!; try done. intros ->. simpl in Hlen. lia.
    + intros (x & c & key & Hin & [= <-] & Hne & Hk & Hhit). exists x. split; [done |]. apply andb_true_iff. split.
      * apply bool_decide_eq_true. destruct content; [done | simpl; lia].
      * apply existsb_exists. exists key. split; [by apply list_elem_of_In | done].
  - destruct Hout as [[c Hx] | ?]; [by rewrite Hx in Hget | done].
  - unfold ac_GetEntries in Hg. case_bool_decide; [done |].
    assert (QuerySep (ac_option h) = QuerySep option) as Hsep.
    { destruct Hcomp as [[(h0 & Hh0 & ->) _] _]. unfold ac_factory in Hh0. by apply lookup_singleton_Some in Hh0 as [_ <-]. }
    rewrite Hsep in Hg. destruct Hout as [[c Hx] | [c Hx]]; rewrite Hx in Hg; simpl in Hg; [| done].
    by case_bool_decide.
Qed.

End Holder.

Definition title_desc : FieldDesc := {| fd_Container := HolderNameACMatcher; fd_ID := 0; fd_Field := "title" |}.

Definition demo_ac_txs : Txs AcHolderTxData :=
  [(title_desc, 17, {| atx_Keys := ["sale"; "gift"] |}); (title_desc, 33, {| atx_Keys := ["car"] |})].

Definition demo_ac : ACEntriesHolder (list (list Z)) :=
  (ac_CompileEntries (ac_commit_all (NewACEntriesHolder {| QuerySep := " " |}) demo_ac_txs)).1.

Lemma aho_holder_refines_witness :
  match ac_GetEntries demo_ac title_desc (VStrs (Some ["big"; "sale"])) with
  | Ok cs => cursors_ok cs /\
      forall e, e ∈ (cs ≫= ec_entries) <->
        exists x content key, (title_desc, e, x) ∈ demo_ac_txs /\
          BuildAcMatchContent (VStrs (Some ["big"; "sale"])) " " = Ok content /\
          content <> [] /\ key ∈ atx_Keys x /\ keyword_hit content key = true
  | _ => False
  end.
Proof.
  pose proof (aho_holder_refines {| QuerySep := " " |} title_desc demo_ac_txs (VStrs (Some ["big"; "sale"])) demo_ac) as Hw.
  destruct (ac_GetEntries _ _ _) as [cs|e|e|] eqn:Hg; [| by vm_compute in Hg ..].
  apply Hw; [reflexivity |].
  constructor; [split; [done | exact (demo_valid 1 true ltac:(lia))] |].
  constructor; [split; [done | exact (demo_valid 2 true ltac:(lia))] | constructor].
Defined.

(** ** The container of the roaring index *)

Section Container.
Context {B Mc : Type} `{Roaring64Spec B} `{MapRange} `{AhoMachineSpec Mc}.
Local Abbreviation Cont := (ACBEContainer B Mc).

(** Encode wildcards and expressions of conjunctions, one after the other. *)
Definition ac_encode_all (evs : list (Z * option BooleanExpr)) : M (list B * Cont) unit :=
  forM evs (fun ev => match ev.2 with
                      | None => modify (fun s => (s.1, ac_AddWildcard s.2 ev.1))
                      | Some e => ac_EncodeExpr ev.1 e
                      end).

Definition ac_event (ev : Z * option BooleanExpr) : Z * option BoolValues := (ev.1, be_values <$> ev.2).

Lemma ac_encode_all_rep m evs : forall pool (c : Cont) evs0,
  c_rep m c evs0 -> bitmaps_clean pool ->
  wp (ac_encode_all evs) (fun r s' =>
    match r with Ok _ => c_rep m s'.2 (evs0 ++ (ac_event <$> evs)) | _ => True end) (pool, c).
Proof.
  induction evs as [|[id [e|]] evs IH]; intros pool c evs0 Hrep Hp.
  - apply wp_ret. by rewrite app_nil_r.
  - apply wp_bind. apply wp_intro. intros s' r Hrun. pose proof (rep_expr m c evs0 id e pool s' r Hrep Hp Hrun) as Hs.
    destruct r; try done. destruct s' as [pool' c']. destruct Hs as [Hp' Hrep'].
    apply (IH pool' c') in Hrep'; [| done]. by rewrite <- app_assoc in Hrep'.
  - apply wp_bind. pose proof (IH pool (ac_AddWildcard c id) _ (rep_wildcard m c evs0 id Hrep) Hp) as Hw.
    by rewrite <- app_assoc in Hw.
Qed.

(** C26.  The Aho-Corasick container is exact: after any wildcards and expressions
    were encoded into a fresh container and it was built, a query whose text has no
    U+FFFD returns the conjunctions with a wildcard or an include expression one of
    whose keywords occurs in the text, without those with an exclude expression of
    which one does. *)
Theorem ac_container_exact m evs pool pool' (c : Cont) s c' v (b : B) :
  bitmaps_clean pool -> NewACBEContainer m DefaultACContainerQueryJoinSep pool = (pool', c) ->
  ac_encode_all evs (pool', c) = (s, Ok tt) -> ac_BuildBEContainer s.2 = Ok c' -> bm_iter b = [] ->
  match ac_Retrieve c' v b with
  | Ok b' => forall y, y ∈ bm_iter b' <->
      ((y, None) ∈ evs \/ exists e, (y, Some e) ∈ evs /\ Incl (be_values e) = true /\ ac_chits m (be_values e) v = true) /\
      ~ (exists e, (y, Some e) ∈ evs /\ Incl (be_values e) = false /\ ac_chits m (be_values e) v = true)
  | OutOfFuel => False
  | _ => ac_readable m v = false
  end.
Proof.
  intros Hp Hnew Henc Hbuild Hb. destruct (NewACBEContainer_rep _ _ _ _ Hp Hnew) as [Hp' Hrep].
  pose proof (wp_elim (ac_encode_all_rep m evs pool' c [] Hrep Hp') Henc) as Hrep'. cbn [app] in Hrep'.
  pose proof (rep_build m _ _ Hrep') as Hbt. simpl in Hbt. rewrite Hbuild in Hbt.
  pose proof (ac_built_retrieve m c' _ v b Hbt Hb) as Hret. destruct (ac_Retrieve c' v b) as [b'|e|e|]; try done.
  assert (Hnone : forall y, (y, None) ∈ ac_event <$> evs <-> (y, None) ∈ evs).
  { intros y. rewrite list_elem_of_fmap. split; [intros ([? []] & [=] & Hin); by subst | intros Hin; by exists (y, None)]. }
  assert (Hsome : forall y (P : BoolValues -> Prop),
    (exists bv, (y, Some bv) ∈ ac_event <$> evs /\ P bv) <-> exists e, (y, Some e) ∈ evs /\ P (be_values e)).
  { intros y P. setoid_rewrite list_elem_of_fmap. split.
    - intros (bv & ([y' [e|]] & Heq & Hin) & HP); [injection Heq as -> ->; eauto | done].
    - intros (e & Hin & HP). exists (be_values e). split; [by exists (y, Some e) | done]. }
  intros y. by rewrite Hret, Hnone, (Hsome y (fun bv => Incl bv = true /\ ac_chits m bv v = true)),
    (Hsome y (fun bv => Incl bv = false /\ ac_chits m bv v = true)).
Qed.

End Container.

Definition title_meta : FieldMeta :=
  {| fm_Parser := common_generator; fm_Container := ContainerNameAcMatch; fm_field := "title" |}.

Definition title_expr (incl : bool) (v : Values) : BooleanExpr :=
  {| be_field := "title"; be_values := {| Incl := incl; Value := v; Operator := ValueOptEQ |} |}.

(** The container with the given expressions and wildcards. *)
Definition demo_ac_container (evs : list (Z * option BooleanExpr)) : ACBEContainer zset (list (list Z)) :=
  let c := (NewACBEContainer title_meta DefaultACContainerQueryJoinSep []).2 in
  match ac_BuildBEContainer (ac_encode_all evs ([], c)).1.2 with Ok c => c | _ => c end.

Lemma demo_ac_built evs :
  is_ok (ac_BuildBEContainer (ac_encode_all evs
    ([], (NewACBEContainer (B:=zset) (Mc:=list (list Z)) title_meta DefaultACContainerQueryJoinSep []).2)).1.2) = true ->
  ac_BuildBEContainer (ac_encode_all evs
    ([], (NewACBEContainer title_meta DefaultACContainerQueryJoinSep []).2)).1.2 = Ok (demo_ac_container evs).
Proof. unfold demo_ac_container. by destruct (ac_BuildBEContainer _). Qed.

Definition demo_ac_evs : list (Z * option BooleanExpr) :=
  [(1, Some (title_expr true (VStrs (Some ["sale"; "gift"])))); (2, None);
   (2, Some (title_expr false (VStr "car"))); (3, Some (title_expr true (VStr "house")))].

Lemma ac_container_exact_witness :
  match ac_Retrieve (demo_ac_container demo_ac_evs) (VStr "a house on sale") ∅ with
  | Ok b' => bm_iter b' = [1; 2; 3] /\ forall y, y ∈ bm_iter b' <->
      ((y, None) ∈ demo_ac_evs \/ exists e, (y, Some e) ∈ demo_ac_evs /\ Incl (be_values e) = true /\
         ac_chits (Mc:=list (list Z)) title_meta (be_values e) (VStr "a house on sale") = true) /\
      ~ (exists e, (y, Some e) ∈ demo_ac_evs /\ Incl (be_values e) = false /\
         ac_chits (Mc:=list (list Z)) title_meta (be_values e) (VStr "a house on sale") = true)
  | _ => False
  end.
Proof.
  pose proof (ac_container_exact title_meta demo_ac_evs [] [] 
    (NewACBEContainer (Mc:=list (list Z)) title_meta DefaultACContainerQueryJoinSep []).2
    (ac_encode_all demo_ac_evs ([], (NewACBEContainer title_meta DefaultACContainerQueryJoinSep []).2)).1
    (demo_ac_container demo_ac_evs) (VStr "a house on sale") (∅ : zset)) as Hw.
  assert (Hres : exists b', ac_Retrieve (demo_ac_container demo_ac_evs) (VStr "a house on sale") (∅ : zset) = Ok b' /\
    bm_iter b' = [1; 2; 3]) by (eexists; split; vm_compute; reflexivity).
  destruct Hres as (b' & Hr & Hb'). rewrite Hr in *. split; [exact Hb' |].
  apply Hw; [constructor | reflexivity | | | reflexivity].
  - apply (pair_snd (ac_encode_all demo_ac_evs _)). by vm_compute.
  - exact (demo_ac_built demo_ac_evs ltac:(by vm_compute)).
Defined.

(** ** Malformed keywords *)

Lemma runes_of_ne k : utf8_valid k = false -> runes_of k <> [].
Proof.
  destruct k as [|a k]; [by vm_compute |]. intros _. unfold runes_of. simpl. repeat case_match; discriminate.
Qed.

Section Malformed.
Context `{MapRange} {Mc : Type} `{AhoMachineSpec Mc} {B : Type} `{Roaring64 B}.

(** With one keyword, a search returns that keyword only. *)
Lemma single_search keys machine k t w :
  aho_Build keys = Ok machine -> keys = [runes_of k] -> w ∈ aho_MultiPatternSearch machine t -> w = runes_of k.
Proof. intros Hb -> [Hw _]%(aho_search_spec _ _ _ _ Hb). by apply list_elem_of_singleton in Hw. Qed.

Lemma single_found machine k t :
  aho_Build [runes_of k] = Ok machine -> utf8_valid k = false -> occursb (runes_of k) t = true ->
  runes_of k ∈ aho_MultiPatternSearch machine t.
Proof.
  intros Hb Hv Ho. apply (aho_search_spec _ _ _ _ Hb). split; [by left |].
  by rewrite bool_decide_eq_false_2 by by apply runes_of_ne.
Qed.

Lemma map_range_single {A} (k : string) (x : A) : map_range {[k := x]} = [(k, x)].
Proof. apply Permutation_singleton_r. by rewrite map_range_perm, map_to_list_singleton. Qed.

(** A keyword that is not well-formed UTF-8, in a text that contains it: the
    holder finds nothing, and the container of the roaring index panics. *)
Lemma malformed_keyword `{!ProtoStrList} k t option d eid (h : ACEntriesHolder Mc) m id field s (c c' : ACBEContainer B Mc)
    pool pool' (b : B) :
  utf8_valid k = false -> occursb (runes_of k) (runes_of t) = true ->
  (ac_CompileEntries (ac_commit_all (NewACEntriesHolder option) [(d, eid, {| atx_Keys := [k] |})]) = (h, Ok tt) ->
   ac_GetEntries h d (VStr t) = Ok []) /\
  (NewACBEContainer m DefaultACContainerQueryJoinSep pool = (pool', c) ->
   ac_encode_all [(id, Some {| be_field := field; be_values := {| Incl := true; Value := VStr k; Operator := ValueOptEQ |} |})]
     (pool', c) = (s, Ok tt) ->
   ac_BuildBEContainer s.2 = Ok c' ->
   exists e, ac_Retrieve c' (VStr t) b = Panic e).
Proof.
  intros Hv Ho. assert (Hne : string_of_runes (runes_of k) <> k) by by apply bool_decide_eq_false in Hv. split.
  - unfold ac_CompileEntries. set (values := ac_values _).
    assert (sortZ <$> values = {[k := [eid]]}) as ->.
    { subst values. simpl. unfold append_posting. by rewrite lookup_empty, insert_empty, map_fmap_singleton. }
    rewrite map_range_single. simpl. destruct (aho_Build [runes_of k]) as [machine|e|e|] eqn:Hb; try done.
    intros [= <-]. unfold ac_GetEntries. simpl. case_bool_decide; [done |]. unfold mbind, res_bind. case_bool_decide; [done |].
    f_equal. set (h' := {| ac_option := _ |}). destruct (ac_term_loop h' d _ []) as [|ec l] eqn:Hloop; [done |].
    assert (Hin : ec ∈ ac_term_loop h' d (aho_MultiPatternSearch machine (runes_of t)) []) by (rewrite Hloop; by left).
    apply elem_of_ac_term_loop in Hin as [Hx | (w & l' & Hw & Hl & _)]; [elem_nil |].
    apply (single_search _ _ k _ _ Hb eq_refl) in Hw as ->. simpl in Hl. by rewrite lookup_singleton_ne in Hl.
  - unfold NewACBEContainer. destruct (NewPostingList pool) as [pool1 wc]. intros [= <- <-].
    unfold ac_encode_all, forM, ac_EncodeExpr, mbind, M_bind, lift, PanicIf, modify, mret, M_ret. simpl. unfold AddIncludeID, add_posting.
    simpl. rewrite lookup_empty. destruct (NewPostingList pool1) as [pool2 pl]. intros [= <-].
    unfold ac_BuildBEContainer, build_machine. simpl. rewrite insert_empty, map_size_singleton, map_range_single, map_size_empty.
    simpl. destruct (aho_Build [runes_of k]) as [machine|e|e|] eqn:Hb; try done. intros [= <-].
    unfold ac_Retrieve, mbind, res_bind. simpl. pose proof (single_found _ _ _ Hb Hv Ho) as Hf.
    destruct (aho_MultiPatternSearch machine (runes_of t)) as [|w terms] eqn:Hs; [elem_nil |]. simpl.
    assert (w = runes_of k) as -> by (eapply (single_search _ _ _ _ _ Hb eq_refl); rewrite Hs; by left).
    rewrite lookup_singleton_ne by done. by eexists.
Qed.

End Malformed.

(** The byte 0xFF is in no well-formed text. *)
Definition demo_ff : string := string_of_bytes [255].

Lemma malformed_keyword_witness :
  ac_GetEntries (ac_CompileEntries (ac_commit_all (NewACEntriesHolder (Mc:=list (list Z)) {| QuerySep := " " |})
    [(title_desc, 17, {| atx_Keys := [demo_ff] |})])).1 title_desc (VStr demo_ff) = Ok [] /\
  exists e, ac_Retrieve (demo_ac_container [(1, Some (title_expr true (VStr demo_ff)))]) (VStr demo_ff) ∅ = Panic e.
Proof.
  pose proof (fun c c' s => malformed_keyword demo_ff demo_ff {| QuerySep := " " |} title_desc 17
    (ac_CompileEntries (ac_commit_all (NewACEntriesHolder (Mc:=list (list Z)) {| QuerySep := " " |})
       [(title_desc, 17, {| atx_Keys := [demo_ff] |})])).1 title_meta 1 "title" s c c' [] [] (∅ : zset)
    ltac:(by vm_compute) ltac:(by vm_compute)) as Hw.
  split.
  - refine (proj1 (Hw _ _ _) _); [exact (demo_ac_container []) | exact (demo_ac_container []) |
      exact ([], demo_ac_container []) | reflexivity].
  - refine (proj2 (Hw (NewACBEContainer title_meta DefaultACContainerQueryJoinSep []).2 _
      (ac_encode_all [(1, Some (title_expr true (VStr demo_ff)))]
         ([], (NewACBEContainer title_meta DefaultACContainerQueryJoinSep []).2)).1) _ _ _).
    + reflexivity.
    + apply (pair_snd (ac_encode_all _ _)). by vm_compute.
    + exact (demo_ac_built [(1, Some (title_expr true (VStr demo_ff)))] ltac:(by vm_compute)).
Defined.

(** ** Geohashes *)

Section Geo.
Context `{MapRange} `{GoFloat} `{GeoHashLibSpec}.

(** The region texts of an expression. *)
Definition regions_of (v : Values) : list string :=
  match v with
  | VStr s => [s]
  | VStrs l => elems l
  | VIfaces l => omap (fun vi => match vi with VStr s => Some s | _ => None end) (elems l)
  | _ => []
  end.

Lemma elem_of_region_cells p s cell :
  cell ∈ region_cells p s <->
  exists lat lon r, parseLatLonRadius s = Ok (lat, lon, r) /\
    cell ∈ CompressGeoHash (CreateGeohash lat lon r (u64 (Precision p))) (CompressPrecisionMin p) (CompressPrecisionCutoff p).
Proof.
  unfold region_cells, genGeoHash. destruct (parseLatLonRadius s) as [[[lat lon] r]|e|e|]; simpl; [naive_solver | ..];
    (split; [intros Hx; elem_nil | naive_solver]).
Qed.

Lemma geo_TokenizeValue_cells p v cells cell :
  geo_TokenizeValue p v = Ok cells -> cell ∈ cells <-> exists s, s ∈ regions_of v /\ cell ∈ region_cells p s.
Proof.
  assert (Hloop : forall vs,
    (results ← geo_regions p vs []; Ok (DistinctString results)) = Ok cells ->
    cell ∈ cells <-> exists s, Some s ∈ vs /\ cell ∈ region_cells p s).
  { intros vs. pose proof (geo_regions_spec p vs []) as Hr. destruct (geo_regions p vs []) as [res|e|e|]; try done.
    destruct Hr as [_ ->]. intros [= <-]. unfold DistinctString. rewrite elem_of_Distinct. simpl.
    rewrite list_elem_of_bind. split.
    - intros ([s|] & Hc & Hin); [eauto | simpl in Hc; elem_nil].
    - intros (s & Hin & Hc). by exists (Some s). }
  destruct v as [|s| | | | |l| | | | |l| | | |]; try done; simpl geo_TokenizeValue.
  - intros Hg. simpl. setoid_rewrite list_elem_of_singleton. unfold region_cells. split; [intros Hin; exists s; by rewrite Hg |].
    intros (s' & -> & Hin). by rewrite Hg in Hin.
  - intros ->%Hloop. setoid_rewrite list_elem_of_fmap. naive_solver.
  - intros ->%Hloop. setoid_rewrite list_elem_of_fmap. simpl. setoid_rewrite list_elem_of_omap. naive_solver.
Qed.

(** C35.  A coordinate meets a region expression exactly when the cell list of one of
    the regions has a cell that is a prefix of the coordinate's geohash, of a length
    between the option's minimum and its precision; no coordinate is refused. *)
Theorem geohash_match p v cells lat lon q :
  0 <= CompressPrecisionMin p -> 0 <= Precision p <= 12 -> geo_TokenizeValue p v = Ok cells ->
  q = VArrFloat64_2 lat lon \/ q = VFloats KFloat64 (Some [lat; lon]) ->
  exists toks, geo_TokenizeAssign p q = Ok toks /\
    ((exists tok, tok ∈ toks /\ tok ∈ cells) <->
     exists s lat' lon' r cell rest, s ∈ regions_of v /\ parseLatLonRadius s = Ok (lat', lon', r) /\
       cell ∈ CompressGeoHash (CreateGeohash lat' lon' r (u64 (Precision p)))
                (CompressPrecisionMin p) (CompressPrecisionCutoff p) /\
       CompressPrecisionMin p <= Z.of_nat (String.length cell) <= Precision p /\
       geohash_Encode lat lon = cell +:+ rest).
Proof.
  intros Hmin Hprec Hv Hq. destruct (genQueryAssignGeoHash_spec p lat lon Hmin Hprec) as (toks & Ht & Htoks).
  exists toks. split; [by destruct Hq as [-> | ->] |]. setoid_rewrite Htoks.
  setoid_rewrite (fun cell => geo_TokenizeValue_cells p v cells cell Hv). setoid_rewrite elem_of_region_cells. split.
  - intros (cell & [Hlen [rest Hrest]] & s & Hs & lat' & lon' & r & Hp & Hc). exists s, lat', lon', r, cell, rest. done.
  - intros (s & lat' & lon' & r & cell & rest & Hs & Hp & Hc & Hlen & Hrest). exists cell. split; [eauto |].
    exists s. split; [done |]. eauto.
Qed.

(** A precision above the length of a geohash makes every query panic. *)
Lemma geohash_precision_panics p lat lon :
  12 < Precision p -> CompressPrecisionMin p <= Precision p ->
  exists e, geo_TokenizeAssign p (VArrFloat64_2 lat lon) = Panic e.
Proof.
  intros Hprec Hmin. simpl. destruct (genQueryAssignGeoHash_outcome p lat lon) as [[toks Ht] | ?]; [| done]. exfalso.
  unfold genQueryAssignGeoHash in Ht. destruct (_ || _); [done |]. apply map_res_Ok in Ht.
  destruct (list_elem_of_lookup_1 (seqZ (CompressPrecisionMin p) (Precision p - CompressPrecisionMin p + 1)) (Precision p))
    as [i Hi]; [apply elem_of_seqZ; lia |].
  destruct (Forall2_lookup_l _ _ _ _ _ Ht Hi) as (t & _ & Hcut). unfold str_prefix in Hcut.
  rewrite Encode_length in Hcut. by rewrite bool_decide_eq_false_2 in Hcut by lia.
Qed.

(** A minimum above the precision leaves no token: nothing is found. *)
Lemma geohash_no_tokens p lat lon toks :
  Precision p < CompressPrecisionMin p -> geo_TokenizeAssign p (VArrFloat64_2 lat lon) = Ok toks -> toks = [].
Proof.
  intros Hlt. simpl. unfold genQueryAssignGeoHash. destruct (_ || _); [done |].
  rewrite seqZ_nil by lia. by intros [= <-].
Qed.

End Geo.

Lemma geohash_match_witness :
  exists toks, geo_TokenizeAssign DefaultGeoHashOption (VArrFloat64_2 S754_nan S754_nan) = Ok toks /\
    ((exists tok, tok ∈ toks /\ tok ∈ ["wx4g0e"]) <->
     exists s lat' lon' r cell rest, s ∈ ["30:90:1000"] /\ parseLatLonRadius s = Ok (lat', lon', r) /\
       cell ∈ CompressGeoHash (CreateGeohash lat' lon' r 6) 3 6 /\
       3 <= Z.of_nat (String.length cell) <= 6 /\ geohash_Encode S754_nan S754_nan = cell +:+ rest).
Proof.
  apply (geohash_match DefaultGeoHashOption (VStr "30:90:1000") ["wx4g0e"] S754_nan S754_nan).
  - vm_compute. discriminate.
  - vm_compute. split; discriminate.
  - reflexivity.
  - by left.
Defined.
