(* ===== verification/SystemProperties.v ===== *)
(** * The whole system: default, range and keyword fields in one index

    The registry after the initialisers of the three holder packages, as a sum of
    their contracts; what a document with a keyword expression answers to. *)

From Stdlib Require Import SpecFloat Strings.Byte.
From stdpp Require Import base sorting gmap strings numbers list.
From S2P Require Import Prelude GoValues Utf8 Ids Document Cursor FieldCursor Collector Scan Holder.
From S2P Require Import Index IndexSpec IndexProofs IndexInstances Parsers DefaultHolder.
From S2P Require Import RangeHolder AhoHolder HolderSum Builder.
From S2P Require Import BuilderSpec BuilderProofs BuilderDocs Semantics System Demo Properties RangeProperties.
Open Scope Z_scope.

Section Full.
Context `{MapRange} `{GoFloat} `{ProtoStrList} `{JsonRangeTx} {Mc : Type} `{AhoMachineSpec Mc} {B : Type} `{Roaring64Spec B}.
Local Abbreviation Hd := (DefaultEntriesHolder + RangeHolder + ACEntriesHolder Mc)%type.
Local Abbreviation Data := (StrTokenData + RangeTxData + AcHolderTxData)%type.

Definition keyword_factory : gmap string (ACEntriesHolder Mc) :=
  RegisterEntriesHolder ∅ HolderNameACMatcher ac_builder.

Lemma keyword_factory_ok : ac_factory_ok keyword_factory.
Proof.
  intros name h. unfold keyword_factory, RegisterEntriesHolder.
  rewrite insert_empty. by intros [<- <-]%lookup_singleton_Some.
Qed.

Definition full_factory : gmap string Hd := sum_factory mixed_factory keyword_factory.

Lemma full_disjoint name : mixed_factory !! name = None \/ keyword_factory !! name = None.
Proof.
  unfold keyword_factory, RegisterEntriesHolder. rewrite insert_empty.
  destruct (decide (name = HolderNameACMatcher)) as [-> | Hne]; [by left | right].
  by rewrite lookup_singleton_ne.
Qed.

#[local] Instance full_spec : HolderSpec Hd Data full_factory :=
  Sum_spec mixed_factory keyword_factory
    (HolderSpec0 := mixed_spec) (HolderSpec1 := AhoHolder_spec keyword_factory keyword_factory_ok) full_disjoint.

#[local] Hint Extern 0 (BEIndex (AnyBEIndex _) _) => exact (Any_index full_factory) : typeclass_instances.

Lemma full_default : is_Some (full_factory !! HolderNameDefault).
Proof. by eexists. Qed.

(** What a text means for a keyword expression. *)
Lemma full_hit descs q f d bv keys v :
  descs !! f = Some d -> fd_Container d = HolderNameACMatcher -> q !! f = Some v ->
  ParseAcMatchDict (Value bv) = Ok keys ->
  is_Ok (build_data full_factory HolderNameACMatcher d bv) ->
  log_hit full_factory descs q f bv = ac_hits_with " " {| atx_Keys := keys |} v.
Proof.
  intros Hd Hc Hq Hk [x Hx]. unfold log_hit. rewrite Hd, Hq, Hc, Hx.
  unfold full_factory in Hx. rewrite (sum_build_data_r _ _ full_disjoint) in Hx by by eexists.
  change (build_data keyword_factory HolderNameACMatcher d bv)
    with ((ac_BuildFieldIndexingData ac_builder d bv).2) in Hx. unfold ac_BuildFieldIndexingData in Hx. simpl in Hx.
  rewrite Hk in Hx. case_bool_decide; [done |]. injection Hx as <-. reflexivity.
Qed.

Section Retrieval.
Variable docs_of : DocCacheKey -> Document.
Local Abbreviation Bld := (IndexerBuilder (AnyBEIndex Hd) Empty_set).
Implicit Types (b : Bld) (pool : list (DocIDCollector B)).

(** C18.  From keywords to answer: in an index over default, range and keyword
    fields (without a document cache, documents with distinct ids, none skipped), a
    document that asks for one of some keywords in [f] is in the answer to a query
    with a text for [f] exactly when one of the keywords, well-formed and taken rune by
    rune, occurs in the text, whatever the other documents are. *)
Theorem keyword_field_retrieval docs b b1 b2 i q pool pool' ids f d doc cj bv keys v :
  reachable full_factory docs_of b [] -> badConjBehavior b <> SkipBadConj -> NoDup (doc_ID <$> docs) ->
  AddDocument full_factory docs b = (b1, Ok tt) -> BuildIndex b1 = (b2, Ok i) ->
  pool_ok pool -> Retrieve i q [] pool = (pool', Ok ids) ->
  fieldsData b1 !! f = Some d -> fd_Container d = HolderNameACMatcher ->
  doc ∈ docs -> doc_Cons doc = [cj] -> Expressions cj = {[ f := [bv] ]} -> Incl bv = true ->
  ParseAcMatchDict (Value bv) = Ok keys -> q !! f = Some v ->
  doc_ID doc ∈ ids <->
  exists content key, BuildAcMatchContent v " " = Ok content /\ content <> [] /\ key ∈ keys /\
    keyword_hit content key = true.
Proof.
  intros Hr Hbe Hnd Hadd Hbuild Hpool Hret Hd Hc Hdoc Hcons Hex Hinc Hk Hq.
  destruct (single_expr_answer full_factory full_default docs_of _ _ _ _ _ _ _ _ _ _ _ _ _ _
    Hr Hbe (docs_cacheable_uncached full_factory docs_of docs) Hnd Hadd Hbuild Hpool Hret Hd Hdoc Hcons Hex Hinc) as [Hbuilt ->].
  rewrite Hc in Hbuilt. rewrite (full_hit _ _ _ d _ keys v) by done. unfold ac_hits_with.
  destruct (BuildAcMatchContent v " ") as [content|e|e|]; [| naive_solver ..]. split.
  - intros [Hlen%bool_decide_eq_true (key & Hkey%list_elem_of_In & Hhit)%existsb_exists]%andb_true_iff.
    exists content, key. split_and!; try done. intros ->. simpl in Hlen. lia.
  - intros (? & key & [= <-] & Hne & Hkey & Hhit). apply andb_true_iff. split.
    + apply bool_decide_eq_true. destruct content; [done | simpl; lia].
    + apply existsb_exists. exists key. split; [by apply list_elem_of_In | done].
Qed.

End Retrieval.
End Full.

(** A sample: "title" is a keyword field, "age" a range field, "city" a default one. *)
Definition keyword_doc : Document :=
  AddConjunction (NewDocument 1) [In NewConjunction "title" (VStrs (Some ["sale"; "gift"]))].

Definition full_docs : list Document :=
  [keyword_doc;
   AddConjunction (NewDocument 2) [NotIn (GreaterThan NewConjunction "age" 17) "title" (VStr "spam")];
   AddConjunction (NewDocument 3) [In (In NewConjunction "city" (VStr "sh")) "title" (VStr "sale")]].

Abbreviation DemoMc := (list (list Z)) (only parsing).
Abbreviation FullHolder := (DefaultEntriesHolder + RangeHolder + ACEntriesHolder DemoMc)%type (only parsing).
Abbreviation FullBuilder := (IndexerBuilder (AnyBEIndex FullHolder) Empty_set) (only parsing).

#[local] Hint Extern 0 (BEIndex (AnyBEIndex _) _) => exact (Any_index (full_factory (Mc:=DemoMc))) : typeclass_instances.

Definition full_new : FullBuilder :=
  match NewIndexerBuilder (K:=Empty_set) full_factory [] with
  | Ok b => b
  | _ => {| indexerType := 0; badConjBehavior := 0; docLevelCache := None;
            indexer := IKGroups NewKGroupsBEIndex; fieldsData := ∅; schemaHash := 0 |}
  end.

Definition full_config : FullBuilder :=
  (ConfigField "title" HolderNameACMatcher (ConfigField "age" HolderNameExtendRange full_new).1).1.

Definition full_added : FullBuilder := (AddDocument full_factory full_docs full_config).1.

Definition full_index : AnyBEIndex FullHolder :=
  match (BuildIndex full_added).2 with
  | Ok i => i
  | _ => IKGroups NewKGroupsBEIndex
  end.

Definition full_answer (q : Assignments) : res (list DocID) := (Retrieve (B:=zset) full_index q [] []).2.

Definition full_query : Assignments := {[ "age" := VInt KInt 18; "title" := VStr "big sale"; "city" := VStr "sh" ]}.

Lemma keyword_field_retrieval_witness :
  full_answer full_query = Ok [1; 2; 3] /\
  (1 ∈ [1; 2; 3] <-> exists content key, BuildAcMatchContent (VStr "big sale") " " = Ok content /\ content <> [] /\
     key ∈ ["sale"; "gift"] /\ keyword_hit (Mc:=DemoMc) content key = true) /\
  full_answer {[ "age" := VInt KInt 18; "title" := VStr "spam gift" ]} = Ok [1].
Proof.
  assert (full_answer full_query = Ok [1; 2; 3]) as Hans by (vm_compute; reflexivity).
  split; [exact Hans |]. split; [| vm_compute; reflexivity].
  apply (keyword_field_retrieval (Mc:=DemoMc) (B:=zset) (fun _ => keyword_doc) full_docs
    full_config full_added (BuildIndex full_added).1 full_index full_query []
    (Retrieve (B:=zset) full_index full_query [] []).1 [1; 2; 3] "title"
    {| fd_Container := HolderNameACMatcher; fd_ID := 1; fd_Field := "title" |} keyword_doc
    (In NewConjunction "title" (VStrs (Some ["sale"; "gift"])))
    (NewBoolValue ValueOptEQ (VStrs (Some ["sale"; "gift"])) true) ["sale"; "gift"] (VStr "big sale")).
  - eapply (reach_config _ _ _ _ "title" HolderNameACMatcher); [| apply surjective_pairing].
    eapply (reach_config _ _ _ _ "age" HolderNameExtendRange); [| apply surjective_pairing].
    eapply reach_new; [by apply Forall_nil_2 |]. vm_compute. reflexivity.
  - vm_compute. discriminate.
  - by apply (bool_decide_eq_true_1 _), eq_refl.
  - vm_compute. reflexivity.
  - vm_compute. reflexivity.
  - constructor.
  - rewrite <- Hans. apply surjective_pairing.
  - vm_compute. reflexivity.
  - reflexivity.
  - by left.
  - reflexivity.
  - vm_compute. reflexivity.
  - reflexivity.
  - reflexivity.
  - vm_compute. reflexivity.
Defined.
