(* ===== verification/Rebuild.v ===== *)
(** * Building the index again

    [BuildIndex] returns the builder's own index, and the builder may go on: more
    documents, then [BuildIndex] once more.  A holder whose compiled state can still
    take transactions ([RecompileSpec]) makes this work: [live] is the life of a
    builder with builds at any place, and the last build answers for everything
    accepted since the last reset.  The default and the keyword holder are of that
    kind; the range holder is not ([rebuild_loses_ranges]). *)

From stdpp Require Import base sorting gmap strings numbers list.
From S2P Require Import Prelude GoValues Ids Document Cursor FieldCursor Collector Scan Holder.
From S2P Require Import Index IndexSpec IndexProofs IndexInstances DefaultHolder RangeIdx RangeHolder.
From S2P Require Import AhoHolder HolderSum Builder BuilderSpec BuilderProofs BuilderDocs Semantics System.
From S2P Require Import Demo Properties RangeProperties.
Open Scope Z_scope.

(** A compiled holder still stands for its transactions as one that may take more. *)
Class RecompileSpec (H D : Type) `{EntriesHolder H D} (factory : HolderFactory H)
    `{!HolderSpec H D factory} : Prop :=
  recompile : forall name h txs, holder_compiled name h txs -> holder_rep name h txs.

#[export] Instance default_recompile `{MapRange} `{GoFloat} `{ProtoStrList}
    (factory : gmap string DefaultEntriesHolder) (Hok : factory_ok factory) :
  RecompileSpec (HolderSpec0 := DefaultHolder_spec factory Hok) DefaultEntriesHolder StrTokenData factory.
Proof. by intros name h txs [Hrep _]. Qed.

#[export] Instance aho_recompile {Mc} `{MapRange} `{ProtoStrList} `{GoFloat} `{AhoMachineSpec Mc}
    (factory : gmap string (ACEntriesHolder Mc)) (Hok : ac_factory_ok factory) :
  RecompileSpec (HolderSpec0 := AhoHolder_spec factory Hok) (ACEntriesHolder Mc) AcHolderTxData factory.
Proof. by intros name h txs [Hrep _]. Qed.

#[export] Instance sum_recompile {H1 D1 H2 D2} `{EntriesHolder H1 D1} `{EntriesHolder H2 D2} `{!WrongData H1} `{!WrongData H2}
    (f1 : gmap string H1) (f2 : gmap string H2) `{!HolderSpec H1 D1 f1} `{!HolderSpec H2 D2 f2}
    (Hdisj : forall name, f1 !! name = None \/ f2 !! name = None) :
  RecompileSpec H1 D1 f1 -> RecompileSpec H2 D2 f2 ->
  RecompileSpec (HolderSpec0 := Sum_spec f1 f2 Hdisj) (H1 + H2) (D1 + D2) (sum_factory f1 f2).
Proof.
  intros R1 R2 name [h|h] txs (Hn & txs' & -> & Hc); (split; [done |]); exists txs'; (split; [done |]);
    by apply recompile.
Qed.

Section Rebuild.
Context {H D K : Type} `{EntriesHolder H D} `{MapRange} `{DocLevelCache K}.
Context (factory : gmap string H) `{!HolderSpec H D factory} `{!RecompileSpec H D factory}
  `{!DocLevelCacheSpec K} `{!CachedHolderSpec (factory:=factory) K H D}.
Hypothesis Hdefault : is_Some (factory !! HolderNameDefault).
Variable docs_of : DocCacheKey -> Document.
#[local] Hint Extern 0 (BEIndex (AnyBEIndex _) _) => exact (Any_index factory) : typeclass_instances.
Local Abbreviation Bld := (IndexerBuilder (AnyBEIndex H) K).
Implicit Types (b : Bld) (log : list LogEntry).

Lemma container_rep_mono (rep rep' : string -> H -> Txs D -> Prop) descs txs a c :
  (forall name h l, rep name h l -> rep' name h l) ->
  container_rep rep descs txs a c -> container_rep rep' descs txs a c.
Proof.
  intros Hm [(h & Hh & Hrep) Hf]. split; [exists h; auto |].
  intros f h' Hh'. destruct (Hf f h' Hh') as (d & Hd & Hne & Hr). exists d. auto.
Qed.

Lemma index_ready_holds (i : AnyBEIndex H) descs txs wild :
  index_ready factory (caddr factory i) i descs txs wild ->
  index_holds (caddr factory i) holder_rep i descs txs wild.
Proof.
  intros [[Hc Hr Hw Hwc] _]. split; [| done ..].
  intros a c Ha. eapply container_rep_mono; [apply recompile | by apply Hc].
Qed.

(** The index that was handed out is still the builder's, and still holds the log. *)
Lemma BuildIndex_binv b log b' i :
  binv factory b log -> cache_sound factory docs_of b -> BuildIndex b = (b', Ok i) ->
  binv factory b' log /\ cache_sound factory docs_of b'.
Proof.
  intros Hb Hs Hbuild.
  destruct (wp_elim (BuildIndex_spec factory b log Hb) Hbuild) as (Hf & <- & txs & wild & Hready & Hl & Hfi).
  assert (docLevelCache b' = docLevelCache b /\ badConjBehavior b' = badConjBehavior b) as [Hk Hbe].
  { unfold BuildIndex in Hbuild. clear -Hbuild.
    by destruct (compileIndexer _) as [? [?|?|?|]]; simplify_eq. }
  split.
  - exists txs, wild. rewrite Hf. split; [split; rewrite Hf |]; [by apply index_ready_holds | done | done].
  - intros k key e Hk' Hmay. unfold skips. rewrite Hf, Hbe. eapply Hs; [| done]. congruence.
Qed.

(** The life of a builder, with builds in between. *)
Inductive live : Bld -> list LogEntry -> Prop :=
| live_reach b log : reachable factory docs_of b log -> live b log
| live_config b log f ct b' r :
    live b log -> ConfigField f ct b = (b', r) -> live b' log
| live_doc b log doc b' r :
    live b log -> doc_cacheable factory K docs_of doc -> AddDocument factory [doc] b = (b', r) ->
    live b' (log ++ match r with Ok _ => accepted factory (fieldsData b') doc | _ => [] end)
| live_reset b log b' r :
    live b log -> Reset factory b = (b', Ok r) -> live b' []
| live_build b log b' i :
    live b log -> BuildIndex b = (b', Ok i) -> live b' log.

Lemma live_inv b log : live b log -> binv factory b log /\ cache_sound factory docs_of b.
Proof.
  induction 1 as [b log Hr | b log f ct b' r Hr [Hb Hs] Hc | b log doc b' r Hr [Hb Hs] Hd Ha
                 | b log b' r Hr [Hb Hs] Hc | b log b' i Hr [Hb Hs] Hc].
  - by apply (reachable_inv factory Hdefault).
  - by destruct (wp_elim (ConfigField_spec factory docs_of b log f ct Hb Hs) Hc) as (? & ? & _).
  - by eapply (add_doc_inv factory Hdefault).
  - by eapply (Reset_inv factory Hdefault).
  - by eapply BuildIndex_binv.
Qed.

Section Query.
Context {B : Type} `{Roaring64Spec B}.
Implicit Types (pool : list (DocIDCollector B)).

(** C5.  Building again is right: when documents, field configurations and resets
    are interleaved with builds in any order, the index of the last build answers a
    query with the ids of exactly the documents with a satisfied conjunction among
    those accepted since the last reset, provided that no conjunction id occurs twice
    among them (no document id was added twice since the reset); errors and panics are
    as for a first build.  The holders are those whose compiled state takes further
    transactions ([RecompileSpec]: the default and the keyword holder). *)
Theorem rebuild_exact b log b' i q pool pool' r :
  live b log -> NoDup log.*1 -> BuildIndex b = (b', Ok i) ->
  pool_ok pool -> Retrieve i q [] pool = (pool', r) ->
  live b' log /\ pool_ok pool' /\
  match r with
  | Ok ids => StronglySorted (fun x y => u64 x < u64 y) ids /\
      forall id, id ∈ ids <-> exists c cj, (c, cj) ∈ log /\ conj_DocID c = id /\
                   conj_sat (log_hit factory (fieldsData b) q) cj = true
  | Err _ => ~ query_ok factory (fieldsData b) q
  | Panic _ => ~ (query_plain q /\ query_ok factory (fieldsData b) q)
  | OutOfFuel => False
  end.
Proof.
  intros Hl Hnd Hb Hp Hret. split; [by eapply live_build |]. destruct (live_inv b log Hl) as [Hi _].
  destruct (wp_elim (BuildIndex_spec factory b log Hi) Hb) as (_ & _ & Hs).
  exact (Retrieve_spec factory _ _ _ _ _ _ _ Hs Hnd Hp Hret).
Qed.

End Query.
End Rebuild.

(** ** A sample: build, add a document with a smaller id, build again *)

#[local] Hint Extern 0 (BEIndex (AnyBEIndex _) _) => exact (Any_index demo_factory) : typeclass_instances.

#[local] Instance demo_recompile : RecompileSpec DefaultEntriesHolder StrTokenData demo_factory :=
  default_recompile demo_factory InitHolderDefaults_ok.

Definition adult (id : DocID) : Document :=
  AddConjunction (NewDocument id) [In NewConjunction "age" (VInt KInt 18)].

Definition built_first : DemoBuilder :=
  (BuildIndex (AddDocument demo_factory [adult 5] (demo_one demo_opts)).1).1.

Definition late : DemoBuilder := (AddDocument demo_factory [adult 2] built_first).1.

Definition late_query : Assignments := {[ "age" := VInt KInt 18 ]}.

Definition late_answer (b : DemoBuilder) : res (list DocID) :=
  (Retrieve (B:=zset) (indexer b) late_query [] []).2.

(** The index that was handed out sees the new document only in part: its posting
    list is no longer sorted, and the scan passes over document 2. *)
Example stale_index :
  (late_answer built_first, late_answer late, late_answer (BuildIndex late).1) =
  (Ok [5; 7], Ok [5; 7], Ok [2; 5; 7]).
Proof. vm_compute. reflexivity. Qed.

Definition late_log : list LogEntry := (demo_log ++ doc_log (adult 5)) ++ doc_log (adult 2).

Lemma late_live : live demo_factory demo_docs_of late late_log.
Proof.
  assert (forall id (b : DemoBuilder) log (b' : DemoBuilder), live demo_factory demo_docs_of b log ->
    AddDocument demo_factory [adult id] b = (b', Ok tt) ->
    accepted demo_factory (fieldsData b') (adult id) = doc_log (adult id) ->
    live demo_factory demo_docs_of b' (log ++ doc_log (adult id))) as Hadd.
  { intros id b log b' Hl Ha <-. by eapply (live_doc _ _ _ _ (adult id) _ (Ok tt)). }
  apply (Hadd 2 built_first); [| vm_compute; reflexivity ..].
  apply (live_build _ _ (AddDocument demo_factory [adult 5] (demo_one demo_opts)).1 _ _ (indexer built_first));
    [| vm_compute; reflexivity].
  apply (Hadd 5 (demo_one demo_opts)); [| vm_compute; reflexivity ..].
  apply live_reach, demo_one_default.
Qed.

Lemma rebuild_exact_witness :
  late_answer (BuildIndex late).1 = Ok [2; 5; 7] /\
  forall id, id ∈ [2; 5; 7] <-> exists c cj, (c, cj) ∈ late_log /\ conj_DocID c = id /\
    conj_sat (log_hit demo_factory (fieldsData late) late_query) cj = true.
Proof.
  assert (late_answer (BuildIndex late).1 = Ok [2; 5; 7]) as Hans by (vm_compute; reflexivity).
  split; [exact Hans |].
  destruct (rebuild_exact (B:=zset) demo_factory demo_default demo_docs_of late late_log
    (BuildIndex late).1 (indexer (BuildIndex late).1) late_query []
    (Retrieve (B:=zset) (indexer (BuildIndex late).1) late_query [] []).1 (Ok [2; 5; 7]))
    as (_ & _ & _ & Hids).
  - apply late_live.
  - by apply (bool_decide_eq_true_1 _), eq_refl.
  - vm_compute. reflexivity.
  - constructor.
  - rewrite <- Hans. apply surjective_pairing.
  - exact Hids.
Defined.

(** ** The range holder cannot be compiled twice ([rix_Compile_twice]) *)

Section Ranges.
#[local] Hint Extern 0 (BEIndex (AnyBEIndex _) _) => exact (Any_index mixed_factory) : typeclass_instances.

Definition age_answer (b : MixedBuilder) (n : Z) : res (list DocID) :=
  (Retrieve (B:=zset) (indexer b) {[ "age" := VInt KInt n ]} [] []).2.

Definition mixed_built : MixedBuilder := (BuildIndex mixed_added).1.

(** After a second [BuildIndex] the same query no longer finds document 1, whose
    expression [age > 17] is kept as a range (document 3's is kept as values). *)
Example rebuild_loses_ranges :
  (age_answer mixed_built 18, age_answer (BuildIndex mixed_built).1 18) = (Ok [1; 3], Ok [3]).
Proof. vm_compute. reflexivity. Qed.

End Ranges.
