(* ===== verification/Targeting.v ===== *)
(** * The benchmark programs and their reference matcher
      (example/be_indexer_bench, example/kgroups_indexer, example/compacted_indexer)

    The benchmarks draw random targetings, index each of them as a document of one
    conjunction, draw random queries, and have a brute-force matcher to compare
    with.  The random numbers are a parameter; everything else is translated.  The
    index answers as the matcher does. *)

From stdpp Require Import base sorting gmap strings numbers list.
From S2P Require Import Prelude GoValues Utf8 Util Ids Document Cursor FieldCursor Collector Scan Holder.
From S2P Require Import Index IndexSpec IndexProofs IndexInstances Parsers DefaultHolder Builder.
From S2P Require Import BuilderSpec BuilderProofs BuilderDocs BuilderFields Semantics System DefaultIndex Demo.
Open Scope Z_scope.

(** ** Targetings *)

Record MockTargeting := { mt_ID : DocID; mt_A : list Z; mt_B : list Z; mt_C : list Z; mt_D : list Z }.

Definition ToConj (t : MockTargeting) : Conjunction :=
  let conj := NewConjunction in
  let conj := if bool_decide (0 < length (mt_A t))%nat then In conj "A" (VInts KInt (Some (mt_A t))) else conj in
  let conj := if bool_decide (0 < length (mt_B t))%nat then In conj "B" (VInts KInt (Some (mt_B t))) else conj in
  let conj := if bool_decide (0 < length (mt_C t))%nat then In conj "C" (VInts KInt (Some (mt_C t))) else conj in
  if bool_decide (0 < length (mt_D t))%nat then In conj "D" (VInts KInt (Some (mt_D t))) else conj.

(** [for _, v := range queries { if util.ContainInt(values, v) { return true } }] *)
Fixpoint valueMatch_loop (values queries : list Z) : bool :=
  match queries with
  | [] => false
  | v :: queries => if ContainInt values v then true else valueMatch_loop values queries
  end.

Definition valueMatch (values queries : list Z) : bool :=
  if bool_decide (length values = 0%nat) then true else valueMatch_loop values queries.

Definition Match (t : MockTargeting) (a b c d : list Z) : bool :=
  if negb (valueMatch (mt_A t) a) then false
  else if negb (valueMatch (mt_B t) b) then false
  else if negb (valueMatch (mt_C t) c) then false
  else if negb (valueMatch (mt_D t) d) then false
  else true.

Record Q := { q_A : list Z; q_B : list Z; q_C : list Z; q_D : list Z }.

(** The assignment made from a query. *)
Definition query_assign (q : Q) : Assignments :=
  let assign := ∅ in
  let assign := if bool_decide (0 < length (q_A q))%nat then <["A" := VInts KInt (Some (q_A q))]> assign else assign in
  let assign := if bool_decide (0 < length (q_B q))%nat then <["B" := VInts KInt (Some (q_B q))]> assign else assign in
  let assign := if bool_decide (0 < length (q_C q))%nat then <["C" := VInts KInt (Some (q_C q))]> assign else assign in
  if bool_decide (0 < length (q_D q))%nat then <["D" := VInts KInt (Some (q_D q))]> assign else assign.

(** [math/rand]: its global generator is the state of type [R]. *)
Class GoRand (R : Type) := {
  rand_Int : R -> R * Z;
  rand_Intn : Z -> R -> R * Z
}.

Section Random.
Context {R : Type} `{GoRand R} `{MapRange}.

Fixpoint rand_loop (n : nat) (r : R) (res : list Z) : R * list Z :=
  match n with
  | O => (r, res)
  | S n => let '(r, v) := rand_Intn 200 r in rand_loop n r (res ++ [v])
  end.

Definition randValue (cnt : Z) (r : R) : R * list Z :=
  let '(r, i) := rand_Int r in
  let cnt := Z.rem i cnt in
  let '(r, res) := rand_loop (Z.to_nat cnt) r [] in
  (r, elems (DistinctInt res)).

(** The composite literals: their elements are drawn from left to right. *)
Definition new_target (i : Z) (r : R) : R * MockTargeting :=
  let '(r, a) := randValue 3 r in
  let '(r, b) := randValue 5 r in
  let '(r, c) := randValue 10 r in
  let '(r, d) := randValue 30 r in
  (r, {| mt_ID := i; mt_A := a; mt_B := b; mt_C := c; mt_D := d |}).

Definition new_query (r : R) : R * Q :=
  let '(r, a) := randValue 10 r in
  let '(r, b) := randValue 5 r in
  let '(r, c) := randValue 3 r in
  let '(r, d) := randValue 2 r in
  (r, {| q_A := a; q_B := b; q_C := c; q_D := d |}).

Fixpoint new_queries (n : nat) (r : R) (Qs : list Q) (assigns : list Assignments)
    : R * (list Q * list Assignments) :=
  match n with
  | O => (r, (Qs, assigns))
  | S n => let '(r, q) := new_query r in new_queries n r (Qs ++ [q]) (assigns ++ [query_assign q])
  end.

End Random.

(** ** The index of the targetings *)

Section Build.
Context {R : Type} `{GoRand R} `{MapRange} `{GoFloat} `{ProtoStrList}.
Local Abbreviation factory := InitHolderDefaults.
#[local] Hint Extern 0 (BEIndex (AnyBEIndex _) _) => exact (Any_index factory) : typeclass_instances.
Local Abbreviation Idx := (AnyBEIndex DefaultEntriesHolder).
Local Abbreviation Bld := (IndexerBuilder (AnyBEIndex DefaultEntriesHolder) Empty_set).

Definition target_doc (t : MockTargeting) : Document := AddConjunction (NewDocument (mt_ID t)) [ToConj t].

(** The loop of [BuildIndex] in kgroups_index.go and compacted_index.go: the
    error of [AddDocument] is dropped. *)
Fixpoint target_loop (n : nat) (i : Z) (r : R) (targets : gmap DocID MockTargeting) (b : Bld)
    : Bld * res (gmap DocID MockTargeting) :=
  match n with
  | O => (b, Ok targets)
  | S n =>
      let '(r, target) := new_target i r in
      if bool_decide (0 < size (Expressions (ToConj target)))%nat then
        (_ ← with_err (AddDocument factory [target_doc target]);
         target_loop n (i + 1) r (<[i := target]> targets)) b
      else target_loop n (i + 1) r targets b
  end.

Definition targets_BuildIndex (docCount : Z) (r : R) (builder : res Bld)
    : res (gmap DocID MockTargeting * Idx) :=
  b ← builder;
  match target_loop (Z.to_nat (docCount - 1)) 1 r ∅ b with
  | (b, Ok targets) => i ← (BuildIndex b).2; Ok (targets, i)
  | (_, Err e) => Err e
  | (_, Panic e) => Panic e
  | (_, OutOfFuel) => OutOfFuel
  end.

Definition kgroups_BuildIndex (docCount : Z) (r : R) : res (gmap DocID MockTargeting * Idx) :=
  targets_BuildIndex docCount r (NewIndexerBuilder factory []).

Definition compacted_BuildIndex (docCount : Z) (r : R) : res (gmap DocID MockTargeting * Idx) :=
  targets_BuildIndex docCount r (NewCompactIndexerBuilder factory []).

(** The loop of be_indexer_bench/main.go: two builders, and an error panics. *)
Fixpoint bench_loop (n : nat) (i : Z) (r : R) (targets : gmap DocID MockTargeting) (b cb : Bld)
    : Bld * Bld * res (R * gmap DocID MockTargeting) :=
  match n with
  | O => (b, cb, Ok (r, targets))
  | S n =>
      let '(r, target) := new_target i r in
      if bool_decide (0 < size (Expressions (ToConj target)))%nat then
        match PanicIfErr (AddDocument factory [target_doc target]) b with
        | (b, Ok _) =>
            match PanicIfErr (AddDocument factory [target_doc target]) cb with
            | (cb, Ok _) => bench_loop n (i + 1) r (<[i := target]> targets) b cb
            | (cb, Err e) => (b, cb, Err e)
            | (cb, Panic e) => (b, cb, Panic e)
            | (cb, OutOfFuel) => (b, cb, OutOfFuel)
            end
        | (b, Err e) => (b, cb, Err e)
        | (b, Panic e) => (b, cb, Panic e)
        | (b, OutOfFuel) => (b, cb, OutOfFuel)
        end
      else bench_loop n (i + 1) r targets b cb
  end.

(** The loops over the queries: [ids, _ := index.Retrieve(ass); idxRes[idx] = ids],
    where the ids of a failed retrieval are nil. *)
Fixpoint run_queries {B} `{Roaring64 B} (index : Idx) (assigns : list Assignments) (idx : Z)
    (idxRes : gmap Z (list DocID)) (pool : list (DocIDCollector B))
    : list (DocIDCollector B) * res (gmap Z (list DocID)) :=
  match assigns with
  | [] => (pool, Ok idxRes)
  | ass :: assigns =>
      match Retrieve index ass [] pool with
      | (pool, Ok ids) => run_queries index assigns (idx + 1) (<[idx := ids]> idxRes) pool
      | (pool, Err _) => run_queries index assigns (idx + 1) (<[idx := []]> idxRes) pool
      | (pool, Panic e) => (pool, Panic e)
      | (pool, OutOfFuel) => (pool, OutOfFuel)
      end
  end.

(** [QueryTest] of kgroups_index.go and of compacted_index.go: the number of ids
    that a thousand queries return, whose average is printed. *)
Fixpoint count_results {B} `{Roaring64 B} (opts : list (IndexOpt (DocIDCollector B))) (index : Idx)
    (assigns : list Assignments) (cnt : Z) (pool : list (DocIDCollector B)) : list (DocIDCollector B) * res Z :=
  match assigns with
  | [] => (pool, Ok cnt)
  | ass :: assigns =>
      match Retrieve index ass opts pool with
      | (pool, Ok ids) => count_results opts index assigns (cnt + Z.of_nat (length ids)) pool
      | (pool, Err _) => count_results opts index assigns cnt pool
      | (pool, Panic e) => (pool, Panic e)
      | (pool, OutOfFuel) => (pool, OutOfFuel)
      end
  end.

Definition kgroups_QueryTest {B} `{Roaring64 B} (index : Idx) (r : R) (pool : list (DocIDCollector B))
    : list (DocIDCollector B) * res Z :=
  let '(_, (_, assigns)) := new_queries 1000 r [] [] in count_results [] index assigns 0 pool.

Definition compacted_QueryTest {B} `{Roaring64 B} (index : Idx) (r : R) (pool : list (DocIDCollector B))
    : list (DocIDCollector B) * res Z :=
  let '(_, (_, assigns)) := new_queries 1000 r [] [] in count_results [WithStepDetail] index assigns 0 pool.

Record BenchResult := {
  br_targets : gmap DocID MockTargeting;
  br_Qs : list Q;
  br_idxRes : gmap Z (list DocID);
  br_idxUnionRes : gmap Z (list DocID)
}.

(** [main] of be_indexer_bench, without the clock, the profiler and the output. *)
Definition bench_main {B} `{Roaring64 B} (docCount : Z) (r : R) (pool : list (DocIDCollector B)) : res BenchResult :=
  b ← NewIndexerBuilder factory [];
  cb ← NewCompactIndexerBuilder factory [];
  let '(b, cb, out) := bench_loop (Z.to_nat (docCount - 1)) 1 r ∅ b cb in
  '(r, targets) ← out;
  index ← (BuildIndex b).2;
  compactedIndex ← (BuildIndex cb).2;
  let '(_, (Qs, assigns)) := new_queries 1000 r [] [] in
  let '(pool, out) := run_queries index assigns 0 ∅ pool in
  idxRes ← out;
  let '(_, out) := run_queries compactedIndex assigns 0 ∅ pool in
  idxUnionRes ← out;
  Ok {| br_targets := targets; br_Qs := Qs; br_idxRes := idxRes; br_idxUnionRes := idxUnionRes |}.

End Build.

(** ** The matcher *)

Lemma valueMatch_spec values queries :
  valueMatch values queries = true <-> values = [] \/ exists v, v ∈ queries /\ v ∈ values.
Proof.
  unfold valueMatch. case_bool_decide as Hl.
  { apply nil_length_inv in Hl as ->. naive_solver. }
  transitivity (exists v, v ∈ queries /\ v ∈ values);
    [| split; [by right | intros [-> | ?]; [done | done]]].
  clear Hl. induction queries as [|q queries IH]; simpl.
  - split; [done | intros (v & Hv & _); elem_nil].
  - pose proof (ContainInt_spec values q) as Hc. setoid_rewrite elem_of_cons.
    destruct (ContainInt values q); [naive_solver |]. rewrite IH.
    split; [naive_solver |]. intros (v & [-> | Hv] & Hin); [by apply Hc in Hin | eauto].
Qed.

Definition attrs (t : MockTargeting) : list (BEField * list Z) :=
  [("A", mt_A t); ("B", mt_B t); ("C", mt_C t); ("D", mt_D t)].

Definition q_attrs (q : Q) : list (BEField * list Z) :=
  [("A", q_A q); ("B", q_B q); ("C", q_C q); ("D", q_D q)].

Definition add_attr {A} (g : list Z -> A) (m : gmap string A) (kv : BEField * list Z) : gmap string A :=
  if bool_decide (0 < length kv.2)%nat then <[kv.1 := g kv.2]> m else m.

Definition attr_expr (vs : list Z) : BoolValues := NewBoolValue ValueOptEQ (VInts KInt (Some vs)) true.

Lemma ToConj_attrs t : Expressions (ToConj t) = foldl (add_attr (fun vs => [attr_expr vs])) ∅ (attrs t).
Proof. unfold ToConj, attrs, add_attr. simpl. by repeat case_bool_decide. Qed.

Lemma query_attrs q : query_assign q = foldl (add_attr (fun vs => VInts KInt (Some vs))) ∅ (q_attrs q).
Proof. reflexivity. Qed.

Lemma lookup_attrs {A} (g : list Z -> A) l f x :
  NoDup l.*1 ->
  foldl (add_attr g) ∅ l !! f = Some x <-> exists vs, (f, vs) ∈ l /\ vs <> [] /\ x = g vs.
Proof.
  induction l as [|[k vs] l IH] using rev_ind; intros Hnd.
  - simpl. rewrite lookup_empty. split; [done | intros (vs & Hin & _); elem_nil].
  - rewrite fmap_app in Hnd. apply NoDup_app in Hnd as (Hnd & Hk & _).
    assert (Hnew : forall us, (k, us) ∉ l).
    { intros us Hin. apply (Hk k); [by apply (list_elem_of_fmap_2 fst _ (k, us)) | by left]. }
    rewrite foldl_snoc. unfold add_attr at 1. setoid_rewrite elem_of_app.
    setoid_rewrite list_elem_of_singleton. simpl. case_bool_decide as Hl.
    + rewrite lookup_insert_Some, IH by done. split.
      * intros [[<- <-] | [Hne (us & ? & ? & ?)]]; [exists vs | exists us; naive_solver].
        split; [by right |]. split; [by destruct vs; simpl in Hl; [lia |] | done].
      * intros (us & [Hin | [= -> ->]] & Hne & ->); [right | by left].
        split; [intros -> | eauto]. by apply Hnew in Hin.
    + rewrite IH by done. split; [naive_solver |].
      intros (us & [Hin | [= -> ->]] & Hne & ->); [eauto |]. destruct vs; [done | simpl in Hl; lia].
Qed.

Lemma attrs_keys t : NoDup (attrs t).*1.
Proof. by apply (bool_decide_eq_true_1 _), eq_refl. Qed.

Lemma q_attrs_keys q : NoDup (q_attrs q).*1.
Proof. by apply (bool_decide_eq_true_1 _), eq_refl. Qed.

Lemma ToConj_lookup t f exprs :
  Expressions (ToConj t) !! f = Some exprs <->
  exists vs, (f, vs) ∈ attrs t /\ vs <> [] /\ exprs = [attr_expr vs].
Proof. rewrite ToConj_attrs. apply (lookup_attrs (fun vs => [attr_expr vs])), attrs_keys. Qed.

Lemma query_lookup q f v :
  query_assign q !! f = Some v <-> exists vs, (f, vs) ∈ q_attrs q /\ vs <> [] /\ v = VInts KInt (Some vs).
Proof. rewrite query_attrs. apply (lookup_attrs (fun vs => VInts KInt (Some vs))), q_attrs_keys. Qed.

Lemma Match_spec t q :
  Match t (q_A q) (q_B q) (q_C q) (q_D q) = true <->
  forall f vs qs, (f, vs) ∈ attrs t -> (f, qs) ∈ q_attrs q -> valueMatch vs qs = true.
Proof.
  unfold Match, attrs, q_attrs. split.
  - intros Hm f vs qs Hvs Hqs.
    destruct (valueMatch (mt_A t) _) eqn:Ha, (valueMatch (mt_B t) _) eqn:Hb,
      (valueMatch (mt_C t) _) eqn:Hc, (valueMatch (mt_D t) _) eqn:Hd; try done.
    rewrite !elem_of_cons in Hvs, Hqs.
    destruct Hvs as [[= -> ->] | [[= -> ->] | [[= -> ->] | [[= -> ->] | Hx]]]]; [.. | elem_nil];
      destruct Hqs as [[= ->] | [[= ->] | [[= ->] | [[= ->] | Hx]]]]; (done || elem_nil).
  - intros Hall. rewrite (Hall "A"), (Hall "B"), (Hall "C"), (Hall "D"); [done | ..];
      rewrite !elem_of_cons; tauto.
Qed.

(** ** The index answers like the matcher *)

Section Proofs.
Context {R : Type} `{GoRand R} `{MapRange} `{GoFloat} `{ProtoStrList}.
Local Abbreviation factory := InitHolderDefaults.
#[local] Hint Extern 0 (BEIndex (AnyBEIndex _) _) => exact (Any_index factory) : typeclass_instances.
Local Abbreviation Bld := (IndexerBuilder (AnyBEIndex DefaultEntriesHolder) Empty_set).
Implicit Types (b : Bld) (t : MockTargeting) (ts : list MockTargeting).

(** Integers meet an expression over integers when they share one. *)
Lemma ints_hit q f vs qs :
  q !! f = Some (VInts KInt (Some qs)) ->
  token_hit q f (attr_expr vs) = true <-> exists v, v ∈ qs /\ v ∈ vs.
Proof.
  intros Hq. unfold token_hit. rewrite Hq. simpl.
  rewrite existsb_exists. setoid_rewrite <- list_elem_of_In. setoid_rewrite bool_decide_eq_true. split.
  - intros (s & (z & -> & Hz)%list_elem_of_fmap & (z' & ->%fmt_int_inj & Hz')%list_elem_of_fmap). eauto.
  - intros (v & Hv & Hv'). exists (fmt_int v). split; by apply list_elem_of_fmap_2.
Qed.

Lemma elem_of_q_attrs t q f vs : (f, vs) ∈ attrs t -> exists qs, (f, qs) ∈ q_attrs q.
Proof.
  intros Hin. assert (f ∈ (q_attrs q).*1) as ([g qs] & -> & Hqs)%list_elem_of_fmap; [| eauto].
  change ((q_attrs q).*1) with ((attrs t).*1). by apply (list_elem_of_fmap_2 fst _ (f, vs)).
Qed.

Lemma q_attrs_functional q f qs qs' : (f, qs) ∈ q_attrs q -> (f, qs') ∈ q_attrs q -> qs = qs'.
Proof.
  intros H1' H2'. assert ((f, qs) = (f, qs')) as [= ->]; [| done].
  eapply (NoDup_fmap_eq fst (q_attrs q)); [apply q_attrs_keys | done ..].
Qed.

(** One attribute: the expression is met, or the targeting has none. *)
Lemma attr_hit q f vs qs :
  (f, qs) ∈ q_attrs q -> vs <> [] ->
  token_hit (query_assign q) f (attr_expr vs) = true <-> valueMatch vs qs = true.
Proof.
  intros Hqs Hne. rewrite valueMatch_spec. destruct (query_assign q !! f) as [v|] eqn:Ev.
  - pose proof (proj1 (query_lookup q f v) Ev) as (qs' & Hqs' & _ & ->).
    rewrite (q_attrs_functional _ _ _ _ Hqs' Hqs) in Ev. rewrite (ints_hit _ _ _ _ Ev). naive_solver.
  - unfold token_hit. rewrite Ev. split; [done |]. intros [? | (v & Hv & _)]; [done |].
    assert (query_assign q !! f = Some (VInts KInt (Some qs))); [| congruence].
    apply query_lookup. exists qs. split_and!; [done | by intros -> ; elem_nil | done].
Qed.

Lemma target_sat t q :
  doc_sat (token_hit (query_assign q)) (target_doc t) = Match t (q_A q) (q_B q) (q_C q) (q_D q).
Proof.
  unfold doc_sat, target_doc. simpl. rewrite orb_false_r.
  apply eq_true_iff_eq. rewrite conj_sat_spec, Match_spec. setoid_rewrite field_sat_spec. split.
  - intros Hall f vs qs Hvs Hqs. destruct (decide (vs = [])) as [-> | Hne]; [done |].
    apply (attr_hit q f vs qs Hqs Hne).
    destruct (Hall f [attr_expr vs]) as [_ Hinc]; [apply ToConj_lookup; eauto |].
    specialize (Hinc eq_refl). apply include_hit_spec in Hinc as (e & ->%list_elem_of_singleton & _ & Hh). done.
  - intros Hall f exprs (vs & Hvs & Hne & ->)%ToConj_lookup. split; [done |]. intros _.
    destruct (elem_of_q_attrs t q f vs Hvs) as [qs Hqs]. apply include_hit_spec. exists (attr_expr vs).
    split; [by left |]. split; [done |]. apply (attr_hit q f vs qs Hqs Hne). eauto.
Qed.

(** *** The builder *)

Definition no_version (key : DocCacheKey) : Document := NewDocument 0.

Lemma size_attrs {A} (g : list Z -> A) l : (size (foldl (add_attr g) ∅ l) <= length l)%nat.
Proof.
  induction l as [|[k vs] l IH] using rev_ind; [simpl; by rewrite map_size_empty |].
  rewrite foldl_snoc, length_app. unfold add_attr at 1. simpl.
  case_bool_decide; [rewrite map_size_insert; destruct (_ !! k); simpl; lia | lia].
Qed.

Lemma target_plain t : - MaxDocID <= mt_ID t <= MaxDocID -> plain_doc (target_doc t).
Proof.
  intros Hid. split; [done | done | simpl; lia |]. intros cj ->%list_elem_of_singleton. split.
  - rewrite CalcConjSize_size.
    pose proof (map_size_filter (fun kv => has_include kv.2 = true) (Expressions (ToConj t))) as Hf.
    pose proof (size_attrs (fun vs => [attr_expr vs]) (attrs t)) as Hs. rewrite <- ToConj_attrs in Hs.
    unfold include_fields. simpl in Hs. lia.
  - intros f exprs bv (vs & _ & _ & ->)%ToConj_lookup ->%list_elem_of_singleton. split; [done | by eexists].
Qed.

(** The builder holds the targetings [ts]. *)
Definition tinv b ts : Prop := dinv no_version b (target_doc <$> ts).

Lemma add_target b ts t :
  tinv b ts -> - MaxDocID <= mt_ID t <= MaxDocID ->
  exists b', AddDocument factory [target_doc t] b = (b', Ok tt) /\ tinv b' (ts ++ [t]).
Proof.
  intros Hb Hid. unfold tinv. rewrite fmap_app.
  apply (add_plain no_version); [done | by apply target_plain | apply doc_cacheable_uncached].
Qed.

Lemma tinv_new (opts : list (BuilderOpt Empty_set)) b :
  NewIndexerBuilder factory opts = Ok b -> (forall v, WithBadConjBehavior v ∉ opts) -> tinv b [].
Proof.
  intros Hnew Hopts. eapply dinv_new; [done | done |]. rewrite Forall_forall. by intros [v|[]|k] _.
Qed.

(** *** Queries *)

Section Query.
Context {B : Type} `{Roaring64Spec B}.
Implicit Types (pool : list (DocIDCollector B)).

(** The index answers every query with the targetings among [ts] that match. *)
Definition matches ts (i : AnyBEIndex DefaultEntriesHolder) : Prop :=
  forall q pool, pool_ok pool -> exists pool' ids,
    Retrieve i (query_assign q) [] pool = (pool', Ok ids) /\ pool_ok pool' /\
    doc_answer (target_doc <$> ts) (query_assign q) ids.

Lemma query_readable q : readable (query_assign q).
Proof. intros f v (qs & _ & _ & ->)%query_lookup. split; [done | by eexists]. Qed.

Lemma tinv_index b ts :
  tinv b ts -> NoDup (mt_ID <$> ts) -> exists b' i, BuildIndex b = (b', Ok i) /\ matches ts i.
Proof.
  intros Hb Hnd.
  destruct (dinv_index no_version b (target_doc <$> ts) Hb) as (b' & i & Hbuild & Ha).
  { by rewrite <- list_fmap_compose. }
  exists b', i. split; [done |]. intros q pool Hpool. by apply Ha; [apply query_readable |].
Qed.

(** *** The loops *)

(** The map [targets] holds the targetings [ts], drawn before number [i]. *)
Record drawn (targets : gmap DocID MockTargeting) ts (i : Z) : Prop := {
  dr_map : forall id t, targets !! id = Some t <-> t ∈ ts /\ mt_ID t = id;
  dr_ids : Forall (fun t => 1 <= mt_ID t < i) ts;
  dr_nodup : NoDup (mt_ID <$> ts)
}.

Lemma drawn_empty i : drawn ∅ [] i.
Proof. split; [| constructor ..]. intros id t. rewrite lookup_empty. split; [done | intros [Hx _]; elem_nil]. Qed.

Lemma drawn_skip targets ts i : drawn targets ts i -> drawn targets ts (i + 1).
Proof. intros [Hm Hi Hn]. split; try done. eapply Forall_impl; [exact Hi |]. intros t Ht. simpl in *. lia. Qed.

Lemma drawn_add targets ts i t :
  drawn targets ts i -> 1 <= i -> mt_ID t = i -> drawn (<[i := t]> targets) (ts ++ [t]) (i + 1).
Proof.
  intros [Hm Hi Hn] H1' Ht. rewrite Forall_forall in Hi. split.
  - intros id t'. rewrite lookup_insert_Some, Hm, elem_of_app, list_elem_of_singleton. split.
    + intros [[<- <-] | [Hne [Hin Hid]]]; split; auto.
    + intros [[Hin | ->] Hid]; [right | by left; subst]. split; [| done]. specialize (Hi _ Hin). simpl in Hi. lia.
  - rewrite Forall_forall. intros t' [Hin | ->%list_elem_of_singleton]%elem_of_app; [specialize (Hi _ Hin); simpl in Hi |]; lia.
  - rewrite fmap_app. apply NoDup_app. split; [done |]. split; [| apply NoDup_singleton].
    intros id (t' & -> & Hin)%list_elem_of_fmap Heq%list_elem_of_singleton.
    specialize (Hi _ Hin). simpl in Hi. lia.
Qed.

Lemma new_target_ID i (r : R) : mt_ID (new_target i r).2 = i.
Proof. unfold new_target. by repeat (destruct (randValue _ _)). Qed.

Lemma target_loop_spec n i r targets b ts :
  tinv b ts -> drawn targets ts i -> 1 <= i -> i + Z.of_nat n - 1 <= MaxDocID ->
  exists b' targets' ts', target_loop n i r targets b = (b', Ok targets') /\ tinv b' ts' /\
    drawn targets' ts' (i + Z.of_nat n).
Proof.
  revert i r targets b ts. induction n as [|n IH]; intros i r targets b ts Hb Hd Hi Hmax; cbn [target_loop].
  { exists b, targets, ts. by rewrite Z.add_0_r. }
  rewrite Nat2Z.inj_succ in *. replace (i + Z.succ (Z.of_nat n)) with (i + 1 + Z.of_nat n) in * by lia.
  pose proof (new_target_ID i r) as Hid. destruct (new_target i r) as [r' t]. simpl in Hid.
  case_bool_decide.
  - destruct (add_target b ts t Hb) as (b1 & Hadd & Hb1); [unfold MaxDocID in *; lia |].
    unfold mbind, M_bind, with_err. rewrite Hadd.
    eapply IH; [done | by apply drawn_add | lia | lia].
  - eapply IH; [done | by apply drawn_skip | lia | lia].
Qed.

Lemma bench_loop_spec n i r targets b cb ts :
  tinv b ts -> tinv cb ts -> drawn targets ts i -> 1 <= i -> i + Z.of_nat n - 1 <= MaxDocID ->
  exists b' cb' r' targets' ts', bench_loop n i r targets b cb = (b', cb', Ok (r', targets')) /\
    tinv b' ts' /\ tinv cb' ts' /\ drawn targets' ts' (i + Z.of_nat n).
Proof.
  revert i r targets b cb ts. induction n as [|n IH]; intros i r targets b cb ts Hb Hcb Hd Hi Hmax; cbn [bench_loop].
  { exists b, cb, r, targets, ts. by rewrite Z.add_0_r. }
  rewrite Nat2Z.inj_succ in *. replace (i + Z.succ (Z.of_nat n)) with (i + 1 + Z.of_nat n) in * by lia.
  pose proof (new_target_ID i r) as Hid. destruct (new_target i r) as [r' t]. simpl in Hid.
  case_bool_decide.
  - destruct (add_target b ts t Hb) as (b1 & Hadd & Hb1); [unfold MaxDocID in *; lia |].
    destruct (add_target cb ts t Hcb) as (cb1 & Hcadd & Hcb1); [unfold MaxDocID in *; lia |].
    unfold PanicIfErr. rewrite Hadd, Hcadd.
    eapply IH; [done | done | by apply drawn_add | lia | lia].
  - eapply IH; [done | done | by apply drawn_skip | lia | lia].
Qed.

(** The queries of a run, numbered from [idx]. *)
Definition results ts (Qs : list Q) (idx : Z) (res : gmap Z (list DocID)) : Prop :=
  forall n q, Qs !! n = Some q -> exists ids, res !! (idx + Z.of_nat n) = Some ids /\ doc_answer (target_doc <$> ts) (query_assign q) ids.

Lemma run_queries_spec ts (i : AnyBEIndex DefaultEntriesHolder) Qs : matches ts i ->
  forall idx idxRes pool, pool_ok pool ->
  exists pool' idxRes', run_queries i (query_assign <$> Qs) idx idxRes pool = (pool', Ok idxRes') /\
    pool_ok pool' /\ (forall k, k < idx -> idxRes' !! k = idxRes !! k) /\ results ts Qs idx idxRes'.
Proof.
  intros Ha. induction Qs as [|q Qs IH]; intros idx idxRes pool Hpool; cbn [run_queries fmap list_fmap].
  { exists pool, idxRes. split; [done |]. split; [done |]. split; [done |]. by intros [] q Hq. }
  destruct (Ha q pool Hpool) as (pool1 & ids & -> & Hpool1 & Hm).
  destruct (IH (idx + 1) (<[idx := ids]> idxRes) pool1 Hpool1) as (pool2 & res2 & -> & Hpool2 & Hold & Hnew).
  exists pool2, res2. split; [done |]. split; [done |]. split.
  - intros k Hk. rewrite Hold by lia. by rewrite lookup_insert_ne by lia.
  - intros [|n] q' Hq; simpl in Hq.
    + injection Hq as <-. exists ids. split; [| done]. rewrite Z.add_0_r, Hold by lia. apply lookup_insert_eq.
    + destruct (Hnew n q' Hq) as (ids' & Hids' & Hm'). exists ids'. split; [| done].
      rewrite <- Hids'. f_equal. lia.
Qed.

Lemma new_queries_spec n (r : R) Qs assigns :
  assigns = query_assign <$> Qs ->
  exists r' Qs', new_queries n r Qs assigns = (r', (Qs', query_assign <$> Qs')) /\ length Qs' = (length Qs + n)%nat.
Proof.
  revert r Qs assigns. induction n as [|n IH]; intros r Qs assigns ->; cbn [new_queries].
  { exists r, Qs. split; [done | lia]. }
  destruct (new_query r) as [r1 q].
  destruct (IH r1 (Qs ++ [q]) ((query_assign <$> Qs) ++ [query_assign q])) as (r' & Qs' & -> & Hl);
    [by rewrite fmap_app |].
  exists r', Qs'. split; [done |]. rewrite length_app in Hl. simpl in Hl. lia.
Qed.

(** What a run has answered, in terms of its own map of targetings. *)
Definition bench_right (out : BenchResult) : Prop :=
  length (br_Qs out) = 1000%nat /\
  forall n q, br_Qs out !! n = Some q -> exists ids,
    br_idxRes out !! Z.of_nat n = Some ids /\ br_idxUnionRes out !! Z.of_nat n = Some ids /\ NoDup ids /\
    forall id, id ∈ ids <->
      exists t, br_targets out !! id = Some t /\ Match t (q_A q) (q_B q) (q_C q) (q_D q) = true.

Lemma drawn_matching targets ts i q ids :
  drawn targets ts i -> doc_answer (target_doc <$> ts) (query_assign q) ids ->
  NoDup ids /\ forall id, id ∈ ids <->
    exists t, targets !! id = Some t /\ Match t (q_A q) (q_B q) (q_C q) (q_D q) = true.
Proof.
  intros [Hm _ _] [Hs Hi]. split.
  - clear -Hs. induction Hs as [|x l Hs IH Hx]; constructor; [| done].
    intros Hin. rewrite Forall_forall in Hx. specialize (Hx x Hin). lia.
  - intros id. rewrite Hi. setoid_rewrite Hm. setoid_rewrite <- target_sat. split.
    + intros (doc & (t & -> & Ht)%list_elem_of_fmap & Hid & Hsat). eauto.
    + intros (t & [Ht Hid] & Hsat). exists (target_doc t). split; [by apply list_elem_of_fmap_2 | done].
Qed.

(** C11.  The benchmark program is right: whatever the random numbers are, it
    builds both indexes without an error, and each of its queries is answered by
    the k-groups and by the compact index with the same ids, which are those of
    the targetings that its brute-force matcher accepts. *)
Theorem bench_agrees docCount (r : R) pool :
  docCount - 1 <= MaxDocID -> pool_ok pool ->
  exists out, bench_main docCount r pool = Ok out /\ bench_right out.
Proof.
  intros Hmax Hpool. unfold bench_main.
  destruct (NewIndexerBuilder factory []) as [b|e|e|] eqn:Eb; [| done ..].
  destruct (NewCompactIndexerBuilder factory []) as [cb|e|e|] eqn:Ecb; [| done ..]. cbn [mbind res_bind].
  assert (tinv b []) as Hb by (eapply tinv_new; [exact Eb | intros v Hx; elem_nil]).
  assert (tinv cb []) as Hcb by (eapply tinv_new; [exact Ecb | by intros v Hx%list_elem_of_singleton]).
  destruct (bench_loop_spec (Z.to_nat (docCount - 1)) 1 r ∅ b cb [] Hb Hcb (drawn_empty 1))
    as (b1 & cb1 & r1 & targets & ts & -> & Hb1 & Hcb1 & Hd); [lia | unfold MaxDocID in *; lia |].
  destruct (tinv_index b1 ts Hb1 (dr_nodup _ _ _ Hd)) as (b2 & i & Hbuild & Hi).
  destruct (tinv_index cb1 ts Hcb1 (dr_nodup _ _ _ Hd)) as (cb2 & ci & Hcbuild & Hci).
  cbn [mbind res_bind]. rewrite Hbuild, Hcbuild. cbn [mbind res_bind snd].
  destruct (new_queries_spec 1000 r1 [] [] eq_refl) as (r2 & Qs & -> & Hlen).
  destruct (run_queries_spec ts i Qs Hi 0 ∅ pool Hpool) as (pool1 & idxRes & -> & Hpool1 & _ & Hres).
  destruct (run_queries_spec ts ci Qs Hci 0 ∅ pool1 Hpool1) as (pool2 & idxRes' & Hrun' & _ & _ & Hres').
  cbn [mbind res_bind]. rewrite Hrun'. cbn [mbind res_bind].
  eexists. split; [reflexivity |]. split; [done |]. simpl. intros n q Hq.
  destruct (Hres n q Hq) as (ids & Hn & Hm). destruct (Hres' n q Hq) as (ids' & Hn' & Hm').
  rewrite (doc_answer_unique _ _ _ _ Hm' Hm) in Hn'. exists ids. split; [done |]. split; [done |].
  by eapply drawn_matching.
Qed.

(** The index of the two single-index benchmarks answers every query like the
    matcher. *)
Lemma targets_BuildIndex_answers docCount (r : R) (opts : list (BuilderOpt Empty_set)) b :
  NewIndexerBuilder factory opts = Ok b -> (forall v, WithBadConjBehavior v ∉ opts) ->
  docCount - 1 <= MaxDocID ->
  exists targets i, targets_BuildIndex docCount r (Ok b) = Ok (targets, i) /\
    forall q pool, pool_ok pool -> exists pool' ids,
      Retrieve i (query_assign q) [] pool = (pool', Ok ids) /\ pool_ok pool' /\ NoDup ids /\
      forall id, id ∈ ids <->
        exists t, targets !! id = Some t /\ Match t (q_A q) (q_B q) (q_C q) (q_D q) = true.
Proof.
  intros Hnew Hopts Hmax. unfold targets_BuildIndex. cbn [mbind res_bind].
  destruct (target_loop_spec (Z.to_nat (docCount - 1)) 1 r ∅ b [] (tinv_new _ _ Hnew Hopts) (drawn_empty 1))
    as (b1 & targets & ts & -> & Hb1 & Hd); [lia | unfold MaxDocID in *; lia |].
  destruct (tinv_index b1 ts Hb1 (dr_nodup _ _ _ Hd)) as (b2 & i & -> & Hi).
  exists targets, i. split; [done |]. intros q pool Hpool.
  destruct (Hi q pool Hpool) as (pool' & ids & Hret & Hpool' & Hm). exists pool', ids.
  split; [done |]. split; [done |]. by eapply drawn_matching.
Qed.

(** The options that only enable output do not change a retrieval. *)
Lemma Retrieve_step_detail (i : AnyBEIndex DefaultEntriesHolder) q (pool : list (DocIDCollector B)) :
  Retrieve i q [WithStepDetail] pool = Retrieve i q [] pool.
Proof. unfold Retrieve. by destruct i. Qed.

(** The number of targetings that a query matches. *)
Definition match_count (targets : gmap DocID MockTargeting) (q : Q) : nat :=
  length (filter (fun kv => Match kv.2 (q_A q) (q_B q) (q_C q) (q_D q) = true) (map_to_list targets)).

Lemma match_count_ids targets q ids :
  NoDup ids ->
  (forall id, id ∈ ids <-> exists t, targets !! id = Some t /\ Match t (q_A q) (q_B q) (q_C q) (q_D q) = true) ->
  length ids = match_count targets q.
Proof.
  intros Hnd Hids. unfold match_count. rewrite <- (length_fmap fst). apply Permutation_length, NoDup_Permutation.
  - done.
  - apply NoDup_fmap_fst; [| apply NoDup_filter, NoDup_map_to_list].
    intros id t1 t2 [_ Ht1%elem_of_map_to_list]%list_elem_of_filter [_ Ht2%elem_of_map_to_list]%list_elem_of_filter.
    congruence.
  - intros id. rewrite Hids, list_elem_of_fmap. setoid_rewrite list_elem_of_filter. split.
    + intros (t & Ht & Hm). exists (id, t). split; [done |]. split; [done | by apply elem_of_map_to_list].
    + intros ([id' t] & -> & Hm & Ht%elem_of_map_to_list). eauto.
Qed.

Lemma count_results_spec (opts : list (IndexOpt (DocIDCollector B))) targets (i : AnyBEIndex DefaultEntriesHolder) :
  (forall q pool, pool_ok pool -> exists pool' ids,
     Retrieve i (query_assign q) opts pool = (pool', Ok ids) /\ pool_ok pool' /\ length ids = match_count targets q) ->
  forall Qs cnt pool, pool_ok pool -> exists pool',
    count_results opts i (query_assign <$> Qs) cnt pool =
      (pool', Ok (cnt + Z.of_nat (sum_list_with (match_count targets) Qs))).
Proof.
  intros Hi Qs. induction Qs as [|q Qs IH]; intros cnt pool Hpool.
  { exists pool. simpl. by rewrite Z.add_0_r. }
  rewrite fmap_cons. cbn [count_results sum_list_with].
  destruct (Hi q pool Hpool) as (pool1 & ids & -> & Hpool1 & Hlen).
  destruct (IH (cnt + Z.of_nat (length ids)) pool1 Hpool1) as (pool' & ->). exists pool'. f_equal. f_equal. lia.
Qed.

(** [QueryTest] on the index of [BuildIndex] counts the matches of its queries. *)
Lemma QueryTest_counts docCount (r r' : R) (opts : list (BuilderOpt Empty_set)) b :
  NewIndexerBuilder factory opts = Ok b -> (forall v, WithBadConjBehavior v ∉ opts) ->
  docCount - 1 <= MaxDocID ->
  exists targets i, targets_BuildIndex docCount r (Ok b) = Ok (targets, i) /\
    forall pool, pool_ok pool -> exists Qs pool1 pool2,
      let total := Ok (Z.of_nat (sum_list_with (match_count targets) Qs)) in
      length Qs = 1000%nat /\ kgroups_QueryTest i r' pool = (pool1, total) /\
      compacted_QueryTest i r' pool = (pool2, total).
Proof.
  intros Hnew Hopts Hmax.
  destruct (targets_BuildIndex_answers docCount r opts b Hnew Hopts Hmax) as (targets & i & Hbuild & Hi).
  exists targets, i. split; [done |]. intros pool Hpool. unfold kgroups_QueryTest, compacted_QueryTest.
  destruct (new_queries_spec 1000 r' [] [] eq_refl) as (r2 & Qs & -> & Hlen).
  assert (Hc : forall os, (forall q p, Retrieve i q os p = Retrieve i q [] p) -> exists pool',
    count_results os i (query_assign <$> Qs) 0 pool =
      (pool', Ok (Z.of_nat (sum_list_with (match_count targets) Qs)))).
  { intros os Hos. destruct (count_results_spec os targets i) with (Qs := Qs) (cnt := 0) (pool := pool)
      as [pool' ->]; [| done | by exists pool'].
    intros q p Hp. rewrite Hos. destruct (Hi q p Hp) as (p' & ids & Hret & Hp' & Hnd & Hids).
    exists p', ids. split; [done |]. split; [done |]. by apply match_count_ids. }
  destruct (Hc [] ltac:(done)) as [p1 Hp1]. destruct (Hc [WithStepDetail] (Retrieve_step_detail i)) as [p2 Hp2].
  exists Qs, p1, p2. split; [exact Hlen |]. split; [exact Hp1 | exact Hp2].
Qed.

End Query.
End Proofs.

(** ** A sample run *)

#[local] Hint Extern 0 (BEIndex (AnyBEIndex _) _) => exact (Any_index InitHolderDefaults) : typeclass_instances.

(** A linear congruential generator. *)
#[export] Instance demo_rand : GoRand Z := {
  rand_Int r := let r := (1103515245 * r + 12345) mod 2 ^ 31 in (r, r / 65536);
  rand_Intn n r := let r := (1103515245 * r + 12345) mod 2 ^ 31 in (r, (r / 65536) mod n)
}.

(** The answers of a small k-groups index to a query made of the values of its
    first targeting, and the targetings that match it. *)
Definition sample_run : res (list DocID * list DocID) :=
  '(targets, i) ← kgroups_BuildIndex 12 (2024 : Z);
  let q := match targets !! 1 with
           | Some t => {| q_A := mt_A t; q_B := mt_B t; q_C := mt_C t; q_D := mt_D t |}
           | None => {| q_A := []; q_B := []; q_C := []; q_D := [] |}
           end in
  ids ← (Retrieve (B:=zset) i (query_assign q) [] []).2;
  Ok (ids, (filter (fun kv => Match kv.2 (q_A q) (q_B q) (q_C q) (q_D q) = true) (map_to_list targets)).*1).

Example sample_run_agrees : sample_run = Ok ([1], [1]).
Proof. vm_compute. reflexivity. Qed.

Lemma bench_agrees_witness :
  exists out, bench_main (B:=zset) 5 (2024 : Z) [] = Ok out /\ bench_right out.
Proof.
  apply (bench_agrees (B:=zset) 5 (2024 : Z) []); [unfold MaxDocID; lia | constructor].
Defined.
