(* ===== verification/Examples.v ===== *)
(** * The example programs as runs of the models
      (example/repeat_fields_test, example/indexing_json_doc, example/incremental_indexer)

    Each program is translated with its checks, which panic when an answer is not
    the expected one; the runs are evaluated. *)

From Stdlib Require Import SpecFloat Strings.Byte.
From stdpp Require Import base sorting gmap strings numbers list.
From S2P Require Import Prelude GoValues Utf8 Util Ids Document Cursor FieldCursor Collector Scan Holder.
From S2P Require Import Index IndexSpec IndexProofs IndexInstances Parsers DefaultHolder AhoHolder.
From S2P Require Import Builder BuilderSpec BuilderProofs BuilderDocs BuilderFields Semantics System DefaultIndex.
From S2P Require Import Roaring RoaringAc Demo.
Open Scope Z_scope.

(** ** repeat_fields_test: several expressions on one field of a conjunction *)

Record CaseData := { cd_q : Assignments; cd_expect : list Z }.

Definition ints (l : list Z) : Values := VInts KInt (Some l).

Definition gen_docs : list Document :=
  [AddConjunction (NewDocument 1)
     [In (NotIn (In NewConjunction "age" (ints [20; 30; 40])) "age" (ints [30; 50])) "city" (NewStrValues "bj" ["sh"])];
   AddConjunction (NewDocument 2)
     [NotIn (NotIn (In NewConjunction "age" (ints [20; 30; 40])) "age" (ints [30; 50])) "city" (NewStrValues "bj" ["sh"])];
   AddConjunction (NewDocument 3)
     [In (In (In NewConjunction "age" (ints [20; 30; 40])) "age" (ints [30; 50])) "city" (NewStrValues "bj" ["sh"])];
   AddConjunction (NewDocument 4)
     [NotIn (In (In NewConjunction "age" (ints [20; 30; 40])) "age" (ints [30; 50])) "city" (NewStrValues "bj" ["sh"])];
   AddConjunction (NewDocument 5)
     [In (NotIn (NotIn NewConjunction "age" (ints [20; 30; 40])) "age" (ints [30; 50])) "city" (NewStrValues "bj" ["sh"])];
   AddConjunction (NewDocument 6)
     [NotIn (NotIn (NotIn NewConjunction "age" (ints [20; 30; 40])) "age" (ints [30; 50])) "city" (NewStrValues "bj" ["sh"])]].

Definition gen_cases : list CaseData :=
  [{| cd_q := {[ "age" := VInt KInt 30; "city" := VStr "hn" ]}; cd_expect := [4] |};
   {| cd_q := {[ "age" := VInt KInt 30; "city" := VStr "bj" ]}; cd_expect := [3] |};
   {| cd_q := {[ "age" := VInt KInt 40; "city" := VStr "hn" ]}; cd_expect := [2; 4] |};
   {| cd_q := {[ "age" := VInt KInt 40; "city" := VStr "bj" ]}; cd_expect := [1; 3] |};
   {| cd_q := {[ "city" := VStr "hn" ]}; cd_expect := [6] |};
   {| cd_q := {[ "city" := VStr "bj" ]}; cd_expect := [5] |};
   {| cd_q := {[ "age" := VInt KInt 30 ]}; cd_expect := [4] |};
   {| cd_q := {[ "age" := VInt KInt 40 ]}; cd_expect := [2; 4] |};
   {| cd_q := ∅; cd_expect := [6] |}].

Definition genDocs : list Document * list CaseData := (gen_docs, gen_cases).

(** The checks on the ids of one case. *)
Definition check_case {S} (ids expect : list Z) : M S unit :=
  _ ← PanicIf (bool_decide (length ids <> length expect)) "result not as expected";
  forM ids (fun id => PanicIf (negb (ContainUint64 expect (u64 id))) "result not match").

Section RepeatFields.
Context `{MapRange} `{GoFloat} `{ProtoStrList} {B : Type} `{Roaring64 B} {Mc : Type} `{AhoMachine Mc}.

(** [RunRRIndexing]: the errors of [ConfigureField] are dropped; [SetDebug] only
    enables output. *)
Definition RunRRIndexing : res unit :=
  let s := ([], NewIvtIndexerBuilder common_generator) in
  let '(s, _) := ConfigureField (containerFactory_init (B:=B) (Mc:=Mc)) "age"
    {| fs_Container := ContainerNameDefault; fs_Parser := Some (number_generator NewNumberParser) |} s in
  let '(s, _) := ConfigureField (containerFactory_init (B:=B) (Mc:=Mc)) "city"
    {| fs_Container := ContainerNameDefault; fs_Parser := Some strhash_generator |} s in
  let '(docs, cases) := genDocs in
  match PanicIfErr (ivt_AddDocuments docs) s with
  | ((pool, b), Ok _) =>
      match BuildIndexer b with
      | Ok index =>
          (forM cases (fun c =>
             ids ← PanicIfErr (scanner_Retrieve (cd_q c));
             _ ← check_case ids (cd_expect c);
             modify (fun s => (s.1, scanner_Reset s.2))) (NewScanner index pool)).2
      | Err e => Panic e
      | Panic e => Panic e
      | OutOfFuel => OutOfFuel
      end
  | (_, r) => r
  end.

#[local] Hint Extern 0 (BEIndex (AnyBEIndex _) _) => exact (Any_index InitHolderDefaults) : typeclass_instances.

Definition RunBEIndexing : res unit :=
  b ← NewIndexerBuilder (K:=Empty_set) InitHolderDefaults [];
  let '(docs, cases) := genDocs in
  match PanicIfErr (AddDocument InitHolderDefaults docs) b with
  | (b, Ok _) =>
      data ← (BuildIndex b).2;
      (forM cases (fun c =>
         ids ← PanicIfErr (Retrieve (B:=B) data (cd_q c) []);
         check_case ids (cd_expect c)) []).2
  | (_, r) => r
  end.

Definition repeat_main : res unit := _ ← RunRRIndexing; RunBEIndexing.

End RepeatFields.

(** The run ends without a panic, in either order of map iteration. *)
Lemma repeat_fields_pass :
  repeat_main (B:=zset) (Mc:=list (list Z)) = Ok tt /\
  repeat_main (B:=zset) (Mc:=list (list Z)) (H:=map_range_rev) = Ok tt.
Proof. split; by vm_compute. Qed.

(** ** indexing_json_doc *)

Definition json_expr (inc : bool) (vs : list string) : list BoolValues :=
  [{| Incl := inc; Value := VIfaces (Some (VStr <$> vs)); Operator := ValueOptEQ |}].

Definition json_doc (id : DocID) (exprs : gmap string (list BoolValues)) : Document :=
  {| doc_ID := id; doc_Version := 0; doc_Cons := [{| Expressions := exprs |}] |}.

(** The documents that the files docs/doc_01.json to doc_07.json describe. *)
Definition json_docs : list Document :=
  [json_doc 1 {[ "age" := json_expr true ["18:30"]; "ip" := json_expr false ["localhost"; "127.0.0.1"];
                 "city" := json_expr true ["sh"; "bj"; "gz"; "hz"; "sz"] ]};
   json_doc 2 {[ "ip" := json_expr false ["localhost"; "127.0.0.1"] ]};
   json_doc 3 {[ "city" := json_expr false ["sh"; "bj"]; "url" := json_expr true ["xiaomi.com"; "tencent.com"] ]};
   json_doc 4 {[ "age" := json_expr true ["18:25"]; "city" := json_expr true ["gz"; "hz"; "sz"] ]};
   json_doc 5 {[ "age" := json_expr true ["18:25"]; "city" := json_expr true ["gz"; "hz"; "sz"] ]};
   json_doc 6 {[ "ip" := json_expr false ["localhost"; "127.0.0.1"] ]};
   json_doc 7 {[ "age" := json_expr true ["18:20"]; "ip" := json_expr false ["localhost"];
                 "city" := json_expr true ["sh"; "bj"] ]}].

Section JsonDoc.
Context `{MapRange} `{GoFloat} `{ProtoStrList} {B : Type} `{Roaring64 B}.

(** The registration of the program replaces the default holder by itself. *)
Definition json_factory : gmap string DefaultEntriesHolder :=
  RegisterEntriesHolder InitHolderDefaults HolderNameDefault NewDefaultEntriesHolder.

#[local] Hint Extern 0 (BEIndex (AnyBEIndex _) _) => exact (Any_index json_factory) : typeclass_instances.

Definition json_query : Assignments := {[ "age" := VInt KInt 19; "city" := VStr "gz" ]}.

(** The retrieval of the program; its error is dropped. *)
Definition json_result (docs : list Document) : res (list DocID) :=
  b ← NewIndexerBuilder (K:=Empty_set) json_factory [];
  match forM docs (fun doc => PanicIfErr (AddDocument json_factory [doc])) b with
  | (b, Ok _) =>
      indexer ← (BuildIndex b).2;
      match (Retrieve (B:=B) indexer json_query [WithDumpEntries; WithStepDetail] []).2 with
      | Err _ => Ok []
      | r => r
      end
  | (_, Err e) => Err e
  | (_, Panic e) => Panic e
  | (_, OutOfFuel) => OutOfFuel
  end.

Definition json_main (docs : list Document) : res unit :=
  ids ← json_result docs;
  if negb (Contain ids 1) then Panic "should has result 1" else Ok tt.

End JsonDoc.

(** The program panics on its own documents: the default holder takes "18:30" for
    a text, which the age 19 does not meet. *)
Lemma json_main_panics :
  json_result (B:=zset) json_docs = Ok [2; 6] /\
  json_main (B:=zset) json_docs = Panic "should has result 1".
Proof. split; by vm_compute. Qed.

(** ** incremental_indexer: builders that share a document cache *)

#[export] Instance DocCacheKey_countable : Countable DocCacheKey.
Proof.
  apply (inj_countable' (fun k => (ck_DocID k, ck_Version k))
           (fun p => {| ck_DocID := p.1; ck_Version := p.2 |})).
  by intros [d v].
Defined.

Record MemoryDocCache := { mc_data : gmap DocCacheKey DocIdxCache }.

Definition NewMemoryDocCache : MemoryDocCache := {| mc_data := ∅ |}.

Definition MemoryDocCache_Get (c : MemoryDocCache) (key : DocCacheKey) : MemoryDocCache * option DocIdxCache :=
  (c, mc_data c !! key).

Definition MemoryDocCache_Set (c : MemoryDocCache) (key : DocCacheKey) (entry : DocIdxCache) : MemoryDocCache :=
  {| mc_data := <[key := entry]> (mc_data c) |}.

Definition MemoryDocCache_Clear (c : MemoryDocCache) : MemoryDocCache := {| mc_data := ∅ |}.

#[export] Instance memory_cache : DocLevelCache MemoryDocCache := {
  cache_Get := MemoryDocCache_Get;
  cache_Set := MemoryDocCache_Set;
  cache_Clear := MemoryDocCache_Clear
}.

(** The cache of the example keeps the promise the builder relies on. *)
#[export] Instance memory_cache_spec : DocLevelCacheSpec MemoryDocCache.
Proof.
  refine {| cache_may := fun k key e => mc_data k !! key = Some e |}; simpl.
  - intros k key k' r [= <- <-]. split; done.
  - intros k key e key' e' [[-> ->] | [_ ?]]%lookup_insert_Some; auto.
  - intros k key e. by rewrite lookup_empty.
Defined.

Record Ad := { ad_ID : Z; ad_UpdateTime : Z; ad_TargetAge : list Z; ad_TargetCity : list string }.

(** The document of an ad; [ad_UpdateTime] is in seconds since 1970. *)
Definition ad_doc (ad : Ad) : Document :=
  AddConjunction {| doc_ID := ad_ID ad; doc_Version := u64 (ad_UpdateTime ad); doc_Cons := [] |}
    [In (In NewConjunction "age" (VInts KInt (Some (ad_TargetAge ad)))) "city" (VStrs (Some (ad_TargetCity ad)))].

Section Incremental.
Context `{MapRange} `{GoFloat} `{ProtoStrList} {K : Type} `{DocLevelCache K}.
Local Abbreviation factory := InitHolderDefaults.
#[local] Hint Extern 0 (BEIndex (AnyBEIndex _) _) => exact (Any_index InitHolderDefaults) : typeclass_instances.
Local Abbreviation Bld := (IndexerBuilder (AnyBEIndex DefaultEntriesHolder) K).

(** One construction: a new builder on the cache, the two fields, the ads; a
    document that fails is skipped.  The cache is shared: the builder comes back
    with it. *)
Definition incremental_add (ads : list Ad) : M Bld unit :=
  forM ads (fun ad => _ ← with_err (AddDocument factory [ad_doc ad]); mret tt).

Definition incremental_build (cache : K) (ads : list Ad) : res (Bld * res (AnyBEIndex DefaultEntriesHolder)) :=
  b ← NewIndexerBuilder factory [WithDocLevelCache cache];
  Ok ((_ ← ConfigField "age" HolderNameDefault;
       _ ← ConfigField "city" HolderNameDefault;
       _ ← incremental_add ads;
       BuildIndex) b).

(** The queries that [main] compares the two indexes on. *)
Definition incremental_queries : list Assignments :=
  [{[ "age" := VInts KInt (Some [25]); "city" := VStrs (Some ["shanghai"]) ]};
   {[ "age" := VInts KInt (Some [18]); "city" := VStrs (Some ["beijing"]) ]};
   {[ "age" := VInts KInt (Some [30]) ]}].

(** [ids, _ := ...]: the ids of a failed retrieval are nil. *)
Definition ids_or_nil (out : res (list DocID)) : res (list DocID) :=
  match out with Err _ => Ok [] | out => out end.

(** The two results of each query and whether they have the same length. *)
Fixpoint compare_results {B} `{Roaring64 B} (index1 index2 : AnyBEIndex DefaultEntriesHolder)
    (qs : list Assignments) (pool : list (DocIDCollector B)) : res (list (list DocID * list DocID * bool)) :=
  match qs with
  | [] => Ok []
  | query :: qs =>
      let '(pool, out1) := Retrieve index1 query [] pool in
      result1 ← ids_or_nil out1;
      let '(pool, out2) := Retrieve index2 query [] pool in
      result2 ← ids_or_nil out2;
      rest ← compare_results index1 index2 qs pool;
      Ok ((result1, result2, bool_decide (length result1 = length result2)) :: rest)
  end.

(** [main]: the ads, and the ads after the update, on one cache. *)
Definition incremental_main {B} `{Roaring64 B} (cache : K) (ads ads' : list Ad)
    : res (list (list DocID * list DocID * bool)) :=
  '(builder1, out1) ← incremental_build cache ads;
  index1 ← out1;
  '(builder2, out2) ← incremental_build (default cache (docLevelCache builder1)) ads';
  index2 ← out2;
  compare_results (B:=B) index1 index2 incremental_queries [].

End Incremental.

Section IncrementalProofs.
Context `{MapRange} `{GoFloat} `{ProtoStrList} `{!ProtoStrListSpec} {K : Type} `{DocLevelCache K} `{!DocLevelCacheSpec K}.
Local Abbreviation factory := InitHolderDefaults.
#[local] Hint Extern 0 (BEIndex (AnyBEIndex _) _) => exact (Any_index InitHolderDefaults) : typeclass_instances.
#[local] Existing Instance default_spec.
#[local] Instance default_codec : HolderCacheSpec (factory:=factory) DefaultEntriesHolder StrTokenData :=
  default_cache_spec factory InitHolderDefaults_ok.
Local Abbreviation Bld := (IndexerBuilder (AnyBEIndex DefaultEntriesHolder) K).
Implicit Types (b : Bld) (ads : list Ad).

Lemma ad_plain ad : - MaxDocID <= ad_ID ad <= MaxDocID -> plain_doc (ad_doc ad).
Proof.
  intros Hid. split; [done | done | simpl; lia |]. intros cj ->%list_elem_of_singleton. split.
  - rewrite CalcConjSize_size. by vm_compute.
  - intros f exprs bv Hl Hbv. simpl in Hl.
    apply lookup_insert_Some in Hl as [[_ <-] | [_ Hl]].
    { apply list_elem_of_singleton in Hbv as ->. split; [done | by eexists]. }
    apply lookup_insert_Some in Hl as [[_ <-] | [_ Hl]]; [| by rewrite lookup_empty in Hl].
    apply list_elem_of_singleton in Hbv as ->. split; [done | by eexists].
Qed.

(** The ages are written in ASCII, so that the data of an ad can be encoded when its
    cities are valid UTF-8. *)
Definition ad_utf8 (ad : Ad) : Prop := Forall (fun s => utf8_valid s = true) (ad_TargetCity ad).

Lemma ad_encodes ad : ad_utf8 ad -> doc_encodes factory (ad_doc ad).
Proof.
  intros Had. apply default_doc_encodes. intros cj f exprs bv ts ->%list_elem_of_singleton Hl Hbv Hts. simpl in Hl.
  apply lookup_insert_Some in Hl as [[_ <-] | [_ Hl]].
  { apply list_elem_of_singleton in Hbv as ->. by injection Hts as <-. }
  apply lookup_insert_Some in Hl as [[_ <-] | [_ Hl]]; [| by rewrite lookup_empty in Hl].
  apply list_elem_of_singleton in Hbv as ->. injection Hts as <-.
  apply Forall_fmap, Forall_true. intros z. apply fmt_int_utf8.
Qed.

Lemma incremental_add_spec docs_of ads b docs :
  dinv docs_of b docs ->
  Forall (fun ad => plain_doc (ad_doc ad) /\ doc_cacheable factory K docs_of (ad_doc ad)) ads ->
  exists b', incremental_add ads b = (b', Ok tt) /\ dinv docs_of b' (docs ++ (ad_doc <$> ads)).
Proof.
  revert b docs. induction ads as [|ad ads IH]; intros b docs Hb Hall.
  { exists b. split; [done |]. by rewrite app_nil_r. }
  inversion Hall as [|? ? [Hp Hk] Hall']; subst.
  destruct (add_plain docs_of b docs (ad_doc ad) Hb Hp Hk) as (b1 & Hadd & Hb1).
  destruct (IH b1 _ Hb1 Hall') as (b2 & Hrun & Hb2). exists b2. split.
  - unfold incremental_add. cbn [forM]. unfold mbind at 1, M_bind at 1. unfold mbind at 1, M_bind at 1, with_err.
    rewrite Hadd. exact Hrun.
  - by rewrite <- app_assoc in Hb2.
Qed.

(** Whatever the cache holds, the index of the ads answers for the ads. *)
Lemma incremental_build_spec {B : Type} `{Roaring64Spec B} (cache : K) ads :
  Forall (fun ad => - MaxDocID <= ad_ID ad <= MaxDocID) ads -> Forall ad_utf8 ads -> NoDup (ad_ID <$> ads) ->
  exists b i, incremental_build cache ads = Ok (b, Ok i) /\ answers (B:=B) (ad_doc <$> ads) i.
Proof.
  intros Hids Hutf Hnd. assert (NoDup (doc_ID <$> (ad_doc <$> ads))) as Hnd' by (by rewrite <- list_fmap_compose).
  unfold incremental_build.
  destruct (NewIndexerBuilder factory [WithDocLevelCache cache]) as [b|e|e|] eqn:Enew; [| done ..].
  cbn [mbind res_bind]. unfold mbind, M_bind.
  destruct (ConfigField "age" HolderNameDefault b) as [b1 r1] eqn:E1.
  assert (r1 = Ok tt /\ fieldsData b1 !! "city" = None) as [-> Hcity].
  { destruct (NewIndexerBuilder_binv factory default_registered _ b Enew) as (_ & Hf & _).
    unfold ConfigField, PanicIfErr, mbind, M_bind, mret, M_ret, configureField in E1.
    rewrite Hf, lookup_empty in E1. simpl in E1. injection E1 as <- <-. split; [done |]. simpl.
    by rewrite lookup_insert_ne, lookup_empty by done. }
  assert (dinv (docs_in (ad_doc <$> ads)) b1 []) as Hb1
    by (eapply dinv_shared; [done | by intros v Hv%list_elem_of_singleton | done]).
  destruct (ConfigField "city" HolderNameDefault b1) as [b2 r2] eqn:E2.
  assert (r2 = Ok tt) as ->.
  { unfold ConfigField, PanicIfErr, mbind, M_bind, mret, M_ret, configureField in E2.
    rewrite Hcity in E2. by injection E2. }
  pose proof (dinv_config _ _ _ _ _ Hb1 E2) as Hb2.
  destruct (incremental_add_spec (docs_in (ad_doc <$> ads)) ads b2 [] Hb2) as (b3 & -> & Hb3).
  { rewrite Forall_forall in *. intros ad Hin. split; [apply ad_plain; by apply Hids |]. intros _ _.
    split; [apply docs_in_known; [done | by apply list_elem_of_fmap_2] | apply ad_encodes; by apply Hutf]. }
  destruct (dinv_index (B:=B) _ b3 _ Hb3 Hnd') as (b4 & i & Hbuild & Ha).
  rewrite Hbuild. exists b4, i. split; [done | exact Ha].
Qed.

(** The same ad, perhaps with another update time. *)
Definition same_target (ad ad' : Ad) : Prop :=
  ad_ID ad = ad_ID ad' /\ ad_TargetAge ad = ad_TargetAge ad' /\ ad_TargetCity ad = ad_TargetCity ad'.

Lemma same_target_doc ad ad' hit : same_target ad ad' ->
  doc_ID (ad_doc ad) = doc_ID (ad_doc ad') /\ doc_sat hit (ad_doc ad) = doc_sat hit (ad_doc ad').
Proof. intros (Hid & Hage & Hcity). unfold ad_doc, doc_sat. simpl. by rewrite Hid, Hage, Hcity. Qed.

Lemma same_target_answer ads ads' q ids :
  Forall2 same_target ads ads' -> doc_answer (ad_doc <$> ads') q ids -> doc_answer (ad_doc <$> ads) q ids.
Proof.
  intros Hsame [Hs Hi]. split; [done |]. intros id. rewrite Hi. setoid_rewrite list_elem_of_fmap. split.
  - intros (doc & (ad' & -> & [n Hn]%list_elem_of_lookup) & Hid & Hsat).
    destruct (Forall2_lookup_r _ _ _ _ _ Hsame Hn) as (ad & Had & Hst).
    destruct (same_target_doc ad ad' (token_hit q) Hst) as [Hid' Hsat'].
    exists (ad_doc ad). split; [exists ad; split; [done | by eapply list_elem_of_lookup_2] |]. split; congruence.
  - intros (doc & (ad & -> & [n Hn]%list_elem_of_lookup) & Hid & Hsat).
    destruct (Forall2_lookup_l _ _ _ _ _ Hsame Hn) as (ad' & Had & Hst).
    destruct (same_target_doc ad ad' (token_hit q) Hst) as [Hid' Hsat'].
    exists (ad_doc ad'). split; [exists ad'; split; [done | by eapply list_elem_of_lookup_2] |]. split; congruence.
Qed.

(** C15.  Incremental construction agrees: two builders that index the same ads
    (with distinct ids in range and city names that are valid UTF-8, as the cache's
    encoding demands), each on a cache with any content (such as the one the other has
    left) and with any update times, both succeed, and their indexes answer every
    readable query with the same ids, those of the ads that are met. *)
Theorem incremental_agree {B : Type} `{Roaring64Spec B} (cache1 cache2 : K) ads ads' :
  Forall (fun ad => - MaxDocID <= ad_ID ad <= MaxDocID) ads -> Forall ad_utf8 ads ->
  NoDup (ad_ID <$> ads) -> Forall2 same_target ads ads' ->
  exists b1 i1 b2 i2, incremental_build cache1 ads = Ok (b1, Ok i1) /\ incremental_build cache2 ads' = Ok (b2, Ok i2) /\
    forall q (pool : list (DocIDCollector B)), readable q -> pool_ok pool -> exists pool1 pool2 ids,
      Retrieve i1 q [] pool = (pool1, Ok ids) /\ Retrieve i2 q [] pool1 = (pool2, Ok ids) /\
      doc_answer (ad_doc <$> ads) q ids.
Proof.
  intros Hids Hutf Hnd Hsame.
  assert (ad_ID <$> ads' = ad_ID <$> ads) as Heq.
  { clear -Hsame. induction Hsame as [|ad ad' l l' [Hid _] _ IH]; [done |]. by rewrite !fmap_cons, Hid, IH. }
  destruct (incremental_build_spec (B:=B) cache1 ads Hids Hutf Hnd) as (b1 & i1 & Hb1 & Ha1).
  destruct (incremental_build_spec (B:=B) cache2 ads') as (b2 & i2 & Hb2 & Ha2).
  { apply (Forall_fmap ad_ID (fun id => - MaxDocID <= id <= MaxDocID)). rewrite Heq. by apply Forall_fmap. }
  { clear -Hutf Hsame. induction Hsame as [|ad ad' l l' (_ & _ & Hcity) _ IH]; [constructor |].
    inversion Hutf; subst. constructor; [unfold ad_utf8; by rewrite <- Hcity | by apply IH]. }
  { by rewrite Heq. }
  exists b1, i1, b2, i2. split; [done |]. split; [done |]. intros q pool Hq Hpool.
  destruct (Ha1 q pool Hq Hpool) as (pool1 & ids & Hr1 & Hpool1 & Hans1).
  destruct (Ha2 q pool1 Hq Hpool1) as (pool2 & ids' & Hr2 & _ & Hans2).
  apply (same_target_answer _ _ _ _ Hsame) in Hans2.
  rewrite (doc_answer_unique _ _ _ _ Hans2 Hans1) in Hr2. by exists pool1, pool2, ids.
Qed.

(** A builder that has configured a field finds nothing in a cache it shares:
    configuring clears it. *)
Lemma config_clears_shared_cache b f ct b' doc b'' r :
  ConfigField f ct b = (b', Ok tt) -> cache_lookup doc b' = (b'', r) -> r = Ok None.
Proof.
  unfold ConfigField, PanicIfErr, mbind, M_bind, mret, M_ret, configureField. intros Hc Hl.
  destruct (fieldsData b !! f); [done |]. injection Hc as <-. unfold cache_lookup in Hl. simpl in Hl.
  destruct (docLevelCache b) as [k|]; simpl in Hl; [| by injection Hl as _ <-].
  case_bool_decide; [| by injection Hl as _ <-].
  destruct (cache_Get (cache_Clear k) _) as [k' [e|]] eqn:Eg; [| by injection Hl as _ <-].
  destruct (cache_may_Get _ _ _ _ Eg) as [Hmay _]. by destruct (cache_may_Clear _ _ _ (Hmay e eq_refl)).
Qed.

End IncrementalProofs.

(** ** The sample run *)

#[local] Hint Extern 0 (BEIndex (AnyBEIndex _) _) => exact (Any_index InitHolderDefaults) : typeclass_instances.

Definition sample_ads : list Ad :=
  [{| ad_ID := 1; ad_UpdateTime := 1700000000; ad_TargetAge := [18; 25; 30]; ad_TargetCity := ["beijing"; "shanghai"] |};
   {| ad_ID := 2; ad_UpdateTime := 1700000000; ad_TargetAge := [20; 25; 35]; ad_TargetCity := ["shanghai"; "guangzhou"] |};
   {| ad_ID := 3; ad_UpdateTime := 1700000000; ad_TargetAge := [18; 22]; ad_TargetCity := ["beijing"] |}].

(** Ad 2 is updated. *)
Definition sample_ads' : list Ad :=
  [{| ad_ID := 1; ad_UpdateTime := 1700000000; ad_TargetAge := [18; 25; 30]; ad_TargetCity := ["beijing"; "shanghai"] |};
   {| ad_ID := 2; ad_UpdateTime := 1700000001; ad_TargetAge := [20; 25; 35]; ad_TargetCity := ["shanghai"; "guangzhou"] |};
   {| ad_ID := 3; ad_UpdateTime := 1700000000; ad_TargetAge := [18; 22]; ad_TargetCity := ["beijing"] |}].

(** What the cache holds after a construction. *)
Definition cache_after (out : res (IndexerBuilder (AnyBEIndex DefaultEntriesHolder) MemoryDocCache *
    res (AnyBEIndex DefaultEntriesHolder))) : MemoryDocCache :=
  match out with Ok (b, _) => default NewMemoryDocCache (docLevelCache b) | _ => NewMemoryDocCache end.

Definition sample_cache : MemoryDocCache := cache_after (incremental_build NewMemoryDocCache sample_ads).

Example sample_cache_size : size (mc_data sample_cache) = 3%nat.
Proof. by vm_compute. Qed.

Example incremental_main_runs :
  incremental_main (B:=zset) NewMemoryDocCache sample_ads sample_ads' =
  Ok [([1; 2], [1; 2], true); ([1; 3], [1; 3], true); ([], [], true)].
Proof. by vm_compute. Qed.

Lemma incremental_agree_witness :
  exists b1 i1 b2 i2, incremental_build NewMemoryDocCache sample_ads = Ok (b1, Ok i1) /\
    incremental_build sample_cache sample_ads' = Ok (b2, Ok i2) /\
    forall q (pool : list (DocIDCollector zset)), readable q -> pool_ok pool -> exists pool1 pool2 ids,
      Retrieve i1 q [] pool = (pool1, Ok ids) /\ Retrieve i2 q [] pool1 = (pool2, Ok ids) /\
      doc_answer (ad_doc <$> sample_ads) q ids.
Proof.
  apply (incremental_agree (B:=zset) NewMemoryDocCache sample_cache sample_ads sample_ads').
  - unfold MaxDocID. repeat constructor; simpl; lia.
  - repeat constructor.
  - by apply (bool_decide_eq_true_1 _), eq_refl.
  - by repeat constructor.
Defined.

(** ** A cache shared by builders that do not configure their fields *)

Definition cached_docs : list Document := ad_doc <$> sample_ads.

Definition auto_build (cache : MemoryDocCache) (docs : list Document)
    : res (IndexerBuilder (AnyBEIndex DefaultEntriesHolder) MemoryDocCache * res unit) :=
  b ← NewIndexerBuilder InitHolderDefaults [WithDocLevelCache cache];
  Ok (AddDocument InitHolderDefaults docs b).

Definition auto_cache : MemoryDocCache :=
  match auto_build NewMemoryDocCache (take 1 cached_docs) with
  | Ok (b, _) => default NewMemoryDocCache (docLevelCache b)
  | _ => NewMemoryDocCache
  end.

(** The entry of a document is stored with the schema hash from before its fields
    were configured.  A second builder, fresh as the first one was, takes the entry
    for its own and refuses the document. *)
Lemma stale_schema_hash :
  (exists b, auto_build NewMemoryDocCache (take 1 cached_docs) = Ok (b, Ok tt)) /\
  (exists b, auto_build auto_cache (take 1 cached_docs) = Ok (b, Err "field not configured")).
Proof. split; eexists; vm_compute; reflexivity. Qed.
