(* ===== verification/Engines.v ===== *)
(** * The three indexes agree

    The library has two kinds of engines: the posting-list indexes (k-groups and
    compact) and the roaring index.  On documents and queries over integers, with
    the default tokenizer on one side and the number parser on the other, they give
    the same answers. *)

From stdpp Require Import base sorting gmap strings numbers list.
From S2P Require Import Prelude GoValues Ids Document Cursor FieldCursor Collector Scan Holder.
From S2P Require Import Index IndexSpec IndexProofs IndexInstances Parsers DefaultHolder Builder.
From S2P Require Import BuilderSpec BuilderProofs BuilderDocs BuilderFields Semantics System DefaultIndex.
From S2P Require Import AhoHolder Roaring RoaringProofs RoaringBuilder RoaringAc Demo RoaringProperties.
Open Scope Z_scope.

(** The integers of a value of a signed integer type, or of a slice of them. *)
Definition ints_of (v : Values) : option (list Z) :=
  match v with
  | VInt _ z => Some [z]
  | VInts _ l => Some (elems l)
  | _ => None
  end.

Definition int_value (v : Values) : Prop := exists zs, ints_of v = Some zs /\ Forall is_i64 zs.

(** Every expression of the document is over integers. *)
Definition int_doc (doc : Document) : Prop :=
  forall cj f exprs bv, cj ∈ doc_Cons doc -> Expressions cj !! f = Some exprs -> bv ∈ exprs ->
    Operator bv = ValueOptEQ /\ int_value (Value bv).

Definition int_query (q : Assignments) : Prop := forall f v, q !! f = Some v -> int_value v.

Section Ints.
Context `{GoFloat}.

Lemma ints_tokens v zs : ints_of v = Some zs -> ValuesToStrings v = Ok (fmt_int <$> zs).
Proof. destruct v; try done; by intros [= <-]. Qed.

Lemma map_res_u64 k zs p : Forall is_i64 zs ->
  map_res (fun vi => u64 <$> ParseIntegerNumber vi p) (VInt k <$> zs) = Ok (u64 <$> zs).
Proof. induction 1 as [|z zs Hz _ IH]; [done |].
  rewrite !fmap_cons. cbn [map_res ParseIntegerNumber]. cbn [fmap res_fmap mbind res_bind]. rewrite IH, i64_small by done. done.
Qed.

Lemma ints_number v zs : ints_of v = Some zs -> Forall is_i64 zs ->
  number_ParseValue NewNumberParser v = Ok (u64 <$> zs).
Proof.
  intros Hv Hall. destruct v; try done; injection Hv as <-; unfold number_ParseValue; simpl.
  - inversion Hall as [|? ? Hz _]; subst. by rewrite i64_small.
  - by apply map_res_u64.
Qed.

Lemma ints_nil v zs : ints_of v = Some zs -> is_array v = false /\ (is_nil v = true -> zs = []).
Proof.
  intros Hv. destruct v as [| | |k z| | | | |k l| | | | | | |]; try done. split; [done |].
  injection Hv as <-. by destruct l.
Qed.

Lemma ints_assign v zs : ints_of v = Some zs -> Forall is_i64 zs ->
  number_ParseAssign NewNumberParser v = Ok (u64 <$> zs).
Proof.
  intros Hv Hall. destruct (ints_nil v zs Hv) as [Ha Hn]. unfold number_ParseAssign, NilInterface. rewrite Ha. cbn [mbind res_bind].
  destruct (is_nil v); [by rewrite Hn | by apply ints_number].
Qed.

Lemma u64_inj_i64 x y : is_i64 x -> is_i64 y -> u64 x = u64 y -> x = y.
Proof. intros Hx Hy Heq. by rewrite <- (i64_u64 x Hx), <- (i64_u64 y Hy), Heq. Qed.

(** Both readings of integers meet when a number is on both sides. *)
Lemma token_hit_ints q f v bv qs vs :
  q !! f = Some v -> ints_of v = Some qs -> ints_of (Value bv) = Some vs ->
  token_hit q f bv = true <-> exists z, z ∈ qs /\ z ∈ vs.
Proof.
  intros Hq Hqs Hvs. unfold token_hit. rewrite Hq, (ints_tokens _ _ Hqs), (ints_tokens _ _ Hvs), existsb_exists.
  setoid_rewrite <- list_elem_of_In. setoid_rewrite bool_decide_eq_true. split.
  - intros (s & (z & -> & Hz)%list_elem_of_fmap & (z' & ->%fmt_int_inj & Hz')%list_elem_of_fmap). eauto.
  - intros (z & Hz & Hz'). exists (fmt_int z). split; by apply list_elem_of_fmap_2.
Qed.

Lemma ids_meet_ints m v bv qs vs :
  fm_Parser m = number_generator NewNumberParser ->
  ints_of v = Some qs -> Forall is_i64 qs -> ints_of (Value bv) = Some vs -> Forall is_i64 vs ->
  ids_meet m bv v = true <-> exists z, z ∈ qs /\ z ∈ vs.
Proof.
  intros Hm Hqs Hq Hvs Hv. rewrite ids_meet_spec. unfold value_ids, assign_ids. rewrite Hm.
  change (ParseValue (number_generator NewNumberParser)) with (number_ParseValue NewNumberParser).
  rewrite (ints_number _ _ Hvs Hv).
  assert (match NilInterface v with
          | Ok false => match ParseAssign (number_generator NewNumberParser) v with Ok ids => ids | _ => [] end
          | _ => [] end = u64 <$> qs) as ->.
  { destruct (ints_nil v qs Hqs) as [Ha Hn]. unfold NilInterface. rewrite Ha.
    destruct (is_nil v); [by rewrite Hn |].
    change (ParseAssign (number_generator NewNumberParser)) with (number_ParseAssign NewNumberParser).
    by rewrite (ints_assign _ _ Hqs Hq). }
  rewrite Forall_forall in Hq, Hv. split.
  - intros (id & (z & -> & Hz)%list_elem_of_fmap & (z' & Heq & Hz')%list_elem_of_fmap).
    apply u64_inj_i64 in Heq as ->; eauto.
  - intros (z & Hz & Hz'). exists (u64 z). split; by apply list_elem_of_fmap_2.
Qed.

End Ints.

Section Agreement.
Context `{MapRange} `{GoFloat} `{ProtoStrList} {B : Type} `{Roaring64Spec B} {Mc : Type} `{AhoMachineSpec Mc}.
Local Abbreviation factory := InitHolderDefaults.
#[local] Hint Extern 0 (BEIndex (AnyBEIndex _) _) => exact (Any_index factory) : typeclass_instances.
Local Abbreviation Cn := (DefaultBEContainer B + ACBEContainer B Mc)%type.
Local Abbreviation Bld := (IndexerBuilder (AnyBEIndex DefaultEntriesHolder) Empty_set).

(** A field of the roaring index for integers. *)
Definition int_setting : FieldSetting :=
  {| fs_Parser := Some (number_generator NewNumberParser); fs_Container := ContainerNameDefault |}.

Lemma number_generator_ok : generator_ok (number_generator NewNumberParser).
Proof.
  intros v. simpl. unfold number_ParseAssign, NilInterface. destruct (is_array v); [done |]. simpl.
  destruct (is_nil v); [done |]. apply number_ParseValue_fuel.
Qed.

Definition int_fields (fields : list BEField) : list (BEField * FieldSetting) := (fun f => (f, int_setting)) <$> fields.

Lemma int_metas dflt fields f m :
  metas_of dflt (int_fields fields) !! f = Some m ->
  fm_Parser m = number_generator NewNumberParser /\ fm_Container m = ContainerNameDefault.
Proof.
  unfold metas_of, int_fields. induction fields as [|g fields IH] using rev_ind.
  - simpl. by rewrite lookup_empty.
  - rewrite fmap_app, foldl_app. simpl. intros [[_ <-] | [_ Hl]]%lookup_insert_Some; [done | by apply IH].
Qed.

(** One expression means the same to both engines. *)
Lemma int_hit dflt fields q f bv :
  is_Some (metas_of dflt (int_fields fields) !! f) -> int_query q -> int_value (Value bv) ->
  rhit (Cn:=Cn) (metas_of dflt (int_fields fields)) q f bv = token_hit q f bv.
Proof.
  intros [m Hm] Hq (vs & Hvs & Hv). destruct (int_metas _ _ _ _ Hm) as [Hp Hc]. unfold rhit. rewrite Hm.
  change (c_hits (Cn:=Cn) m bv ?v) with
    (if bool_decide (fm_Container m = ContainerNameDefault) then ids_meet m bv v else ac_chits (Mc:=Mc) m bv v).
  rewrite bool_decide_eq_true_2 by done. apply eq_true_iff_eq.
  destruct (q !! f) as [v|] eqn:Ef; simpl.
  - destruct (Hq f v Ef) as (qs & Hqs & Hqi).
    by rewrite (token_hit_ints _ _ _ _ _ _ Ef Hqs Hvs), (ids_meet_ints _ _ _ _ _ Hp Hqs Hqi Hvs Hv).
  - unfold token_hit. by rewrite Ef.
Qed.

Lemma int_readable q : int_query q -> readable q.
Proof.
  intros Hq f v Hv. destruct (Hq f v Hv) as (zs & Hzs & _). split; [by destruct v |].
  rewrite (ints_tokens _ _ Hzs). by eexists.
Qed.

Lemma int_rquery dflt fields q : int_query q -> rquery_ok (Cn:=Cn) (metas_of dflt (int_fields fields)) q.
Proof.
  intros Hq f m Hm. destruct (int_metas _ _ _ _ Hm) as [Hp Hc].
  change (c_assign_ok (Cn:=Cn) m ?v) with
    (if bool_decide (fm_Container m = ContainerNameDefault) then ids_readable m v else ac_readable m v).
  rewrite bool_decide_eq_true_2 by done. unfold ids_readable. destruct (q !! f) as [v|] eqn:Ef; simpl; [| done].
  destruct (Hq f v Ef) as (zs & Hzs & Hz). destruct (ints_nil v zs Hzs) as [Ha _]. rewrite Hp. unfold NilInterface.
  rewrite Ha. change (ParseAssign (number_generator NewNumberParser)) with (number_ParseAssign NewNumberParser).
  rewrite (ints_assign _ _ Hzs Hz). apply orb_true_r.
Qed.

Lemma StronglySorted_lt_unique (l l' : list Z) :
  StronglySorted Z.lt l -> StronglySorted Z.lt l' -> (forall x, x ∈ l <-> x ∈ l') -> l = l'.
Proof.
  intros Hs Hs' Heq.
  assert (Hlt : forall l0, StronglySorted Z.lt l0 -> NoDup l0 /\ StronglySorted Z.le l0).
  { induction 1 as [|x l0 _ [IHn IHs] Hx]; [by split; constructor |]. rewrite Forall_forall in Hx. split.
    - constructor; [| done]. intros Hin. specialize (Hx x Hin). lia.
    - constructor; [done |]. rewrite Forall_forall. intros y Hy. specialize (Hx y Hy). lia. }
  destruct (Hlt l Hs) as [Hn Hle], (Hlt l' Hs') as [Hn' Hle'].
  apply (StronglySorted_unique Z.le); [done | done |]. by apply NoDup_Permutation.
Qed.

(** C10.  The engines agree: for documents whose expressions are over integers, a
    posting-list index of either type is built without an error, and a query over
    integers is answered by it and by a roaring index of the same documents, whose
    fields have the number parser, with the same documents. *)
Theorem engines_agree (opts : list (BuilderOpt Empty_set)) (b : Bld) docs q (pool : list (DocIDCollector B))
    fields dflt (bits bits' bits1 : list B) s1 s2 ix sc s' r :
  NewIndexerBuilder factory opts = Ok b -> (forall v, WithBadConjBehavior v ∉ opts) ->
  Forall (fun doc => plain_doc doc /\ int_doc doc) docs -> NoDup (doc_ID <$> docs) ->
  int_query q -> pool_ok pool -> fields <> [] ->
  configure_all (containerFactory_init (B:=B) (Mc:=Mc)) (int_fields fields) (bits, NewIvtIndexerBuilder dflt) = (s1, Ok tt) ->
  ivt_AddDocuments docs s1 = (s2, Ok tt) -> BuildIndexer s2.2 = Ok ix ->
  bitmaps_clean bits -> bitmaps_clean bits' -> NewScanner ix bits' = (bits1, sc) ->
  scanner_Retrieve q (bits1, sc) = (s', r) ->
  exists b1 b2 i pool' ids, AddDocument factory docs b = (b1, Ok tt) /\ BuildIndex b1 = (b2, Ok i) /\
    Retrieve i q [] pool = (pool', Ok ids) /\ r = Ok (u64 <$> ids).
Proof.
  intros Hnew Hopts Hdocs Hnd Hq Hpool Hne Hconf Hadd Hbuild Hbits Hbits' Hsc Hret.
  assert (dinv (docs_in docs) b []) as Hb.
  { eapply dinv_new; [done | done |]. rewrite Forall_forall. by intros [v|[]|k] _. }
  rewrite Forall_forall in Hdocs.
  destruct (add_plains (docs_in docs) docs b [] Hb) as (b1 & Hadd1 & Hb1).
  { rewrite Forall_forall. intros doc Hdoc. split; [by apply Hdocs | apply doc_cacheable_uncached]. }
  destruct (dinv_index (B:=B) _ b1 docs Hb1 Hnd) as (b2 & i & Hbuild1 & Hans).
  destruct (Hans q pool (int_readable q Hq) Hpool) as (pool' & ids & Hret1 & _ & Hsort & Hids).
  exists b1, b2, i, pool', ids. split_and!; [done .. |].
  assert (Forall (fun p => generator_ok (fm_Parser (meta_of dflt p))) (int_fields fields)) as Hmetas.
  { unfold int_fields. rewrite Forall_fmap, Forall_forall. intros f _. apply number_generator_ok. }
  pose proof (roaring_answer (containerFactory_init (B:=B) (Mc:=Mc)) (fun m => generator_ok (fm_Parser m))
    containerFactory_init_new (int_fields fields) docs dflt bits s1 s2 ix q bits' bits1 sc s' r Hbits
    ltac:(by destruct fields) Hmetas Hconf Hnd Hadd Hbuild Hbits' Hsc Hret) as Hans2.
  destruct (roaring_ready (containerFactory_init (B:=B) (Mc:=Mc)) (fun m => generator_ok (fm_Parser m))
    containerFactory_init_new _ _ _ _ _ _ _ Hbits Hmetas Hconf Hadd Hbuild) as (_ & Hents & _).
  pose proof (int_rquery dflt fields q Hq) as Hrq.
  destruct r as [rids|e|e|]; [| done ..]. destruct Hans2 as [Hsort2 Hids2]. f_equal.
  apply StronglySorted_lt_unique; [done | |].
  { clear -Hsort. induction Hsort as [|x l _ IH Hx]; [constructor |]. rewrite fmap_cons. constructor; [done |].
    by apply Forall_fmap. }
  assert (Hsat : forall doc, doc ∈ docs ->
    doc_sat (rhit (Cn:=Cn) (metas_of dflt (int_fields fields)) q) doc = doc_sat (token_hit q) doc).
  { intros doc Hdoc. apply doc_sat_ext. intros cj f exprs bv Hcj Hl Hbv.
    apply int_hit; [| done | by eapply (proj2 (Hdocs doc Hdoc))].
    apply list_elem_of_lookup in Hcj as [n Hn]. rewrite Forall_forall in Hents.
    apply (Hents (rpack (0 + Z.of_nat n) (doc_ID doc), cj)); [| by eexists].
    apply list_elem_of_bind. exists doc. split; [apply elem_of_rconj_log; eauto | done]. }
  intros x. rewrite Hids2, list_elem_of_fmap. split.
  - intros (doc & Hdoc & -> & Hs). exists (doc_ID doc). split; [done |]. apply Hids. exists doc.
    by rewrite <- Hsat.
  - intros (id & -> & (doc & Hdoc & <- & Hs)%Hids). exists doc. by rewrite Hsat.
Qed.

End Agreement.

(** ** A sample *)

#[local] Hint Extern 0 (BEIndex (AnyBEIndex _) _) => exact (Any_index InitHolderDefaults) : typeclass_instances.

Definition int_docs : list Document :=
  [AddConjunction (NewDocument 1) [In NewConjunction "age" (VInts KInt (Some [18; 19]))];
   AddConjunction (NewDocument (-2)) [In (NotIn NewConjunction "age" (VInt KInt64 30)) "tag" (VInts KInt8 (Some [5; -6]))];
   AddConjunction (NewDocument 3) [NotIn NewConjunction "age" (VInt KInt 18)]].

Definition int_sample : Assignments := {[ "age" := VInt KInt32 18; "tag" := VInts KInt (Some [-6; 7]) ]}.

Definition int_builder : IndexerBuilder (AnyBEIndex DefaultEntriesHolder) Empty_set :=
  match NewIndexerBuilder InitHolderDefaults [WithIndexerType IndexerTypeCompact] with
  | Ok b => b
  | _ => {| indexerType := 0; badConjBehavior := 0; docLevelCache := None;
            indexer := IKGroups NewKGroupsBEIndex; fieldsData := ∅; schemaHash := 0 |}
  end.

Definition int_ivt1 : list zset * IvtBEIndexerBuilder DemoContainer :=
  (configure_all demo_containers (int_fields ["age"; "tag"]) ([], NewIvtIndexerBuilder demo_generator)).1.

Definition int_ivt2 : list zset * IvtBEIndexerBuilder DemoContainer := (ivt_AddDocuments int_docs int_ivt1).1.

Definition int_ivt : IvtBEIndexer DemoContainer :=
  match BuildIndexer int_ivt2.2 with
  | Ok ix => ix
  | _ => {| ix_docMaxConjSize := 0; ix_data := ∅ |}
  end.

Lemma int_ivt_run : BuildIndexer int_ivt2.2 = Ok int_ivt.
Proof.
  unfold int_ivt. assert (Hok : is_ok (BuildIndexer int_ivt2.2) = true) by by vm_compute.
  by destruct (BuildIndexer int_ivt2.2).
Qed.

(** Membership in the expressions of the sample, as a computation. *)
Definition int_docb (doc : Document) : bool :=
  forallb (fun cj => forallb (fun kv => forallb (fun bv =>
    bool_decide (Operator bv = ValueOptEQ) &&
    match ints_of (Value bv) with
    | Some zs => forallb (fun z => bool_decide (MinInt64 <= z <= MaxInt64)) zs
    | None => false
    end) kv.2) (map_to_list (Expressions cj))) (doc_Cons doc).

Lemma int_docb_ok doc : int_docb doc = true -> int_doc doc.
Proof.
  unfold int_docb. rewrite forallb_forall. intros Hall cj f exprs bv Hcj%list_elem_of_In Hl Hbv%list_elem_of_In.
  specialize (Hall cj Hcj). rewrite forallb_forall in Hall.
  assert (List.In (f, exprs) (map_to_list (Expressions cj))) as Hin by (by apply list_elem_of_In, elem_of_map_to_list).
  specialize (Hall _ Hin). rewrite forallb_forall in Hall. specialize (Hall bv Hbv).
  apply andb_true_iff in Hall as [Hop%bool_decide_eq_true Hv]. split; [done |].
  destruct (ints_of (Value bv)) as [zs|] eqn:Ez; [| done]. exists zs. split; [done |].
  rewrite Forall_forall. intros z Hz%list_elem_of_In. rewrite forallb_forall in Hv.
  exact (bool_decide_eq_true_1 _ (Hv z Hz)).
Qed.

Lemma int_doc_plain doc :
  int_doc doc -> - MaxDocID <= doc_ID doc <= MaxDocID -> doc_Cons doc <> [] -> (length (doc_Cons doc) <= 255)%nat ->
  (forall cj, cj ∈ doc_Cons doc -> CalcConjSize cj < 256) -> plain_doc doc.
Proof.
  intros Hint Hid Hne Hlen Hsize. split; try done. intros cj Hcj. split; [by apply Hsize |].
  intros f exprs bv Hl Hbv. destruct (Hint cj f exprs bv Hcj Hl Hbv) as [Hop (zs & Hzs & _)].
  split; [done |]. rewrite (ints_tokens _ _ Hzs). by eexists.
Qed.

Lemma int_docs_ok : Forall (fun doc => plain_doc doc /\ int_doc doc) int_docs.
Proof.
  assert (Hall : Forall (fun doc => int_docb doc = true) int_docs) by (repeat constructor; by vm_compute).
  rewrite Forall_forall in *. intros doc Hdoc. specialize (Hall doc Hdoc).
  apply int_docb_ok in Hall. split; [| done]. apply int_doc_plain; [done | ..].
  all: apply elem_of_cons in Hdoc as [-> | [-> | ->%list_elem_of_singleton]%elem_of_cons].
  all: first [ unfold MaxDocID; simpl; lia | discriminate | intros cj ->%list_elem_of_singleton; by vm_compute ].
Qed.

Lemma engines_agree_witness :
  exists b1 b2 i pool' ids, AddDocument InitHolderDefaults int_docs int_builder = (b1, Ok tt) /\
    BuildIndex b1 = (b2, Ok i) /\ Retrieve (B:=zset) i int_sample [] [] = (pool', Ok ids) /\
    (scanner_Retrieve int_sample (NewScanner int_ivt [])).2 = Ok (u64 <$> ids).
Proof.
  destruct (NewScanner int_ivt []) as [bits1 sc] eqn:Es.
  destruct (scanner_Retrieve int_sample (bits1, sc)) as [s' r] eqn:Er.
  refine (engines_agree (B:=zset) (Mc:=list (list Z)) [WithIndexerType IndexerTypeCompact] int_builder
    int_docs int_sample [] ["age"; "tag"] demo_generator [] [] bits1 int_ivt1 int_ivt2 int_ivt sc s' r
    _ _ int_docs_ok _ _ _ _ _ _ int_ivt_run _ _ Es Er).
  - vm_compute. reflexivity.
  - by intros v Hv%list_elem_of_singleton.
  - by apply (bool_decide_eq_true_1 _), eq_refl.
  - intros f v Hv. unfold int_sample in Hv.
    apply lookup_insert_Some in Hv as [[_ <-] | [_ Hv]]; [| apply lookup_singleton_Some in Hv as [_ <-]];
      (eexists; split; [reflexivity |]); unfold is_i64, MinInt64, MaxInt64; repeat constructor; lia.
  - constructor.
  - done.
  - unfold int_ivt1. apply (pair_snd (configure_all _ _ _)). by vm_compute.
  - unfold int_ivt2. apply (pair_snd (ivt_AddDocuments int_docs int_ivt1)). by vm_compute.
  - constructor.
  - constructor.
Defined.

Example engines_sample :
  (scanner_Retrieve int_sample (NewScanner int_ivt [])).2 = Ok [1; u64 (-2)].
Proof. by vm_compute. Qed.
