(* ===== verification/Dump.v ===== *)
(** * Renderings and dumps

    The textual forms of ids, keys, expressions and documents, and the dumps of
    cursors, holders, containers and indexes (the String, DocString and Dump
    methods of all packages).  A [strings.Builder] is the text written so far.
    Rendering a value of arbitrary type with [%v] and encoding/json are
    parameters. *)

From Stdlib Require Import SpecFloat Ascii String.
From stdpp Require Import base sorting gmap strings numbers pretty list.
From S2P Require Import Prelude GoValues Utf8 Ids Document Cursor FieldCursor Collector Scan Holder Index.
From S2P Require Import Parsers DefaultHolder RangeIdx RangeHolder OptimizedRange AhoHolder Roaring.
Open Scope Z_scope.

(** A value of a summary that is rendered as JSON. *)
Inductive JsonVal := JStr (s : string) | JInt (z : Z) | JBool (b : bool) | JFloat (f : spec_float).

Class GoFmt := {
  (** [fmt.Sprintf("%v", v)] of a value, and [fmt.Sprintf("%.1f", f)]. *)
  fmt_v : Values -> string;
  fmt_f1 : spec_float -> string;
  (** [util.JSONPretty] of a map. *)
  JSONPretty : gmap string JsonVal -> string
}.

Definition newline : string := String "010" "".
Definition tab : string := String "009" "".

(** [strings.Join] *)
Fixpoint Join (ss : list string) (sep : string) : string :=
  match ss with
  | [] => ""
  | [s] => s
  | s :: ss => s +:+ sep +:+ Join ss sep
  end.

(** [%v] of a slice whose elements are rendered as [ss]. *)
Definition fmt_slice (ss : list string) : string := "[" +:+ Join ss " " +:+ "]".

(** [%02d] of a number that is not negative. *)
Definition fmt_02d (z : Z) : string := if bool_decide (z < 10) then "0" +:+ fmt_int z else fmt_int z.

(** ** id_types.go *)

Definition ConjID_String (id : ConjID) : string :=
  "<" +:+ fmt_int (conj_DocID id) +:+ "," +:+ fmt_int (conj_Index id) +:+ "," +:+ fmt_int (conj_Size id) +:+ ">".

Definition EntryID_DocString (entry : EntryID) : string :=
  if IsNULLEntry entry then "nil"
  else fmt_int (conj_DocID (GetConjID entry)) +:+ "#" +:+ fmt_int (Z.land entry 1).

Definition Entries_DocString (s : Entries) : list string := EntryID_DocString <$> s.

Section Dump.
Context `{MapRange} `{GoFmt}.

(** ** index_scanner.go *)

(** The type name of the nil interface is asked for in the last case. *)
Definition QKey_String (key : QKey) : res string :=
  match qk_value key with
  | VStr v => Ok ("[" +:+ qk_field key +:+ "," +:+ v +:+ "]")
  | VInt _ v | VUint _ v => Ok ("[" +:+ qk_field key +:+ "," +:+ fmt_int v +:+ "]")
  | VNil => Panic "nil pointer dereference"
  | v => Ok ("[" +:+ qk_field key +:+ "," +:+ fmt_v v +:+ "]")
  end.

(** [for i := left; i < right; i++], [n = right - i] rounds of it left. *)
Fixpoint dump_loop (ec : EntriesCursor) (i : nat) (n : nat) (sb : string) : string :=
  match n with
  | O => sb
  | S n' =>
      let sb := if bool_decide (i = ec_cursor ec) then sb +:+ "^" else sb in
      let sb := sb +:+ EntryID_DocString (at_index (ec_entries ec) i) in
      let sb := if bool_decide (n' <> 0%nat) then sb +:+ "," else sb in
      dump_loop ec (S i) n' sb
  end.

Definition ec_DumpEntries (ec : EntriesCursor) (sb : string) : res string :=
  key ← QKey_String (ec_key ec);
  let sb := sb +:+ key in
  let sb := sb +:+ ",idx:" +:+ fmt_02d (Z.of_nat (ec_cursor ec)) +:+ ",EID:" in
  let left := (ec_cursor ec - 2)%nat in
  let right := (ec_cursor ec + 10)%nat in
  let right := if bool_decide (length (ec_entries ec) <= right)%nat then length (ec_entries ec) else right in
  let sb := if bool_decide (0 < left)%nat then sb +:+ "...," else sb in
  let sb := dump_loop ec left (right - left) sb in
  let remain := (length (ec_entries ec) - right)%nat in
  Ok (if bool_decide (0 < remain)%nat then sb +:+ "...another " +:+ fmt_int (Z.of_nat remain) else sb).

(** [it == fc.current]: the pointer is to this element of the group. *)
Definition is_current (fc : FieldCursor) (idx : nat) : bool :=
  match fc_current fc with
  | PGroup i => bool_decide (i = idx)
  | PCopy _ => false
  end.

Fixpoint group_loop (body : nat -> EntriesCursor -> string -> res string) (idx : nat) (group : list EntriesCursor)
    (sb : string) : res string :=
  match group with
  | [] => Ok sb
  | it :: group => sb ← body idx it sb; group_loop body (S idx) group sb
  end.

Definition marker (fc : FieldCursor) (idx : nat) : string := if is_current fc idx then ">" else " ".

(** The header is written without formatting. *)
Definition fc_DumpEntries (fc : FieldCursor) (sb : string) : res string :=
  let sb := sb +:+ "============== Field:%s Cursors ==============" +:+ newline in
  group_loop (fun idx it sb =>
    let sb := sb +:+ marker fc idx in
    sb ← ec_DumpEntries it sb;
    Ok (sb +:+ newline)) 0 (fc_group fc) sb.

Definition fc_DumpCursorEntryID (fc : FieldCursor) (sb : string) : res string :=
  let sb := sb +:+ "============== Field Cursor EID ==============" +:+ newline in
  group_loop (fun idx cursor sb =>
    let sb := sb +:+ marker fc idx in
    key ← QKey_String (ec_key cursor);
    let sb := sb +:+ key in
    Ok (sb +:+ ",idx:" +:+ fmt_02d (Z.of_nat (ec_cursor cursor)) +:+ ",EID:"
           +:+ EntryID_DocString (ec_curEID cursor) +:+ newline)) 0 (fc_group fc) sb.

Fixpoint fcs_Dump (s : list FieldCursor) (sb : string) : res string :=
  match s with
  | [] => Ok sb
  | fc :: s => sb ← fc_DumpEntries fc sb; fcs_Dump s sb
  end.

Fixpoint fcs_DumpJustCursors (idx : nat) (s : list FieldCursor) (sb : string) : res string :=
  match s with
  | [] => Ok sb
  | fc :: s =>
      let sb := if bool_decide (0 < idx)%nat then sb +:+ newline else sb in
      sb ← fc_DumpCursorEntryID fc sb; fcs_DumpJustCursors (S idx) s sb
  end.

Definition FieldCursors_Dump (s : list FieldCursor) : res string := fcs_Dump s "".
Definition FieldCursors_DumpJustCursors (s : list FieldCursor) : res string := fcs_DumpJustCursors 0 s "".

(** ** boolean_expr.go, document.go *)

Definition BoolValues_String (v : BoolValues) : string :=
  booleanToken v +:+ " " +:+ operatorName v +:+ fmt_v (Value v).

(** [for i, expr := range exprs] *)
Fixpoint exprs_loop (i : nat) (exprs : list BoolValues) (sb : string) : string :=
  match exprs with
  | [] => sb
  | expr :: exprs =>
      let sb := if bool_decide (i <> 0%nat) then sb +:+ "," else sb in
      exprs_loop (S i) exprs (sb +:+ BoolValues_String expr)
  end.

(** [for field, exprs := range conj.Expressions]; [cnt] fields are left. *)
Fixpoint conj_loop (l : list (BEField * list BoolValues)) (cnt : Z) (sb : string) : string :=
  match l with
  | [] => sb
  | (field, exprs) :: l =>
      let sb := exprs_loop 0 exprs (sb +:+ field +:+ " (") in
      let cnt := cnt - 1 in
      conj_loop l cnt (if bool_decide (cnt > 0) then sb +:+ ") and " else sb +:+ ")")
  end.

Definition Conjunction_String (cj : Conjunction) : string :=
  conj_loop (map_range (Expressions cj)) (Z.of_nat (size (Expressions cj))) "{" +:+ "}".

Fixpoint cons_loop (i : Z) (cjs : list Conjunction) (cnt : Z) (sb : string) : string :=
  match cjs with
  | [] => sb
  | cj :: cjs =>
      let sb := sb +:+ tab +:+ fmt_int i +:+ ":" +:+ Conjunction_String cj in
      let cnt := cnt - 1 in
      cons_loop (i + 1) cjs cnt (if bool_decide (cnt > 0) then sb +:+ "," +:+ newline else sb)
  end.

Definition Document_String (doc : Document) : string :=
  cons_loop 0 (doc_Cons doc) (Z.of_nat (length (doc_Cons doc)))
    ("doc:" +:+ fmt_int (doc_ID doc) +:+ ", cons:[" +:+ newline) +:+ newline +:+ "]".

(** ** Holders: entries_holder.go and the holder packages *)

Class HolderDump (H : Type) := {
  DumpInfo : H -> string -> string;
  DumpEntries : H -> string -> string
}.

Definition Term_String (tm : Term) : string := "<" +:+ fmt_int (FieldID tm) +:+ "," +:+ term_Value tm +:+ ">".

Definition default_DumpInfo (h : DefaultEntriesHolder) (buffer : string) : string :=
  let summary : gmap string JsonVal :=
    {[ "name" := JStr HolderNameDefault; "termCnt" := JInt (Z.of_nat (size (plEntries h)));
       "maxEntriesLen" := JInt (maxLen h); "avgEntriesLen" := JInt (avgLen h) ]} in
  let summary := foldl (fun m kv => <["field#" +:+ kv.1 +:+ "#parser" := JStr "custom"]> m) summary
                       (map_range (fieldParser h)) in
  buffer +:+ JSONPretty summary.

Definition default_DumpEntries (h : DefaultEntriesHolder) (buffer : string) : string :=
  foldl (fun buffer kv => buffer +:+ newline +:+ Term_String kv.1 +:+ ":" +:+ Join (Entries_DocString kv.2) ",")
        (buffer +:+ "DefaultEntriesHolder entries:") (map_range (plEntries h)).

#[export] Instance DefaultEntriesHolder_dump : HolderDump DefaultEntriesHolder := {
  DumpInfo := default_DumpInfo;
  DumpEntries := default_DumpEntries
}.

Definition ac_DumpInfo {Mc} (h : ACEntriesHolder Mc) (buffer : string) : string :=
  buffer +:+ "{name: ac_holder, value_count:" +:+ fmt_int (Z.of_nat (size (ac_values h))) +:+ " max_entries:"
         +:+ fmt_int (ac_maxLen h) +:+ " avg_entries:" +:+ fmt_int (ac_avgLen h) +:+ "}".

Definition ac_DumpEntries {Mc} (h : ACEntriesHolder Mc) (buffer : string) : string :=
  foldl (fun buffer kv => buffer +:+ newline +:+ kv.1 +:+ ":" +:+ Join (Entries_DocString kv.2) ",")
        (buffer +:+ "ACMatchHolder origin keywords dict:") (map_range (ac_values h)).

#[export] Instance ACEntriesHolder_dump Mc : HolderDump (ACEntriesHolder Mc) := {
  DumpInfo := ac_DumpInfo;
  DumpEntries := ac_DumpEntries
}.

Definition Range_String (rg : Range) : string :=
  if IsLeftInf rg && IsRightInf rg then "(-inf,+inf)"
  else if IsRightInf rg then "[" +:+ fmt_int (rg_left rg) +:+ ",+inf)"
  else if IsLeftInf rg then "[-inf," +:+ fmt_int (rg_right rg) +:+ ")"
  else "[" +:+ fmt_int (rg_left rg) +:+ "," +:+ fmt_int (rg_right rg) +:+ ")".

Definition RangeIdx_String (rix : RangeIdx) : string :=
  foldl (fun sb pl => sb +:+ Range_String (re_Range pl) +:+ ":pl:" +:+ Join (Entries_DocString (re_entries pl)) ","
                         +:+ newline) "" (items rix).

Definition range_DumpInfo (h : RangeHolder) (buffer : string) : string :=
  let summarys : gmap string JsonVal :=
    {[ "name" := JStr "RangeHolder"; "kvCnt" := JInt (Z.of_nat (size (rh_plEntries h)));
       "maxEntriesLen" := JInt (rh_maxLen h); "avgEntriesLen" := JInt (rh_avgLen h);
       "RangeMaxEntriesLen" := JInt (rix_maxLen (rh_rangeIdx h)); "RangeAvgEntriesLen" := JInt (rix_avgLen (rh_rangeIdx h));
       "EnableFloat2Int" := JBool (EnableFloat2Int (rh_option h));
       "RangeCvtValuesSize" := JFloat (RangeCvtValuesSize (rh_option h)) ]} in
  buffer +:+ JSONPretty summarys.

Definition range_DumpEntries (h : RangeHolder) (buffer : string) : string :=
  let buffer := buffer +:+ "RangeHolder entries:" +:+ newline +:+ ">>kv entries" in
  let buffer := foldl (fun buffer kv => buffer +:+ newline +:+ fmt_int kv.1 +:+ ":" +:+ Join (Entries_DocString kv.2) ",")
                      buffer (map_range (rh_plEntries h)) in
  buffer +:+ newline +:+ ">>range entries" +:+ RangeIdx_String (rh_rangeIdx h).

#[export] Instance RangeHolder_dump : HolderDump RangeHolder := {
  DumpInfo := range_DumpInfo;
  DumpEntries := range_DumpEntries
}.

(** [strings.Repeat] *)
Fixpoint Repeat (s : string) (n : nat) : string :=
  match n with O => "" | S n => s +:+ Repeat s n end.

(** The coordinates of a node, as indexes and, once they are built, as values. *)
Definition coord_range (cc : CoordinateCompressor) (l r : Z) : string :=
  let coordRange := "[" +:+ fmt_int l +:+ "," +:+ fmt_int r +:+ "]" in
  if cc_built cc && bool_decide (l < cc_Size cc) && bool_decide (r < cc_Size cc)
  then coordRange +:+ "->[" +:+ fmt_int (cc_values cc !!! Z.to_nat l) +:+ "," +:+ fmt_int (cc_values cc !!! Z.to_nat r) +:+ ")"
  else coordRange.

Fixpoint dumpTree (cc : CoordinateCompressor) (node : SegmentTreeNode) (depth : nat) : string :=
  match node with
  | TNil => ""
  | TNode l r entries lc rc _ =>
      let indent := Repeat "  " depth in
      indent +:+ "Node " +:+ coord_range cc l r +:+ ":" +:+ newline
      +:+ (if bool_decide (0 < length entries)%nat
           then indent +:+ "  Entries: " +:+ fmt_slice (fmt_int <$> entries) +:+ newline else "")
      +:+ dumpTree cc lc (S depth) +:+ dumpTree cc rc (S depth)
  end.

Definition optimized_DumpInfo (h : OptimizedRangeHolder) (buffer : string) : string :=
  let summary : gmap string JsonVal :=
    {[ "name" := JStr "OptimizedRangeHolder";
       "original_range_count" := JInt (OriginalRangeCount (stats h));
       "compressed_coordinate" := JInt (CompressedSize (stats h));
       "tree_node_count" := JInt (TreeNodeCount (stats h));
       "memory_saved_percent" := JStr (fmt_f1 (MemorySavedPercent (stats h)) +:+ "%");
       "enable_float_to_int" := JBool (EnableFloat2Int (oh_option h));
       "range_convert_threshold" := JFloat (RangeCvtValuesSize (oh_option h)) ]} in
  buffer +:+ JSONPretty summary.

Definition optimized_DumpEntries (h : OptimizedRangeHolder) (buffer : string) : string :=
  buffer +:+ "OptimizedRangeHolder entries:" +:+ newline
  +:+ "Compressed coordinates: " +:+ fmt_slice (fmt_int <$> cc_values (compressor h)) +:+ newline
  +:+ dumpTree (compressor h) (root h) 0.

#[export] Instance OptimizedRangeHolder_dump : HolderDump OptimizedRangeHolder := {
  DumpInfo := optimized_DumpInfo;
  DumpEntries := optimized_DumpEntries
}.

#[export] Instance Sum_dump {H1 H2} `{HolderDump H1} `{HolderDump H2} : HolderDump (H1 + H2) := {
  DumpInfo h := match h with inl h1 => DumpInfo h1 | inr h2 => DumpInfo h2 end;
  DumpEntries h := match h with inl h1 => DumpEntries h1 | inr h2 => DumpEntries h2 end
}.

(** ** be_indexer_kgroups.go, be_indexer_compact.go, be_indexer.go *)

Section Containers.
Context {Hd : Type} `{HolderDump Hd}.

(** The default holder is called through a nil interface when it is missing. *)
Definition container_DumpEntries (c : EntriesContainer Hd) (buf : string) : res string :=
  match defaultHolder c with
  | None => Panic "nil pointer dereference"
  | Some h =>
      Ok (foldl (fun buf kv => DumpEntries kv.2 (buf +:+ newline +:+ "field:" +:+ kv.1 +:+ " holder:" +:+ newline))
                (DumpEntries h buf) (map_range (fieldHolder c)))
  end.

Definition container_DumpInfo (c : EntriesContainer Hd) (buf : string) : res string :=
  match defaultHolder c with
  | None => Panic "nil pointer dereference"
  | Some h =>
      Ok (foldl (fun buf kv => DumpInfo kv.2 (buf +:+ "  >field:" +:+ kv.1 +:+ " ") +:+ newline)
                (DumpInfo h (buf +:+ "holder information:")) (map_range (fieldHolder c)))
  end.

(** [for size, container := range bi.kSizeContainers] *)
Fixpoint sizes_loop (head : Z -> string) (dump : EntriesContainer Hd -> string -> res string) (k : Z)
    (cs : list (EntriesContainer Hd)) (sb : string) : res string :=
  match cs with
  | [] => Ok sb
  | c :: cs => sb ← dump c (sb +:+ head k); sizes_loop head dump (k + 1) cs (sb +:+ newline)
  end.

(** The wildcard entries under the key that stands for them. *)
Definition wildcard_dump (base : indexBase) (sb : string) : res string :=
  key ← QKey_String wildcardQKey;
  Ok (sb +:+ key +:+ ":" +:+ fmt_slice (Entries_DocString (ib_wildcardEntries base)) +:+ newline).

Definition kg_DumpEntries (bi : KGroupsBEIndex Hd) (sb : string) : res string :=
  let sb := sb +:+ newline +:+ "+++++++ size grouped boolean indexing entries +++++++++++ " +:+ newline in
  sb ← wildcard_dump (kg_base bi) (sb +:+ ">>Z:" +:+ newline);
  sb ← sizes_loop (fun k => ">>K:" +:+ fmt_int k +:+ newline) container_DumpEntries 0 (kSizeContainers bi) sb;
  Ok (sb +:+ "+++++++++++++size grouped index entries end +++++++++++++++++" +:+ newline).

Definition kg_DumpIndexInfo (bi : KGroupsBEIndex Hd) (sb : string) : res string :=
  let sb := sb +:+ newline +:+ "+++++++ size grouped boolean indexing info +++++++++++" +:+ newline in
  let sb := sb +:+ "wildcard info: count:" +:+ fmt_int (Z.of_nat (length (ib_wildcardEntries (kg_base bi)))) +:+ newline in
  sb ← sizes_loop (fun k => ">> container for size k:" +:+ fmt_int k +:+ newline) container_DumpInfo 0 (kSizeContainers bi) sb;
  Ok (sb +:+ "++++++++++++ size grouped index info end ++++++++++++++++++" +:+ newline).

Definition cp_DumpEntries (bi : CompactBEIndex Hd) (sb : string) : res string :=
  let sb := sb +:+ newline +:+ "+++++++ compact boolean indexing entries +++++++++++" +:+ newline in
  sb ← wildcard_dump (cp_base bi) (sb +:+ "Z:" +:+ newline);
  sb ← container_DumpEntries (cp_container bi) sb;
  Ok (sb +:+ newline +:+ "+++++++++++++ dump entries end ++++++++++++++++++++++" +:+ newline).

Definition cp_DumpIndexInfo (bi : CompactBEIndex Hd) (sb : string) : res string :=
  let sb := sb +:+ newline +:+ "+++++++ compact boolean indexing info +++++++++++" +:+ newline in
  let sb := sb +:+ "wildcard info: count:" +:+ fmt_int (Z.of_nat (length (ib_wildcardEntries (cp_base bi)))) +:+ newline in
  sb ← container_DumpInfo (cp_container bi) sb;
  Ok (sb +:+ newline +:+ "++++++++++++++dump index info end ++++++++++++++++" +:+ newline).

Definition index_DumpEntries (i : AnyBEIndex Hd) (sb : string) : res string :=
  match i with IKGroups bi => kg_DumpEntries bi sb | ICompact bi => cp_DumpEntries bi sb end.

Definition index_DumpIndexInfo (i : AnyBEIndex Hd) (sb : string) : res string :=
  match i with IKGroups bi => kg_DumpIndexInfo bi sb | ICompact bi => cp_DumpIndexInfo bi sb end.

(** [PrintIndexInfo] and [PrintIndexEntries]: what they write to the console.  The
    check for a nil index does not return. *)
Definition PrintIndexInfo (index : option (AnyBEIndex Hd)) : list string * res unit :=
  match index with
  | None => (["nil indexer"], Panic "nil pointer dereference")
  | Some i => match index_DumpIndexInfo i "" with
              | Ok sb => ([sb], Ok tt)
              | Err e => ([], Err e)
              | Panic e => ([], Panic e)
              | OutOfFuel => ([], OutOfFuel)
              end
  end.

Definition PrintIndexEntries (index : option (AnyBEIndex Hd)) : list string * res unit :=
  match index with
  | None => (["nil indexer"], Panic "nil pointer dereference")
  | Some i => match index_DumpEntries i "" with
              | Ok sb => ([sb], Ok tt)
              | Err e => ([], Err e)
              | Panic e => ([], Panic e)
              | OutOfFuel => ([], OutOfFuel)
              end
  end.

End Containers.

(** ** roaringidx/ivt_scanner.go *)

Definition FormatBitMapResult (ids : list Z) : string :=
  Join ((fun id => "[" +:+ fmt_int (ConjunctionID_DocID id) +:+ "," +:+ fmt_int (ConjunctionID_Idx id) +:+ "]") <$> ids) ",".

End Dump.
