(* ===== verification/DumpProperties.v ===== *)
(** * What the renderings show

    Conjunction ids can be read back from their text; the dump of a cursor shows a
    window of its posting list with the current entry marked; dumping a built index
    does not panic.  And where the texts mislead: the ranges of a compiled index,
    ranges without an upper end, the marker of a new field cursor. *)

From Stdlib Require Import SpecFloat Ascii String.
From stdpp Require Import base sorting gmap strings numbers pretty list.
From S2P Require Import Prelude GoValues Utf8 Ids Document Cursor FieldCursor Collector Scan Holder Index.
From S2P Require Import Parsers DefaultHolder RangeIdx RangeHolder OptimizedRange AhoHolder Roaring RoaringProofs Dump Demo.
Open Scope Z_scope.

(** ** Texts with separators *)

(** Character [c] does not occur in [s]. *)
Definition char_free (c : ascii) (s : string) : Prop := c ∉ String.list_ascii_of_string s.

Lemma string_app_cons a (s t : string) : String a s +:+ t = String a (s +:+ t).
Proof. reflexivity. Qed.

Lemma string_app_nil_r (s : string) : s +:+ "" = s.
Proof. induction s as [|a s IH]; [done |]. by rewrite string_app_cons, IH. Qed.

Lemma string_app_assoc (s1 s2 s3 : string) : (s1 +:+ s2) +:+ s3 = s1 +:+ s2 +:+ s3.
Proof. induction s1 as [|a s IH]; [done |]. by rewrite !string_app_cons, IH. Qed.

(** A text up to the first separator is determined. *)
Lemma split_unique c a a' b b' :
  char_free c a -> char_free c a' -> a +:+ String c b = a' +:+ String c b' -> a = a' /\ b = b'.
Proof.
  unfold char_free. revert a'. induction a as [|x a IH]; intros [|x' a'] Ha Ha' Heq;
    rewrite ?string_app_cons in Heq; cbn [String.list_ascii_of_string] in *.
  - by injection Heq.
  - injection Heq as -> _. destruct Ha'. by left.
  - injection Heq as -> _. destruct Ha. by left.
  - injection Heq as -> Heq. destruct (IH a') as [-> ->]; [| | done | done];
      intros Hin; [apply Ha | apply Ha']; by right.
Qed.

Lemma parse_digits_free c s acc n : digit_of c = None -> parse_digits acc s = Some n -> char_free c s.
Proof.
  intros Hc. unfold char_free. revert acc. induction s as [|a s IH]; intros acc Hp Hin; simpl in *; [elem_nil |].
  destruct (digit_of a) as [d|] eqn:Ed; [| done]. simpl in Hp.
  apply elem_of_cons in Hin as [-> | Hin]; [congruence | by eapply IH].
Qed.

(** Numbers are written with digits and a minus sign. *)
Lemma fmt_int_free c z : digit_of c = None -> c <> "-"%char -> char_free c (fmt_int z).
Proof.
  intros Hc Hm. unfold fmt_int. destruct z as [|p|p].
  - intros Hin. apply list_elem_of_singleton in Hin as ->. done.
  - apply (parse_digits_free c _ 0 (Z.of_N (Npos p))); [done | apply (parse_digits_pretty (Npos p))].
  - change (pretty (Z.neg p)) with (String "-"%char (pretty (Npos p))).
    intros [-> | Hin]%elem_of_cons; [done |].
    by apply (parse_digits_free c (pretty (Npos p)) 0 (Z.of_N (Npos p)) Hc (parse_digits_pretty (Npos p))).
Qed.

Lemma fmt_int_split c z z' b b' :
  digit_of c = None -> c <> "-"%char -> fmt_int z +:+ String c b = fmt_int z' +:+ String c b' -> z = z' /\ b = b'.
Proof.
  intros Hc Hm Heq. apply split_unique in Heq as [->%fmt_int_inj ->]; by auto using fmt_int_free.
Qed.

(** C40.  The text of a conjunction id identifies it: ids made from document id,
    index and size have different texts when they are different. *)
Theorem conj_string_injective d i s d' i' s' c c' :
  NewConjID d i s = Ok c -> NewConjID d' i' s' = Ok c' ->
  ConjID_String c = ConjID_String c' -> c = c' /\ d = d' /\ i = i' /\ s = s'.
Proof.
  intros Hc Hc' Heq.
  destruct (NewConjID_cases d i s) as [[Hok Hp] | [_ [e He]]]; [| congruence].
  destruct (NewConjID_cases d' i' s') as [[Hok' Hp'] | [_ [e He]]]; [| congruence].
  assert (c = pack d i s) as -> by congruence. assert (c' = pack d' i' s') as -> by congruence.
  unfold ConjID_String in Heq.
  rewrite !pack_DocID, !pack_Index, !pack_Size in Heq by done. rewrite !string_app_cons in Heq. injection Heq as Heq.
  apply fmt_int_split in Heq as [-> Heq]; [| done | done].
  apply fmt_int_split in Heq as [-> Heq]; [| done | done].
  by apply fmt_int_split in Heq as [-> _].
Qed.

Lemma conj_string_injective_witness :
  ConjID_String (pack (-7) 3 2) = "<-7,3,2>" /\
  (forall c', NewConjID 7 3 2 = Ok c' -> ConjID_String (pack (-7) 3 2) = ConjID_String c' -> -7 = 7).
Proof.
  split; [vm_compute; reflexivity |]. intros c' Hc' Heq.
  apply (conj_string_injective (-7) 3 2 7 3 2 (pack (-7) 3 2) c'); [vm_compute; reflexivity | exact Hc' | exact Heq].
Defined.

(** An entry's text has its document and polarity, and no more: entries of two
    conjunctions of a document look alike. *)
Lemma entry_string_ambiguous d i s i' s' :
  fields_ok d i s -> fields_ok d i' s' -> i < 255 -> i' < 255 ->
  forall b, EntryID_DocString (NewEntryID (pack d i s) b) = EntryID_DocString (NewEntryID (pack d i' s') b).
Proof.
  intros Hok Hok' Hi Hi' b. unfold EntryID_DocString.
  pose proof (pack_valid _ _ _ Hok Hi) as Hv. pose proof (pack_valid _ _ _ Hok' Hi') as Hv'. unfold valid_conj in *.
  assert (Hnull : forall c, 0 <= c < 2 ^ 60 - 1 -> IsNULLEntry (NewEntryID c b) = false).
  { intros c Hc. unfold IsNULLEntry, NULLENTRY. rewrite NewEntryID_arith by lia.
    apply bool_decide_eq_false. destruct b; lia. }
  assert (Hland : forall c, 0 <= c < 2 ^ 60 - 1 -> Z.land (NewEntryID c b) 1 = if b then 1 else 0).
  { intros c Hc. rewrite NewEntryID_arith by lia.
    rewrite (land_ones_mod _ 1) by lia. destruct b; Z.div_mod_to_equations; lia. }
  rewrite !Hnull, !Hland by lia. by rewrite !GetConjID_NewEntryID, !pack_DocID by (done || lia).
Qed.

(** ** The dump of a cursor *)

Lemma Join_cons x l sep : l <> [] -> Join (x :: l) sep = x +:+ sep +:+ Join l sep.
Proof. by destruct l. Qed.

Section Cursors.
Context `{MapRange} `{GoFmt}.
Implicit Types (ec : EntriesCursor).

(** The entries around the cursor that are shown: two before it, ten from it on. *)
Definition window_left ec : nat := ec_cursor ec - 2.

Definition window_right ec : nat :=
  if bool_decide (length (ec_entries ec) <= ec_cursor ec + 10)%nat then length (ec_entries ec) else ec_cursor ec + 10.

(** One entry, with a mark at the cursor. *)
Definition shown_at ec (i : nat) (e : EntryID) : string :=
  (if bool_decide (i = ec_cursor ec) then "^" else "") +:+ EntryID_DocString e.

Definition shown_from ec (i n : nat) : list string :=
  imap (fun k e => shown_at ec (i + k) e) (take n (drop i (ec_entries ec))).

Definition shown ec : list string := shown_from ec (window_left ec) (window_right ec - window_left ec).

Lemma length_shown_from ec i n : (i + n <= length (ec_entries ec))%nat -> length (shown_from ec i n) = n.
Proof. intros Hn. unfold shown_from. rewrite length_imap, length_take, length_drop. lia. Qed.

Lemma shown_from_S ec i n e : ec_entries ec !! i = Some e ->
  shown_from ec i (S n) = shown_at ec i e :: shown_from ec (S i) n.
Proof.
  intros He. unfold shown_from. rewrite (drop_S _ e i He). cbn [take]. rewrite imap_cons, Nat.add_0_r. f_equal.
  apply imap_ext. intros k x _. simpl. f_equal. lia.
Qed.

Lemma dump_loop_spec ec n : forall i sb, (i + n <= length (ec_entries ec))%nat ->
  dump_loop ec i n sb = sb +:+ Join (shown_from ec i n) ",".
Proof.
  induction n as [|n IH]; intros i sb Hn; cbn [dump_loop].
  { unfold shown_from. simpl. by rewrite string_app_nil_r. }
  destruct (lookup_lt_is_Some_2 (ec_entries ec) i) as [e He]; [lia |].
  rewrite (shown_from_S ec i n e He).
  assert (at_index (ec_entries ec) i = e) as -> by (by apply list_lookup_total_correct).
  rewrite IH by lia. unfold shown_at. destruct n as [|n].
  - unfold shown_from. simpl. rewrite string_app_nil_r.
    case_bool_decide; rewrite ?string_app_assoc; done.
  - rewrite Join_cons by (intros Hnil; pose proof (length_shown_from ec (S i) (S n)) as Hl; rewrite Hnil in Hl; simpl in Hl; lia).
    rewrite (bool_decide_eq_true_2 (S n <> 0%nat)) by done.
    case_bool_decide; rewrite ?string_app_assoc; done.
Qed.

(** C37.  The dump of a cursor shows at most twelve consecutive entries, in order
    and separated by commas, among them the current one, which alone carries a mark;
    what is left out before and after is announced, with its number. *)
Theorem cursor_dump_window ec key sb :
  QKey_String (ec_key ec) = Ok key -> (ec_cursor ec <= length (ec_entries ec))%nat ->
  let remain := (length (ec_entries ec) - window_right ec)%nat in
  ec_DumpEntries ec sb =
    Ok (sb +:+ key +:+ ",idx:" +:+ fmt_02d (Z.of_nat (ec_cursor ec)) +:+ ",EID:"
        +:+ (if bool_decide (0 < window_left ec)%nat then "...," else "")
        +:+ Join (shown ec) ","
        +:+ (if bool_decide (0 < remain)%nat then "...another " +:+ fmt_int (Z.of_nat remain) else "")) /\
  (length (shown ec) <= 12)%nat /\
  (window_left ec + length (shown ec) + remain = length (ec_entries ec))%nat /\
  (forall e, ec_entries ec !! ec_cursor ec = Some e -> shown ec !! (ec_cursor ec - window_left ec)%nat = Some ("^" +:+ EntryID_DocString e)).
Proof.
  intros Hkey Hc remain.
  assert (Hb : (window_left ec <= window_right ec <= length (ec_entries ec))%nat)
    by (unfold window_left, window_right; case_bool_decide; lia).
  pose proof (length_shown_from ec (window_left ec) (window_right ec - window_left ec) ltac:(lia)) as Hl.
  fold (shown ec) in Hl. split_and!.
  - unfold ec_DumpEntries. rewrite Hkey. cbn [mbind res_bind].
    fold (window_left ec) (window_right ec). rewrite dump_loop_spec by lia. fold (shown ec) remain. f_equal.
    do 2 case_bool_decide; by rewrite ?string_app_assoc, ?string_app_nil_r.
  - rewrite Hl. unfold window_left, window_right. case_bool_decide; lia.
  - unfold remain. lia.
  - intros e He. pose proof (lookup_lt_Some _ _ _ He) as Hlt.
    assert (ec_cursor ec < window_right ec)%nat by (unfold window_right; case_bool_decide; lia).
    unfold shown, shown_from. rewrite list_lookup_imap, lookup_take_lt, lookup_drop by (unfold window_left; lia).
    replace (window_left ec + (ec_cursor ec - window_left ec))%nat with (ec_cursor ec) by (unfold window_left; lia).
    rewrite He. simpl. unfold shown_at. by rewrite bool_decide_eq_true_2.
Qed.

(** A new field cursor points to a copy, so that its dumps mark no line. *)
Lemma new_cursor_unmarked cs fc idx : NewFieldCursor cs = Ok fc -> marker fc idx = " ".
Proof.
  unfold NewFieldCursor. destruct (foldl pick_current None cs); [| done]. by intros [= <-].
Qed.

(** The key of a posting list is rendered unless its value is nil. *)
Lemma QKey_String_nil key : (exists e, QKey_String key = Panic e) <-> qk_value key = VNil.
Proof. unfold QKey_String. destruct (qk_value key); split; try done; try (by intros [e He]); by eexists. Qed.

(** ** The dump of an index *)

Section Indexes.
Context {Hd : Type} `{HolderDump Hd}.

Lemma sizes_loop_total head (dump : EntriesContainer Hd -> string -> res string) cs :
  Forall (fun c => forall sb, is_Ok (dump c sb)) cs -> forall k sb, is_Ok (sizes_loop head dump k cs sb).
Proof.
  induction 1 as [|c cs Hc _ IH]; intros k sb; cbn [sizes_loop]; [by eexists |].
  destruct (Hc (sb +:+ head k)) as [sb' ->]. cbn [mbind res_bind]. apply IH.
Qed.

Definition index_containers (i : AnyBEIndex Hd) : list (EntriesContainer Hd) :=
  match i with IKGroups bi => kSizeContainers bi | ICompact bi => [cp_container bi] end.

(** Dumping an index whose containers have their default holder does not panic. *)
Lemma index_dump_total (i : AnyBEIndex Hd) sb :
  Forall (fun c => is_Some (defaultHolder c)) (index_containers i) ->
  is_Ok (index_DumpEntries i sb) /\ is_Ok (index_DumpIndexInfo i sb).
Proof.
  intros Hall.
  assert (Hd1 : Forall (fun c => forall sb, is_Ok (container_DumpEntries c sb)) (index_containers i)).
  { eapply Forall_impl; [exact Hall |]. intros c [h Hh] sb'. unfold container_DumpEntries. rewrite Hh. by eexists. }
  assert (Hd2 : Forall (fun c => forall sb, is_Ok (container_DumpInfo c sb)) (index_containers i)).
  { eapply Forall_impl; [exact Hall |]. intros c [h Hh] sb'. unfold container_DumpInfo. rewrite Hh. by eexists. }
  clear Hall. destruct i as [bi|bi]; simpl in *; split.
  - unfold kg_DumpEntries, wildcard_dump. cbn [QKey_String wildcardQKey NewQKey qk_value mbind res_bind].
    match goal with |- context [sizes_loop ?h ?d ?k ?cs ?sb] => destruct (sizes_loop_total h d cs Hd1 k sb) as [x ->] end. by eexists.
  - unfold kg_DumpIndexInfo. cbn [mbind res_bind].
    match goal with |- context [sizes_loop ?h ?d ?k ?cs ?sb] => destruct (sizes_loop_total h d cs Hd2 k sb) as [x ->] end. by eexists.
  - unfold cp_DumpEntries, wildcard_dump. cbn [QKey_String wildcardQKey NewQKey qk_value mbind res_bind].
    match goal with |- context [container_DumpEntries ?c ?sb] =>
      destruct (proj1 (Forall_singleton _ _) Hd1 sb) as [x ->] end. by eexists.
  - unfold cp_DumpIndexInfo. cbn [mbind res_bind].
    match goal with |- context [container_DumpInfo ?c ?sb] =>
      destruct (proj1 (Forall_singleton _ _) Hd2 sb) as [x ->] end. by eexists.
Qed.

End Indexes.
End Cursors.

(** ** Ranges *)

(** Compiling a range index empties the list that its text is made from. *)
Lemma compiled_ranges_hidden rix : RangeIdx_String (rix_Compile rix) = "".
Proof. reflexivity. Qed.

(** A range without an upper end is shown with the largest integer: only one that
    begins there is shown as infinite. *)
Lemma range_string_right rg :
  MinInt64 < rg_left rg < MaxInt64 -> rg_right rg = MaxInt64 ->
  Range_String rg = "[" +:+ fmt_int (rg_left rg) +:+ "," +:+ fmt_int MaxInt64 +:+ ")".
Proof.
  intros Hl Hr. unfold Range_String, IsLeftInf, IsRightInf.
  rewrite !bool_decide_eq_false_2 by lia. simpl. by rewrite Hr.
Qed.

(** ** A sample *)

#[export] Instance demo_fmt : GoFmt := {
  fmt_v v := match v with VStr s => s | VInt _ z | VUint _ z => fmt_int z | _ => "?" end;
  fmt_f1 f := fmt_int (sf_trunc f) +:+ ".0";
  JSONPretty m := fmt_slice (map_to_list m).*1
}.

(** A cursor in the middle of a posting list of sixteen documents. *)
Definition dump_cursor : EntriesCursor :=
  SkipTo (NewEntriesCursor (NewQKey "age" (VStr "18")) ((fun d => NewEntryID (pack d 0 1) true) <$> seqZ 1 16))
         (NewEntryID (pack 5 0 1) true).

Example dump_cursor_text :
  ec_DumpEntries dump_cursor "" =
  Ok "[age,18],idx:04,EID:...,3#1,4#1,^5#1,6#1,7#1,8#1,9#1,10#1,11#1,12#1,13#1,14#1...another 2".
Proof. vm_compute. reflexivity. Qed.

Lemma cursor_dump_window_witness :
  length (shown dump_cursor) = 12%nat /\
  (window_left dump_cursor + length (shown dump_cursor) + (length (ec_entries dump_cursor) - window_right dump_cursor)
    = length (ec_entries dump_cursor))%nat.
Proof.
  split; [vm_compute; reflexivity |].
  destruct (cursor_dump_window dump_cursor "[age,18]" "" eq_refl) as (_ & _ & Hw & _).
  - vm_compute. lia.
  - exact Hw.
Defined.

Example document_text :
  Document_String (AddConjunction (NewDocument 3) [In NewConjunction "age" (VInt KInt 7); NotIn NewConjunction "city" (VStr "sh")])
  = "doc:3, cons:[" +:+ newline +:+ tab +:+ "0:{age (in 7)}," +:+ newline +:+ tab +:+ "1:{city (not sh)}" +:+ newline +:+ "]".
Proof. vm_compute. reflexivity. Qed.
