(* ===== verification/Benchmark.v ===== *)
(** * The benchmark of the three engines (example/indexer_benchmark)

    The program draws documents over keyword and number fields, indexes them with
    one of the engines and runs random queries.  The random generator ([GoRand]) and
    the lines of the dictionary file are parameters; the clock, the profilers and
    the printing are left out.  The generation of the test data stays within the
    bounds of its slices ([benchmark_data_ok]); each of the three runs is evaluated
    on a sample. *)

From stdpp Require Import base sorting gmap strings numbers list.
From S2P Require Import Prelude GoValues Ids Document Cursor FieldCursor Collector Scan Holder.
From S2P Require Import Index IndexSpec IndexProofs IndexInstances Parsers DefaultHolder AhoHolder HolderSum.
From S2P Require Import Builder BuilderSpec Roaring RoaringAc Demo RoaringProperties SystemProperties Targeting Dump.
Open Scope Z_scope.

(** ** Test data *)

Record benchmarkContext := {
  acFieldCnt : Z;
  numFieldCnt : Z;
  docCount : Z;
  queryCnt : Z;
  queries : list Assignments
}.

Definition NewBenchContext (acCnt numCnt docCnt queryCnt : Z) : benchmarkContext :=
  {| acFieldCnt := acCnt; numFieldCnt := numCnt; docCount := docCnt; queryCnt := queryCnt; queries := [] |}.

(** What [ReadLine] returns in turn: a line, or an error; at the end of the list it
    is [io.EOF].  The error of [os.Open] is dropped, and shows here. *)
Fixpoint loadTestDataKeywords (topN : Z) (input : list (string + string)) (r : list string) : res (list string) :=
  match input with
  | [] => Ok r
  | inr e :: _ => Panic "read test data fail"
  | inl data :: input =>
      let r := r ++ [data] in
      if bool_decide (topN > 0) && bool_decide (Z.of_nat (length r) >= topN) then Ok r
      else loadTestDataKeywords topN input r
  end.

(** [l[start:end]] with both ends within the length of the slice; the program
    stays within it ([benchmark_data_ok]). *)
Definition sub_slice {A} (l : list A) (start stop : Z) : res (list A) :=
  if bool_decide (0 <= start <= stop) && bool_decide (stop <= Z.of_nat (length l))
  then Ok (take (Z.to_nat (stop - start)) (drop (Z.to_nat start) l))
  else Panic "slice bounds out of range".

Definition ac_field (i : Z) : BEField := "ac_" +:+ fmt_int i.
Definition number_field (i : Z) : BEField := "number_" +:+ fmt_int i.

Section Data.
Context {R : Type} `{GoRand R} `{MapRange}.

(** [rand.Intn] panics when its argument is not positive. *)
Definition Intn (n : Z) : M R Z := fun r =>
  if bool_decide (n <= 0) then (r, Panic "invalid argument to Intn")
  else let '(r, v) := rand_Intn n r in (r, Ok v).

(** [for len(t) < 100 { t[rand.Intn(math.MaxInt32)] = struct{}{} }]: how long it
    runs depends on the generator. *)
Fixpoint gen_numbers (fuel : nat) (t : gmap Z unit) : M R (gmap Z unit) :=
  if bool_decide (size t < 100)%nat then
    match fuel with
    | O => lift OutOfFuel
    | S fuel => v ← Intn (2 ^ 31 - 1); gen_numbers fuel (<[v := tt]> t)
    end
  else mret t.

Definition bench_document (data : benchmarkContext) (keywords : list string) (numbers : list Z) (i : DocID)
    : M R Document :=
  let doc := NewDocument i in
  rn ← Intn 100;
  if bool_decide (rn < 50) then
    n ← Intn 99;
    let wordsCnt := n + 1 in
    start ← Intn (Z.of_nat (length keywords) - wordsCnt);
    k ← Intn (acFieldCnt data);
    values ← lift (sub_slice keywords start (wordsCnt + start));
    mret (AddConjunction doc
      [AddExpression3 NewConjunction (ac_field k) (bool_decide (rn < 25)) (VStrs (Some values))])
  else
    n ← Intn 99;
    let wordsCnt := n + 1 in
    start ← Intn (Z.of_nat (length numbers) - wordsCnt);
    k ← Intn (numFieldCnt data);
    values ← lift (sub_slice numbers start (wordsCnt + start));
    mret (AddConjunction doc
      [AddExpression3 NewConjunction (number_field k) (bool_decide (rn > 75)) (VInts KInt (Some values))]).

(** The loops over the fields of a query: from field [k] on, [n] fields are left. *)
Fixpoint number_assigns (numbers : list Z) (n : nat) (k : Z) (q : Assignments) : M R Assignments :=
  match n with
  | O => mret q
  | S n =>
      cnt ← Intn 2;
      if bool_decide (cnt = 0) then number_assigns numbers n (k + 1) q
      else
        start ← Intn (Z.of_nat (length numbers) - cnt);
        values ← lift (sub_slice numbers start (start + cnt));
        number_assigns numbers n (k + 1) (<[number_field k := VInts KInt (Some values)]> q)
  end.

Fixpoint keyword_assigns (keywords : list string) (n : nat) (k : Z) (q : Assignments) : M R Assignments :=
  match n with
  | O => mret q
  | S n =>
      cnt ← Intn 2;
      if bool_decide (cnt = 0) then keyword_assigns keywords n (k + 1) q
      else
        start ← Intn (Z.of_nat (length keywords) - cnt * 5);
        words ← lift (sub_slice keywords start (start + cnt));
        keyword_assigns keywords n (k + 1) (<[ac_field k := NewStrValues (Join words "") []]> q)
  end.

Fixpoint bench_queries (data : benchmarkContext) (keywords : list string) (numbers : list Z) (n : nat)
    (qs : list Assignments) : M R (list Assignments) :=
  match n with
  | O => mret qs
  | S n =>
      q ← number_assigns numbers (Z.to_nat (numFieldCnt data)) 0 ∅;
      q ← keyword_assigns keywords (Z.to_nat (acFieldCnt data)) 0 q;
      bench_queries data keywords numbers n (qs ++ [q])
  end.

(** The state: the generator, and what [docFn] works on. *)
Definition on_rand {X A} (m : M R A) : M (R * X) A := fun s =>
  let '(r, a) := m s.1 in ((r, s.2), a).

Definition on_docs {X A} (m : M X A) : M (R * X) A := fun s =>
  let '(x, a) := m s.2 in ((s.1, x), a).

Fixpoint bench_documents {X} (data : benchmarkContext) (keywords : list string) (numbers : list Z)
    (docFn : Document -> M X unit) (n : nat) (i : DocID) : M (R * X) unit :=
  match n with
  | O => mret tt
  | S n =>
      doc ← on_rand (bench_document data keywords numbers i);
      _ ← on_docs (docFn doc);
      bench_documents data keywords numbers docFn n (i + 1)
  end.

(** The context with the queries appended. *)
Definition createTestIndexer {X} (fuel : nat) (input : list (string + string)) (data : benchmarkContext)
    (docFn : Document -> M X unit) : M (R * X) benchmarkContext :=
  keywords ← lift (loadTestDataKeywords 1000 input []);
  t ← on_rand (gen_numbers fuel ∅);
  let numbers := fst <$> map_range t in
  _ ← PanicIf (bool_decide (length keywords = 0%nat)) "keywords load fail";
  _ ← PanicIf (bool_decide (length numbers = 0%nat)) "gen random numbers fail";
  _ ← bench_documents data keywords numbers docFn (Z.to_nat (docCount data)) 1;
  qs ← on_rand (bench_queries data keywords numbers (Z.to_nat (queryCnt data)) (queries data));
  mret {| acFieldCnt := acFieldCnt data; numFieldCnt := numFieldCnt data; docCount := docCount data;
          queryCnt := queryCnt data; queries := qs |}.

End Data.

(** ** The runs *)

Section Runs.
Context {R : Type} `{GoRand R} `{MapRange} `{GoFloat} `{ProtoStrList} {B : Type} `{Roaring64 B}
  {Mc : Type} `{AhoMachine Mc}.
Local Abbreviation Hd := (DefaultEntriesHolder + ACEntriesHolder Mc)%type.
Local Abbreviation Bld := (IndexerBuilder (AnyBEIndex Hd) Empty_set).
Local Abbreviation Cn := (DefaultBEContainer B + ACBEContainer B Mc)%type.

(** The registry: package roaringidx imports the keyword holder; the program
    registers the default holder once more. *)
Definition bench_factory : gmap string Hd :=
  sum_factory (RegisterEntriesHolder InitHolderDefaults HolderNameDefault NewDefaultEntriesHolder) keyword_factory.

#[local] Hint Extern 0 (BEIndex (AnyBEIndex _) _) => exact (Any_index bench_factory) : typeclass_instances.

(** [for i := 0; i < n; i++ { body(i) }] *)
Definition for_count {S} (n : Z) (body : Z -> M S unit) : M S unit := forM (seqZ 0 n) body.

Definition config_fields (ctx : benchmarkContext) : M Bld unit :=
  _ ← for_count (numFieldCnt ctx) (fun i => ConfigField (number_field i) HolderNameDefault);
  for_count (acFieldCnt ctx) (fun i => ConfigField (ac_field i) HolderNameACMatcher).

(** The body that [RunKGroupIndexBench] and [RunCompactIndexBench] share: the
    builder, the fields, the documents, the index and the queries; the first error
    is a panic. *)
Definition run_index_bench (fuel : nat) (input : list (string + string)) (r : R) (ctx : benchmarkContext)
    (builder : res Bld) : res unit :=
  b ← builder;
  let '((_, b), out) :=
    (_ ← on_docs (config_fields ctx);
     createTestIndexer fuel input ctx
       (fun doc => PanicIfErr (AddDocument bench_factory [doc]))) (r, b) in
  ctx ← out;
  indexer ← (BuildIndex b).2;
  if bool_decide (Z.of_nat (length (queries ctx)) <> queryCnt ctx) then Panic "query cnt not match"
  else (forM (queries ctx) (fun assigns => _ ← PanicIfErr (Retrieve (B:=B) indexer assigns []); mret tt) []).2.

Definition RunKGroupIndexBench (fuel : nat) (input : list (string + string)) (r : R) (ctx : benchmarkContext) : res unit :=
  run_index_bench fuel input r ctx (NewIndexerBuilder bench_factory []).

Definition RunCompactIndexBench (fuel : nat) (input : list (string + string)) (r : R) (ctx : benchmarkContext) : res unit :=
  run_index_bench fuel input r ctx (NewCompactIndexerBuilder bench_factory []).

(** The errors of [ConfigureField] and of [AddDocument] are dropped. *)
Definition drop_err {S A} (m : M S A) : M S unit := _ ← with_err m; mret tt.

Definition configure_fields (ctx : benchmarkContext) : M (list B * IvtBEIndexerBuilder Cn) unit :=
  _ ← for_count (numFieldCnt ctx) (fun i => drop_err (ConfigureField (containerFactory_init (B:=B) (Mc:=Mc))
        (number_field i) {| fs_Container := "default"; fs_Parser := None |}));
  for_count (acFieldCnt ctx) (fun i => drop_err (ConfigureField (containerFactory_init (B:=B) (Mc:=Mc))
        (ac_field i) {| fs_Container := "ac_matcher"; fs_Parser := None |})).

Definition RunRoaringBench (fuel : nat) (input : list (string + string)) (r : R) (ctx : benchmarkContext) : res unit :=
  let '((_, (pool, b)), out) :=
    (_ ← on_docs (configure_fields ctx);
     createTestIndexer fuel input ctx (fun doc => drop_err (ivt_AddDocument doc)))
      (r, ([], NewIvtIndexerBuilder common_generator)) in
  ctx ← out;
  match BuildIndexer b with
  | Ok idxer =>
      if bool_decide (Z.of_nat (length (queries ctx)) <> queryCnt ctx) then Panic "query cnt not match"
      else (forM (queries ctx) (fun assigns =>
              _ ← PanicIfErr (scanner_Retrieve assigns);
              modify (fun s => (s.1, scanner_Reset s.2))) (NewScanner idxer pool)).2
  | Err e => Panic "build roaring indexer fail"
  | Panic e => Panic e
  | OutOfFuel => OutOfFuel
  end.

(** [main], up to the endless loop that reports memory; [None] when the flag names
    no engine.  The program has a million documents and a thousand queries. *)
Definition benchmark_main (fuel : nat) (input : list (string + string)) (r : R) (bench : string)
    (testDocs queriesCnt : Z) : option (res unit) :=
  let ctx := NewBenchContext 5 5 testDocs queriesCnt in
  if bool_decide (bench = "roaring") then Some (RunRoaringBench fuel input r ctx)
  else if bool_decide (bench = "kgroup") then Some (RunKGroupIndexBench fuel input r ctx)
  else if bool_decide (bench = "compact") then Some (RunCompactIndexBench fuel input r ctx)
  else None.

End Runs.

(** ** The test data *)

(** [rand.Intn] returns a number below its argument. *)
Class GoRandSpec (R : Type) `{GoRand R} : Prop :=
  rand_Intn_range : forall n r, 0 < n -> 0 <= (rand_Intn n r).2 < n.

(** A document of the benchmark: one conjunction of one expression, of 1 to 99
    successive keywords or numbers, on a configured field. *)
Definition bench_expr (data : benchmarkContext) (keywords : list string) (numbers : list Z)
    (field : BEField) (values : Values) : Prop :=
  (exists k start n, 0 <= k < acFieldCnt data /\ field = ac_field k /\ (1 <= n < 100)%nat /\
     (start + n <= length keywords)%nat /\ values = VStrs (Some (take n (drop start keywords)))) \/
  (exists k start n, 0 <= k < numFieldCnt data /\ field = number_field k /\ (1 <= n < 100)%nat /\
     (start + n <= length numbers)%nat /\ values = VInts KInt (Some (take n (drop start numbers)))).

Definition bench_doc (data : benchmarkContext) (keywords : list string) (numbers : list Z) (doc : Document) : Prop :=
  exists field include values, bench_expr data keywords numbers field values /\
    doc_Cons doc = [AddExpression3 NewConjunction field include values].

(** A query of the benchmark: for some of the fields, one number or one keyword. *)
Definition bench_query (data : benchmarkContext) (keywords : list string) (numbers : list Z) (q : Assignments) : Prop :=
  forall f v, q !! f = Some v ->
    (exists k z, 0 <= k < numFieldCnt data /\ f = number_field k /\ z ∈ numbers /\ v = VInts KInt (Some [z])) \/
    (exists k w, 0 <= k < acFieldCnt data /\ f = ac_field k /\ w ∈ keywords /\ v = VStrs (Some [w])).

Section DataProofs.
Context {R : Type} `{GoRandSpec R} `{MapRange}.

Lemma wp_Intn n (Q : res Z -> R -> Prop) r :
  0 < n -> (forall v r', 0 <= v < n -> Q (Ok v) r') -> wp (Intn n) Q r.
Proof.
  intros Hn HQ. unfold wp, Intn. rewrite bool_decide_eq_false_2 by lia.
  pose proof (rand_Intn_range n r Hn) as Hv. destruct (rand_Intn n r) as [r' v]. by apply HQ.
Qed.

Lemma sub_slice_ok {A} (l : list A) start n :
  0 <= start -> 0 <= n -> start + n <= Z.of_nat (length l) ->
  sub_slice l start (start + n) = Ok (take (Z.to_nat n) (drop (Z.to_nat start) l)).
Proof.
  intros. unfold sub_slice. rewrite !bool_decide_eq_true_2 by lia. simpl. by replace (start + n - start) with n by lia.
Qed.

Lemma sub_slice_one {A} (l : list A) start :
  0 <= start < Z.of_nat (length l) -> exists a, a ∈ l /\ sub_slice l start (start + 1) = Ok [a].
Proof.
  intros Hs. rewrite sub_slice_ok by lia.
  destruct (lookup_lt_is_Some_2 l (Z.to_nat start)) as [a Ha]; [lia |]. exists a.
  split; [by eapply list_elem_of_lookup_2 |]. rewrite (drop_S _ _ _ Ha). simpl. by rewrite take_0.
Qed.

(** A run of values and a field, drawn as the two branches of a document do. *)
Lemma wp_draw {A B} (l : list A) (cnt : Z) (k : Z -> list A -> M R B) (Q : res B -> R -> Prop) r :
  (100 <= length l)%nat -> 0 < cnt ->
  (forall i start n r', 0 <= i < cnt -> (1 <= n < 100)%nat -> (start + n <= length l)%nat ->
     wp (k i (take n (drop start l))) Q r') ->
  wp (n ← Intn 99; start ← Intn (Z.of_nat (length l) - (n + 1)); i ← Intn cnt;
      values ← lift (sub_slice l start (n + 1 + start)); k i values) Q r.
Proof.
  intros Hl Hc HQ. apply wp_bind, wp_Intn; [lia |]. intros n r1 Hn.
  apply wp_bind, wp_Intn; [lia |]. intros start r2 Hs. apply wp_bind, wp_Intn; [lia |]. intros i r3 Hi.
  apply wp_bind. unfold wp at 1, lift. rewrite Z.add_comm, sub_slice_ok by lia. apply HQ; lia.
Qed.

Section Bounds.
Variables (data : benchmarkContext) (keywords : list string) (numbers : list Z).
Hypotheses (Hkeywords : (100 <= length keywords)%nat) (Hnumbers : (100 <= length numbers)%nat).
Hypotheses (Hac : 0 < acFieldCnt data) (Hnum : 0 < numFieldCnt data).

Lemma bench_document_spec i r :
  wp (bench_document data keywords numbers i) (fun res _ =>
    exists doc, res = Ok doc /\ doc_ID doc = i /\ bench_doc data keywords numbers doc) r.
Proof.
  unfold bench_document. apply wp_bind, wp_Intn; [lia |]. intros rn r1 _. cbv zeta.
  case_bool_decide; (apply wp_draw; [done | done |]); intros k start n r2 Hk Hn Hs; apply wp_ret;
    (eexists; split; [done |]; split; [done |]; do 3 eexists; split; [| done]); [left | right];
    by exists k, start, n.
Qed.

Lemma bench_query_insert q f v :
  bench_query data keywords numbers q -> bench_query data keywords numbers {[ f := v ]} ->
  bench_query data keywords numbers (<[f := v]> q).
Proof.
  intros Hq Hv g w [[<- <-] | [_ Hg]]%lookup_insert_Some; [apply Hv, lookup_singleton_eq | by apply Hq].
Qed.

Lemma number_assigns_spec n k q r :
  0 <= k -> k + Z.of_nat n <= numFieldCnt data -> bench_query data keywords numbers q ->
  wp (number_assigns numbers n k q) (fun res _ =>
    exists q', res = Ok q' /\ bench_query data keywords numbers q') r.
Proof.
  revert k q r. induction n as [|n IH]; intros k q r Hk Hn Hq; simpl; [apply wp_ret; by exists q |].
  apply wp_bind, wp_Intn; [lia |]. intros cnt r1 Hcnt. case_bool_decide; [apply IH; [lia | lia | done] |].
  assert (cnt = 1) as -> by lia. apply wp_bind, wp_Intn; [lia |]. intros start r2 Hs. apply wp_bind.
  unfold wp at 1, lift. destruct (sub_slice_one numbers start) as (z & Hz & ->); [lia |].
  apply IH; [lia | lia |]. apply bench_query_insert; [done |].
  intros f v [<- <-]%lookup_singleton_Some. left. exists k, z. split; [lia | done].
Qed.

Lemma keyword_assigns_spec n k q r :
  0 <= k -> k + Z.of_nat n <= acFieldCnt data -> bench_query data keywords numbers q ->
  wp (keyword_assigns keywords n k q) (fun res _ =>
    exists q', res = Ok q' /\ bench_query data keywords numbers q') r.
Proof.
  revert k q r. induction n as [|n IH]; intros k q r Hk Hn Hq; simpl; [apply wp_ret; by exists q |].
  apply wp_bind, wp_Intn; [lia |]. intros cnt r1 Hcnt. case_bool_decide; [apply IH; [lia | lia | done] |].
  assert (cnt = 1) as -> by lia. apply wp_bind, wp_Intn; [lia |]. intros start r2 Hs. apply wp_bind.
  unfold wp at 1, lift. destruct (sub_slice_one keywords start) as (w & Hw & ->); [lia |].
  apply IH; [lia | lia |]. apply bench_query_insert; [done |].
  intros f v [<- <-]%lookup_singleton_Some. right. exists k, w. split; [lia | done].
Qed.

Lemma bench_queries_spec n qs r :
  Forall (bench_query data keywords numbers) qs ->
  wp (bench_queries data keywords numbers n qs) (fun res _ =>
    exists qs', res = Ok qs' /\ length qs' = (length qs + n)%nat /\ Forall (bench_query data keywords numbers) qs') r.
Proof.
  revert qs r. induction n as [|n IH]; intros qs r Hqs; simpl.
  { apply wp_ret. exists qs. split_and!; [done | lia | done]. }
  apply wp_bind. eapply wp_mono;
    [apply number_assigns_spec; [lia | lia | by intros f v Hv; rewrite lookup_empty in Hv] |].
  intros ? r1 (q & -> & Hq). apply wp_bind. eapply wp_mono; [apply keyword_assigns_spec; [lia | lia | done] |].
  intros ? r2 (q' & -> & Hq'). eapply wp_mono; [apply IH, Forall_app; split; [done | by constructor] |].
  intros ? r3 (qs' & -> & Hlen & Hall). exists qs'. rewrite length_app in Hlen. simpl in Hlen.
  split_and!; [done | lia | done].
Qed.

(** [docFn] takes documents of the benchmark without an error, [I] keeps track. *)
Lemma bench_documents_spec {X} (docFn : Document -> M X unit) (I : list Document -> X -> Prop) n :
  (forall docs doc x, I docs x -> bench_doc data keywords numbers doc ->
     wp (docFn doc) (fun res x' => res = Ok tt /\ I (docs ++ [doc]) x') x) ->
  forall i docs s, I docs s.2 ->
  wp (bench_documents (R:=R) data keywords numbers docFn n i) (fun res s' => res = Ok tt /\
    exists docs', I (docs ++ docs') s'.2 /\ doc_ID <$> docs' = seqZ i (Z.of_nat n) /\
      Forall (bench_doc data keywords numbers) docs') s.
Proof.
  intros Hfn. induction n as [|n IH]; intros i docs [r x] Hx.
  { apply wp_ret. split; [done |]. exists []. rewrite app_nil_r. split_and!; [done | done | constructor]. }
  cbn [bench_documents]. apply wp_bind. pose proof (bench_document_spec i r) as Hd. unfold wp, on_rand in *.
  simpl. destruct (bench_document data keywords numbers i r) as [r1 ?]. destruct Hd as (doc & -> & Hid & Hdoc).
  apply wp_bind. pose proof (Hfn docs doc x Hx Hdoc) as Hf. unfold wp, on_docs in *. simpl.
  destruct (docFn doc x) as [x1 ?]. destruct Hf as [-> Hx1].
  pose proof (IH (i + 1) (docs ++ [doc]) (r1, x1) Hx1) as Hrest. unfold wp in Hrest.
  destruct (bench_documents _ _ _ _ _ _ _) as [s' res]. destruct Hrest as (-> & docs' & HI & Hids & Hall).
  split; [done |]. exists (doc :: docs'). rewrite <- app_assoc in HI. split_and!; [done | | by constructor].
  rewrite fmap_cons, Hid, Hids. rewrite (seqZ_cons i (Z.of_nat (S n))) by lia. f_equal. f_equal; lia.
Qed.

End Bounds.

Lemma gen_numbers_size fuel t r r' t' : gen_numbers fuel t r = (r', Ok t') -> (100 <= size t')%nat.
Proof.
  revert t r. induction fuel as [|fuel IH]; intros t r; simpl; (case_bool_decide; [| by intros [= _ <-]; lia]).
  { done. }
  unfold mbind, M_bind. destruct (Intn _ r) as [r1 [v|e|e|]]; [apply IH | done ..].
Qed.

(** C38.  The test data of the benchmark is in bounds: with at least 100 keywords
    and once enough numbers were drawn, no slice expression and no [rand.Intn] of the
    generation panics, whatever is drawn; the documents 1 to [docCount] are passed to
    [docFn], each with one expression of 1 to 99 values on a configured field, and
    there are [queryCnt] queries, each of single values for configured fields. *)
Theorem benchmark_data_ok {X} (docFn : Document -> M X unit) (I : list Document -> X -> Prop)
    fuel input data keywords t r r1 x :
  loadTestDataKeywords 1000 input [] = Ok keywords -> (100 <= length keywords)%nat ->
  gen_numbers fuel ∅ r = (r1, Ok t) -> 0 < acFieldCnt data -> 0 < numFieldCnt data ->
  0 <= docCount data -> 0 <= queryCnt data -> queries data = [] -> I [] x ->
  (forall docs doc x, I docs x -> bench_doc data keywords (fst <$> map_range t) doc ->
     wp (docFn doc) (fun res x' => res = Ok tt /\ I (docs ++ [doc]) x') x) ->
  wp (createTestIndexer fuel input data docFn) (fun res s => exists ctx docs, res = Ok ctx /\
    I docs s.2 /\ doc_ID <$> docs = seqZ 1 (docCount data) /\
    Forall (bench_doc data keywords (fst <$> map_range t)) docs /\
    Z.of_nat (length (queries ctx)) = queryCnt ctx /\
    Forall (bench_query data keywords (fst <$> map_range t)) (queries ctx)) (r, x).
Proof.
  intros Hload Hkw Hgen Hac Hnum Hdc Hqc Hqs HI Hfn.
  assert (100 <= length (fst <$> map_range t))%nat as Hlen.
  { rewrite length_fmap, map_range_perm, length_map_to_list. by eapply gen_numbers_size. }
  unfold createTestIndexer. apply wp_bind. unfold wp at 1, lift. rewrite Hload.
  apply wp_bind. unfold wp at 1, on_rand. simpl. rewrite Hgen.
  apply wp_bind. unfold PanicIf. rewrite bool_decide_eq_false_2 by lia. apply wp_ret.
  apply wp_bind. rewrite bool_decide_eq_false_2 by lia. apply wp_ret. apply wp_bind.
  eapply wp_mono; [by apply (bench_documents_spec _ _ _ Hkw Hlen Hac Hnum docFn I _ Hfn 1 [] (r1, x)) |].
  intros ? [r2 x2] (-> & docs & Hx2 & Hids & Hdocs). simpl in Hx2.
  pose proof (bench_queries_spec data keywords _ Hkw Hlen Hac Hnum (Z.to_nat (queryCnt data)) [] r2
    (Forall_nil_2 _)) as Hq. rewrite Hqs. unfold wp, mbind, M_bind, on_rand in *. simpl.
  destruct (bench_queries _ _ _ _ _ r2) as [r3 ?]. destruct Hq as (qs & -> & Hlq & Hall).
  do 2 eexists. split; [done |]. rewrite Z2Nat.id in Hids by done. split_and!; [exact Hx2 | done | done | | done].
  simpl in *. lia.
Qed.

End DataProofs.

(** ** A sample: 120 keywords of up to three letters *)

#[export] Instance demo_rand_spec : GoRandSpec Z.
Proof. intros n r Hn. simpl. by apply Z.mod_pos_bound. Qed.

Definition sample_words : list string :=
  a ← ["a"; "b"; "c"; "d"; "e"; "f"; "g"; "h"; "i"; "j"; "k"; "l"];
  (fun b => a +:+ b) <$> ["z"; "zy"; "x"; "xw"; "v"; "vu"; "t"; "ts"; "r"; "rq"].

Definition sample_input : list (string + string) := inl <$> sample_words.

Definition sample_ctx : benchmarkContext := NewBenchContext 5 5 6 4.

Definition sample_bench (bench : string) : option (res unit) :=
  benchmark_main (B:=zset) (Mc:=list (list Z)) 200 sample_input (7 : Z) bench 6 4.

Example benchmark_runs :
  sample_bench "kgroup" = Some (Ok tt) /\ sample_bench "compact" = Some (Ok tt) /\
  sample_bench "roaring" = Some (Ok tt) /\ sample_bench "" = None.
Proof. split_and!; vm_compute; reflexivity. Qed.

(** With fewer keywords than a document may ask for, the generation can panic. *)
Example few_keywords :
  (createTestIndexer (R:=Z) 200 (take 40 sample_input) sample_ctx (fun doc => modify (fun docs => docs ++ [doc]))
     (7, [])).2 = Panic "invalid argument to Intn".
Proof. vm_compute. reflexivity. Qed.

Lemma sample_numbers : exists r1 t, gen_numbers (R:=Z) 200 ∅ 7 = (r1, Ok t).
Proof.
  assert (is_ok (gen_numbers (R:=Z) 200 ∅ 7).2 = true) as Hok by (vm_compute; reflexivity).
  destruct (gen_numbers (R:=Z) 200 ∅ 7) as [r1 [t|e|e|]]; [by exists r1, t | discriminate Hok ..].
Qed.

Lemma benchmark_data_ok_witness :
  wp (createTestIndexer (R:=Z) 200 sample_input sample_ctx (fun doc => modify (fun docs => docs ++ [doc])))
    (fun res s => exists ctx docs, res = Ok ctx /\ s.2 = docs /\ doc_ID <$> docs = seqZ 1 6 /\
      Z.of_nat (length (queries ctx)) = queryCnt ctx) (7, []).
Proof.
  destruct sample_numbers as (r1 & t & Eg).
  eapply wp_mono; [apply (benchmark_data_ok (R:=Z) _ (fun docs x => x = docs) 200 sample_input sample_ctx
    sample_words t 7 r1 []) |].
  - vm_compute. reflexivity.
  - vm_compute. lia.
  - exact Eg.
  - reflexivity.
  - reflexivity.
  - discriminate.
  - discriminate.
  - reflexivity.
  - reflexivity.
  - intros docs doc x -> _. split; reflexivity.
  - intros res s (ctx & docs & -> & Hs & Hids & _ & Hq & _). exists ctx, docs.
    split; [reflexivity |]. split; [exact Hs |]. split; [exact Hids | exact Hq].
Defined.
