(* ===== verification/Usage.v ===== *)
(** * The usage examples (example/geohash_exmaple, example/be_indexer_usage,
      example/roaringidx_usage)

    The small programs that show the library, translated with their checks and
    evaluated.  The goroutines at the end of roaringidx_usage/example_usage.go are
    left out: each has a scanner of its own. *)

From Stdlib Require Import SpecFloat Ascii.
From stdpp Require Import base sorting gmap strings numbers list.
From S2P Require Import Prelude GoValues Ids Document Cursor FieldCursor Collector Scan Holder.
From S2P Require Import Index IndexInstances Parsers DefaultHolder RangeIdx RangeHolder AhoHolder GeoHash.
From S2P Require Import Builder BuilderSpec Roaring RoaringAc Demo Dump.
Open Scope Z_scope.

(** ** geohash_exmaple *)

Section GeoExample.
Context `{MapRange} `{GoFloat} `{ProtoStrList} `{GeoHashLib} {B : Type} `{Roaring64 B}.

Definition geo_factory : gmap string DefaultEntriesHolder :=
  RegisterEntriesHolder InitHolderDefaults HolderNameDefault
    (RegisterFieldTokenizer
      (RegisterFieldTokenizer NewDefaultEntriesHolder "tag" (Some (number_tokenizer NewNumberParser)))
      "geo" (Some (geo_tokenizer (NewGeoHashParser None)))).

#[local] Hint Extern 0 (BEIndex (AnyBEIndex _) _) => exact (Any_index geo_factory) : typeclass_instances.

(** Tag 1 or 5, not the keyword "adult", within a kilometre of a place. *)
Definition geo_doc : Document :=
  AddConjunction (NewDocument 1)
    [In (NotIn (In NewConjunction "tag" (VInts KInt64 (Some [1; 5]))) "kws" (VStrs (Some ["adult"])))
       "geo" (VStr "31.21275902:121.53779984:1000")].

(** [[2]float64{31.21275902, 121.53779984}], the nearest floats. *)
Definition geo_place : Values :=
  VArrFloat64_2 (S754_finite false 8785610618229818 (-48)) (S754_finite false 8552462344857093 (-46)).

Definition geo_query1 : Assignments := {[ "tag" := VInt KInt 1000; "geo" := geo_place ]}.
Definition geo_query2 : Assignments := {[ "tag" := VInt KInt 100; "kws" := VStr "adult"; "geo" := geo_place ]}.
Definition geo_query3 : Assignments := {[ "tag" := VInt KInt 1; "geo" := geo_place ]}.

Definition geo_main : res unit :=
  b ← NewCompactIndexerBuilder (K:=Empty_set) geo_factory [];
  match PanicIfErr (AddDocument geo_factory [geo_doc]) b with
  | (b, Ok _) =>
      index ← (BuildIndex b).2;
      let opts := [WithStepDetail; WithDumpEntries] in
      ((results ← PanicIfErr (Retrieve (B:=B) index geo_query1 opts);
        _ ← PanicIf (bool_decide (0 < length results)%nat) "need empty result";
        results ← PanicIfErr (Retrieve index geo_query2 opts);
        _ ← PanicIf (bool_decide (0 < length results)%nat) "need empty result";
        results ← PanicIfErr (Retrieve index geo_query3 opts);
        PanicIf (negb (Contain results 1)) "need has result:1") []).2
  | (_, r) => r
  end.

(** The same documents and queries on a k-groups index. *)
Definition geo_kgroups : res (list DocID) :=
  b ← NewIndexerBuilder (K:=Empty_set) geo_factory [];
  index ← (BuildIndex (AddDocument geo_factory [geo_doc] b).1).2;
  (Retrieve (B:=B) index geo_query3 [] []).2.

End GeoExample.

(** Decimal fractions, read as quotients of integers. *)
Definition parse_decimal (s : string) : option spec_float :=
  match Split "."%char s with
  | [n] => float64_of_int <$> ParseInt n
  | [n; m] =>
      d ← ParseInt (n +:+ m);
      Some (SFdiv 53 1024 (float64_of_int d) (float64_of_int (10 ^ Z.of_nat (String.length m))))
  | _ => None
  end.

Definition decimal_float : GoFloat := {|
  fmt_float _ f := fmt_int (sf_trunc f);
  ParseFloat := parse_decimal;
  float_to_int64 := sf_to_int64;
  float_to_uint64 f := u64 (sf_trunc f);
  float_to_int64_range := sf_to_int64_range
|}.

(** The program's own check passes; the type of index it does not use panics on
    the same query. *)
Example geo_main_runs :
  geo_main (B:=zset) (H0:=decimal_float) = Ok tt /\
  exists e, geo_kgroups (B:=zset) (H0:=decimal_float) = Panic e.
Proof. split; [vm_compute; reflexivity | eexists; vm_compute; reflexivity]. Qed.

(** ** be_indexer_usage *)

Section Usage.
Context `{MapRange} `{GoFloat} `{ProtoStrList} {B : Type} `{Roaring64 B}.
Local Abbreviation factory := InitHolderDefaults.
#[local] Hint Extern 0 (BEIndex (AnyBEIndex _) _) => exact (Any_index InitHolderDefaults) : typeclass_instances.

Definition usage_assigns : Assignments :=
  {[ "age" := NewIntValues 1 []; "city" := NewStrValues "sh" ["bj"]; "tag" := NewStrValues "tag1" ["tagn"] ]}.

(** [docs] are the documents of [buildTestDoc], which has none; the program loads
    no holder package, so that "ac_matcher" is not registered. *)
Definition usage_main (docs : list Document) : res (list DocID) :=
  b ← NewIndexerBuilder (K:=Empty_set) factory [WithBadConjBehavior SkipBadConj];
  match (_ ← ConfigField "keyword" HolderNameACMatcher;
         forM docs (fun doc => _ ← with_err (AddDocument factory [doc]); mret tt)) b with
  | (b, Ok _) =>
      indexer ← (BuildIndex b).2;
      (Retrieve (B:=B) indexer usage_assigns [WithStepDetail; WithDumpEntries] []).2
  | (_, Err e) => Err e
  | (_, Panic e) => Panic e
  | (_, OutOfFuel) => OutOfFuel
  end.

End Usage.

Definition keyword_doc : Document :=
  AddConjunction (NewDocument 1) [In NewConjunction "keyword" (NewStrValues "tesla" [])].

(** Without documents the answer is empty; a document on the configured field is a
    panic, because nothing has registered its holder. *)
Lemma usage_keyword_panics :
  usage_main (B:=zset) [] = Ok [] /\
  usage_main (B:=zset) [keyword_doc] = Panic "container not found, plz register it".
Proof. split; vm_compute; reflexivity. Qed.

(** ** roaringidx_usage *)

Section RoaringUsage.
Context `{MapRange} `{GoFloat} {B : Type} `{Roaring64 B} {Mc : Type} `{AhoMachine Mc}.

Definition roaring_docs : list Document :=
  [AddConjunction
     (AddConjunction (NewDocument 1)
        [Exclude (Include NewConjunction "ad_id" (NewIntValues 100 [101; 108])) "package" (NewStrValues "com.echoface.not" [])])
     [Include NewConjunction "package" (NewStrValues "com.echoface.in" [])];
   AddConjunctions (NewDocument 20) NewConjunction [];
   AddConjunction (NewDocument 50)
     [Include (Exclude NewConjunction "ad_id" (NewIntValues 100 [108])) "package" (NewStrValues "com.echoface.be" [])]].

Definition roaring_assigns : Assignments :=
  {[ "ad_id" := VIfaces (Some [VInt KInt 100; VInt KInt 102]);
     "package" := VIfaces (Some [VStr "com.echoface.be"; VStr "com.echoface.not"]) ]}.

(** The answer and the raw result as it is printed; the errors of [ConfigureField]
    and [AddDocuments] are dropped. *)
Definition roaring_usage : res (list Z * string) :=
  let configure f c p := _ ← with_err (ConfigureField (containerFactory_init (B:=B) (Mc:=Mc)) f
    {| fs_Container := c; fs_Parser := p |}); mret tt in
  match (_ ← configure "ad_id" ContainerNameDefault (Some (number_generator NewNumberParser));
         _ ← configure "package" ContainerNameDefault (Some strhash_generator);
         _ ← configure "keywords" ContainerNameAcMatch None;
         with_err (ivt_AddDocuments roaring_docs)) ([], NewIvtIndexerBuilder common_generator) with
  | ((pool, b), Ok _) =>
      match BuildIndexer b with
      | Ok indexer =>
          let '((_, sc), out) := PanicIfErr (scanner_Retrieve roaring_assigns) (NewScanner indexer pool) in
          docs ← out; Ok (docs, FormatBitMapResult (bm_iter (sc_conjIDResults sc)))
      | Err e => Panic e
      | Panic e => Panic e
      | OutOfFuel => OutOfFuel
      end
  | (_, Err e) => Err e
  | (_, Panic e) => Panic e
  | (_, OutOfFuel) => OutOfFuel
  end.

End RoaringUsage.

Example roaring_usage_runs : roaring_usage (B:=zset) (Mc:=list (list Z)) = Ok ([20], "[20,0]").
Proof. vm_compute. reflexivity. Qed.
